(** * Gomoku engine: board state, minimax solver and Monte Carlo search

    A shallow embedding of [simple_board.py] (class [SimpleGoBoard]),
    of the solver of [gtp_connection.py] ([minimax], [solve_cmd]) and of
    [MCTS.py], followed by the properties proved about them.

    Python objects that are mutated in place are modelled by explicit state
    passing: a method of [SimpleGoBoard] is a computation in the monad
    [M SimpleGoBoard], which either returns a value and the new object
    state, or raises a Python exception and leaves the object in the state
    it had when the exception was raised. *)

From Stdlib Require Import String Ascii DecimalString.
From Stdlib Require Import ZArith List Lia Bool Arith Sorted.
Import ListNotations.
Open Scope Z_scope.

(* ================================================================= *)
(** ** Python values and exceptions *)

(** The exceptions the sources can raise.  The last two are not Python
    exceptions: [OutOfFuel] is returned by the model of a loop or of a
    recursion when the number of steps it was granted is used up, and
    [Stuck] when a reference names no object. *)

Inductive exn : Type :=
| IndexError
| AssertionError
| KeyError
| AttributeError
| NameError
| TypeError
| ZeroDivisionError
| OutOfFuel
| Stuck.

Inductive result (S A : Type) : Type :=
| Ok (a : A) (s : S)
| Raise (e : exn) (s : S).
Arguments Ok {S A} a s.
Arguments Raise {S A} e s.

Definition M (S A : Type) : Type := S -> result S A.

Definition ret {S A} (a : A) : M S A := fun s => Ok a s.

Definition bind {S A B} (m : M S A) (k : A -> M S B) : M S B :=
  fun s => match m s with
           | Ok a s' => k a s'
           | Raise e s' => Raise e s'
           end.

Definition raise {S A} (e : exn) : M S A := fun s => Raise e s.

Definition get_state {S} : M S S := fun s => Ok s s.

Definition put_state {S} (s' : S) : M S unit := fun _ => Ok tt s'.

Definition py_assert {S} (b : bool) : M S unit :=
  if b then ret tt else raise AssertionError.

Declare Scope py_scope.
Delimit Scope py_scope with py.
Notation "x <- m ;; k" := (bind m (fun x => k))
  (at level 61, m at next level, right associativity) : py_scope.
Notation "m ;;; k" := (bind m (fun _ => k))
  (at level 61, right associativity) : py_scope.
Open Scope py_scope.

(** Indexing of a Python list or numpy array of length [n] with an integer:
    a negative index counts from the end, anything outside [-n, n) raises
    [IndexError]. *)
Definition normalize_index (n : nat) (i : Z) : option nat :=
  if 0 <=? i then
    if i <? Z.of_nat n then Some (Z.to_nat i) else None
  else
    if - Z.of_nat n <=? i then Some (Z.to_nat (Z.of_nat n + i)) else None.

Definition py_get {A} (l : list A) (i : Z) : option A :=
  match normalize_index (length l) i with
  | Some k => nth_error l k
  | None => None
  end.

Fixpoint replace_nth {A} (l : list A) (k : nat) (v : A) : list A :=
  match l, k with
  | [], _ => []
  | _ :: t, O => v :: t
  | h :: t, S k' => h :: replace_nth t k' v
  end.

Definition py_set {A} (l : list A) (i : Z) (v : A) : option (list A) :=
  match normalize_index (length l) i with
  | Some k => Some (replace_nth l k v)
  | None => None
  end.

(** [where1d(cond)] of board_util: the indices at which a boolean array is
    true, in increasing order. *)
Fixpoint where1d_from {A} (f : A -> bool) (l : list A) (i : Z) : list Z :=
  match l with
  | [] => []
  | x :: t => if f x then i :: where1d_from f t (i + 1)
              else where1d_from f t (i + 1)
  end.

Definition where1d {A} (f : A -> bool) (l : list A) : list Z :=
  where1d_from f l 0.

(* ================================================================= *)
(** ** Constants and helpers of board_util *)

(** Modelled from the spec: board_util.py is not part of the sources.  The
    cell states are the four of the data model ("each cell in EMPTY, BLACK,
    WHITE, BORDER"); the numbers are the ones the sources rely on
    ([undo] writes [0] for an empty cell, [open_four] scans for cells equal
    to [0], [order_the_point] and [solve_cmd] use [1] for black and [2] for
    white). *)
Definition EMPTY : Z := 0.
Definition BLACK : Z := 1.
Definition WHITE : Z := 2.
Definition BORDER : Z := 3.

(** Modelled from the spec: "Point: an integer grid index, or the
    distinguished value PASS"; a point is an [option Z] and PASS is [None]
    (MCTS.py and Gomoku3.py compare a PASS move with [None]). *)
Definition Point : Type := option Z.
Definition PASS : Point := None.

(** Modelled from the spec: the entry of [liberty_of] that stands for
    "no liberty recorded"; it is only compared with entries of that array. *)
Definition NULLPOINT : Z := 0.

(** Modelled from the spec: [GoBoardUtil.opponent] exchanges the two
    players ("current_player flips"). *)
Definition opponent (color : Z) : Z := WHITE + BLACK - color.

(** Modelled from the spec: [is_black_white] holds of the two stone
    colours only. *)
Definition is_black_white (color : Z) : bool :=
  (color =? BLACK) || (color =? WHITE).

(* ================================================================= *)
(** ** SimpleGoBoard *)

Record SimpleGoBoard : Type := mkBoard {
  size : Z;
  NS : Z;
  WE : Z;
  ko_recapture : option Z;
  current_player : Z;
  maxpoint : Z;
  board : list Z;
  liberty_of : list Z;
  neighbors : list (list Z)
}.

Definition with_board (s : SimpleGoBoard) (b : list Z) : SimpleGoBoard :=
  mkBoard (size s) (NS s) (WE s) (ko_recapture s) (current_player s)
          (maxpoint s) b (liberty_of s) (neighbors s).

Definition with_current_player (s : SimpleGoBoard) (c : Z) : SimpleGoBoard :=
  mkBoard (size s) (NS s) (WE s) (ko_recapture s) c
          (maxpoint s) (board s) (liberty_of s) (neighbors s).

Definition with_liberty_of (s : SimpleGoBoard) (l : list Z) : SimpleGoBoard :=
  mkBoard (size s) (NS s) (WE s) (ko_recapture s) (current_player s)
          (maxpoint s) (board s) l (neighbors s).

Definition BM (A : Type) : Type := M SimpleGoBoard A.

(** [self.board[point]] *)
Definition get_color (point : Z) : BM Z :=
  fun s => match py_get (board s) point with
           | Some v => Ok v s
           | None => Raise IndexError s
           end.

(** [self.board[point] = v] *)
Definition set_color (point : Z) (v : Z) : BM unit :=
  fun s => match py_set (board s) point v with
           | Some b => Ok tt (with_board s b)
           | None => Raise IndexError s
           end.

Definition set_current_player (c : Z) : BM unit :=
  fun s => Ok tt (with_current_player s c).

Definition is_legal_gomoku (point : Z) (color : Z) : BM bool :=
  c <- get_color point ;;
  ret (c =? EMPTY).

Definition play_move_gomoku (point : Point) (color : Z) : BM bool :=
  py_assert (is_black_white color) ;;;
  match point with
  | None => raise AssertionError
  | Some p =>
      c <- get_color p ;;
      if negb (c =? EMPTY) then ret false
      else
        set_color p color ;;;
        set_current_player (opponent color) ;;;
        ret true
  end.

Definition undo (point : Z) : BM unit :=
  set_color point 0.

(** The number of iterations granted to a [while True] scan that moves an
    index by a fixed non-zero step: such a scan reads a new cell of the
    array at each iteration, so it stops or raises [IndexError] before the
    fuel runs out. *)
Definition scan_fuel (s : SimpleGoBoard) : nat :=
  (2 * length (board s) + 2)%nat.

(** One [while True] loop of [_point_direction_check_connect_gomoko]. *)
Fixpoint connect5_loop (fuel : nat) (color d p count : Z) : BM Z :=
  match fuel with
  | O => raise OutOfFuel
  | S fuel' =>
      let p := p + d in
      c <- get_color p ;;
      if c =? color then
        let count := count + 1 in
        if count =? 5 then ret count
        else connect5_loop fuel' color d p count
      else ret count
  end.

Definition _point_direction_check_connect_gomoko (point shift : Z) : BM bool :=
  color <- get_color point ;;
  s <- get_state ;;
  let count := 1 in
  let d := shift in
  count <- connect5_loop (scan_fuel s) color d point count ;;
  let d := - d in
  count <- connect5_loop (scan_fuel s) color d point count ;;
  py_assert (count <=? 5) ;;;
  ret (count =? 5).

Definition point_check_game_end_gomoku (point : Z) : BM bool :=
  s <- get_state ;;
  b <- _point_direction_check_connect_gomoko point 1 ;;
  if b then ret true else
  b <- _point_direction_check_connect_gomoko point (NS s) ;;
  if b then ret true else
  b <- _point_direction_check_connect_gomoko point (NS s + 1) ;;
  if b then ret true else
  b <- _point_direction_check_connect_gomoko point (NS s - 1) ;;
  if b then ret true else
  ret false.

(** [for point in points: if self.point_check_game_end_gomoku(point): ...] *)
Fixpoint any_point_ends (points : list Z) : BM bool :=
  match points with
  | [] => ret false
  | point :: rest =>
      b <- point_check_game_end_gomoku point ;;
      if b then ret true else any_point_ends rest
  end.

Definition check_game_end_gomoku : BM (bool * option Z) :=
  s <- get_state ;;
  let white_points := where1d (fun c => c =? WHITE) (board s) in
  let black_points := where1d (fun c => c =? BLACK) (board s) in
  w <- any_point_ends white_points ;;
  if w then ret (true, Some WHITE) else
  b <- any_point_ends black_points ;;
  if b then ret (true, Some BLACK) else
  ret (false, None).

(** [final_check] returns [True], [False] or falls off its end ([None]). *)
Definition final_check (first second : bool) (points empty count : Z)
  : option bool :=
  if first then
    if count >=? points then
      if empty =? 1 then Some true else None
    else None
  else if second then
    if count >=? points then
      if empty =? 2 then Some true else None
    else None
  else if count >=? points then Some true
  else Some false.

(** Truth value of what [final_check] returns. *)
Definition truthy (r : option bool) : bool :=
  match r with
  | Some b => b
  | None => false
  end.

(** One [while True] loop of [straight_check]; returns the updated
    [(count, emp_cell)]. *)
Fixpoint straight_loop (fuel : nat) (color d p count emp_cell : Z)
  : BM (Z * Z) :=
  match fuel with
  | O => raise OutOfFuel
  | S fuel' =>
      let p := p + d in
      c <- get_color p ;;
      if c =? color then straight_loop fuel' color d p (count + 1) emp_cell
      else if c =? EMPTY then ret (count, emp_cell + 1)
      else ret (count, emp_cell)
  end.

Definition straight_check (point shift color points : Z)
  (empty1 empty2 : bool) : BM (option bool) :=
  s <- get_state ;;
  let count := 1 in
  let emp_cell := 0 in
  let d := shift in
  r <- straight_loop (scan_fuel s) color d point count emp_cell ;;
  let '(count, emp_cell) := r in
  r <- straight_loop (scan_fuel s) color (- d) point count emp_cell ;;
  let '(count, emp_cell) := r in
  ret (final_check empty1 empty2 points emp_cell count).

(** The [if / elif / elif / elif] chain over the four directions that
    [open_four] and [block_open_four] apply to a point. *)
Definition straight_any (point color points : Z) (empty1 empty2 : bool)
  : BM bool :=
  s <- get_state ;;
  r <- straight_check point 1 color points empty1 empty2 ;;
  if truthy r then ret true else
  r <- straight_check point (NS s) color points empty1 empty2 ;;
  if truthy r then ret true else
  r <- straight_check point (NS s + 1) color points empty1 empty2 ;;
  if truthy r then ret true else
  r <- straight_check point (NS s - 1) color points empty1 empty2 ;;
  if truthy r then ret true else
  ret false.

Fixpoint open_four_loop (empty_pts : list Z) (color : Z)
  (found_points : list Z) : BM (list Z) :=
  match empty_pts with
  | [] => ret found_points
  | point :: rest =>
      b <- straight_any point color 4 false true ;;
      let found_points :=
        if b then found_points ++ [point] else found_points in
      open_four_loop rest color found_points
  end.

Definition open_four (color : Z) : BM (list Z) :=
  s <- get_state ;;
  let empty_pts := where1d (fun c => c =? 0) (board s) in
  open_four_loop empty_pts color [].

Definition mem (x : Z) (l : list Z) : bool :=
  existsb (Z.eqb x) l.

(** [if point not in found_points: found_points.append(point)] *)
Definition append_new (point : Z) (found_points : list Z) : list Z :=
  if negb (mem point found_points) then found_points ++ [point]
  else found_points.

Fixpoint block_open_four_loop (empty_pts : list Z) (versus_color : Z)
  (found_points : list Z) : BM (list Z) :=
  match empty_pts with
  | [] => ret found_points
  | point :: rest =>
      b <- straight_any point versus_color 4 true false ;;
      let found_points :=
        if b then append_new point found_points else found_points in
      b <- straight_any point versus_color 3 true false ;;
      let found_points :=
        if b then append_new point found_points else found_points in
      b <- straight_any point versus_color 4 false true ;;
      let found_points :=
        if b then append_new point found_points else found_points in
      block_open_four_loop rest versus_color found_points
  end.

Definition block_open_four (color : Z) : BM (list Z) :=
  s <- get_state ;;
  let empty_pts := where1d (fun c => c =? 0) (board s) in
  let versus_color := opponent color in
  block_open_four_loop empty_pts versus_color [].

Definition get_empty_points : BM (list Z) :=
  s <- get_state ;;
  ret (where1d (fun c => c =? EMPTY) (board s)).

Definition generate_legal_moves (color : Z) : BM (list Z) :=
  get_empty_points.

(* ----------------------------------------------------------------- *)
(** *** Go legality, as used by [direction_check_connect_gomoko] *)

(** [self.neighbors[point]] *)
Definition neighbors_at (point : Z) : BM (list Z) :=
  fun s => match py_get (neighbors s) point with
           | Some l => Ok l s
           | None => Raise IndexError s
           end.

Definition get_liberty_of (point : Z) : BM Z :=
  fun s => match py_get (liberty_of s) point with
           | Some v => Ok v s
           | None => Raise IndexError s
           end.

Definition set_liberty_of (point : Z) (v : Z) : BM unit :=
  fun s => match py_set (liberty_of s) point v with
           | Some l => Ok tt (with_liberty_of s l)
           | None => Raise IndexError s
           end.

Fixpoint neighbors_of_color_loop (nbs : list Z) (color : Z) (nbc : list Z)
  : BM (list Z) :=
  match nbs with
  | [] => ret nbc
  | nb :: rest =>
      c <- get_color nb ;;
      if c =? color then neighbors_of_color_loop rest color (nbc ++ [nb])
      else neighbors_of_color_loop rest color nbc
  end.

Definition neighbors_of_color (point color : Z) : BM (list Z) :=
  nbs <- neighbors_at point ;;
  neighbors_of_color_loop nbs color [].

Fixpoint find_neighbor_loop (nbs : list Z) (color : Z) : BM (option Z) :=
  match nbs with
  | [] => ret None
  | nb :: rest =>
      c <- get_color nb ;;
      if c =? color then ret (Some nb)
      else find_neighbor_loop rest color
  end.

Definition find_neighbor_of_color (point color : Z) : BM (option Z) :=
  nbs <- neighbors_at point ;;
  find_neighbor_loop nbs color.

Definition _stone_has_liberty (stone : Z) : BM bool :=
  lib <- find_neighbor_of_color stone EMPTY ;;
  ret (match lib with Some _ => true | None => false end).

Fixpoint _get_liberty_loop (stones : list Z) : BM (option Z) :=
  match stones with
  | [] => ret None
  | stone :: rest =>
      lib <- find_neighbor_of_color stone EMPTY ;;
      match lib with
      | Some l => ret (Some l)
      | None => _get_liberty_loop rest
      end
  end.

(** A block is a boolean marker array over the points. *)
Definition _get_liberty (block : list bool) : BM (option Z) :=
  _get_liberty_loop (where1d (fun m => m) block).

Fixpoint set_liberty_loop (stones : list Z) (lib : Z) : BM unit :=
  match stones with
  | [] => ret tt
  | stone :: rest =>
      set_liberty_of stone lib ;;;
      set_liberty_loop rest lib
  end.

Definition _has_liberty (block : list bool) : BM bool :=
  lib <- _get_liberty block ;;
  match lib with
  | Some l =>
      c <- get_color l ;;
      py_assert (c =? EMPTY) ;;;
      set_liberty_loop (where1d (fun m => m) block) l ;;;
      ret true
  | None => ret false
  end.

(** [for nb in neighbors: if not marker[nb]: marker[nb] = True;
    pointstack.append(nb)] *)
Fixpoint mark_neighbors (nbs : list Z) (marker : list bool)
  (pointstack : list Z) : BM (list bool * list Z) :=
  match nbs with
  | [] => ret (marker, pointstack)
  | nb :: rest =>
      match py_get marker nb with
      | None => raise IndexError
      | Some true => mark_neighbors rest marker pointstack
      | Some false =>
          match py_set marker nb true with
          | None => raise IndexError
          | Some marker' => mark_neighbors rest marker' (pointstack ++ [nb])
          end
      end
  end.

(** [while pointstack: p = pointstack.pop(); ...] *)
Fixpoint _block_of_loop (fuel : nat) (color : Z) (marker : list bool)
  (pointstack : list Z) : BM (list bool) :=
  match fuel with
  | O => raise OutOfFuel
  | S fuel' =>
      match rev pointstack with
      | [] => ret marker
      | p :: rest_rev =>
          let pointstack := rev rest_rev in
          nbs <- neighbors_of_color p color ;;
          r <- mark_neighbors nbs marker pointstack ;;
          let '(marker, pointstack) := r in
          _block_of_loop fuel' color marker pointstack
      end
  end.

(** Every iteration pops one point, and a point is pushed only when its
    marker changes from [False] to [True]. *)
Definition block_fuel (s : SimpleGoBoard) : nat :=
  (2 * Z.to_nat (maxpoint s) + 2)%nat.

Definition _block_of (stone : Z) : BM (list bool) :=
  s <- get_state ;;
  let marker := repeat false (Z.to_nat (maxpoint s)) in
  let pointstack := [stone] in
  color <- get_color stone ;;
  py_assert (is_black_white color) ;;;
  match py_set marker stone true with
  | None => raise IndexError
  | Some marker => _block_of_loop (block_fuel s) color marker pointstack
  end.

Definition _fast_liberty_check (nb_point : Z) : BM bool :=
  lib <- get_liberty_of nb_point ;;
  quick <- (if negb (lib =? NULLPOINT) then
              c <- get_color lib ;; ret (c =? EMPTY)
            else ret false) ;;
  if quick then ret true else
  h <- _stone_has_liberty nb_point ;;
  if h then ret true else
  ret false.

Definition _detect_capture (nb_point : Z) : BM bool :=
  f <- _fast_liberty_check nb_point ;;
  if f then ret false else
  opp_block <- _block_of nb_point ;;
  h <- _has_liberty opp_block ;;
  ret (negb h).

Fixpoint _detect_captures_loop (nbs : list Z) : BM bool :=
  match nbs with
  | [] => ret false
  | nb :: rest =>
      c <- _detect_capture nb ;;
      if c then ret true else _detect_captures_loop rest
  end.

Definition _detect_captures (point opp_color : Z) : BM bool :=
  nbs <- neighbors_of_color point opp_color ;;
  _detect_captures_loop nbs.

Definition point_eqb (a b : Point) : bool :=
  match a, b with
  | Some x, Some y => x =? y
  | None, None => true
  | _, _ => false
  end.

Definition is_legal (point : Point) (color : Z) : BM bool :=
  py_assert (is_black_white color) ;;;
  match point with
  | None => ret true
  | Some p =>
      c <- get_color p ;;
      if negb (c =? EMPTY) then ret false else
      s <- get_state ;;
      if point_eqb point (ko_recapture s) then ret false else
      let opp_color := opponent color in
      set_color p color ;;;
      has_capture <- _detect_captures p opp_color ;;
      no_lib <- (if negb has_capture then
                   h <- _stone_has_liberty p ;; ret (negb h)
                 else ret false) ;;
      legal <- (if no_lib then
                  block <- _block_of p ;;
                  h <- _has_liberty block ;;
                  ret h
                else ret true) ;;
      set_color p EMPTY ;;;
      ret legal
  end.

(* ----------------------------------------------------------------- *)
(** *** Construction: [__init__], [reset], [copy] *)

(** Modelled from the spec: the largest board size of board_util
    ("size N (2 <= N <= max)"). *)
Definition MAXSIZE : Z := 25.

(** Bound of a slice [a[start:stop]] on an array of length [len]. *)
Definition slice_bound (len i : Z) : Z :=
  if i <? 0 then Z.max 0 (len + i) else Z.min i len.

(** [a[start:stop] = v] on a numpy array. *)
Definition slice_fill {A} (l : list A) (start stop : Z) (v : A) : list A :=
  let len := Z.of_nat (length l) in
  let lo := slice_bound len start in
  let hi := slice_bound len stop in
  map (fun '(i, x) => if (lo <=? i) && (i <? hi) then v else x)
      (combine (map Z.of_nat (seq 0 (length l))) l).

Definition row_start (row : Z) : BM Z :=
  s <- get_state ;;
  py_assert (row >=? 1) ;;;
  py_assert (row <=? size s) ;;;
  ret (row * NS s + 1).

(** [range(lo, hi)] *)
Definition py_range (lo hi : Z) : list Z :=
  map (fun k => lo + Z.of_nat k) (seq 0 (Z.to_nat (hi - lo))).

Fixpoint _initialize_empty_points_loop (rows : list Z) : BM unit :=
  match rows with
  | [] => ret tt
  | row :: rest =>
      start <- row_start row ;;
      s <- get_state ;;
      put_state (with_board s (slice_fill (board s) start (start + size s) EMPTY)) ;;;
      _initialize_empty_points_loop rest
  end.

Definition _initialize_empty_points : BM unit :=
  s <- get_state ;;
  _initialize_empty_points_loop (py_range 1 (size s + 1)).

Definition _neighbors (point : Z) : BM (list Z) :=
  s <- get_state ;;
  ret [point - 1; point + 1; point - NS s; point + NS s].

Fixpoint _on_board_neighbors_loop (cands : list Z) (nbs : list Z)
  : BM (list Z) :=
  match cands with
  | [] => ret nbs
  | nb :: rest =>
      c <- get_color nb ;;
      if negb (c =? BORDER) then _on_board_neighbors_loop rest (nbs ++ [nb])
      else _on_board_neighbors_loop rest nbs
  end.

Definition _on_board_neighbors (point : Z) : BM (list Z) :=
  cands <- _neighbors point ;;
  _on_board_neighbors_loop cands [].

Definition with_neighbors (s : SimpleGoBoard) (n : list (list Z))
  : SimpleGoBoard :=
  mkBoard (size s) (NS s) (WE s) (ko_recapture s) (current_player s)
          (maxpoint s) (board s) (liberty_of s) n.

Fixpoint _initialize_neighbors_loop (points : list Z) : BM unit :=
  match points with
  | [] => ret tt
  | point :: rest =>
      c <- get_color point ;;
      nbs <- (if c =? BORDER then ret [] else _on_board_neighbors point) ;;
      s <- get_state ;;
      put_state (with_neighbors s (neighbors s ++ [nbs])) ;;;
      _initialize_neighbors_loop rest
  end.

Definition _initialize_neighbors : BM unit :=
  s <- get_state ;;
  put_state (with_neighbors s []) ;;;
  _initialize_neighbors_loop (py_range 0 (maxpoint s)).

Definition reset (sz : Z) : BM unit :=
  let ns := sz + 1 in
  let mp := sz * sz + 3 * (sz + 1) in
  s <- get_state ;;
  put_state (mkBoard sz ns 1 None BLACK mp
               (repeat BORDER (Z.to_nat mp))
               (repeat NULLPOINT (Z.to_nat mp))
               (neighbors s)) ;;;
  _initialize_empty_points ;;;
  _initialize_neighbors.

(** The object before [__init__] has run: no attribute is set yet. *)
Definition blank : SimpleGoBoard :=
  mkBoard 0 0 0 None 0 0 [] [] [].

(** [SimpleGoBoard(size)] *)
Definition new_board (sz : Z) : result SimpleGoBoard unit :=
  (py_assert ((2 <=? sz) && (sz <=? MAXSIZE)) ;;; reset sz) blank.

(** [self.copy()]: the caller's object is only read; the result is the new
    object. *)
Definition copy (s : SimpleGoBoard) : result SimpleGoBoard unit :=
  match new_board (size s) with
  | Ok _ b =>
      (py_assert (NS b =? NS s) ;;;
       py_assert (WE b =? WE s) ;;;
       b1 <- get_state ;;
       put_state (mkBoard (size b1) (NS b1) (WE b1) (ko_recapture s)
                    (current_player s) (maxpoint b1) (board b1)
                    (liberty_of b1) (neighbors b1)) ;;;
       b2 <- get_state ;;
       py_assert (maxpoint b2 =? maxpoint s) ;;;
       put_state (with_board b2 (board s))) b
  | Raise e b => Raise e b
  end.

(* ----------------------------------------------------------------- *)
(** *** Move ordering: [direction_check_connect_gomoko], [check_n],
    [order_the_point] *)

(** First [while True] loop of [direction_check_connect_gomoko]; returns
    the updated [(count, pointWin)]. *)
Fixpoint direction_loop1 (fuel : nat) (color point shift max d p count : Z)
  (pointWin : list Z) : BM (Z * list Z) :=
  match fuel with
  | O => raise OutOfFuel
  | S fuel' =>
      let p := p + d in
      c <- get_color p ;;
      if c =? color then
        let count := count + 1 in
        if count =? max then
          l1 <- is_legal (Some (p + d)) color ;;
          if l1 then ret (count, pointWin ++ [p + d])
          else
            l2 <- is_legal (Some (point + (- shift))) color ;;
            if l2 then ret (count, pointWin ++ [point + (- shift)])
            else ret (count, pointWin)
        else direction_loop1 fuel' color point shift max d p count pointWin
      else ret (count, pointWin)
  end.

(** Second loop: the same without the [elif]. *)
Fixpoint direction_loop2 (fuel : nat) (color max d p count : Z)
  (pointWin : list Z) : BM (Z * list Z) :=
  match fuel with
  | O => raise OutOfFuel
  | S fuel' =>
      let p := p + d in
      c <- get_color p ;;
      if c =? color then
        let count := count + 1 in
        if count =? max then
          l1 <- is_legal (Some (p + d)) color ;;
          if l1 then ret (count, pointWin ++ [p + d])
          else ret (count, pointWin)
        else direction_loop2 fuel' color max d p count pointWin
      else ret (count, pointWin)
  end.

Definition direction_check_connect_gomoko (point shift max : Z)
  : BM (bool * list Z) :=
  color <- get_color point ;;
  s <- get_state ;;
  let count := 1 in
  let pointWin := [] in
  let d := shift in
  r <- direction_loop1 (scan_fuel s) color point shift max d point count pointWin ;;
  let '(count, pointWin) := r in
  let d := - d in
  r <- direction_loop2 (scan_fuel s) color max d point count pointWin ;;
  let '(count, pointWin) := r in
  ret (count =? max, pointWin).

Section MoveOrdering.

(** [list(set(l))]: Python fixes neither the order in which a set is
    iterated nor, therefore, the order of this list; the development is
    parametric in it. *)
Variable list_of_set : list Z -> list Z.

(** [check_n] returns [False] ([None] here) or a non-empty list. *)
Definition check_n (point max : Z) : BM (option (list Z)) :=
  s <- get_state ;;
  let list_p := [] in
  r <- direction_check_connect_gomoko point 1 max ;;
  let list_p := if fst r then list_p ++ snd r else list_p in
  r <- direction_check_connect_gomoko point (NS s) max ;;
  let list_p := if fst r then list_p ++ snd r else list_p in
  r <- direction_check_connect_gomoko point (NS s + 1) max ;;
  let list_p := if fst r then list_p ++ snd r else list_p in
  r <- direction_check_connect_gomoko point (NS s - 1) max ;;
  let list_p := if fst r then list_p ++ snd r else list_p in
  match list_p with
  | [] => ret None
  | _ => ret (Some (list_of_set list_p))
  end.

(** [[x for x in l if x not in seen]] *)
Definition not_in (l seen : list Z) : list Z :=
  filter (fun x => negb (mem x seen)) l.

(** [for point in points: if self.check_n(point, n) != False: ...]; the
    source calls [check_n] a second time to obtain the list. *)
Fixpoint bucket_loop (points : list Z) (n : Z) (final_n : list Z)
  : BM (list Z) :=
  match points with
  | [] => ret final_n
  | point :: rest =>
      r <- check_n point n ;;
      match r with
      | None => bucket_loop rest n final_n
      | Some _ =>
          r2 <- check_n point n ;;
          match r2 with
          | None =>
              (* [x for x in False]: iterating a bool *)
              raise TypeError
          | Some list_temp =>
              let list_n := not_in list_temp final_n in
              bucket_loop rest n (final_n ++ list_n)
          end
      end
  end.

Definition order_the_point (color : Z) : BM (list Z) :=
  s <- get_state ;;
  let white_points := where1d (fun c => c =? WHITE) (board s) in
  let black_points := where1d (fun c => c =? BLACK) (board s) in
  let points := if color =? 2 then white_points else black_points in
  final_4 <- bucket_loop points 4 [] ;;
  final_3 <- bucket_loop points 3 [] ;;
  let final_3 := not_in final_3 final_4 in
  let final_final_list := final_4 ++ final_3 in
  final_2 <- bucket_loop points 2 [] ;;
  let final_2 := not_in final_2 final_final_list in
  let final_final_list := final_final_list ++ final_2 in
  final_1 <- bucket_loop points 1 [] ;;
  let final_1 := not_in final_1 final_final_list in
  let final_final_list := final_final_list ++ final_1 in
  list_temp <- generate_legal_moves color ;;
  let total_list := not_in list_temp final_final_list in
  ret (final_final_list ++ total_list).

(* ================================================================= *)
(** ** The solver of gtp_connection.py *)

(** The part of a [GtpConnection] the solver uses.  [time] is the limit
    against which [minimax] compares the elapsed time: [None] stands for the
    value [__init__] leaves there (the [time] module), [Some t] for a limit
    set by [timelimit_cmd].  [ticks] counts the readings of the processor
    clock made so far. *)
Record GtpConnection : Type := mkGtp {
  gboard : SimpleGoBoard;
  time : option Z;
  s_time : Z;
  time_Used : Z;
  toPlay : String.string;
  ticks : nat
}.

Definition GM (A : Type) : Type := M GtpConnection A.

Definition with_gboard (g : GtpConnection) (b : SimpleGoBoard) : GtpConnection :=
  mkGtp b (time g) (s_time g) (time_Used g) (toPlay g) (ticks g).

(** [self.board.method(...)] *)
Definition on_board {A} (m : BM A) : GM A :=
  fun g => match m (gboard g) with
           | Ok a b => Ok a (with_gboard g b)
           | Raise e b => Raise e (with_gboard g b)
           end.

(** [time.process_time()]: the readings of the processor clock are given
    by the environment, the [n]-th reading being [process_time n] (in clock
    ticks; only their order matters to the solver). *)
Variable process_time : nat -> Z.

Definition read_process_time : GM Z :=
  fun g => Ok (process_time (ticks g))
              (mkGtp (gboard g) (time g) (s_time g) (time_Used g) (toPlay g)
                     (S (ticks g))).

Definition set_time_Used (t : Z) : GM unit :=
  fun g => Ok tt (mkGtp (gboard g) (time g) (s_time g) t (toPlay g) (ticks g)).

Definition set_s_time (t : Z) : GM unit :=
  fun g => Ok tt (mkGtp (gboard g) (time g) t (time_Used g) (toPlay g) (ticks g)).

(** [self.time_Used > self.time] *)
Definition time_exceeded : GM bool :=
  fun g => match time g with
           | Some limit => Ok (time_Used g >? limit) g
           | None => Raise TypeError g
           end.

(** Modelled from the spec: [GoBoardUtil.generate_legal_moves_gomoku] of
    board_util ("legal_moves(): all EMPTY cells"). *)
Definition generate_legal_moves_gomoku : BM (list Z) :=
  get_empty_points.

(** The node tag, ['or'] or ['and']. *)
Inductive Turn : Type := TurnOr | TurnAnd.

Definition whosturn (turn : Turn) : bool :=
  match turn with
  | TurnOr => true
  | TurnAnd => false
  end.

(** First component of what [minimax] returns: [True], [False], ["draw"]
    or ["unknown"]. *)
Inductive Status : Type := STrue | SFalse | SDraw | SUnknown.

(** Second component: [False], [True], or an integer (a move, or [1]). *)
Inductive MoveVal : Type := MFalse | MTrue | MInt (z : Z).

Definition status_eqb (a b : Status) : bool :=
  match a, b with
  | STrue, STrue | SFalse, SFalse | SDraw, SDraw | SUnknown, SUnknown => true
  | _, _ => false
  end.

Definition option_eqb (a : option Z) (b : Z) : bool :=
  match a with
  | Some x => x =? b
  | None => false
  end.

(** What the body of [for move in moves] does after the recursive call has
    returned [mm_return]: it returns from [minimax] ([inl]) or goes on to
    the next move with the updated [draw_list] ([inr]). *)
Definition after_child (turn : Turn) (move : Z) (mm_return : Status * MoveVal)
  (draw_list : list Z) : GM (Status * MoveVal + list Z) :=
  on_board (undo move) ;;;
  now <- read_process_time ;;
  g <- get_state ;;
  set_time_Used (now - s_time g) ;;;
  late <- time_exceeded ;;
  if late then ret (inl (SUnknown, MFalse)) else
  if whosturn turn && status_eqb (fst mm_return) STrue
  then ret (inl (STrue, MInt move)) else
  if negb (whosturn turn) && status_eqb (fst mm_return) SFalse
  then ret (inl (SFalse, MFalse)) else
  let draw_list :=
    if status_eqb (fst mm_return) SDraw then draw_list ++ [move]
    else draw_list in
  if status_eqb (fst mm_return) SUnknown then ret (inl (SUnknown, MFalse))
  else ret (inr draw_list).

(** What the body of [for move in moves] does before the recursive call:
    it plays the move and returns from [minimax] ([Some], after taking the
    move back) when the game is decided or the board is full. *)
Definition before_child (color : Z) (turn : Turn) (move : Z)
  : GM (option (Status * MoveVal)) :=
  on_board (play_move_gomoku (Some move) color) ;;;
  r <- on_board check_game_end_gomoku ;;
  let '(if_finish, winner) := r in
  if if_finish && whosturn turn then
    on_board (undo move) ;;; ret (Some (STrue, MInt move))
  else if if_finish && option_eqb winner color then
    on_board (undo move) ;;; ret (Some (SFalse, MFalse))
  else
    temp_List <- on_board generate_legal_moves_gomoku ;;
    match temp_List with
    | [] => on_board (undo move) ;;; ret (Some (SDraw, MInt move))
    | _ => ret None
    end.

(** The node tag of the recursive call. *)
Definition flip (turn : Turn) : Turn :=
  if whosturn turn then TurnAnd else TurnOr.

(** [for move in moves: ...] and the code after the loop; [rec] is the
    recursive call. *)
Fixpoint minimax_loop (rec : Z -> Turn -> GM (Status * MoveVal))
  (color toPlay : Z) (turn : Turn) (moves draw_list : list Z)
  : GM (Status * MoveVal) :=
  match moves with
  | [] =>
      match draw_list with
      | d :: _ => ret (SDraw, MInt d)
      | [] => if whosturn turn then ret (SFalse, MFalse)
              else ret (STrue, MTrue)
      end
  | move :: rest =>
      early <- before_child color turn move ;;
      match early with
      | Some answer => ret answer
      | None =>
          mm_return <- rec toPlay (flip turn) ;;
          r <- after_child turn move mm_return draw_list ;;
          match r with
          | inl answer => ret answer
          | inr draw_list =>
              minimax_loop rec color toPlay turn rest draw_list
          end
      end
  end.

Definition minimax_body (rec : Z -> Turn -> GM (Status * MoveVal))
  (color : Z) (turn : Turn) : GM (Status * MoveVal) :=
  let toPlay := if color =? 1 then 2 else 1 in
  r <- on_board check_game_end_gomoku ;;
  let '(if_finish, winner) := r in
  if if_finish then
    if whosturn turn then
      if negb (option_eqb winner color) then ret (SFalse, MFalse)
      else ret (STrue, MInt 1)
    else ret (SFalse, MFalse)
  else
    moves <- on_board (order_the_point color) ;;
    match moves with
    | [] => ret (SDraw, MFalse)
    | _ => minimax_loop rec color toPlay turn moves []
    end.

(** [minimax(self, board, color, turn)]; [fuel] bounds the depth of the
    recursion. *)
Fixpoint minimax (fuel : nat) (color : Z) (turn : Turn)
  : GM (Status * MoveVal) :=
  match fuel with
  | O => raise OutOfFuel
  | S fuel' => minimax_body (minimax fuel') color turn
  end.

(** Each level of the recursion fills one more empty cell. *)
Definition solve_fuel (g : GtpConnection) : nat :=
  S (length (board (gboard g))).

(** What [solve_cmd] answers, before it is formatted as text. *)
Inductive Response : Type :=
| RUnknown
| RWinner (player : String.string) (move : option MoveVal)
| RDraw (move : MoveVal)
| ROpponent (opponent : String.string)
| RNothing.

Definition solve_cmd : GM Response :=
  now <- read_process_time ;;
  set_s_time now ;;;
  set_time_Used 0 ;;;
  g <- get_state ;;
  let '(color, player, opp) :=
    if String.eqb (toPlay g) "b"%string then (1, "b"%string, "w"%string)
    else (2, "w"%string, "b"%string) in
  bol_return <- minimax (solve_fuel g) color TurnOr ;;
  match bol_return with
  | (SUnknown, _) => ret RUnknown
  | (STrue, MInt 1) | (STrue, MTrue) => ret (RWinner player None)
  | (STrue, m) => ret (RWinner player (Some m))
  | (SDraw, m) => ret (RDraw m)
  | (SFalse, _) => ret (ROpponent opp)
  end.

End MoveOrdering.

(* ================================================================= *)
(** ** MCTS.py *)

(** Numbers of the search statistics: integers, quotients [wins / loss] of
    two integers (kept exact, as [PFrac wins loss] with a positive
    denominator) and [math.inf]. *)
Inductive pynum : Type :=
| PFrac (n d : Z)
| PInf.

Definition pynum_of_int (k : Z) : pynum := PFrac k 1.

(** [a / k] for an integer [k]; [None] is [ZeroDivisionError]. *)
Definition pynum_div_int (a : pynum) (k : Z) : option pynum :=
  if k =? 0 then None
  else match a with
       | PFrac n d => Some (if 0 <? k then PFrac n (d * k)
                            else PFrac (- n) (d * (- k)))
       | PInf => Some (if 0 <? k then PInf else PFrac (-1) 0)
       end.

(** [a < b]; [PFrac (-1) 0] stands for minus infinity. *)
Definition pynum_ltb (a b : pynum) : bool :=
  match a, b with
  | PInf, _ => false
  | PFrac _ 0, PInf => true
  | PFrac _ 0, PFrac _ 0 => false
  | PFrac _ 0, PFrac _ _ => true
  | PFrac _ _, PFrac _ 0 => false
  | PFrac _ _, PInf => true
  | PFrac n d, PFrac m e => n * e <? m * d
  end.

(** A canonical board signature.  [board_num] joins the decimal digits of
    the cells of the two-dimensional board into one string; every cell is a
    single digit, so the string is given by the list of the cells. *)
Definition Signature : Type := list Z.

Definition sig_eqb (a b : Signature) : bool :=
  if list_eq_dec Z.eq_dec a b then true else false.

(** [class state]: attributes [sim], [win], [first] (the parent) and
    [move]. *)
Record state : Type := mkState {
  sim_ : Z;
  win : pynum;
  first : Signature;
  move : Z
}.

(** A dict, in insertion order. *)
Definition Tree : Type := list (Signature * state).

Fixpoint tree_get (tree : Tree) (key : Signature) : option state :=
  match tree with
  | [] => None
  | (k, v) :: rest => if sig_eqb k key then Some v else tree_get rest key
  end.

(** [tree[key] = v] *)
Fixpoint tree_set (tree : Tree) (key : Signature) (v : state) : Tree :=
  match tree with
  | [] => [(key, v)]
  | (k, v0) :: rest =>
      if sig_eqb k key then (k, v) :: rest
      else (k, v0) :: tree_set rest key v
  end.

Definition tree_mem (tree : Tree) (key : Signature) : bool :=
  match tree_get tree key with
  | Some _ => true
  | None => false
  end.

(** What the search works on: the board objects (the object of the caller
    is the first one, the others are created by the search), and the number
    of random draws and of readings of the wall clock made so far. *)
Record World : Type := mkWorld {
  heap : list SimpleGoBoard;
  draws : nat;
  clock_reads : nat
}.

Definition WM (A : Type) : Type := M World A.

(** A reference to a board object. *)
Definition Ref : Type := nat.

(** The object the caller passes as [simple_board]. *)
Definition Caller : Ref := 0%nat.

(** [obj.method(...)]: the method runs on the object, which keeps the
    state the method leaves it in, also when it raises. *)
Definition call {A} (r : Ref) (m : BM A) : WM A :=
  fun w => match nth_error (heap w) r with
           | None => Raise Stuck w
           | Some b =>
               match m b with
               | Ok a b' =>
                   Ok a (mkWorld (replace_nth (heap w) r b')
                                 (draws w) (clock_reads w))
               | Raise e b' =>
                   Raise e (mkWorld (replace_nth (heap w) r b')
                                    (draws w) (clock_reads w))
               end
           end.

(** [obj.copy()]: a new object. *)
Definition call_copy (r : Ref) : WM Ref :=
  fun w => match nth_error (heap w) r with
           | None => Raise Stuck w
           | Some b =>
               match copy b with
               | Ok _ c =>
                   Ok (length (heap w))
                      (mkWorld (heap w ++ [c]) (draws w) (clock_reads w))
               | Raise e _ => Raise e w
               end
           end.

(** Modelled from the spec: [GoBoardUtil.get_twoD_board] of board_util, the
    playable cells row by row, top row first. *)
Definition get_twoD_board (b : SimpleGoBoard) : list (list Z) :=
  map (fun row =>
         firstn (Z.to_nat (size b))
                (skipn (Z.to_nat (row * NS b + 1)) (board b)))
      (rev (py_range 1 (size b + 1))).

Definition board_num (r : Ref) : WM Signature :=
  fun w => match nth_error (heap w) r with
           | None => Raise Stuck w
           | Some b => Ok (concat (get_twoD_board b)) w
           end.

(** [monte_state_value == old] compares a [state] object, whose class
    defines no equality, with a signature: never equal. *)
Definition state_eq_sig (v : state) (old : Signature) : bool := false.

Fixpoint search2 (tree : Tree) (old : Signature) : list Signature :=
  match tree with
  | [] => []
  | (stuff, monte_state_value) :: rest =>
      if state_eq_sig monte_state_value old then stuff :: search2 rest old
      else search2 rest old
  end.

Section Search.

(** [time.time()], in milliseconds, and the source of randomness: the
    [n]-th draw among [k > 0] alternatives picks [random_draw n mod k]. *)
Variable wall_clock : nat -> Z.
Variable random_draw : nat -> nat.

Definition read_wall_clock : WM Z :=
  fun w => Ok (wall_clock (clock_reads w))
              (mkWorld (heap w) (draws w) (S (clock_reads w))).

(** [random.choice(l)] *)
Definition random_choice (l : list Z) : WM Z :=
  fun w => match nth_error l (random_draw (draws w) mod length l)%nat with
           | Some x => Ok x (mkWorld (heap w) (S (draws w)) (clock_reads w))
           | None => Raise IndexError w
           end.

(** Modelled from the spec: [GoBoardUtil.generate_random_move_gomoku] of
    board_util, "a uniformly random legal move", PASS "if no legal moves
    exist at all". *)
Definition generate_random_move_gomoku (b : Ref) : WM Point :=
  moves <- call b get_empty_points ;;
  match moves with
  | [] => ret PASS
  | moves => m <- random_choice moves ;; ret (Some m)
  end.

(** [sim(board, player1, player2)]; each level of the recursion fills one
    more empty cell of [board]. *)
Fixpoint sim (fuel : nat) (b : Ref) (player1 player2 : Z) : WM Z :=
  match fuel with
  | O => raise OutOfFuel
  | S fuel' =>
      r <- call b check_game_end_gomoku ;;
      let '(game_end, winner) := r in
      if game_end then
        if option_eqb winner player1 then ret 1 else ret 0
      else
        mv <- generate_random_move_gomoku b ;;
        match mv with
        | None => ret 0
        | Some _ =>
            call b (play_move_gomoku mv player2) ;;;
            sim fuel' b player1 (opponent player2)
        end
  end.

Definition sim_fuel (b : Ref) : WM nat :=
  fun w => match nth_error (heap w) b with
           | None => Raise Stuck w
           | Some o => Ok (S (length (board o))) w
           end.

(** [for i in range(simulation): ...] of [sim_do] *)
Fixpoint sim_do_loop (n : nat) (b : Ref) (color wins loss : Z)
  : WM (Z * Z) :=
  match n with
  | O => ret (wins, loss)
  | S n' =>
      test_board <- call_copy b ;;
      fuel <- sim_fuel test_board ;;
      e <- sim fuel test_board color color ;;
      let wins := if e =? 1 then wins + 1 else wins in
      let loss := if e =? 0 then loss + 1 else loss in
      sim_do_loop n' b color wins loss
  end.

Definition sim_do (b : Ref) (simulation : Z) (color : Z)
  : WM pynum :=
  r <- sim_do_loop (Z.to_nat simulation) b color 0 0 ;;
  let '(wins, loss) := r in
  if (loss =? 0) && (0 <? wins) then ret PInf
  else if loss =? 0 then raise ZeroDivisionError
  else if loss <? wins then ret (PFrac wins loss)
  else ret (pynum_of_int 0).

(** [for key in tree: ...] of [best_move] *)
Fixpoint best_move_loop (tree : Tree) (top : Signature) (best_ratio : pynum)
  (best : Point) : WM Point :=
  match tree with
  | [] => ret best
  | (key, st) :: rest =>
      if sig_eqb (first st) top then
        match pynum_div_int (win st) (sim_ st) with
        | None => raise ZeroDivisionError
        | Some current_ratio =>
            if pynum_ltb best_ratio current_ratio
            then best_move_loop rest top current_ratio (Some (move st))
            else best_move_loop rest top best_ratio best
        end
      else best_move_loop rest top best_ratio best
  end.

Definition best_move (b : Ref) (tree : Tree) (top : Signature)
  : WM Point :=
  best_move_loop tree top (pynum_of_int 0) None.

(** [node.simulation]: a [state] has the attributes [sim], [win], [first]
    and [move] only. *)
Definition get_simulation (node : state) : WM Z :=
  raise AttributeError.

Definition set_simulation (node : state) (v : Z) : WM state :=
  ret node.

Definition pynum_succ (a : pynum) : pynum :=
  match a with
  | PFrac n d => PFrac (n + d) d
  | PInf => PInf
  end.

(** [tree[key]] *)
Definition tree_item (tree : Tree) (key : Signature) : WM state :=
  match tree_get tree key with
  | Some v => ret v
  | None => raise KeyError
  end.

(** [BackProp(Monte_Carlo_Tree, first, stop, if_win)]; the nodes are
    objects shared with the dict, so the updated dict is returned. *)
Fixpoint BackProp (fuel : nat) (tree : Tree) (first_ stop : Signature)
  (if_win : bool) : WM Tree :=
  match fuel with
  | O => raise OutOfFuel
  | S fuel' =>
      if negb (sig_eqb first_ stop) then
        node <- tree_item tree first_ ;;
        s <- get_simulation node ;;
        node <- set_simulation node (s + 1) ;;
        let tree := tree_set tree first_ node in
        node <- tree_item tree first_ ;;
        let node := if if_win
                    then mkState (sim_ node) (pynum_succ (win node))
                                 (first node) (move node)
                    else node in
        let tree := tree_set tree first_ node in
        node <- tree_item tree first_ ;;
        BackProp fuel' tree (first node) stop if_win
      else ret tree
  end.

(** A walk to the root visits each node of the dict at most once, unless
    the parent links form a cycle. *)
Definition backprop_fuel (tree : Tree) : nat := S (length tree).

(** [for i in range(5): new_move.append(random.choice(all_moves))] *)
Fixpoint sample_moves (n : nat) (all_moves new_move : list Z)
  : WM (list Z) :=
  match n with
  | O => ret new_move
  | S n' =>
      m <- random_choice all_moves ;;
      sample_moves n' all_moves (new_move ++ [m])
  end.

(** [for move in new_move: ...] of [Monte_Carlo_Tree] *)
Fixpoint evaluate_moves (simple_board : Ref) (player2 : Z)
  (first_ first_copy : Signature) (new_move : list Z) (monte_tree : Tree)
  : WM Tree :=
  match new_move with
  | [] => ret monte_tree
  | mv :: rest =>
      new_search_board <- call_copy simple_board ;;
      call new_search_board (play_move_gomoku (Some mv) player2) ;;;
      arg <- call_copy new_search_board ;;
      ending <- sim_do arg 50 player2 ;;
      let player1 := opponent player2 in
      let game_ending :=
        if pynum_ltb (pynum_of_int 0) ending && negb (player2 =? player1)
        then 1 else 0 in
      r <- (if game_ending =? 0 then
              let new_state := mkState 1 (pynum_of_int 0) first_ mv in
              t <- BackProp (backprop_fuel monte_tree) monte_tree
                     first_ first_copy false ;;
              ret (new_state, t)
            else
              let new_state := mkState 1 ending first_ mv in
              t <- BackProp (backprop_fuel monte_tree) monte_tree
                     first_ first_copy true ;;
              ret (new_state, t)) ;;
      let '(new_state, monte_tree) := r in
      spec_key <- board_num new_search_board ;;
      evaluate_moves simple_board player2 first_ first_copy rest
        (tree_set monte_tree spec_key new_state)
  end.

(** The block under [if start_move != PASS]; returns [None] where the
    source leaves the outer loop with [break], and otherwise the new
    [player2] and [new_move]. *)
Definition descend (test : Ref) (start_move : Point)
  (player2 : Z) (first_ : Signature) (monte_tree : Tree)
  : WM (option (Z * list Z)) :=
  call test (play_move_gomoku start_move player2) ;;;
  let player2 := opponent player2 in
  search <- board_num test ;;
  (if tree_mem monte_tree search then
     let move_lists := search2 monte_tree first_ in
     match move_lists with
     | [] => ret tt
     | _ => (* GetMAX is not defined *) raise NameError
     end
   else ret tt) ;;;
  all_moves <- call test generate_legal_moves_gomoku ;;
  match all_moves with
  | [] => ret None
  | _ => new_move <- sample_moves 5 all_moves [] ;;
         ret (Some (player2, new_move))
  end.

(** One iteration of [while (time.time() - start) < 56]; [None] stands
    for [break]. *)
Definition iteration (simple_board : Ref) (start_move : Point)
  (player2 : Z) (first_ first_copy : Signature) (new_move : list Z)
  (monte_tree : Tree) : WM (option (Point * Z * list Z * Tree)) :=
  test <- call_copy simple_board ;;
  r <- (match start_move with
        | None => ret (Some (player2, new_move))
        | Some _ => descend test start_move player2 first_ monte_tree
        end) ;;
  match r with
  | None => ret None
  | Some (player2, new_move) =>
      monte_tree <- evaluate_moves simple_board player2 first_ first_copy
                      new_move monte_tree ;;
      start_move <- best_move simple_board monte_tree first_copy ;;
      ret (Some (start_move, player2, new_move, monte_tree))
  end.

(** [except Exception as e]: every exception of the program is caught;
    [OutOfFuel] and [Stuck] are not exceptions of the program. *)
Definition try_except {A} (m : WM A) (handler : WM A) : WM A :=
  fun w => match m w with
           | Ok a w' => Ok a w'
           | Raise OutOfFuel w' => Raise OutOfFuel w'
           | Raise Stuck w' => Raise Stuck w'
           | Raise _ w' => handler w'
           end.

Definition handler (simple_board : Ref) (start_move : Point)
  : WM Point :=
  match start_move with
  | Some _ => ret start_move
  | None => generate_random_move_gomoku simple_board
  end.

(** The [while] loop inside [try].  The handler reads [start_move], which
    is assigned at the end of an iteration only: the handler is attached to
    each iteration with the value [start_move] has during it. *)
Fixpoint search_loop (fuel : nat) (start : Z) (simple_board : Ref)
  (start_move : Point) (player2 : Z) (first_ first_copy : Signature)
  (new_move : list Z) (monte_tree : Tree) : WM Point :=
  match fuel with
  | O => raise OutOfFuel
  | S fuel' =>
      now <- read_wall_clock ;;
      if now - start <? 56000 then
        r <- try_except
               (r <- iteration simple_board start_move player2 first_
                      first_copy new_move monte_tree ;;
                ret (inl r))
               (p <- handler simple_board start_move ;; ret (inr p)) ;;
        match r with
        | inr answer => ret answer
        | inl None => ret start_move
        | inl (Some (start_move, player2, new_move, monte_tree)) =>
            search_loop fuel' start simple_board start_move player2
              first_ first_copy new_move monte_tree
        end
      else ret start_move
  end.

(** [Monte_Carlo_Tree(simple_board, player2)]; [fuel] bounds the number
    of iterations of the timed loop. *)
Definition Monte_Carlo_Tree (fuel : nat) (simple_board : Ref)
  (player2 : Z) : WM Point :=
  let start_move := PASS in
  start <- read_wall_clock ;;
  new_move <- call simple_board generate_legal_moves_gomoku ;;
  match new_move with
  | [] => ret start_move
  | _ =>
      test <- call_copy simple_board ;;
      first_ <- board_num test ;;
      let first_copy := first_ in
      let monte_tree := [] in
      search_loop fuel start simple_board start_move player2 first_
        first_copy new_move monte_tree
  end.

End Search.

(* ================================================================= *)
(** ** Board states *)

(** The playable points: rows and columns 1 to [size] of the padded
    grid. *)
Definition playable (sz ns p : Z) : bool :=
  (1 <=? p / ns) && (p / ns <=? sz) && (1 <=? p mod ns) && (p mod ns <=? sz).

Definition on_board_b (s : SimpleGoBoard) (p : Z) : bool :=
  playable (size s) (NS s) p.

Definition cell_ok (sz ns p v : Z) : bool :=
  if playable sz ns p then (v =? EMPTY) || (v =? BLACK) || (v =? WHITE)
  else v =? BORDER.

Fixpoint cells_ok_from (sz ns : Z) (l : list Z) (i : Z) : bool :=
  match l with
  | [] => true
  | v :: t => cell_ok sz ns i v && cells_ok_from sz ns t (i + 1)
  end.

(** The grid of a board state: the dimensions [reset] computes, a stone or
    EMPTY on every playable point and BORDER everywhere else. *)
Definition wf_grid (s : SimpleGoBoard) : bool :=
  (2 <=? size s) && (NS s =? size s + 1) &&
  (maxpoint s =? size s * size s + 3 * (size s + 1)) &&
  (Z.of_nat (length (board s)) =? maxpoint s) &&
  cells_ok_from (size s) (NS s) (board s) 0.

(** The boards the examples use. *)
Definition board_of (r : result SimpleGoBoard unit) : SimpleGoBoard :=
  match r with
  | Ok _ b => b
  | Raise _ b => b
  end.

Fixpoint play_all (moves : list (Z * Z)) : BM unit :=
  match moves with
  | [] => ret tt
  | (p, c) :: rest => play_move_gomoku (Some p) c ;;; play_all rest
  end.

(** [SimpleGoBoard(sz)] followed by the moves [(point, color)]. *)
Definition position (sz : Z) (moves : list (Z * Z)) : SimpleGoBoard :=
  board_of ((py_assert ((2 <=? sz) && (sz <=? MAXSIZE)) ;;; reset sz ;;;
             play_all moves) blank).

(** The cell at a grid index, for the indices of the grid itself. *)
Definition cell_at (s : SimpleGoBoard) (p : Z) : option Z :=
  if p <? 0 then None else nth_error (board s) (Z.to_nat p).

(** The steps of the four axes: along a row, along a column and along the
    two diagonals. *)
Definition dirs (s : SimpleGoBoard) : list Z :=
  [1; NS s; NS s + 1; NS s - 1].

(** Five consecutive cells of colour [c] from [p] on in steps of [d]. *)
Definition five_from (s : SimpleGoBoard) (c p d : Z) : Prop :=
  forall i, 0 <= i < 5 -> cell_at s (p + i * d) = Some c.

Definition cell_is (s : SimpleGoBoard) (c p : Z) : bool :=
  match cell_at s p with
  | Some v => v =? c
  | None => false
  end.

Definition five_from_b (s : SimpleGoBoard) (c p d : Z) : bool :=
  forallb (fun i => cell_is s c (p + i * d)) [0; 1; 2; 3; 4].

(** Some stone of colour [c] lies on a run of five along one of the axes. *)
Definition has_five (s : SimpleGoBoard) (c : Z) : Prop :=
  exists p d, In d (dirs s) /\ five_from s c p d.

(** From [p] on in steps of [e], exactly the next [j] cells hold [color],
    and the cell after them holds [v]. *)
Definition run_to (s : SimpleGoBoard) (color p e : Z) (j : nat) (v : Z) : Prop :=
  (forall i, 1 <= i <= Z.of_nat j -> cell_at s (p + i * e) = Some color) /\
  cell_at s (p + (Z.of_nat j + 1) * e) = Some v /\
  v <> color.

(** Filling [p] with [color] gives, along the axis of step [d], a run of at
    least [n] cells (the new stone and the stones of that colour next to it
    on both sides) with an EMPTY cell after each of its two ends. *)
Definition open_run (s : SimpleGoBoard) (color n p d : Z) : Prop :=
  exists jf jb : nat,
    run_to s color p d jf EMPTY /\
    run_to s color p (- d) jb EMPTY /\
    n <= 1 + Z.of_nat jf + Z.of_nat jb.

(** The boards of the examples. *)

(** 5 x 5, BLACK has the five points of the first row. *)
Definition black_row5 : SimpleGoBoard :=
  position 5 [(7, BLACK); (13, WHITE); (8, BLACK); (14, WHITE); (9, BLACK);
              (15, WHITE); (10, BLACK); (16, WHITE); (11, BLACK)].

(** 7 x 7, BLACK on columns 2 to 4 of the first row, WHITE far away. *)
Definition black_three7 : SimpleGoBoard :=
  position 7 [(10, BLACK); (57, WHITE); (11, BLACK); (58, WHITE);
              (12, BLACK); (60, WHITE)].

(** The arrays that go with the grid: [neighbors] has an entry for every
    point and lists points of the grid; [liberty_of] has an entry for every
    point and holds points of the grid. *)
Definition in_range_b (s : SimpleGoBoard) (v : Z) : bool :=
  (0 <=? v) && (v <? maxpoint s).

Definition wf_neighbors (s : SimpleGoBoard) : bool :=
  (length (neighbors s) =? length (board s))%nat &&
  forallb (forallb (in_range_b s)) (neighbors s).

Definition liberties_ok (s : SimpleGoBoard) (l : list Z) : bool :=
  (length l =? length (board s))%nat && forallb (in_range_b s) l.

(** A board state. *)
Definition wf (s : SimpleGoBoard) : bool :=
  wf_grid s && wf_neighbors s && liberties_ok s (liberty_of s).

(** The board object differs from [s] in [liberty_of] at most. *)
Definition same_grid (s s' : SimpleGoBoard) : Prop :=
  s' = with_liberty_of s (liberty_of s').

(** The computation [m] returns from the board state [s] with a value
    that satisfies [Q], and leaves a board state that differs from [s] in
    [liberty_of] at most. *)
Definition returns {A} (m : BM A) (s : SimpleGoBoard) (Q : A -> Prop) : Prop :=
  exists a l,
    m s = Ok a (with_liberty_of s l) /\ liberties_ok s l = true /\ Q a.

(** The computation [m] leaves the board state [s] with the grid as it
    was: it returns a value that satisfies [Q], or it raises [TypeError];
    either way the state it leaves differs from [s] in [liberty_of] at
    most. *)
Definition leaves {A} (m : BM A) (s : SimpleGoBoard) (Q : A -> Prop) : Prop :=
  exists l,
    liberties_ok s l = true /\
    ((exists a, m s = Ok a (with_liberty_of s l) /\ Q a) \/
     m s = Raise TypeError (with_liberty_of s l)).

(** What the solver never changes: the time limit and the size of the
    grid. *)
Definition same_frame (g g' : GtpConnection) : Prop :=
  time g' = time g /\
  length (board (gboard g')) = length (board (gboard g)).

(** The colour [minimax] passes to its recursive calls. *)
Definition other (color : Z) : Z := if color =? 1 then 2 else 1.

(** [loop_reaches rec color turn moves draw_list g gc]: the loop of a
    node, started on [moves] in the state [g], makes a recursive call in
    the state [gc]: for the first move, or for a later one after the
    earlier moves have been evaluated without ending the loop. *)
Inductive loop_reaches (process_time : nat -> Z)
  (rec : Z -> Turn -> GM (Status * MoveVal)) (color : Z) (turn : Turn)
  : list Z -> list Z -> GtpConnection -> GtpConnection -> Prop :=
| reaches_first : forall move rest draw_list g g1,
    before_child color turn move g = Ok None g1 ->
    loop_reaches process_time rec color turn (move :: rest) draw_list g g1
| reaches_later : forall move rest draw_list g g1 mm_return g2 draw_list' g3 gc,
    before_child color turn move g = Ok None g1 ->
    rec (other color) (flip turn) g1 = Ok mm_return g2 ->
    after_child process_time turn move mm_return draw_list g2
    = Ok (inr draw_list') g3 ->
    loop_reaches process_time rec color turn rest draw_list' g3 gc ->
    loop_reaches process_time rec color turn (move :: rest) draw_list g gc.

(** [reaches fuel color turn g fuel' color' turn' g']: the call of
    [minimax] on [(color', turn')] in the state [g'] is the call on
    [(color, turn)] in the state [g] or is nested in it, at any depth. *)
Inductive reaches (list_of_set : list Z -> list Z) (process_time : nat -> Z)
  : nat -> Z -> Turn -> GtpConnection ->
    nat -> Z -> Turn -> GtpConnection -> Prop :=
| reaches_here : forall fuel color turn g,
    reaches list_of_set process_time fuel color turn g fuel color turn g
| reaches_below : forall fuel color turn g winner g0 moves g1 gc
                         fuel' color' turn' g',
    on_board check_game_end_gomoku g = Ok (false, winner) g0 ->
    on_board (order_the_point list_of_set color) g0 = Ok moves g1 ->
    loop_reaches process_time (minimax list_of_set process_time fuel)
      color turn moves [] g1 gc ->
    reaches list_of_set process_time fuel (other color) (flip turn) gc
      fuel' color' turn' g' ->
    reaches list_of_set process_time (S fuel) color turn g
      fuel' color' turn' g'.

(** 5 x 5, BLACK on columns 1 to 4 of the first row, column 5 empty. *)
Definition black_four5 : SimpleGoBoard :=
  position 5 [(7, BLACK); (13, WHITE); (8, BLACK); (14, WHITE); (9, BLACK);
              (15, WHITE); (10, BLACK); (19, WHITE)].

(** 5 x 5, BLACK on the diagonal from (1,1) to (4,4); the point (5,5) that
    completes the line is empty, between two WHITE stones and the corner. *)
Definition black_corner5 : SimpleGoBoard :=
  position 5 [(7, BLACK); (34, WHITE); (14, BLACK); (29, WHITE); (21, BLACK);
              (10, WHITE); (28, BLACK); (11, WHITE)].

(** A connection whose solver has been started at time 0 with a limit of
    one second. *)
Definition connection (b : SimpleGoBoard) : GtpConnection :=
  mkGtp b (Some 1) 0 0 "b"%string 1.

(** A clock that has passed every limit when it is read. *)
Definition late_clock (n : nat) : Z := 1000.

(** A clock that advances by a thousand seconds between two readings. *)
Definition stepping_clock (n : nat) : Z := 1000 * Z.of_nat n.

(** The colour [solve_cmd] searches for. *)
Definition solve_color (g : GtpConnection) : Z :=
  if String.eqb (toPlay g) "b"%string then 1 else 2.

(** The connection as [solve_cmd] has set it when it calls [minimax]:
    [s_time] read from the clock and [time_Used] zero. *)
Definition solve_start (process_time : nat -> Z) (g : GtpConnection)
  : GtpConnection :=
  mkGtp (gboard g) (time g) (process_time (ticks g)) 0 (toPlay g)
        (S (ticks g)).

(* ================================================================= *)
(** ** Further definitions used by the statements below *)

(** What [SimpleGoBoard(sz)] builds, as a test on the object. *)
Definition fresh_board_b (sz : Z) (b : SimpleGoBoard) : bool :=
  wf b && (size b =? sz) && (WE b =? 1) && (current_player b =? BLACK) &&
  match ko_recapture b with None => true | Some _ => false end &&
  forallb (fun v => (v =? EMPTY) || (v =? BORDER)) (board b) &&
  forallb (fun v => v =? NULLPOINT) (liberty_of b) &&
  (Z.of_nat (length (where1d (fun v => v =? EMPTY) (board b))) =? sz * sz).

Definition new_board_b (sz : Z) : bool :=
  match new_board sz with
  | Ok _ b => fresh_board_b sz b
  | Raise _ _ => false
  end.

(** The number of EMPTY cells. *)
Definition count_empty (s : SimpleGoBoard) : nat :=
  length (where1d (fun v => v =? EMPTY) (board s)).

(* ----------------------------------------------------------------- *)
(** *** The search of MCTS.py *)

(** The world in which the caller holds the board [b] and nothing else
    exists yet. *)
Definition world_of (b : SimpleGoBoard) : World := mkWorld [b] 0 0.

(** Clocks that advance by half a minute, or by a minute, between two
    readings, and the draws 0, 1, 2, ... *)
Definition half_minute_clock (n : nat) : Z := 30000 * Z.of_nat n.
Definition minute_clock (n : nat) : Z := 60000 * Z.of_nat n.
Definition counting (n : nat) : nat := n.

(** The empty 2 x 2 board, its signature, the signature after a BLACK
    stone on point 4, and the dict that holds the node of that move. *)
Definition empty2 : SimpleGoBoard := position 2 [].
Definition root2 : Signature := [0; 0; 0; 0].
Definition child2 : Signature := [0; 0; 1; 0].
Definition tree2 : Tree := [(child2, mkState 1 (pynum_of_int 0) root2 4)].

(** The exceptions of the program, which [except Exception] catches. *)
Definition caught (e : exn) : Prop := e <> OutOfFuel /\ e <> Stuck.

(** The reference [r] names the object [s]. *)
Definition obj (w : World) (r : Ref) (s : SimpleGoBoard) : Prop :=
  nth_error (heap w) r = Some s.

(** From [w] to [w'] no object is lost, the objects below [m] are as they
    were and the wall clock has not been read. *)
Definition keeps (m : nat) (w w' : World) : Prop :=
  (length (heap w) <= length (heap w'))%nat /\
  (forall k, (k < m)%nat -> nth_error (heap w') k = nth_error (heap w) k) /\
  clock_reads w' = clock_reads w.

(** The computation [c] returns a value that satisfies [Q], or raises an
    exception of the program; either way the objects below [m] are
    untouched. *)
Definition safe {A} (m : nat) (Q : A -> World -> Prop) (c : WM A) (w : World)
  : Prop :=
  match c w with
  | Ok a w' => keeps m w w' /\ Q a w'
  | Raise e w' => caught e /\ keeps m w w'
  end.

(** A board state [copy] accepts. *)
Definition copyable (s : SimpleGoBoard) : Prop :=
  wf s = true /\ size s <= MAXSIZE /\ WE s = 1.

(** PASS, or an empty point of [s]. *)
Definition legal_or_pass (s : SimpleGoBoard) (p : Point) : Prop :=
  match p with
  | None => True
  | Some m => cell_at s m = Some EMPTY
  end.

(** Every node of the dict holds a move on an empty point of [s]. *)
Definition tree_ok (s : SimpleGoBoard) (tree : Tree) : Prop :=
  forall k st, In (k, st) tree -> cell_at s (move st) = Some EMPTY.

(** No object is lost and the objects below [m] are as they were. *)
Definition untouched (m : nat) (w w' : World) : Prop :=
  (length (heap w) <= length (heap w'))%nat /\
  forall k, (k < m)%nat -> nth_error (heap w') k = nth_error (heap w) k.

(* ----------------------------------------------------------------- *)
(** *** The solver *)

(** The board object [b'] differs from the board state [b] in [liberty_of]
    and [current_player] at most. *)
Definition same_position (b b' : SimpleGoBoard) : Prop :=
  exists l cp,
    b' = with_current_player (with_liberty_of b l) cp /\
    liberties_ok b l = true.

(** How a call of the solver ends on the board state [b]: it returns with
    the position as it was, or it raises [TypeError]. *)
Definition settles {A} (b : SimpleGoBoard) (res : result GtpConnection A)
  : Prop :=
  match res with
  | Ok _ g' => same_position b (gboard g')
  | Raise e _ => e = TypeError
  end.

(** The board after [color] has played the empty point [p] of [b]. *)
Definition played (b : SimpleGoBoard) (p color : Z) : SimpleGoBoard :=
  with_current_player
    (with_board b (replace_nth (board b) (Z.to_nat p) color))
    (opponent color).

(* ----------------------------------------------------------------- *)
(** *** The statistics of the search *)





(* ----------------------------------------------------------------- *)
(** *** Boards and connections of the examples *)

(** 2 x 2 boards with two and with no empty point. *)
Definition half2 : SimpleGoBoard := position 2 [(4, BLACK); (5, WHITE)].
Definition full2 : SimpleGoBoard :=
  position 2 [(4, BLACK); (5, WHITE); (7, BLACK); (8, WHITE)].

(** The connection as [__init__] leaves it: no limit has been set. *)
Definition fresh_connection (b : SimpleGoBoard) : GtpConnection :=
  mkGtp b None 0 0 "b"%string 0.

(* ----------------------------------------------------------------- *)
(** *** The points [block_open_four] returns *)

(** Filling [p] with [color] gives, along the axis of step [d], a run of
    at least [n] cells with an EMPTY cell after exactly one of its two
    ends. *)
Definition half_open_run (s : SimpleGoBoard) (color n p d : Z) : Prop :=
  exists (jf jb : nat) (vf vb : Z),
    run_to s color p d jf vf /\
    run_to s color p (- d) jb vb /\
    n <= 1 + Z.of_nat jf + Z.of_nat jb /\
    (vf = EMPTY /\ vb <> EMPTY \/ vf <> EMPTY /\ vb = EMPTY).

(** The points [block_open_four] is after: a stone of [color] there would
    lie in a run of at least 3 with one EMPTY end, or of at least 4 with
    two. *)
Definition threat_at (s : SimpleGoBoard) (color q : Z) : Prop :=
  exists d, In d (dirs s) /\
            (half_open_run s color 3 q d \/ open_run s color 4 q d).

(* ================================================================= *)
(** ** Points as text: the coordinate functions of gtp_connection.py *)

(** What a text function can raise: an exception of [exn], or
    [ValueError]. *)
Inductive raised : Type :=
| Exn (e : exn)
| ValueError.

(** Outcome of a function on text.  The text of the protocol is ASCII and
    a Python [str] of ASCII characters is modelled by a [string] of
    characters below 128.  Python's [lower] and [int] treat the other
    characters by tables of Unicode, which are not modelled: on text
    with such a character the model answers [NotAscii]. *)
Inductive outcome (A : Type) : Type :=
| Returns (a : A)
| Raises (e : raised)
| NotAscii.

Arguments Returns {A} a.
Arguments Raises {A} e.
Arguments NotAscii {A}.

(** [ord(c)] *)
Definition ord (c : ascii) : Z := Z.of_nat (nat_of_ascii c).

Fixpoint all_ascii (s : string) : bool :=
  match s with
  | EmptyString => true
  | String c rest => (ord c <? 128) && all_ascii rest
  end.

(** [c.lower()] on an ASCII character. *)
Definition lower_char (c : ascii) : ascii :=
  if (ord "A"%char <=? ord c) && (ord c <=? ord "Z"%char)
  then ascii_of_nat (nat_of_ascii c + 32)
  else c.

(** [s.lower()] on ASCII text. *)
Fixpoint py_lower (s : string) : string :=
  match s with
  | EmptyString => EmptyString
  | String c rest => String (lower_char c) (py_lower rest)
  end.

(** [str(n)] for an integer. *)
Definition py_str (n : Z) : string :=
  NilZero.string_of_int (Z.to_int n).

(** The ASCII characters that [int] skips at both ends of its argument:
    tab, line feed, vertical tab, form feed, carriage return and the
    space. *)
Definition is_space (c : ascii) : bool :=
  let k := ord c in
  ((9 <=? k) && (k <=? 13)) || (k =? 32).

Definition is_digit (c : ascii) : bool :=
  (ord "0"%char <=? ord c) && (ord c <=? ord "9"%char).

Fixpoint lstrip (s : string) : string :=
  match s with
  | EmptyString => EmptyString
  | String c rest => if is_space c then lstrip rest else s
  end.

(** The text without the white space at its end. *)
Fixpoint rstrip (s : string) : string :=
  match s with
  | EmptyString => EmptyString
  | String c rest =>
      match rstrip rest with
      | EmptyString => if is_space c then EmptyString else String c EmptyString
      | r => String c r
      end
  end.

(** The digits of a decimal numeral; one underscore may stand between two
    digits.  [after_digit] tells that the character before was a digit. *)
Fixpoint digits (s : string) (acc : Z) (after_digit : bool) : option Z :=
  match s with
  | EmptyString => if after_digit then Some acc else None
  | String c rest =>
      if is_digit c then digits rest (10 * acc + (ord c - ord "0"%char)) true
      else if Ascii.eqb c "_"%char && after_digit then digits rest acc false
      else None
  end.

(** [int(s)] on ASCII text: [None] stands for [ValueError].  White space
    at both ends is skipped, one sign may come first.  (Numerals of
    several thousand digits, which recent versions of Python refuse, are
    read like the others.) *)
Definition py_int (s : string) : option Z :=
  match rstrip (lstrip s) with
  | String "-"%char rest =>
      match digits rest 0 false with
      | Some n => Some (- n)
      | None => None
      end
  | String "+"%char rest => digits rest 0 false
  | t => digits t 0 false
  end.

(** [point_to_coord(point, boardsize)]: [divmod] rounds towards minus
    infinity and fails on a divisor [0]. *)
Definition point_to_coord (point : Point) (boardsize : Z)
  : outcome (option (Z * Z)) :=
  match point with
  | None => Returns None
  | Some p =>
      let NS := boardsize + 1 in
      if NS =? 0 then Raises (Exn ZeroDivisionError)
      else Returns (Some (p / NS, p mod NS))
  end.

Definition column_letters : string := "ABCDEFGHJKLMNOPQRSTUVWXYZ"%string.

(** [format_point(move)] *)
Definition format_point (move : option (Z * Z)) : outcome string :=
  match move with
  | None => Returns "pass"%string
  | Some (row, col) =>
      if negb ((0 <=? row) && (row <? MAXSIZE))
         || negb ((0 <=? col) && (col <? MAXSIZE))
      then Raises ValueError
      else
        match py_get (list_ascii_of_string column_letters) (col - 1) with
        | Some c => Returns (String c (py_str row))
        | None => Raises (Exn IndexError)
        end
  end.

(** [move_to_coord(point_str, board_size)].  The [IndexError] of [s[0]]
    on the empty text and the [ValueError] of [int] are caught by the
    function and turned into [ValueError]. *)
Definition move_to_coord (point_str : string) (board_size : Z)
  : outcome (option (Z * Z)) :=
  if negb ((2 <=? board_size) && (board_size <=? MAXSIZE))
  then Raises ValueError
  else if negb (all_ascii point_str) then NotAscii
  else
    let s := py_lower point_str in
    if String.eqb s "pass"%string then Returns None
    else
      match s with
      | EmptyString => Raises ValueError
      | String col_c rest =>
          if negb ((ord "a"%char <=? ord col_c) && (ord col_c <=? ord "z"%char))
             || (ord col_c =? ord "i"%char)
          then Raises ValueError
          else
            let col := ord col_c - ord "a"%char in
            let col := if ord col_c <? ord "i"%char then col + 1 else col in
            match py_int rest with
            | None => Raises ValueError
            | Some row =>
                if row <? 1 then Raises ValueError
                else if negb ((col <=? board_size) && (row <=? board_size))
                then Raises ValueError
                else Returns (Some (row, col))
            end
      end.

(** A coordinate pair goes to text and back, on a board of size [n]. *)
Definition there_and_back (n row col : Z) : bool :=
  match format_point (Some (row, col)) with
  | Returns s =>
      match move_to_coord s n with
      | Returns (Some (r, c)) => (r =? row) && (c =? col)
      | _ => false
      end
  | _ => false
  end.

(* ================================================================= *)
(** ** Commands of gtp_connection.py that report on the board *)

(** A command hands its answer to [respond], which writes it to the
    output; the model of a command returns that answer. *)

(** [winner == BLACK] *)
Definition winner_is (winner : option Z) (color : Z) : bool :=
  match winner with
  | Some c => c =? color
  | None => false
  end.

Definition gogui_rules_final_result_cmd : BM string :=
  r <- check_game_end_gomoku ;;
  let '(game_end, winner) := r in
  moves <- get_empty_points ;;
  let board_full := (Z.of_nat (length moves) =? 0) in
  if board_full && negb game_end then ret "draw"%string
  else if game_end then
    ret (if winner_is winner BLACK then "black"%string else "white"%string)
  else ret "unknown"%string.

Definition gogui_rules_side_to_move_cmd : BM string :=
  s <- get_state ;;
  ret (if current_player s =? BLACK then "black"%string else "white"%string).

(** [for i in range(size): point = self.board.board[start + i] ...] *)
Fixpoint gogui_rules_board_row (cols : list Z) (start : Z) (str : string)
  : BM string :=
  match cols with
  | [] => ret str
  | i :: rest =>
      point <- get_color (start + i) ;;
      if point =? BLACK then
        gogui_rules_board_row rest start (str ++ "X")%string
      else if point =? WHITE then
        gogui_rules_board_row rest start (str ++ "O")%string
      else if point =? EMPTY then
        gogui_rules_board_row rest start (str ++ ".")%string
      else raise AssertionError
  end.

(** The line feed. *)
Definition newline : ascii := "010"%char.

(** [for row in range(size-1, -1, -1): ...] *)
Fixpoint gogui_rules_board_rows (rows : list Z) (size : Z) (str : string)
  : BM string :=
  match rows with
  | [] => ret str
  | row :: rest =>
      start <- row_start (row + 1) ;;
      str <- gogui_rules_board_row (py_range 0 size) start str ;;
      gogui_rules_board_rows rest size (str ++ String newline EmptyString)%string
  end.

Definition gogui_rules_board_cmd : BM string :=
  s <- get_state ;;
  let size := size s in
  gogui_rules_board_rows (rev (py_range 0 size)) size ""%string.

(** The character that shows a cell. *)
Definition mark_of (s : SimpleGoBoard) (q : Z) : ascii :=
  match cell_at s q with
  | Some v => if v =? BLACK then "X"%char
              else if v =? WHITE then "O"%char
              else "."%char
  | None => "."%char
  end.

(** The line of the text that shows a row, given by its number less 1. *)
Definition line_of (s : SimpleGoBoard) (row : Z) : list ascii :=
  map (fun i => mark_of s ((row + 1) * NS s + 1 + i)) (py_range 0 (size s))
  ++ [newline].

(* ================================================================= *)
(** ** The move of Go: [play_move] of simple_board.py *)

Definition with_ko_recapture (s : SimpleGoBoard) (k : option Z)
  : SimpleGoBoard :=
  mkBoard (size s) (NS s) (WE s) k (current_player s)
          (maxpoint s) (board s) (liberty_of s) (neighbors s).

(** [self.ko_recapture = k] *)
Definition set_ko_recapture (k : option Z) : BM unit :=
  fun s => Ok tt (with_ko_recapture s k).

Fixpoint _is_surrounded_loop (nbs : list Z) (color : Z) : BM bool :=
  match nbs with
  | [] => ret true
  | nb :: rest =>
      nb_color <- get_color nb ;;
      if negb (nb_color =? color) then ret false
      else _is_surrounded_loop rest color
  end.

Definition _is_surrounded (point color : Z) : BM bool :=
  nbs <- neighbors_at point ;;
  _is_surrounded_loop nbs color.

(** [a[indices] = v] for a list of indices of a numpy array: every index
    is checked (an index outside the array raises [IndexError] and nothing
    is written), then every cell named is set. *)
Fixpoint fancy_set {A} (l : list A) (indices : list Z) (v : A)
  : option (list A) :=
  match indices with
  | [] => Some l
  | i :: rest =>
      match py_set l i v with
      | Some l' => fancy_set l' rest v
      | None => None
      end
  end.

Definition _detect_and_process_capture (nb_point : Z) : BM (option Z) :=
  f <- _fast_liberty_check nb_point ;;
  if f then ret None else
  opp_block <- _block_of nb_point ;;
  h <- _has_liberty opp_block ;;
  if h then ret None else
  let captures := where1d (fun m => m) opp_block in
  s <- get_state ;;
  match fancy_set (board s) captures EMPTY with
  | None => raise IndexError
  | Some b =>
      put_state (with_board s b) ;;;
      s <- get_state ;;
      match fancy_set (liberty_of s) captures NULLPOINT with
      | None => raise IndexError
      | Some l =>
          put_state (with_liberty_of s l) ;;;
          ret (if Z.of_nat (length captures) =? 1 then Some nb_point
               else None)
      end
  end.

(** [for nb in neighbors: if self.board[nb] == opp_color: ...] *)
Fixpoint play_move_loop (nbs : list Z) (opp_color : Z)
  (single_captures : list Z) : BM (list Z) :=
  match nbs with
  | [] => ret single_captures
  | nb :: rest =>
      c <- get_color nb ;;
      if c =? opp_color then
        single_capture <- _detect_and_process_capture nb ;;
        match single_capture with
        | Some x => play_move_loop rest opp_color (single_captures ++ [x])
        | None => play_move_loop rest opp_color single_captures
        end
      else play_move_loop rest opp_color single_captures
  end.

Definition play_move (point : Point) (color : Z) : BM bool :=
  py_assert (is_black_white color) ;;;
  match point with
  | None =>
      set_ko_recapture None ;;;
      set_current_player (opponent color) ;;;
      ret true
  | Some p =>
      c <- get_color p ;;
      if negb (c =? EMPTY) then ret false else
      s <- get_state ;;
      if point_eqb point (ko_recapture s) then ret false else
      let opp_color := opponent color in
      in_enemy_eye <- _is_surrounded p opp_color ;;
      set_color p color ;;;
      neighbors <- neighbors_at p ;;
      single_captures <- play_move_loop neighbors opp_color [] ;;
      h <- _stone_has_liberty p ;;
      suicide <- (if negb h then
                    block <- _block_of p ;;
                    hl <- _has_liberty block ;;
                    ret (negb hl)
                  else ret false) ;;
      if suicide then
        set_color p EMPTY ;;;
        ret false
      else
        set_ko_recapture None ;;;
        (if in_enemy_eye && (Z.of_nat (length single_captures) =? 1) then
           match single_captures with
           | x :: _ => set_ko_recapture (Some x)
           | [] => raise IndexError
           end
         else ret tt) ;;;
        set_current_player (opponent color) ;;;
        ret true
  end.

(** What the captures of a move change: stones of [color] may have become
    EMPTY; every other cell, the dimensions, the ko point, the side to move
    and [neighbors] are as they were. *)
Definition captured (color : Z) (t t' : SimpleGoBoard) : Prop :=
  size t' = size t /\ NS t' = NS t /\ WE t' = WE t /\
  maxpoint t' = maxpoint t /\ neighbors t' = neighbors t /\
  ko_recapture t' = ko_recapture t /\
  current_player t' = current_player t /\
  forall q, cell_at t' q = cell_at t q \/
            (cell_at t q = Some color /\ cell_at t' q = Some EMPTY).

(** The points of a list that hold a stone of [color]. *)
Definition stones_of (t : SimpleGoBoard) (color : Z) (nbs : list Z) : list Z :=
  filter (fun x => match cell_at t x with
                   | Some v => v =? color
                   | None => false
                   end) nbs.

(** 5 x 5: a white stone in the corner, with a black stone on one of its
    two neighbours. *)
Definition white_corner5 : SimpleGoBoard :=
  position 5 [(7, WHITE); (8, BLACK)].

(* ================================================================= *)
(** ** Moves that complete a row: [check_game_end_move_gomoku] *)

(** [_direction_check_connect_gomoko]: the body of this method is that of
    [direction_check_connect_gomoko], statement for statement. *)
Definition _direction_check_connect_gomoko (point shift max : Z)
  : BM (bool * list Z) :=
  direction_check_connect_gomoko point shift max.

(** [point_check_game_end_move_gomoku]: the list of a direction, or
    [None] for [False]. *)
Definition point_check_game_end_move_gomoku (point max : Z)
  : BM (option (list Z)) :=
  s <- get_state ;;
  r <- _direction_check_connect_gomoko point 1 max ;;
  let '(check, pointToWin) := r in
  if check then ret (Some pointToWin) else
  r <- _direction_check_connect_gomoko point (NS s) max ;;
  let '(check, pointToWin) := r in
  if check then ret (Some pointToWin) else
  r <- _direction_check_connect_gomoko point (NS s + 1) max ;;
  let '(check, pointToWin) := r in
  if check then ret (Some pointToWin) else
  r <- _direction_check_connect_gomoko point (NS s - 1) max ;;
  let '(check, pointToWin) := r in
  if check then ret (Some pointToWin) else
  ret None.

(** [if pointWin:] holds of a list that is not empty. *)
Definition truthy_list (r : option (list Z)) : bool :=
  match r with
  | Some (_ :: _) => true
  | _ => false
  end.

Definition list_of (r : option (list Z)) : list Z :=
  match r with
  | Some l => l
  | None => []
  end.

(** [for point in points: ... if pointWin: win.append(pointWin)] *)
Fixpoint check_move_loop (points : list Z) (max : Z) (win : list (list Z))
  : BM (list (list Z)) :=
  match points with
  | [] => ret win
  | point :: rest =>
      pointWin <- point_check_game_end_move_gomoku point max ;;
      if truthy_list pointWin
      then check_move_loop rest max (win ++ [list_of pointWin])
      else check_move_loop rest max win
  end.

(** The two results are [(True, win)] and [(False, None)]. *)
Definition check_game_end_move_gomoku (color max : Z)
  : BM (bool * option (list (list Z))) :=
  s <- get_state ;;
  let white_points := where1d (fun c => c =? WHITE) (board s) in
  let black_points := where1d (fun c => c =? BLACK) (board s) in
  let win := [] in
  if color =? 2 then
    win <- check_move_loop white_points max win ;;
    if Z.of_nat (length win) >? 0 then ret (true, Some win)
    else ret (false, None)
  else
    win <- check_move_loop black_points max win ;;
    if Z.of_nat (length win) >? 0 then ret (true, Some win)
    else ret (false, None).

(** [pointWin in win] *)
Definition mem_list (x : list Z) (l : list (list Z)) : bool :=
  existsb (fun y => if list_eq_dec Z.eq_dec x y then true else false) l.

(** [for point in points: ... if pointWin and pointWin not in win:
    win.append(pointWin)] *)
Fixpoint counterwin_loop (points : list Z) (max : Z) (win : list (list Z))
  : BM (list (list Z)) :=
  match points with
  | [] => ret win
  | point :: rest =>
      pointWin <- point_check_game_end_move_gomoku point max ;;
      if truthy_list pointWin && negb (mem_list (list_of pointWin) win)
      then counterwin_loop rest max (win ++ [list_of pointWin])
      else counterwin_loop rest max win
  end.

Definition check_game_end_move_gomoku_win_counterwin (max : Z)
  : BM (list (list Z) * list (list Z)) :=
  s <- get_state ;;
  let white_points := where1d (fun c => c =? WHITE) (board s) in
  let black_points := where1d (fun c => c =? BLACK) (board s) in
  win <- counterwin_loop white_points max [] ;;
  blackwin <- counterwin_loop black_points max [] ;;
  ret (win, blackwin).

(** The point [q] is EMPTY and the [n] cells after it in steps of [e] hold
    [color]: a stone of that colour on [q] heads a row of [n + 1]. *)
Definition completes (s : SimpleGoBoard) (color n q e : Z) : Prop :=
  cell_at s q = Some EMPTY /\
  forall i, 1 <= i <= n -> cell_at s (q + i * e) = Some color.

(** The same along one of the four axes, in either direction. *)
Definition winning_point (s : SimpleGoBoard) (color n q : Z) : Prop :=
  exists d, In d (dirs s) /\
            (completes s color n q d \/ completes s color n q (- d)).

(** Every list of [win] has a point, and all its points are such
    points. *)
Definition winning_lists (s : SimpleGoBoard) (color n : Z)
  (win : list (list Z)) : Prop :=
  forall pw, In pw win ->
    pw <> [] /\ forall q, In q pw -> winning_point s color n q.

(* ================================================================= *)
(** * Properties *)

(** ** Python indexing *)

Lemma replace_nth_length {A} (l : list A) k v :
  length (replace_nth l k v) = length l.
Proof.
  revert k; induction l as [|h t IH]; intros [|k]; simpl; auto.
Qed.

Lemma replace_nth_same {A} (l : list A) k v :
  nth_error l k = Some v -> replace_nth l k v = l.
Proof.
  revert k; induction l as [|h t IH]; intros [|k]; simpl; intros H;
    try discriminate.
  - now inversion H.
  - now rewrite IH.
Qed.

Lemma replace_nth_twice {A} (l : list A) k v w :
  replace_nth (replace_nth l k v) k w = replace_nth l k w.
Proof.
  revert k; induction l as [|h t IH]; intros [|k]; simpl; auto.
  now rewrite IH.
Qed.

Lemma nth_error_replace_nth_eq {A} (l : list A) k v :
  (k < length l)%nat -> nth_error (replace_nth l k v) k = Some v.
Proof.
  revert k; induction l as [|h t IH]; intros [|k]; simpl; intros H;
    try lia; auto.
  apply IH; lia.
Qed.

Lemma nth_error_replace_nth_neq {A} (l : list A) k j v :
  k <> j -> nth_error (replace_nth l k v) j = nth_error l j.
Proof.
  revert k j; induction l as [|h t IH]; intros [|k] [|j]; simpl; intros H;
    auto; try congruence.
Qed.

Lemma normalize_index_lt n i k :
  normalize_index n i = Some k -> (k < n)%nat.
Proof.
  unfold normalize_index.
  destruct (0 <=? i) eqn:E0.
  - destruct (i <? Z.of_nat n) eqn:E1; intros H; inversion H; subst. lia.
  - destruct (- Z.of_nat n <=? i) eqn:E1; intros H; inversion H; subst. lia.
Qed.

Lemma py_get_some_norm {A} (l : list A) i v :
  py_get l i = Some v ->
  exists k, normalize_index (length l) i = Some k /\ nth_error l k = Some v.
Proof.
  unfold py_get. destruct (normalize_index (length l) i) as [k|]; intros H.
  - now exists k.
  - discriminate.
Qed.

(** Writing back the value a cell holds leaves the array as it is. *)
Lemma py_set_same {A} (l : list A) i v :
  py_get l i = Some v -> py_set l i v = Some l.
Proof.
  intros H. destruct (py_get_some_norm _ _ _ H) as (k & Hk & Hn).
  unfold py_set. rewrite Hk. now rewrite replace_nth_same.
Qed.

Lemma py_set_set {A} (l l1 : list A) i v w :
  py_set l i v = Some l1 -> py_set l1 i w = py_set l i w.
Proof.
  unfold py_set. destruct (normalize_index (length l) i) as [k|] eqn:Hk;
    intros H; inversion H; subst.
  rewrite replace_nth_length, Hk. now rewrite replace_nth_twice.
Qed.

Lemma py_get_set_defined {A} (l : list A) i v w :
  py_get l i = Some v -> exists l1, py_set l i w = Some l1.
Proof.
  intros H. destruct (py_get_some_norm _ _ _ H) as (k & Hk & _).
  unfold py_set. rewrite Hk. eauto.
Qed.

(** ** Playing and taking back a move *)

Lemma opponent_involutive c : opponent (opponent c) = c.
Proof. unfold opponent, WHITE, BLACK. lia. Qed.

Lemma opponent_injective c d : opponent c = opponent d -> c = d.
Proof. unfold opponent. lia. Qed.

(** C3. A move on a point whose cell is not EMPTY returns [False] and
    leaves the board object as it was: every cell of the grid and
    [current_player] (and every other attribute) keep their values. *)
Theorem play_move_gomoku_occupied :
  forall (s : SimpleGoBoard) (point color v : Z),
    is_black_white color = true ->
    py_get (board s) point = Some v ->
    v <> EMPTY ->
    play_move_gomoku (Some point) color s = Ok false s.
Proof.
  intros s point color v Hc Hget Hv.
  unfold play_move_gomoku, bind, py_assert. rewrite Hc. simpl.
  unfold get_color. rewrite Hget.
  destruct (v =? EMPTY) eqn:E; [apply Z.eqb_eq in E; contradiction|].
  reflexivity.
Qed.

Lemma play_move_gomoku_occupied_witness :
  play_move_gomoku (Some 4) WHITE (position 2 [(4, BLACK)])
  = Ok false (position 2 [(4, BLACK)]).
Proof.
  apply (play_move_gomoku_occupied (position 2 [(4, BLACK)]) 4 WHITE BLACK).
  - reflexivity.
  - vm_compute; reflexivity.
  - discriminate.
Defined.

(** Whatever the colour, a move on an occupied point changes nothing: with
    a colour that is not a player's the assertion fails before the board
    is touched. *)
Lemma play_move_gomoku_occupied_frame :
  forall (s : SimpleGoBoard) (point color v : Z),
    py_get (board s) point = Some v ->
    v <> EMPTY ->
    play_move_gomoku (Some point) color s = Ok false s \/
    play_move_gomoku (Some point) color s = Raise AssertionError s.
Proof.
  intros s point color v Hget Hv.
  destruct (is_black_white color) eqn:Hc.
  - left. eapply play_move_gomoku_occupied; eauto.
  - right. unfold play_move_gomoku, bind, py_assert. now rewrite Hc.
Qed.

(** What a successful move does. *)
Lemma play_move_gomoku_empty :
  forall (s : SimpleGoBoard) (point color : Z),
    is_black_white color = true ->
    py_get (board s) point = Some EMPTY ->
    exists b,
      py_set (board s) point color = Some b /\
      play_move_gomoku (Some point) color s
      = Ok true (with_current_player (with_board s b) (opponent color)).
Proof.
  intros s point color Hc Hget.
  destruct (py_get_set_defined _ _ _ color Hget) as (b & Hb).
  exists b; split; auto.
  unfold play_move_gomoku, bind, py_assert. rewrite Hc. simpl.
  unfold get_color. rewrite Hget. simpl.
  unfold set_color. rewrite Hb. reflexivity.
Qed.

Lemma play_move_gomoku_true_inv :
  forall (s s1 : SimpleGoBoard) (point : Point) (color : Z),
    play_move_gomoku point color s = Ok true s1 ->
    exists p b,
      point = Some p /\ is_black_white color = true /\
      py_get (board s) p = Some EMPTY /\
      py_set (board s) p color = Some b /\
      s1 = with_current_player (with_board s b) (opponent color).
Proof.
  intros s s1 point color.
  unfold play_move_gomoku, bind, py_assert.
  destruct (is_black_white color) eqn:Hc; simpl; [|discriminate].
  destruct point as [p|]; simpl; [|discriminate].
  unfold get_color.
  destruct (py_get (board s) p) as [v|] eqn:Hget; [|discriminate].
  destruct (v =? EMPTY) eqn:E; simpl; [|discriminate].
  apply Z.eqb_eq in E; subst v.
  unfold set_color.
  destruct (py_set (board s) p color) as [b|] eqn:Hb; simpl; [|discriminate].
  intros H; inversion H; subst.
  exists p, b; auto.
Qed.

(** C4 does not hold for every point: on an occupied point the move is
    refused and [undo] then empties the cell. *)
Lemma play_undo_occupied_counterexample :
  ~ (forall (s s1 s2 : SimpleGoBoard) (p c : Z) (r : bool),
        play_move_gomoku (Some p) c s = Ok r s1 ->
        undo p s1 = Ok tt s2 ->
        board s2 = board s).
Proof.
  intros H.
  assert (E1 : play_move_gomoku (Some 4) WHITE (position 2 [(4, BLACK)])
               = Ok false (position 2 [(4, BLACK)]))
    by (vm_compute; reflexivity).
  assert (E2 : undo 4 (position 2 [(4, BLACK)])
               = Ok tt (with_current_player (position 2 []) WHITE))
    by (vm_compute; reflexivity).
  assert (E3 : board (with_current_player (position 2 []) WHITE)
               <> board (position 2 [(4, BLACK)]))
    by (vm_compute; discriminate).
  exact (E3 (H _ _ _ _ _ _ E1 E2)).
Qed.

(** C4, amended. On a point whose cell is EMPTY, a move followed by [undo]
    of that point restores the grid: every cell has the value it had before
    the move.  ([current_player] is left to the caller.) *)
Theorem play_undo_restores_grid :
  forall (s : SimpleGoBoard) (p c : Z),
    is_black_white c = true ->
    py_get (board s) p = Some EMPTY ->
    exists s1 s2,
      play_move_gomoku (Some p) c s = Ok true s1 /\
      undo p s1 = Ok tt s2 /\
      board s2 = board s /\
      s2 = with_current_player s (opponent c).
Proof.
  intros s p c Hc Hget.
  destruct (play_move_gomoku_empty s p c Hc Hget) as (b & Hb & Hplay).
  exists (with_current_player (with_board s b) (opponent c)).
  assert (Hback : py_set b p 0 = Some (board s)).
  { rewrite (py_set_set _ _ _ _ _ Hb). now apply py_set_same. }
  exists (with_current_player s (opponent c)).
  split; [exact Hplay|].
  unfold undo, set_color. simpl. rewrite Hback. simpl.
  repeat split.
Qed.

Lemma play_undo_restores_grid_witness :
  exists s1 s2,
    play_move_gomoku (Some 5) WHITE (position 2 [(4, BLACK)]) = Ok true s1 /\
    undo 5 s1 = Ok tt s2 /\
    board s2 = board (position 2 [(4, BLACK)]) /\
    s2 = with_current_player (position 2 [(4, BLACK)]) (opponent WHITE).
Proof.
  apply (play_undo_restores_grid (position 2 [(4, BLACK)]) 5 WHITE);
    vm_compute; reflexivity.
Defined.

(** C9 does not hold for every colour argument: a move of the colour that
    is not to play leaves [current_player] as it was. *)
Lemma current_player_flip_counterexample :
  ~ (forall (s s1 : SimpleGoBoard) (p c : Z),
        play_move_gomoku (Some p) c s = Ok true s1 ->
        current_player s1 = opponent (current_player s)).
Proof.
  intros H.
  assert (E : play_move_gomoku (Some 4) WHITE (position 2 [])
              = Ok true (with_current_player (position 2 [(4, WHITE)]) BLACK))
    by (vm_compute; reflexivity).
  assert (E' : current_player
                 (with_current_player (position 2 [(4, WHITE)]) BLACK)
               <> opponent (current_player (position 2 [])))
    by (vm_compute; discriminate).
  exact (E' (H _ _ _ _ E)).
Qed.

(** C9, amended. After a successful move [current_player] is the opponent
    of the colour that was played; it is the opponent of the value it held
    before the call exactly when that value was the colour played. *)
Theorem play_move_gomoku_current_player :
  forall (s s1 : SimpleGoBoard) (point : Point) (color : Z),
    play_move_gomoku point color s = Ok true s1 ->
    current_player s1 = opponent color /\
    (current_player s1 = opponent (current_player s) <->
     color = current_player s).
Proof.
  intros s s1 point color H.
  destruct (play_move_gomoku_true_inv _ _ _ _ H)
    as (p & b & _ & _ & _ & _ & ->).
  simpl. split; [reflexivity|].
  split; intros E.
  - now apply opponent_injective.
  - now rewrite E.
Qed.

Lemma play_move_gomoku_current_player_witness :
  current_player (position 2 [(4, BLACK)]) = opponent BLACK /\
  (current_player (position 2 [(4, BLACK)])
   = opponent (current_player (position 2 [])) <->
   BLACK = current_player (position 2 [])).
Proof.
  apply (play_move_gomoku_current_player (position 2 []) _ (Some 4) BLACK).
  vm_compute; reflexivity.
Defined.

(* ================================================================= *)
(** ** The grid of a board state *)

Lemma cells_ok_from_nth sz ns l i k v :
  cells_ok_from sz ns l i = true ->
  nth_error l k = Some v ->
  cell_ok sz ns (i + Z.of_nat k) v = true.
Proof.
  revert i k; induction l as [|h t IH]; intros i [|k] H Hn; simpl in *;
    try discriminate; apply andb_prop in H; destruct H as [H1 H2].
  - inversion Hn; subst. now rewrite Z.add_0_r.
  - replace (i + Z.pos (Pos.of_succ_nat k)) with (i + 1 + Z.of_nat k) by lia.
    now apply IH.
Qed.

Lemma where1d_from_In {A} (f : A -> bool) l i q :
  In q (where1d_from f l i) <->
  exists k x, nth_error l k = Some x /\ f x = true /\ q = i + Z.of_nat k.
Proof.
  revert i; induction l as [|h t IH]; intros i; simpl.
  - split; [tauto|]. intros (k & x & H & _). now destruct k.
  - destruct (f h) eqn:E; simpl; rewrite IH; split.
    + intros [<-|(k & x & H1 & H2 & H3)].
      * exists 0%nat, h. simpl. repeat split; auto. lia.
      * exists (S k), x. simpl. repeat split; auto. lia.
    + intros ([|k] & x & H1 & H2 & H3); simpl in H1.
      * left. inversion H1; subst. lia.
      * right. exists k, x. repeat split; auto. lia.
    + intros (k & x & H1 & H2 & H3).
      exists (S k), x. simpl. repeat split; auto. lia.
    + intros ([|k] & x & H1 & H2 & H3); simpl in H1.
      * inversion H1; subst. congruence.
      * exists k, x. repeat split; auto. lia.
Qed.

Lemma where1d_from_lower {A} (f : A -> bool) l i q :
  In q (where1d_from f l i) -> i <= q.
Proof.
  rewrite where1d_from_In. intros (k & x & _ & _ & ->). lia.
Qed.

(** [where1d] lists the indices in increasing order. *)
Lemma where1d_from_sorted {A} (f : A -> bool) l i :
  StronglySorted Z.lt (where1d_from f l i).
Proof.
  revert i; induction l as [|h t IH]; intros i; simpl.
  - constructor.
  - destruct (f h); auto.
    constructor; auto.
    apply Forall_forall. intros q Hq. apply where1d_from_lower in Hq. lia.
Qed.

Section Grid.

Variable s : SimpleGoBoard.
Hypothesis Hwf : wf_grid s = true.

Lemma wf_size : 2 <= size s.
Proof.
  unfold wf_grid in Hwf. repeat (apply andb_prop in Hwf; destruct Hwf as [Hwf ?]).
  lia.
Qed.

Lemma wf_NS : NS s = size s + 1.
Proof.
  unfold wf_grid in Hwf. repeat (apply andb_prop in Hwf; destruct Hwf as [Hwf ?]).
  lia.
Qed.

Lemma wf_maxpoint : maxpoint s = size s * size s + 3 * (size s + 1).
Proof.
  unfold wf_grid in Hwf. repeat (apply andb_prop in Hwf; destruct Hwf as [Hwf ?]).
  lia.
Qed.

Lemma wf_length : Z.of_nat (length (board s)) = maxpoint s.
Proof.
  unfold wf_grid in Hwf. repeat (apply andb_prop in Hwf; destruct Hwf as [Hwf ?]).
  lia.
Qed.

Lemma wf_cell_ok p v :
  cell_at s p = Some v -> cell_ok (size s) (NS s) p v = true.
Proof.
  unfold cell_at. destruct (p <? 0) eqn:E; [discriminate|].
  intros H. apply Z.ltb_ge in E.
  assert (Hc : cells_ok_from (size s) (NS s) (board s) 0 = true).
  { unfold wf_grid in Hwf. now apply andb_prop in Hwf. }
  pose proof (cells_ok_from_nth _ _ _ _ _ _ Hc H) as HH.
  now rewrite Z2Nat.id in HH by lia.
Qed.

Lemma cell_at_range p v : cell_at s p = Some v -> 0 <= p < maxpoint s.
Proof.
  unfold cell_at. destruct (p <? 0) eqn:E; [discriminate|].
  intros H. apply Z.ltb_ge in E.
  assert (Hk : (Z.to_nat p < length (board s))%nat)
    by (apply nth_error_Some; congruence).
  rewrite <- wf_length. lia.
Qed.

Lemma cell_at_defined p : 0 <= p < maxpoint s -> exists v, cell_at s p = Some v.
Proof.
  intros Hp. unfold cell_at.
  destruct (p <? 0) eqn:E; [apply Z.ltb_lt in E; lia|].
  destruct (nth_error (board s) (Z.to_nat p)) as [v|] eqn:Hn; eauto.
  apply nth_error_None in Hn. rewrite <- wf_length in Hp. lia.
Qed.

(** Reading a cell of the grid. *)
Lemma get_color_cell p v : cell_at s p = Some v -> get_color p s = Ok v s.
Proof.
  intros H. pose proof (cell_at_range _ _ H) as Hr.
  unfold cell_at in H. destruct (p <? 0) eqn:E; [discriminate|].
  unfold get_color, py_get, normalize_index.
  replace (0 <=? p) with true by (symmetry; apply Z.leb_le; lia).
  replace (p <? Z.of_nat (length (board s))) with true
    by (symmetry; apply Z.ltb_lt; rewrite wf_length; lia).
  now rewrite H.
Qed.

Lemma py_get_cell p : 0 <= p -> py_get (board s) p = cell_at s p.
Proof.
  intros Hp. unfold py_get, normalize_index, cell_at.
  replace (0 <=? p) with true by (symmetry; apply Z.leb_le; lia).
  replace (p <? 0) with false by (symmetry; apply Z.ltb_ge; lia).
  destruct (p <? Z.of_nat (length (board s))) eqn:E; auto.
  symmetry. apply nth_error_None. apply Z.ltb_ge in E. lia.
Qed.

(** Where the playable points lie. *)
Lemma on_board_range p :
  on_board_b s p = true -> NS s + 1 <= p <= size s * NS s + size s.
Proof.
  unfold on_board_b, playable. intros H.
  repeat (apply andb_prop in H; destruct H as [H ?]).
  pose proof wf_size. pose proof wf_NS.
  assert (HNS : 0 < NS s) by lia.
  pose proof (Z.div_mod p (NS s) ltac:(lia)) as Hdm.
  apply Z.leb_le in H, H0, H1, H2.
  nia.
Qed.

(** A stone lies on a playable point. *)
Lemma stone_on_board c p :
  is_black_white c = true -> cell_at s p = Some c -> on_board_b s p = true.
Proof.
  intros Hc H. apply wf_cell_ok in H. unfold cell_ok in H.
  unfold on_board_b. destruct (playable (size s) (NS s) p); auto.
  unfold is_black_white, BLACK, WHITE, BORDER in *.
  apply Z.eqb_eq in H. subst c. discriminate.
Qed.

Lemma In_dirs d : In d (dirs s) -> 1 <= d <= NS s + 1.
Proof.
  pose proof wf_size. pose proof wf_NS.
  unfold dirs. simpl. intros [<-|[<-|[<-|[<-|[]]]]]; lia.
Qed.

(** One step along an axis from a stone, in either direction, stays inside
    the array. *)
Lemma step_defined c p d :
  is_black_white c = true -> cell_at s p = Some c -> In d (dirs s) ->
  (exists v, cell_at s (p + d) = Some v) /\
  (exists v, cell_at s (p + - d) = Some v).
Proof.
  intros Hc H Hd.
  pose proof (on_board_range _ (stone_on_board _ _ Hc H)) as Hr.
  pose proof (In_dirs _ Hd) as Hd'. pose proof wf_size as Hs.
  pose proof wf_NS as HN. pose proof wf_maxpoint as Hm.
  rewrite HN in Hr, Hd'.
  split; apply cell_at_defined; rewrite Hm; lia.
Qed.

Lemma scan_fuel_enough : (5 <= scan_fuel s)%nat.
Proof.
  unfold scan_fuel. pose proof wf_length. pose proof wf_maxpoint.
  pose proof wf_size. nia.
Qed.

(** *** The capped scan of [_point_direction_check_connect_gomoko] *)

Lemma connect5_loop_stop fuel color d p count v :
  cell_at s (p + d) = Some v -> v <> color ->
  connect5_loop (S fuel) color d p count s = Ok count s.
Proof.
  intros H Hv. simpl. unfold bind. rewrite (get_color_cell _ _ H).
  destruct (v =? color) eqn:E; [apply Z.eqb_eq in E; contradiction|].
  reflexivity.
Qed.

Lemma connect5_loop_hit fuel color d p count :
  cell_at s (p + d) = Some color -> count + 1 = 5 ->
  connect5_loop (S fuel) color d p count s = Ok 5 s.
Proof.
  intros H Hc. simpl. unfold bind. rewrite (get_color_cell _ _ H).
  rewrite Z.eqb_refl, Hc. reflexivity.
Qed.

Lemma connect5_loop_step fuel color d p count :
  cell_at s (p + d) = Some color -> count + 1 <> 5 ->
  connect5_loop (S fuel) color d p count s
  = connect5_loop fuel color d (p + d) (count + 1) s.
Proof.
  intros H Hc. simpl. unfold bind. rewrite (get_color_cell _ _ H).
  rewrite Z.eqb_refl.
  destruct (count + 1 =? 5) eqn:E; [apply Z.eqb_eq in E; contradiction|].
  reflexivity.
Qed.

(** The scan reaches 5 when the [k] cells that are missing all match. *)
Lemma connect5_loop_all color d (k : nat) :
  forall fuel p count,
    (k <= fuel)%nat -> (1 <= k)%nat -> count + Z.of_nat k = 5 ->
    (forall i, 1 <= i <= Z.of_nat k -> cell_at s (p + i * d) = Some color) ->
    connect5_loop fuel color d p count s = Ok 5 s.
Proof.
  induction k as [|k IH]; intros fuel p count Hf Hk Hc Hall; [lia|].
  destruct fuel as [|fuel]; [lia|].
  assert (H1 : cell_at s (p + d) = Some color).
  { specialize (Hall 1). rewrite Z.mul_1_l in Hall. apply Hall. lia. }
  destruct k as [|k].
  - apply connect5_loop_hit; [exact H1 | simpl in Hc; lia].
  - rewrite connect5_loop_step by (auto; lia).
    apply IH; try lia.
    intros i Hi. replace (p + d + i * d) with (p + (i + 1) * d) by lia.
    apply Hall. lia.
Qed.

(** The scan stops at the first cell that does not match. *)
Lemma connect5_loop_upto color d (j : nat) :
  forall fuel p count v,
    (j < fuel)%nat -> count + Z.of_nat j < 5 ->
    (forall i, 1 <= i <= Z.of_nat j -> cell_at s (p + i * d) = Some color) ->
    cell_at s (p + (Z.of_nat j + 1) * d) = Some v -> v <> color ->
    connect5_loop fuel color d p count s = Ok (count + Z.of_nat j) s.
Proof.
  induction j as [|j IH]; intros fuel p count v Hf Hc Hall Hv Hne;
    (destruct fuel as [|fuel]; [lia|]).
  - replace (p + (Z.of_nat 0 + 1) * d) with (p + d) in Hv by lia.
    rewrite (connect5_loop_stop _ _ _ _ _ _ Hv Hne). f_equal. simpl. lia.
  - assert (H1 : cell_at s (p + d) = Some color).
    { specialize (Hall 1). rewrite Z.mul_1_l in Hall. apply Hall. lia. }
    rewrite connect5_loop_step by (auto; lia).
    rewrite (IH fuel (p + d) (count + 1) v); try lia; auto.
    + f_equal. lia.
    + intros i Hi. replace (p + d + i * d) with (p + (i + 1) * d) by lia.
      apply Hall. lia.
    + replace (p + d + (Z.of_nat j + 1) * d)
        with (p + (Z.of_nat (S j) + 1) * d) by lia.
      exact Hv.
Qed.

(** Along a step, either the next [k] cells all match or there is a first
    one that does not. *)
Lemma first_mismatch color p d (k : nat) :
  (forall i, 1 <= i <= Z.of_nat k -> cell_at s (p + i * d) = Some color) \/
  (exists j : nat, (j < k)%nat /\
     (forall i, 1 <= i <= Z.of_nat j -> cell_at s (p + i * d) = Some color) /\
     cell_at s (p + (Z.of_nat j + 1) * d) <> Some color).
Proof.
  induction k as [|k IH].
  - left. intros i Hi. lia.
  - destruct IH as [Hall|(j & Hj & Hall & Hne)].
    + destruct (cell_at s (p + (Z.of_nat k + 1) * d)) as [v|] eqn:E.
      * destruct (Z.eq_dec v color) as [->|Hv].
        -- left. intros i Hi.
           destruct (Z.eq_dec i (Z.of_nat k + 1)) as [->|]; auto.
           apply Hall. lia.
        -- right. exists k. repeat split; auto. rewrite E. congruence.
      * right. exists k. repeat split; auto. rewrite E. congruence.
    + right. exists j. repeat split; auto.
Qed.

Lemma five_from_b_spec c p d : five_from_b s c p d = true <-> five_from s c p d.
Proof.
  unfold five_from_b, five_from, cell_is. rewrite forallb_forall. split.
  - intros H i Hi.
    assert (Hin : In i [0; 1; 2; 3; 4]) by (simpl; lia).
    specialize (H i Hin).
    destruct (cell_at s (p + i * d)) as [v|]; [|discriminate].
    apply Z.eqb_eq in H. now subst.
  - intros H i Hin. rewrite H; [apply Z.eqb_refl|].
    simpl in Hin. lia.
Qed.

Section Direction.

Variables c p d : Z.
Hypothesis Hc : is_black_white c = true.
Hypothesis Hp : cell_at s p = Some c.
Hypothesis Hd : In d (dirs s).
(** No run of five starts at a lower index along this axis. *)
Hypothesis Hmin : forall q, q < p -> ~ five_from s c q d.

Lemma dir_pos : 1 <= d.
Proof. now apply In_dirs. Qed.

(** The cell after a run of matching cells is inside the array. *)
Lemma after_run_defined (e : Z) (j : nat) :
  e = d \/ e = - d ->
  (forall i, 1 <= i <= Z.of_nat j -> cell_at s (p + i * e) = Some c) ->
  exists v, cell_at s (p + (Z.of_nat j + 1) * e) = Some v.
Proof.
  intros He Hall.
  assert (Hlast : cell_at s (p + Z.of_nat j * e) = Some c).
  { destruct j as [|j].
    - simpl. now rewrite Z.add_0_r.
    - apply Hall. lia. }
  destruct (step_defined _ _ _ Hc Hlast Hd) as [[v1 H1] [v2 H2]].
  destruct He as [->| ->].
  - exists v1. now replace (p + (Z.of_nat j + 1) * d)
      with (p + Z.of_nat j * d + d) by lia.
  - exists v2. now replace (p + (Z.of_nat j + 1) * - d)
      with (p + Z.of_nat j * - d + - d) by lia.
Qed.

Lemma direction_check_spec :
  _point_direction_check_connect_gomoko p d s = Ok (five_from_b s c p d) s.
Proof.
  pose proof dir_pos as Hd1. pose proof scan_fuel_enough as Hfuel.
  unfold _point_direction_check_connect_gomoko, bind.
  rewrite (get_color_cell _ _ Hp). unfold get_state.
  destruct (first_mismatch c p d 4) as [Hall|(j & Hj & Hall & Hne)].
  - (* five cells from [p] on *)
    assert (Hfive : five_from s c p d).
    { intros i Hi. destruct (Z.eq_dec i 0) as [->|Hi0].
      - now rewrite Z.add_0_r.
      - apply Hall. simpl. lia. }
    rewrite (connect5_loop_all c d 4) by (auto; simpl; lia).
    destruct (after_run_defined (- d) 0 (or_intror eq_refl)) as [v Hv].
    { intros i Hi. simpl in Hi. lia. }
    replace (p + (Z.of_nat 0 + 1) * - d) with (p + - d) in Hv
      by lia.
    assert (Hvc : v <> c).
    { intros ->. apply (Hmin (p + - d)); [lia|].
      intros i Hi. destruct (Z.eq_dec i 0) as [->|Hi0].
      - now rewrite Z.add_0_r.
      - replace (p + - d + i * d) with (p + (i - 1) * d) by lia.
        apply Hfive. lia. }
    destruct (scan_fuel s) as [|fuel]; [lia|].
    rewrite (connect5_loop_stop _ _ _ _ _ _ Hv Hvc). simpl.
    apply five_from_b_spec in Hfive. now rewrite Hfive.
  - (* the forward run stops after [j] cells *)
    destruct (after_run_defined d j (or_introl eq_refl) Hall) as [v Hv].
    assert (Hvc : v <> c) by (intros ->; contradiction).
    rewrite (connect5_loop_upto c d j _ _ _ v) by (auto; lia).
    assert (Hnot : five_from_b s c p d = false).
    { destruct (five_from_b s c p d) eqn:E; auto.
      apply five_from_b_spec in E. exfalso. apply Hne.
      apply E. lia. }
    rewrite Hnot.
    destruct (first_mismatch c p (- d) (4 - j))
      as [Hall'|(j' & Hj' & Hall' & Hne')].
    + (* the backward run would complete five cells from a lower index *)
      exfalso. apply (Hmin (p + Z.of_nat (4 - j) * - d)); [nia|].
      intros i Hi.
      destruct (Z_lt_le_dec i (Z.of_nat (4 - j))) as [Hlt|Hge].
      * replace (p + Z.of_nat (4 - j) * - d + i * d)
          with (p + (Z.of_nat (4 - j) - i) * - d) by lia.
        apply Hall'. lia.
      * destruct (Z.eq_dec i (Z.of_nat (4 - j))) as [->|Hneq].
        -- replace (p + Z.of_nat (4 - j) * - d + Z.of_nat (4 - j) * d)
             with p by lia.
           exact Hp.
        -- replace (p + Z.of_nat (4 - j) * - d + i * d)
             with (p + (i - Z.of_nat (4 - j)) * d) by lia.
           apply Hall. lia.
    + destruct (after_run_defined (- d) j' (or_intror eq_refl) Hall')
        as [v' Hv'].
      assert (Hvc' : v' <> c) by (intros ->; contradiction).
      rewrite (connect5_loop_upto c (- d) j' _ _ _ v') by (auto; lia).
      remember (1 + Z.of_nat j + Z.of_nat j') as n eqn:Hn.
      unfold py_assert.
      replace (n <=? 5) with true by (symmetry; apply Z.leb_le; lia).
      replace (n =? 5) with false by (symmetry; apply Z.eqb_neq; lia).
      reflexivity.
Qed.

End Direction.

(** *** The check at one stone and over the stones of one colour *)

Definition five_at (c q : Z) : bool :=
  existsb (five_from_b s c q) (dirs s).

Lemma five_at_spec c q :
  five_at c q = true <-> exists d, In d (dirs s) /\ five_from s c q d.
Proof.
  unfold five_at. rewrite existsb_exists.
  split; intros (d & Hd & H); exists d; split; auto; now apply five_from_b_spec.
Qed.

Lemma point_check_spec c p :
  is_black_white c = true ->
  cell_at s p = Some c ->
  (forall q d, In d (dirs s) -> q < p -> ~ five_from s c q d) ->
  point_check_game_end_gomoku p s = Ok (five_at c p) s.
Proof.
  intros Hc Hp Hmin.
  assert (Hdir : forall d, In d (dirs s) ->
            _point_direction_check_connect_gomoko p d s
            = Ok (five_from_b s c p d) s).
  { intros d Hd. apply direction_check_spec; auto. }
  unfold point_check_game_end_gomoku, bind, get_state, five_at, dirs.
  simpl existsb.
  rewrite (Hdir 1) by (unfold dirs; simpl; auto).
  destruct (five_from_b s c p 1); [reflexivity|].
  rewrite (Hdir (NS s)) by (unfold dirs; simpl; auto).
  destruct (five_from_b s c p (NS s)); [reflexivity|].
  rewrite (Hdir (NS s + 1)) by (unfold dirs; simpl; auto).
  destruct (five_from_b s c p (NS s + 1)); [reflexivity|].
  rewrite (Hdir (NS s - 1)) by (unfold dirs; simpl; auto).
  destruct (five_from_b s c p (NS s - 1)); reflexivity.
Qed.

Lemma any_point_ends_spec c :
  is_black_white c = true ->
  forall pts,
    StronglySorted Z.lt pts ->
    (forall q, In q pts -> cell_at s q = Some c) ->
    (forall q d, In d (dirs s) -> five_from s c q d -> In q pts) ->
    any_point_ends pts s = Ok (existsb (five_at c) pts) s.
Proof.
  intros Hc pts. induction pts as [|p rest IH]; intros Hsort Hcol Hstart.
  - reflexivity.
  - simpl. unfold bind.
    inversion Hsort as [|? ? Hsort' Hlt]; subst.
    rewrite (point_check_spec c p); auto.
    + destruct (five_at c p) eqn:E; [reflexivity|].
      simpl. apply IH; auto.
      * intros q Hq. apply Hcol. now right.
      * intros q d Hd H5. destruct (Hstart q d Hd H5) as [<-|]; auto.
        exfalso.
        assert (five_at c p = true) by (apply five_at_spec; eauto).
        congruence.
    + apply Hcol. now left.
    + intros q d Hd Hq H5.
      destruct (Hstart q d Hd H5) as [<-|Hin]; [lia|].
      rewrite Forall_forall in Hlt. specialize (Hlt q Hin). lia.
Qed.

Lemma existsb_five_at c pts :
  (forall q d, In d (dirs s) -> five_from s c q d -> In q pts) ->
  existsb (five_at c) pts = true <-> has_five s c.
Proof.
  intros Hstart. rewrite existsb_exists. unfold has_five. split.
  - intros (q & _ & H). apply five_at_spec in H. now exists q.
  - intros (q & d & Hd & H). exists q. split; [eauto|].
    apply five_at_spec. eauto.
Qed.

(** The stones of a colour, as [where1d] lists them. *)
Lemma stones_listed c q :
  In q (where1d (fun v => v =? c) (board s)) <-> cell_at s q = Some c.
Proof.
  unfold where1d. rewrite where1d_from_In. split.
  - intros (k & x & Hn & Hx & ->). apply Z.eqb_eq in Hx. subst x.
    unfold cell_at. simpl.
    replace (Z.of_nat k <? 0) with false by (symmetry; apply Z.ltb_ge; lia).
    now rewrite Nat2Z.id.
  - intros H. pose proof (cell_at_range _ _ H) as Hr.
    unfold cell_at in H. destruct (q <? 0); [discriminate|].
    exists (Z.to_nat q), c. repeat split; auto.
    + apply Z.eqb_refl.
    + lia.
Qed.

Lemma any_stone_ends c :
  is_black_white c = true ->
  exists b, any_point_ends (where1d (fun v => v =? c) (board s)) s = Ok b s /\
            (b = true <-> has_five s c).
Proof.
  intros Hc.
  assert (Hstart : forall q d, In d (dirs s) -> five_from s c q d ->
                     In q (where1d (fun v => v =? c) (board s))).
  { intros q d _ H5. apply stones_listed.
    specialize (H5 0). rewrite Z.add_0_r in H5. apply H5. lia. }
  eexists. split.
  - apply (any_point_ends_spec c Hc); auto.
    + apply where1d_from_sorted.
    + intros q. apply stones_listed.
  - now apply existsb_five_at.
Qed.

End Grid.

(** ** C1: the terminal check *)

(** C1. On every board state [check_game_end_gomoku] returns, leaves the
    board as it is, and reports the end of the game if and only if some
    stone lies on a run of five consecutive cells of its colour along one of
    the four axes (a longer run contains such a run: the count stops at 5);
    when it does, the colour it returns is the colour of such a run, WHITE
    if there is a white one. *)
Theorem check_game_end_gomoku_spec :
  forall s : SimpleGoBoard,
    wf_grid s = true ->
    exists ended winner,
      check_game_end_gomoku s = Ok (ended, winner) s /\
      (ended = true <->
       exists c, is_black_white c = true /\ has_five s c) /\
      (ended = true ->
       exists c, winner = Some c /\ is_black_white c = true /\ has_five s c) /\
      (ended = false -> winner = None) /\
      (has_five s WHITE -> winner = Some WHITE).
Proof.
  intros s Hwf.
  destruct (any_stone_ends s Hwf WHITE eq_refl) as (w & Hw & Hw5).
  destruct (any_stone_ends s Hwf BLACK eq_refl) as (b & Hb & Hb5).
  unfold check_game_end_gomoku, bind, get_state. rewrite Hw.
  destruct w.
  - exists true, (Some WHITE). split; [reflexivity|].
    assert (H5 : has_five s WHITE) by now apply Hw5.
    repeat split; auto; try discriminate.
    + intros _. exists WHITE. auto.
    + intros _. exists WHITE. auto.
  - rewrite Hb. destruct b.
    + exists true, (Some BLACK). split; [reflexivity|].
      assert (H5 : has_five s BLACK) by now apply Hb5.
      repeat split; auto; try discriminate.
      * intros _. exists BLACK. auto.
      * intros _. exists BLACK. auto.
      * intros H. apply Hw5 in H. discriminate.
    + exists false, None. split; [reflexivity|].
      repeat split; auto; try discriminate.
      * intros (c & Hc & H5). unfold is_black_white in Hc.
        apply orb_prop in Hc. destruct Hc as [Hc|Hc]; apply Z.eqb_eq in Hc;
          subst c; [apply Hb5 in H5 | apply Hw5 in H5]; discriminate.
      * intros H. apply Hw5 in H. discriminate.
Qed.

Lemma check_game_end_gomoku_spec_witness :
  exists ended winner,
    check_game_end_gomoku black_row5 = Ok (ended, winner) black_row5 /\
    (ended = true <->
     exists c, is_black_white c = true /\ has_five black_row5 c) /\
    (ended = true ->
     exists c, winner = Some c /\ is_black_white c = true /\
               has_five black_row5 c) /\
    (ended = false -> winner = None) /\
    (has_five black_row5 WHITE -> winner = Some WHITE).
Proof.
  apply (check_game_end_gomoku_spec black_row5).
  vm_compute; reflexivity.
Defined.

Example check_game_end_gomoku_black_row5 :
  check_game_end_gomoku black_row5 = Ok (true, Some BLACK) black_row5.
Proof. vm_compute; reflexivity. Qed.

Example check_game_end_gomoku_black_three7 :
  check_game_end_gomoku black_three7 = Ok (false, None) black_three7.
Proof. vm_compute; reflexivity. Qed.

(** The boards [__init__] builds are board states, and the moves keep them
    so. *)
Lemma new_board_wf_grid :
  forall sz, 2 <= sz <= MAXSIZE -> wf_grid (board_of (new_board sz)) = true.
Proof.
  assert (H : forallb (fun sz => wf_grid (board_of (new_board sz)))
                      (py_range 2 (MAXSIZE + 1)) = true)
    by (vm_compute; reflexivity).
  rewrite forallb_forall in H. intros sz Hsz. apply H.
  unfold py_range. apply in_map_iff. exists (Z.to_nat (sz - 2)). split.
  - lia.
  - apply in_seq. unfold MAXSIZE in *. lia.
Qed.

(* ================================================================= *)
(** ** The pattern scans: [straight_check], [open_four] *)

Section Scan.

Variable s : SimpleGoBoard.
Hypothesis Hwf : wf_grid s = true.

Lemma cell_on_board p v :
  cell_at s p = Some v -> v <> BORDER -> on_board_b s p = true.
Proof.
  intros H Hv. apply (wf_cell_ok s Hwf) in H. unfold cell_ok in H.
  unfold on_board_b. destruct (playable (size s) (NS s) p); auto.
  apply Z.eqb_eq in H. contradiction.
Qed.

Lemma step_defined_on_board p d :
  on_board_b s p = true -> In d (dirs s) ->
  (exists v, cell_at s (p + d) = Some v) /\
  (exists v, cell_at s (p + - d) = Some v).
Proof.
  intros Hp Hd.
  pose proof (on_board_range s Hwf _ Hp) as Hr.
  pose proof (In_dirs s Hwf _ Hd) as Hd'. pose proof (wf_size s Hwf) as Hs.
  pose proof (wf_NS s Hwf) as HN. pose proof (wf_maxpoint s Hwf) as Hm.
  rewrite HN in Hr, Hd'.
  split; apply (cell_at_defined s Hwf); rewrite Hm; lia.
Qed.

Section Axis.

Variables color d e : Z.
Hypothesis Hcolor : is_black_white color = true.
Hypothesis Hd : In d (dirs s).
Hypothesis He : e = d \/ e = - d.

Lemma color_not_border : color <> BORDER.
Proof.
  unfold is_black_white, BLACK, WHITE, BORDER in *. intros ->. discriminate.
Qed.

Lemma step_e_defined p :
  on_board_b s p = true -> exists v, cell_at s (p + e) = Some v.
Proof.
  intros Hp. destruct (step_defined_on_board p d Hp Hd) as [H1 H2].
  destruct He as [->| ->]; assumption.
Qed.

(** A scan from a playable point comes to a cell that does not match. *)
Lemma run_end_exists (n : nat) :
  forall p,
    on_board_b s p = true ->
    (if 0 <? e then maxpoint s - p else p) <= Z.of_nat n ->
    exists (j : nat) v, run_to s color p e j v.
Proof.
  pose proof (In_dirs s Hwf _ Hd) as Hd1.
  induction n as [|n IH]; intros p Hp Hn.
  - exfalso. pose proof (on_board_range s Hwf _ Hp) as Hr.
    pose proof (wf_size s Hwf). pose proof (wf_NS s Hwf).
    pose proof (wf_maxpoint s Hwf).
    destruct (0 <? e); nia.
  - destruct (step_e_defined p Hp) as [v Hv].
    destruct (Z.eq_dec v color) as [->|Hne].
    + assert (Hp' : on_board_b s (p + e) = true)
        by (eapply cell_on_board; eauto using color_not_border).
      destruct (IH (p + e) Hp') as (j & v & Hall & Hend & Hv').
      { destruct (0 <? e) eqn:E.
        - apply Z.ltb_lt in E. lia.
        - apply Z.ltb_ge in E. destruct He; lia. }
      exists (S j), v. repeat split; auto.
      * intros i Hi. destruct (Z.eq_dec i 1) as [->|Hi1].
        -- now rewrite Z.mul_1_l.
        -- replace (p + i * e) with (p + e + (i - 1) * e) by lia.
           apply Hall. lia.
      * replace (p + (Z.of_nat (S j) + 1) * e)
          with (p + e + (Z.of_nat j + 1) * e) by lia.
        exact Hend.
    + exists 0%nat, v. repeat split; auto.
      * intros i Hi. simpl in Hi. lia.
      * now replace (p + (Z.of_nat 0 + 1) * e) with (p + e) by lia.
Qed.

Lemma run_exists p :
  on_board_b s p = true -> exists (j : nat) v, run_to s color p e j v.
Proof.
  intros Hp. pose proof (on_board_range s Hwf _ Hp) as Hr.
  pose proof (wf_size s Hwf). pose proof (wf_NS s Hwf).
  pose proof (wf_maxpoint s Hwf).
  apply (run_end_exists (Z.to_nat (maxpoint s))); auto.
  destruct (0 <? e); nia.
Qed.

Lemma run_to_unique p j v j' v' :
  run_to s color p e j v -> run_to s color p e j' v' -> j = j' /\ v = v'.
Proof.
  intros (Hall & Hend & Hv) (Hall' & Hend' & Hv').
  destruct (lt_eq_lt_dec j j') as [[Hlt|Heq]|Hgt].
  - exfalso. rewrite Hall' in Hend by lia. congruence.
  - subst j'. split; auto. congruence.
  - exfalso. rewrite Hall in Hend' by lia. congruence.
Qed.

Lemma run_to_bound p j v :
  on_board_b s p = true -> run_to s color p e j v ->
  Z.of_nat j < maxpoint s.
Proof.
  intros Hp (_ & Hend & _).
  pose proof (on_board_range s Hwf _ Hp) as Hr.
  pose proof (cell_at_range s Hwf _ _ Hend) as Hr'.
  pose proof (In_dirs s Hwf _ Hd) as Hd1.
  pose proof (wf_size s Hwf). pose proof (wf_NS s Hwf).
  pose proof (wf_maxpoint s Hwf).
  destruct He as [->| ->]; nia.
Qed.

Lemma straight_loop_unfold fuel p count emp_cell :
  straight_loop (S fuel) color e p count emp_cell
  = (c <- get_color (p + e) ;;
     if c =? color then straight_loop fuel color e (p + e) (count + 1) emp_cell
     else if c =? EMPTY then ret (count, emp_cell + 1)
     else ret (count, emp_cell)).
Proof. reflexivity. Qed.

Lemma straight_loop_spec (j : nat) :
  forall fuel p count emp_cell v,
    (j < fuel)%nat ->
    run_to s color p e j v ->
    straight_loop fuel color e p count emp_cell s
    = Ok (count + Z.of_nat j, emp_cell + (if v =? EMPTY then 1 else 0)) s.
Proof.
  induction j as [|j IH]; intros fuel p count emp_cell v Hf (Hall & Hend & Hv);
    (destruct fuel as [|fuel]; [lia|]); rewrite straight_loop_unfold;
    unfold bind.
  - replace (p + (Z.of_nat 0 + 1) * e) with (p + e) in Hend by lia.
    rewrite (get_color_cell s Hwf _ _ Hend).
    destruct (v =? color) eqn:E; [apply Z.eqb_eq in E; contradiction|].
    replace (count + Z.of_nat 0) with count by lia.
    destruct (v =? EMPTY); unfold ret; f_equal; f_equal; lia.
  - assert (H1 : cell_at s (p + e) = Some color).
    { specialize (Hall 1). rewrite Z.mul_1_l in Hall. apply Hall. lia. }
    rewrite (get_color_cell s Hwf _ _ H1), Z.eqb_refl.
    rewrite (IH fuel (p + e) (count + 1) emp_cell v); try lia.
    + f_equal. f_equal. lia.
    + repeat split; auto.
      * intros i Hi. replace (p + e + i * e) with (p + (i + 1) * e) by lia.
        apply Hall. lia.
      * now replace (p + e + (Z.of_nat j + 1) * e)
          with (p + (Z.of_nat (S j) + 1) * e) by lia.
Qed.

End Axis.

Lemma scan_fuel_bound j : Z.of_nat j < maxpoint s -> (j < scan_fuel s)%nat.
Proof.
  unfold scan_fuel. pose proof (wf_length s Hwf). lia.
Qed.

(** [straight_check] in terms of the two runs it follows. *)
Lemma straight_check_runs color p d points e1 e2 jf vf jb vb :
  is_black_white color = true -> In d (dirs s) ->
  on_board_b s p = true ->
  run_to s color p d jf vf ->
  run_to s color p (- d) jb vb ->
  straight_check p d color points e1 e2 s
  = Ok (final_check e1 e2 points
          ((if vf =? EMPTY then 1 else 0) + (if vb =? EMPTY then 1 else 0))
          (1 + Z.of_nat jf + Z.of_nat jb)) s.
Proof.
  intros Hc Hd Hp Hf Hb.
  unfold straight_check, bind, get_state.
  assert (Hjf : (jf < scan_fuel s)%nat).
  { apply scan_fuel_bound. eapply (run_to_bound color d d); eauto. }
  assert (Hjb : (jb < scan_fuel s)%nat).
  { apply scan_fuel_bound. eapply (run_to_bound color d (- d)); eauto. }
  rewrite (straight_loop_spec color d jf _ _ _ _ vf Hjf Hf).
  rewrite (straight_loop_spec color (- d) jb _ _ _ _ vb Hjb Hb).
  reflexivity.
Qed.

Lemma final_check_open points emp count :
  truthy (final_check false true points emp count) = true <->
  points <= count /\ emp = 2.
Proof.
  unfold final_check, truthy. rewrite Z.geb_leb.
  destruct (Z.leb_spec points count); destruct (Z.eqb_spec emp 2);
    split; intros H1; try discriminate; try lia; auto.
Qed.

(** One axis of [open_four]'s test. *)
Lemma straight_check_open color p d points :
  is_black_white color = true -> In d (dirs s) ->
  on_board_b s p = true ->
  exists r, straight_check p d color points false true s = Ok r s /\
            (truthy r = true <-> open_run s color points p d).
Proof.
  intros Hc Hd Hp.
  destruct (run_exists color d d Hc Hd (or_introl eq_refl) p Hp)
    as (jf & vf & Hf).
  destruct (run_exists color d (- d) Hc Hd (or_intror eq_refl) p Hp)
    as (jb & vb & Hb).
  eexists. split.
  - apply straight_check_runs; eauto.
  - rewrite final_check_open. split.
    + intros [Hcount Hemp]. exists jf, jb.
      destruct (vf =? EMPTY) eqn:Ef; destruct (vb =? EMPTY) eqn:Eb;
        try lia.
      apply Z.eqb_eq in Ef, Eb. subst. auto.
    + intros (jf' & jb' & Hf' & Hb' & Hn).
      destruct (run_to_unique color d _ _ _ _ _ Hf Hf') as [-> ->].
      destruct (run_to_unique color (- d) _ _ _ _ _ Hb Hb') as [-> ->].
      split; [lia|]. reflexivity.
Qed.

(** The four axes in turn. *)
Lemma straight_any_open color p points :
  is_black_white color = true ->
  on_board_b s p = true ->
  exists b, straight_any p color points false true s = Ok b s /\
            (b = true <-> exists d, In d (dirs s) /\ open_run s color points p d).
Proof.
  intros Hc Hp.
  assert (Hone : forall d, In d (dirs s) ->
            exists r, straight_check p d color points false true s = Ok r s /\
                      (truthy r = true <-> open_run s color points p d))
    by (intros; now apply straight_check_open).
  destruct (Hone 1) as (r1 & E1 & H1); [unfold dirs; simpl; auto|].
  destruct (Hone (NS s)) as (r2 & E2 & H2); [unfold dirs; simpl; auto|].
  destruct (Hone (NS s + 1)) as (r3 & E3 & H3); [unfold dirs; simpl; auto|].
  destruct (Hone (NS s - 1)) as (r4 & E4 & H4); [unfold dirs; simpl; auto|].
  unfold straight_any, bind, get_state. rewrite E1.
  assert (Hsplit : forall P : Z -> Prop,
            (exists d, In d (dirs s) /\ P d) <->
            P 1 \/ P (NS s) \/ P (NS s + 1) \/ P (NS s - 1)).
  { intros P. unfold dirs. simpl. split.
    - intros (d & [<-|[<-|[<-|[<-|[]]]]] & H); auto.
    - intros [H|[H|[H|H]]]; eauto 7. }
  destruct (truthy r1) eqn:T1.
  { exists true. split; [reflexivity|]. rewrite Hsplit. split; auto.
    intros _. left. now apply H1. }
  rewrite E2. destruct (truthy r2) eqn:T2.
  { exists true. split; [reflexivity|]. rewrite Hsplit. split; auto.
    intros _. right; left. now apply H2. }
  rewrite E3. destruct (truthy r3) eqn:T3.
  { exists true. split; [reflexivity|]. rewrite Hsplit. split; auto.
    intros _. right; right; left. now apply H3. }
  rewrite E4. destruct (truthy r4) eqn:T4.
  { exists true. split; [reflexivity|]. rewrite Hsplit. split; auto.
    intros _. right; right; right. now apply H4. }
  exists false. split; [reflexivity|]. rewrite Hsplit.
  split; [discriminate|].
  intros [H|[H|[H|H]]]; [apply H1 in H|apply H2 in H|apply H3 in H|apply H4 in H];
    congruence.
Qed.

Lemma open_four_loop_spec color :
  is_black_white color = true ->
  forall pts found,
    (forall q, In q pts -> cell_at s q = Some EMPTY) ->
    exists l, open_four_loop pts color found s = Ok l s /\
      forall q, In q l <->
        In q found \/
        (In q pts /\ exists d, In d (dirs s) /\ open_run s color 4 q d).
Proof.
  intros Hc pts. induction pts as [|p rest IH]; intros found Hempty.
  - exists found. split; [reflexivity|]. intros q. simpl. tauto.
  - assert (Hp : on_board_b s p = true).
    { apply (cell_on_board p EMPTY); [apply Hempty; now left|discriminate]. }
    destruct (straight_any_open color p 4 Hc Hp) as (b & Eb & Hb).
    simpl. unfold bind. rewrite Eb.
    destruct (IH (if b then found ++ [p] else found)) as (l & El & Hl).
    { intros q Hq. apply Hempty. now right. }
    exists l. split; [exact El|].
    intros q. rewrite Hl. destruct b.
    + rewrite in_app_iff. simpl. split.
      * intros [[H|[<-|[]]]|[H1 H2]]; auto.
        right. split; auto. now apply Hb.
      * intros [H|[[<-|H1] H2]]; auto.
    + split.
      * intros [H|[H1 H2]]; auto.
      * intros [H|[[<-|H1] H2]]; auto.
        apply Hb in H2. discriminate.
Qed.

End Scan.

(** ** C5: [open_four] *)

(** C5 does not hold as stated: with BLACK on columns 2 to 4 of the first
    row of a 7 x 7 board and the rest of the row empty, [open_four] returns
    column 5 only.  A stone on column 1 would make a run of four with one
    empty end (column 5), but the other end is the border. *)
Lemma open_four_flank_counterexample :
  ~ (forall (s : SimpleGoBoard) (color row : Z) (l : list Z),
        wf_grid s = true ->
        is_black_white color = true ->
        cell_at s (row * NS s + 1) = Some EMPTY ->
        cell_at s (row * NS s + 2) = Some color ->
        cell_at s (row * NS s + 3) = Some color ->
        cell_at s (row * NS s + 4) = Some color ->
        cell_at s (row * NS s + 5) = Some EMPTY ->
        open_four color s = Ok l s ->
        In (row * NS s + 1) l /\ In (row * NS s + 5) l).
Proof.
  intros H.
  assert (E : open_four BLACK black_three7 = Ok [13] black_three7)
    by (vm_compute; reflexivity).
  assert (Hwf : wf_grid black_three7 = true) by (vm_compute; reflexivity).
  assert (H1 : cell_at black_three7 (1 * NS black_three7 + 1) = Some EMPTY)
    by (vm_compute; reflexivity).
  assert (H2 : cell_at black_three7 (1 * NS black_three7 + 2) = Some BLACK)
    by (vm_compute; reflexivity).
  assert (H3 : cell_at black_three7 (1 * NS black_three7 + 3) = Some BLACK)
    by (vm_compute; reflexivity).
  assert (H4 : cell_at black_three7 (1 * NS black_three7 + 4) = Some BLACK)
    by (vm_compute; reflexivity).
  assert (H5 : cell_at black_three7 (1 * NS black_three7 + 5) = Some EMPTY)
    by (vm_compute; reflexivity).
  destruct (H black_three7 BLACK 1 [13] Hwf eq_refl H1 H2 H3 H4 H5 E)
    as [Hin _].
  assert (Hnot : ~ In (1 * NS black_three7 + 1) [13])
    by (vm_compute; intros [Hx|[]]; discriminate).
  exact (Hnot Hin).
Qed.

(** C5, amended. For a player's colour, [open_four] returns, without
    changing the board, exactly the EMPTY points at which a stone of that
    colour would lie, along one of the four axes, in a run of at least 4
    stones of that colour with an EMPTY cell after each of its two ends.
    In particular, on a row with stones of that colour on columns 2 to 4
    and columns 1, 5 and 6 empty, column 5 is returned. *)
Theorem open_four_spec :
  forall (s : SimpleGoBoard) (color : Z),
    wf_grid s = true ->
    is_black_white color = true ->
    exists l,
      open_four color s = Ok l s /\
      (forall q, In q l <->
         cell_at s q = Some EMPTY /\
         exists d, In d (dirs s) /\ open_run s color 4 q d) /\
      (forall row,
         cell_at s (row * NS s + 1) = Some EMPTY ->
         cell_at s (row * NS s + 2) = Some color ->
         cell_at s (row * NS s + 3) = Some color ->
         cell_at s (row * NS s + 4) = Some color ->
         cell_at s (row * NS s + 5) = Some EMPTY ->
         cell_at s (row * NS s + 6) = Some EMPTY ->
         In (row * NS s + 5) l).
Proof.
  intros s color Hwf Hc.
  destruct (open_four_loop_spec s Hwf color Hc
              (where1d (fun c => c =? 0) (board s)) [])
    as (l & El & Hl).
  { intros q Hq. now apply (stones_listed s Hwf EMPTY). }
  exists l. split; [exact El|].
  assert (Hchar : forall q, In q l <->
            cell_at s q = Some EMPTY /\
            exists d, In d (dirs s) /\ open_run s color 4 q d).
  { intros q. rewrite Hl.
    rewrite (stones_listed s Hwf EMPTY q). simpl. tauto. }
  split; [exact Hchar|].
  intros row H1 H2 H3 H4 H5 H6.
  apply Hchar. split; [exact H5|].
  assert (Hne : EMPTY <> color).
  { unfold is_black_white, BLACK, WHITE, EMPTY in *. intros <-. discriminate. }
  exists 1. split; [unfold dirs; simpl; auto|].
  assert (Hcell : forall x y v, cell_at s y = Some v -> x = y ->
                    cell_at s x = Some v) by (intros; subst; auto).
  exists 0%nat, 3%nat. repeat split.
  - intros i Hi. simpl in Hi. lia.
  - apply (Hcell _ _ _ H6). lia.
  - exact Hne.
  - intros i Hi.
    assert (Hi' : i = 1 \/ i = 2 \/ i = 3) by lia.
    destruct Hi' as [->|[->| ->]].
    + apply (Hcell _ _ _ H4). lia.
    + apply (Hcell _ _ _ H3). lia.
    + apply (Hcell _ _ _ H2). lia.
  - apply (Hcell _ _ _ H1). lia.
  - exact Hne.
  - simpl. lia.
Qed.

Lemma open_four_spec_witness :
  exists l,
    open_four BLACK black_three7 = Ok l black_three7 /\
    (forall q, In q l <->
       cell_at black_three7 q = Some EMPTY /\
       exists d, In d (dirs black_three7) /\ open_run black_three7 BLACK 4 q d) /\
    (forall row,
       cell_at black_three7 (row * NS black_three7 + 1) = Some EMPTY ->
       cell_at black_three7 (row * NS black_three7 + 2) = Some BLACK ->
       cell_at black_three7 (row * NS black_three7 + 3) = Some BLACK ->
       cell_at black_three7 (row * NS black_three7 + 4) = Some BLACK ->
       cell_at black_three7 (row * NS black_three7 + 5) = Some EMPTY ->
       cell_at black_three7 (row * NS black_three7 + 6) = Some EMPTY ->
       In (row * NS black_three7 + 5) l).
Proof.
  apply (open_four_spec black_three7 BLACK).
  - vm_compute; reflexivity.
  - reflexivity.
Defined.

Example open_four_black_three7 :
  open_four BLACK black_three7 = Ok [13] black_three7.
Proof. vm_compute; reflexivity. Qed.

(* ================================================================= *)
(** ** Computations that leave the grid alone *)

Lemma with_liberty_of_same s : with_liberty_of s (liberty_of s) = s.
Proof. now destruct s. Qed.

Lemma wf_parts s :
  wf s = true ->
  wf_grid s = true /\ wf_neighbors s = true /\
  liberties_ok s (liberty_of s) = true.
Proof.
  unfold wf. intros H. apply andb_prop in H. destruct H as [H H3].
  apply andb_prop in H. tauto.
Qed.

Lemma wf_with_liberty_of s l :
  wf s = true -> liberties_ok s l = true -> wf (with_liberty_of s l) = true.
Proof.
  intros H Hl. destruct (wf_parts _ H) as (H1 & H2 & _).
  unfold wf. change (wf_grid (with_liberty_of s l)) with (wf_grid s).
  change (wf_neighbors (with_liberty_of s l)) with (wf_neighbors s).
  change (liberties_ok (with_liberty_of s l) (liberty_of (with_liberty_of s l)))
    with (liberties_ok s l).
  now rewrite H1, H2, Hl.
Qed.

Lemma returns_ret {A} (a : A) s (Q : A -> Prop) :
  wf s = true -> Q a -> returns (ret a) s Q.
Proof.
  intros H HQ. exists a, (liberty_of s). rewrite with_liberty_of_same.
  destruct (wf_parts _ H) as (_ & _ & H3). auto.
Qed.

Lemma returns_bind {A B} (m : BM A) (k : A -> BM B) s
      (Q : A -> Prop) (R : B -> Prop) :
  returns m s Q ->
  (forall a l, liberties_ok s l = true -> Q a ->
               returns (k a) (with_liberty_of s l) R) ->
  returns (bind m k) s R.
Proof.
  intros (a & l & E & Hl & HQ) Hk.
  destruct (Hk a l Hl HQ) as (b & l' & E' & Hl' & HR).
  exists b, l'. unfold bind. rewrite E, E'. auto.
Qed.

Lemma returns_weaken {A} (m : BM A) s (Q R : A -> Prop) :
  returns m s Q -> (forall a, Q a -> R a) -> returns m s R.
Proof.
  intros (a & l & E & Hl & HQ) H. exists a, l. auto.
Qed.

(** A computation that returns without changing the object. *)
Lemma returns_pure {A} (m : BM A) s a (Q : A -> Prop) :
  wf s = true -> m s = Ok a s -> Q a -> returns m s Q.
Proof.
  intros H E HQ. exists a, (liberty_of s). rewrite with_liberty_of_same.
  destruct (wf_parts _ H) as (_ & _ & H3). auto.
Qed.

Lemma in_range_b_spec s v : in_range_b s v = true <-> 0 <= v < maxpoint s.
Proof.
  unfold in_range_b. rewrite andb_true_iff, Z.leb_le, Z.ltb_lt. tauto.
Qed.

Section Go.

Variable s : SimpleGoBoard.
Hypothesis Hwf : wf s = true.

Let Hgrid : wf_grid s = true := proj1 (wf_parts s Hwf).

Lemma py_get_nth {A} (l : list A) p :
  0 <= p < Z.of_nat (length l) ->
  exists x, py_get l p = Some x /\ nth_error l (Z.to_nat p) = Some x.
Proof.
  intros Hp. unfold py_get, normalize_index.
  replace (0 <=? p) with true by (symmetry; apply Z.leb_le; lia).
  replace (p <? Z.of_nat (length l)) with true
    by (symmetry; apply Z.ltb_lt; lia).
  destruct (nth_error l (Z.to_nat p)) as [x|] eqn:E; eauto.
  apply nth_error_None in E. lia.
Qed.

Lemma py_set_nth {A} (l : list A) p v :
  0 <= p < Z.of_nat (length l) ->
  py_set l p v = Some (replace_nth l (Z.to_nat p) v).
Proof.
  intros Hp. unfold py_set, normalize_index.
  replace (0 <=? p) with true by (symmetry; apply Z.leb_le; lia).
  replace (p <? Z.of_nat (length l)) with true
    by (symmetry; apply Z.ltb_lt; lia).
  reflexivity.
Qed.

Lemma returns_get_color p :
  in_range_b s p = true ->
  returns (get_color p) s (fun v => cell_at s p = Some v).
Proof.
  intros Hp. apply in_range_b_spec in Hp.
  destruct (cell_at_defined s Hgrid p Hp) as [v Hv].
  apply (returns_pure _ _ v); auto. now apply get_color_cell.
Qed.

Lemma neighbors_length : length (neighbors s) = length (board s).
Proof.
  pose proof (wf_parts _ Hwf) as (_ & H & _). unfold wf_neighbors in H.
  apply andb_prop in H. destruct H as [H _]. now apply Nat.eqb_eq.
Qed.

Lemma returns_neighbors_at p :
  in_range_b s p = true ->
  returns (neighbors_at p) s (fun l => forallb (in_range_b s) l = true).
Proof.
  intros Hp. apply in_range_b_spec in Hp.
  pose proof (wf_length s Hgrid) as Hlen.
  destruct (py_get_nth (neighbors s) p) as (l & E & En).
  { rewrite neighbors_length. lia. }
  apply (returns_pure _ _ l); auto.
  - unfold neighbors_at. now rewrite E.
  - pose proof (wf_parts _ Hwf) as (_ & H & _). unfold wf_neighbors in H.
    apply andb_prop in H. destruct H as [_ H].
    rewrite forallb_forall in H. apply H. eapply nth_error_In; eauto.
Qed.

Lemma liberty_length : length (liberty_of s) = length (board s).
Proof.
  pose proof (wf_parts _ Hwf) as (_ & _ & H). unfold liberties_ok in H.
  apply andb_prop in H. destruct H as [H _]. now apply Nat.eqb_eq.
Qed.

Lemma returns_get_liberty_of p :
  in_range_b s p = true ->
  returns (get_liberty_of p) s (fun v => in_range_b s v = true).
Proof.
  intros Hp. apply in_range_b_spec in Hp.
  pose proof (wf_length s Hgrid) as Hlen.
  destruct (py_get_nth (liberty_of s) p) as (v & E & En).
  { rewrite liberty_length. lia. }
  apply (returns_pure _ _ v); auto.
  - unfold get_liberty_of. now rewrite E.
  - pose proof (wf_parts _ Hwf) as (_ & _ & H). unfold liberties_ok in H.
    apply andb_prop in H. destruct H as [_ H].
    rewrite forallb_forall in H. apply H. eapply nth_error_In; eauto.
Qed.

Lemma forallb_replace_nth {A} (f : A -> bool) l k v :
  forallb f l = true -> f v = true -> forallb f (replace_nth l k v) = true.
Proof.
  revert k; induction l as [|h t IH]; intros [|k] H Hv; simpl in *; auto;
    apply andb_prop in H; destruct H as [H1 H2].
  - now rewrite Hv, H2.
  - now rewrite H1, IH.
Qed.

Lemma returns_set_liberty_of p v :
  in_range_b s p = true -> in_range_b s v = true ->
  returns (set_liberty_of p v) s (fun _ => True).
Proof.
  intros Hp Hv. apply in_range_b_spec in Hp.
  pose proof (wf_length s Hgrid) as Hlen.
  exists tt, (replace_nth (liberty_of s) (Z.to_nat p) v).
  repeat split.
  - unfold set_liberty_of. rewrite py_set_nth; auto.
    rewrite liberty_length. lia.
  - pose proof (wf_parts _ Hwf) as (_ & _ & H). unfold liberties_ok in *.
    apply andb_prop in H. destruct H as [H1 H2].
    rewrite replace_nth_length, H1. simpl.
    now apply forallb_replace_nth.
Qed.

End Go.

(** The facts about a board state hold of the states that differ from it
    in [liberty_of] only; the proofs below move between the two. *)
Ltac next_state :=
  match goal with
  | H : wf ?s = true, Hl : liberties_ok ?s ?l = true |- _ =>
      let Hwf' := fresh "Hwf" in
      pose proof (wf_with_liberty_of s l H Hl) as Hwf'
  end.

Lemma forallb_app_one {A} (f : A -> bool) l x :
  forallb f l = true -> f x = true -> forallb f (l ++ [x]) = true.
Proof.
  intros H Hx. rewrite forallb_app, H. simpl. now rewrite Hx.
Qed.

Definition stone_in (s : SimpleGoBoard) (color x : Z) : Prop :=
  in_range_b s x = true /\ cell_at s x = Some color.

Lemma returns_neighbors_of_color_loop color nbs :
  forall s nbc,
    wf s = true ->
    forallb (in_range_b s) nbs = true ->
    returns (neighbors_of_color_loop nbs color nbc) s
      (fun l => forall x, In x l -> In x nbc \/ stone_in s color x).
Proof.
  induction nbs as [|nb rest IH]; intros s nbc Hwf Hnbs; simpl.
  - apply returns_ret; auto.
  - simpl in Hnbs. apply andb_prop in Hnbs. destruct Hnbs as [Hnb Hrest].
    eapply returns_bind; [apply (returns_get_color s Hwf nb Hnb)|].
    intros v l Hl Hv. next_state.
    destruct (Z.eqb_spec v color) as [->|Hne].
    + eapply returns_weaken; [apply (IH _ (nbc ++ [nb]) Hwf0 Hrest)|].
      intros a Ha x Hx. destruct (Ha x Hx) as [Hin|Hst]; auto.
      apply in_app_iff in Hin.
      destruct Hin as [Hin|[<-|[]]]; [left; exact Hin|right; split; assumption].
    + apply (IH _ nbc Hwf0 Hrest).
Qed.

Lemma returns_neighbors_of_color s point color :
  wf s = true ->
  in_range_b s point = true ->
  returns (neighbors_of_color point color) s
    (fun l => forall x, In x l -> stone_in s color x).
Proof.
  intros Hwf Hp. unfold neighbors_of_color.
  eapply returns_bind; [apply (returns_neighbors_at s Hwf point Hp)|].
  intros nbs l Hl Hnbs. next_state.
  eapply returns_weaken;
    [apply (returns_neighbors_of_color_loop color nbs _ [] Hwf0 Hnbs)|].
  intros a Ha x Hx. destruct (Ha x Hx) as [[]|H]. exact H.
Qed.

Lemma returns_find_neighbor_loop color nbs :
  forall s,
    wf s = true ->
    forallb (in_range_b s) nbs = true ->
    returns (find_neighbor_loop nbs color) s
      (fun r => forall x, r = Some x -> stone_in s color x).
Proof.
  induction nbs as [|nb rest IH]; intros s Hwf Hnbs; simpl.
  - apply returns_ret; auto. discriminate.
  - simpl in Hnbs. apply andb_prop in Hnbs. destruct Hnbs as [Hnb Hrest].
    eapply returns_bind; [apply (returns_get_color s Hwf nb Hnb)|].
    intros v l Hl Hv. next_state.
    destruct (Z.eqb_spec v color) as [->|Hne].
    + apply returns_ret; auto.
      intros x Hx. inversion Hx; subst. split; auto.
    + apply (IH _ Hwf0 Hrest).
Qed.

Lemma returns_find_neighbor_of_color s point color :
  wf s = true ->
  in_range_b s point = true ->
  returns (find_neighbor_of_color point color) s
    (fun r => forall x, r = Some x -> stone_in s color x).
Proof.
  intros Hwf Hp. unfold find_neighbor_of_color.
  eapply returns_bind; [apply (returns_neighbors_at s Hwf point Hp)|].
  intros nbs l Hl Hnbs. next_state.
  apply (returns_find_neighbor_loop color nbs _ Hwf0 Hnbs).
Qed.

Lemma returns__stone_has_liberty s stone :
  wf s = true ->
  in_range_b s stone = true ->
  returns (_stone_has_liberty stone) s (fun _ => True).
Proof.
  intros Hwf Hp. unfold _stone_has_liberty.
  eapply returns_bind;
    [apply (returns_find_neighbor_of_color s stone EMPTY Hwf Hp)|].
  intros r l Hl _. next_state. apply returns_ret; auto.
Qed.

Lemma returns__get_liberty_loop stones :
  forall s,
    wf s = true ->
    forallb (in_range_b s) stones = true ->
    returns (_get_liberty_loop stones) s
      (fun r => forall x, r = Some x -> stone_in s EMPTY x).
Proof.
  induction stones as [|stone rest IH]; intros s Hwf Hst; simpl.
  - apply returns_ret; auto. discriminate.
  - simpl in Hst. apply andb_prop in Hst. destruct Hst as [Hs Hrest].
    eapply returns_bind;
      [apply (returns_find_neighbor_of_color s stone EMPTY Hwf Hs)|].
    intros r l Hl Hr. next_state.
    destruct r as [x|].
    + apply returns_ret; [assumption|].
      intros y Hy. inversion Hy; subst. now apply Hr.
    + apply (IH _ Hwf0 Hrest).
Qed.

Lemma where1d_from_bound {A} (f : A -> bool) l i q :
  In q (where1d_from f l i) -> i <= q < i + Z.of_nat (length l).
Proof.
  rewrite where1d_from_In. intros (k & x & Hn & _ & ->).
  assert (k < length l)%nat by (apply nth_error_Some; congruence).
  lia.
Qed.

(** The stones of a block are points of the grid. *)
Lemma block_in_range s (block : list bool) :
  wf s = true ->
  Z.of_nat (length block) = maxpoint s ->
  forallb (in_range_b s) (where1d (fun m => m) block) = true.
Proof.
  intros Hwf Hlen. apply forallb_forall. intros q Hq.
  apply where1d_from_bound in Hq. apply in_range_b_spec. lia.
Qed.

Lemma returns__get_liberty s block :
  wf s = true ->
  Z.of_nat (length block) = maxpoint s ->
  returns (_get_liberty block) s
    (fun r => forall x, r = Some x -> stone_in s EMPTY x).
Proof.
  intros Hwf Hlen. unfold _get_liberty.
  apply returns__get_liberty_loop; auto. now apply block_in_range.
Qed.

Lemma returns_set_liberty_loop lib stones :
  forall s,
    wf s = true ->
    in_range_b s lib = true ->
    forallb (in_range_b s) stones = true ->
    returns (set_liberty_loop stones lib) s (fun _ => True).
Proof.
  induction stones as [|stone rest IH]; intros s Hwf Hlib Hst; simpl.
  - apply returns_ret; auto.
  - simpl in Hst. apply andb_prop in Hst. destruct Hst as [Hs Hrest].
    eapply returns_bind;
      [apply (returns_set_liberty_of s Hwf stone lib Hs Hlib)|].
    intros r l Hl _. next_state.
    apply (IH _ Hwf0 Hlib Hrest).
Qed.

Lemma returns__has_liberty s block :
  wf s = true ->
  Z.of_nat (length block) = maxpoint s ->
  returns (_has_liberty block) s (fun _ => True).
Proof.
  intros Hwf Hlen. unfold _has_liberty.
  eapply returns_bind; [apply (returns__get_liberty s block Hwf Hlen)|].
  intros r l Hl Hr. next_state.
  destruct r as [lib|]; [|apply returns_ret; auto].
  destruct (Hr lib eq_refl) as [Hlib Hcell].
  eapply returns_bind; [apply (returns_get_color _ Hwf0 lib Hlib)|].
  intros c l' Hl' Hc. next_state.
  change (cell_at (with_liberty_of s l) lib) with (cell_at s lib) in Hc.
  rewrite Hcell in Hc. inversion Hc; subst c.
  apply (returns_bind _ _ _ (fun _ => True));
    [apply returns_ret; [exact Hwf1|exact I]|].
  intros _ l'' Hl'' _. next_state.
  eapply returns_bind.
  - apply (returns_set_liberty_loop lib _ _ Hwf2 Hlib).
    now apply block_in_range.
  - intros _ l3 Hl3 _. next_state. apply returns_ret; auto.
Qed.

(** *** The flood fill of [_block_of] *)

Definition unmarked (marker : list bool) : nat :=
  length (filter negb marker).

Lemma unmarked_replace_nth marker k :
  nth_error marker k = Some false ->
  S (unmarked (replace_nth marker k true)) = unmarked marker.
Proof.
  unfold unmarked.
  revert k; induction marker as [|h t IH]; intros [|k] H; simpl in *;
    try discriminate.
  - inversion H; subst. reflexivity.
  - destruct h; simpl; rewrite <- (IH k H); reflexivity.
Qed.

Definition marker_index_ok (marker : list bool) (x : Z) : bool :=
  (0 <=? x) && (x <? Z.of_nat (length marker)).

(** [mark_neighbors] does not touch the board object; every point it
    pushes is a point it marks. *)
Lemma mark_neighbors_spec nbs :
  forall marker pointstack (s : SimpleGoBoard),
    forallb (marker_index_ok marker) nbs = true ->
    exists marker' pointstack',
      mark_neighbors nbs marker pointstack s = Ok (marker', pointstack') s /\
      length marker' = length marker /\
      (unmarked marker' + length pointstack'
       = unmarked marker + length pointstack)%nat /\
      (length pointstack <= length pointstack')%nat /\
      (forall x, In x pointstack' -> In x pointstack \/ In x nbs).
Proof.
  induction nbs as [|nb rest IH]; intros marker pointstack s Hnbs; simpl.
  - exists marker, pointstack. repeat split; auto.
  - simpl in Hnbs. apply andb_prop in Hnbs. destruct Hnbs as [Hnb Hrest].
    unfold marker_index_ok in Hnb. apply andb_prop in Hnb.
    destruct Hnb as [Hnb1 Hnb2]. apply Z.leb_le in Hnb1. apply Z.ltb_lt in Hnb2.
    destruct (py_get_nth marker nb (conj Hnb1 Hnb2)) as (m & E & En).
    rewrite E. destruct m.
    + destruct (IH marker pointstack s Hrest)
        as (m' & st' & E' & H1 & H2 & H3 & H4).
      exists m', st'. repeat split; auto.
      intros x Hx. destruct (H4 x Hx); auto.
    + rewrite (py_set_nth marker nb true (conj Hnb1 Hnb2)).
      destruct (IH (replace_nth marker (Z.to_nat nb) true)
                   (pointstack ++ [nb]) s)
        as (m' & st' & E' & H1 & H2 & H3 & H4).
      { apply forallb_forall. intros x Hx.
        rewrite forallb_forall in Hrest. specialize (Hrest x Hx).
        unfold marker_index_ok in *. now rewrite replace_nth_length. }
      exists m', st'. split; [exact E'|].
      rewrite replace_nth_length in H1.
      pose proof (unmarked_replace_nth marker _ En) as Hu.
      rewrite length_app in H2, H3. simpl in H2, H3.
      repeat split; auto; try lia.
      intros x Hx. destruct (H4 x Hx) as [Hin|Hin]; auto.
      apply in_app_iff in Hin. destruct Hin as [Hin|[<-|[]]]; auto.
Qed.

Lemma rev_cons_inv {A} (l : list A) x r :
  rev l = x :: r -> l = rev r ++ [x].
Proof.
  intros H. rewrite <- (rev_involutive l), H. reflexivity.
Qed.

Lemma returns__block_of_loop color fuel :
  forall marker pointstack s,
    wf s = true ->
    Z.of_nat (length marker) = maxpoint s ->
    forallb (in_range_b s) pointstack = true ->
    (2 * unmarked marker + length pointstack < fuel)%nat ->
    returns (_block_of_loop fuel color marker pointstack) s
      (fun m => Z.of_nat (length m) = maxpoint s).
Proof.
  induction fuel as [|fuel IH]; intros marker pointstack s Hwf Hlen Hst Hf;
    [lia|].
  simpl. destruct (rev pointstack) as [|p rest_rev] eqn:Erev.
  - apply returns_ret; auto.
  - apply rev_cons_inv in Erev. subst pointstack.
    rewrite forallb_app in Hst. apply andb_prop in Hst.
    destruct Hst as [Hrest Hp]. simpl in Hp. apply andb_prop in Hp.
    destruct Hp as [Hp _].
    rewrite length_app in Hf. simpl in Hf.
    eapply returns_bind; [apply (returns_neighbors_of_color s p color Hwf Hp)|].
    intros nbs l Hl Hnbs. next_state.
    assert (Hin : forallb (marker_index_ok marker) nbs = true).
    { apply forallb_forall. intros x Hx. destruct (Hnbs x Hx) as [Hr _].
      apply in_range_b_spec in Hr. unfold marker_index_ok.
      apply andb_true_iff. rewrite Z.leb_le, Z.ltb_lt. lia. }
    destruct (mark_neighbors_spec nbs marker (rev rest_rev)
                (with_liberty_of s l) Hin)
      as (m' & st' & E' & H1 & H2 & H3 & H4).
    eapply returns_bind.
    + apply (returns_pure _ _ (m', st') (fun r => r = (m', st')) Hwf0 E').
      reflexivity.
    + intros r l' Hl' ->. next_state.
      apply (IH m' st' (with_liberty_of (with_liberty_of s l) l') Hwf1).
      * rewrite H1. exact Hlen.
      * apply forallb_forall. intros x Hx.
        destruct (H4 x Hx) as [Hx'|Hx'].
        -- rewrite forallb_forall in Hrest. now apply Hrest.
        -- now destruct (Hnbs x Hx').
      * lia.
Qed.

Lemma unmarked_repeat_false n : unmarked (repeat false n) = n.
Proof.
  unfold unmarked. induction n; simpl; auto.
Qed.

Lemma returns__block_of s stone c :
  wf s = true ->
  in_range_b s stone = true ->
  cell_at s stone = Some c ->
  is_black_white c = true ->
  returns (_block_of stone) s (fun m => Z.of_nat (length m) = maxpoint s).
Proof.
  intros Hwf Hp Hcell Hc. unfold _block_of.
  apply (returns_bind _ _ _ (fun x => x = s)).
  { apply (returns_pure _ _ s); auto. }
  intros ? l Hl ->. next_state.
  eapply returns_bind; [apply (returns_get_color _ Hwf0 stone Hp)|].
  intros color l' Hl' Hcolor. next_state.
  change (cell_at (with_liberty_of s l) stone) with (cell_at s stone) in Hcolor.
  rewrite Hcell in Hcolor. inversion Hcolor; subst color.
  rewrite Hc.
  apply (returns_bind _ _ _ (fun _ => True));
    [apply returns_ret; [exact Hwf1|exact I]|].
  intros _ l'' Hl'' _. next_state.
  pose proof (proj1 (in_range_b_spec _ _) Hp) as Hr.
  rewrite py_set_nth by (rewrite repeat_length; lia).
  eapply returns_weaken; [|intros a Ha; exact Ha].
  apply (returns__block_of_loop c _ _ _ _ Hwf2).
  - now rewrite replace_nth_length, repeat_length, Z2Nat.id by lia.
  - simpl. change (in_range_b _ stone) with (in_range_b s stone).
    now rewrite Hp.
  - assert (Hn : nth_error (repeat false (Z.to_nat (maxpoint s)))
                   (Z.to_nat stone) = Some false).
    { apply nth_error_repeat. lia. }
    pose proof (unmarked_replace_nth _ _ Hn) as Hu.
    rewrite unmarked_repeat_false in Hu.
    unfold block_fuel. simpl. lia.
Qed.

Lemma returns__fast_liberty_check s nb_point :
  wf s = true ->
  in_range_b s nb_point = true ->
  returns (_fast_liberty_check nb_point) s (fun _ => True).
Proof.
  intros Hwf Hp. unfold _fast_liberty_check.
  eapply returns_bind; [apply (returns_get_liberty_of s Hwf nb_point Hp)|].
  intros lib l Hl Hlib. next_state.
  apply (returns_bind _ _ _ (fun _ => True)).
  { destruct (negb (lib =? NULLPOINT)).
    - eapply returns_bind; [apply (returns_get_color _ Hwf0 lib Hlib)|].
      intros c l' Hl' _. next_state. apply returns_ret; auto.
    - apply returns_ret; auto. }
  intros quick l' Hl' _. next_state.
  destruct quick; [apply returns_ret; auto|].
  eapply returns_bind;
    [apply (returns__stone_has_liberty _ nb_point Hwf1 Hp)|].
  intros h l'' Hl'' _. next_state.
  destruct h; apply returns_ret; auto.
Qed.

Lemma returns__detect_capture s nb_point c :
  wf s = true ->
  stone_in s c nb_point ->
  is_black_white c = true ->
  returns (_detect_capture nb_point) s (fun _ => True).
Proof.
  intros Hwf [Hp Hcell] Hc. unfold _detect_capture.
  eapply returns_bind; [apply (returns__fast_liberty_check s nb_point Hwf Hp)|].
  intros f l Hl _. next_state.
  destruct f; [apply returns_ret; auto|].
  eapply returns_bind;
    [apply (returns__block_of _ nb_point c Hwf0 Hp Hcell Hc)|].
  intros block l' Hl' Hblock. next_state.
  eapply returns_bind; [apply (returns__has_liberty _ block Hwf1 Hblock)|].
  intros h l'' Hl'' _. next_state. apply returns_ret; auto.
Qed.

Lemma returns__detect_captures_loop c nbs :
  is_black_white c = true ->
  forall s,
    wf s = true ->
    (forall x, In x nbs -> stone_in s c x) ->
    returns (_detect_captures_loop nbs) s (fun _ => True).
Proof.
  intros Hc. induction nbs as [|nb rest IH]; intros s Hwf Hnbs; simpl.
  - apply returns_ret; auto.
  - eapply returns_bind.
    + apply (returns__detect_capture s nb c Hwf); auto. apply Hnbs. now left.
    + intros b l Hl _. next_state.
      destruct b; [apply returns_ret; auto|].
      apply IH; auto. intros x Hx. apply Hnbs. now right.
Qed.

Lemma returns__detect_captures s point opp_color :
  wf s = true ->
  in_range_b s point = true ->
  is_black_white opp_color = true ->
  returns (_detect_captures point opp_color) s (fun _ => True).
Proof.
  intros Hwf Hp Hc. unfold _detect_captures.
  eapply returns_bind;
    [apply (returns_neighbors_of_color s point opp_color Hwf Hp)|].
  intros nbs l Hl Hnbs. next_state.
  apply (returns__detect_captures_loop opp_color nbs Hc _ Hwf0 Hnbs).
Qed.

(** *** [is_legal]: a stone is put on the point and taken off again *)

Lemma cells_ok_from_replace sz ns l :
  forall i k v,
    cells_ok_from sz ns l i = true ->
    cell_ok sz ns (i + Z.of_nat k) v = true ->
    cells_ok_from sz ns (replace_nth l k v) i = true.
Proof.
  induction l as [|h t IH]; intros i [|k] v H Hv; simpl in *; auto;
    apply andb_prop in H; destruct H as [H1 H2].
  - rewrite Z.add_0_r in Hv. now rewrite Hv, H2.
  - rewrite H1. simpl. apply IH; auto.
    now replace (i + 1 + Z.of_nat k) with (i + Z.pos (Pos.of_succ_nat k)) by lia.
Qed.

(** Writing a stone or EMPTY on a playable point gives a board state. *)
Lemma wf_write s p v :
  wf s = true ->
  in_range_b s p = true ->
  on_board_b s p = true ->
  (v =? EMPTY) || (v =? BLACK) || (v =? WHITE) = true ->
  py_set (board s) p v = Some (replace_nth (board s) (Z.to_nat p) v) /\
  wf (with_board s (replace_nth (board s) (Z.to_nat p) v)) = true.
Proof.
  intros Hwf Hp Hon Hv.
  destruct (wf_parts _ Hwf) as (Hg & Hn & Hl).
  apply in_range_b_spec in Hp. pose proof (wf_length s Hg) as Hlen.
  split; [apply py_set_nth; lia|].
  unfold wf, wf_grid, wf_neighbors, liberties_ok in *. simpl.
  rewrite replace_nth_length.
  repeat (apply andb_prop in Hg; destruct Hg as [Hg ?]).
  apply andb_prop in Hn. destruct Hn as [Hn1 Hn2].
  apply andb_prop in Hl. destruct Hl as [Hl1 Hl2].
  repeat (apply andb_true_intro; split); auto.
  apply cells_ok_from_replace; auto.
  unfold cell_ok. unfold on_board_b in Hon.
  rewrite Z.add_0_l, Z2Nat.id by lia. now rewrite Hon.
Qed.

(** The computation [m] returns from [s1] and leaves a state that differs
    from the board state [s] in [liberty_of] at most. *)
Definition returns_to {A} (m : BM A) (s1 s : SimpleGoBoard) (Q : A -> Prop)
  : Prop :=
  exists a l,
    m s1 = Ok a (with_liberty_of s l) /\ liberties_ok s l = true /\ Q a.

Lemma returns_to_bind {A B} (m : BM A) (k : A -> BM B) s1 s
      (Q : A -> Prop) (R : B -> Prop) :
  returns m s1 Q ->
  (forall a l, liberties_ok s1 l = true -> Q a ->
               returns_to (k a) (with_liberty_of s1 l) s R) ->
  returns_to (bind m k) s1 s R.
Proof.
  intros (a & l & E & Hl & HQ) Hk.
  destruct (Hk a l Hl HQ) as (b & l' & E' & Hl' & HR).
  exists b, l'. unfold bind. rewrite E, E'. auto.
Qed.

Lemma with_board_restore s l b l2 :
  with_board (with_liberty_of (with_board (with_liberty_of s l) b) l2) (board s)
  = with_liberty_of s l2.
Proof. now destruct s. Qed.

Lemma liberties_ok_with_board s b l :
  length b = length (board s) ->
  liberties_ok (with_board s b) l = liberties_ok s l.
Proof.
  intros H. unfold liberties_ok. simpl. now rewrite H.
Qed.

Lemma is_black_white_cases c :
  is_black_white c = true -> c = BLACK \/ c = WHITE.
Proof.
  unfold is_black_white. intros H. apply orb_prop in H.
  destruct H as [H|H]; apply Z.eqb_eq in H; auto.
Qed.

Lemma is_black_white_opponent c :
  is_black_white c = true -> is_black_white (opponent c) = true.
Proof.
  intros H. destruct (is_black_white_cases _ H) as [->| ->]; reflexivity.
Qed.

(** [is_legal] returns on every point of the grid, leaves the grid as it
    is, and accepts EMPTY points only. *)
Lemma returns_is_legal s p color :
  wf s = true ->
  in_range_b s p = true ->
  is_black_white color = true ->
  returns (is_legal (Some p) color) s
    (fun b => b = true -> cell_at s p = Some EMPTY).
Proof.
  intros Hwf Hp Hc. unfold is_legal. rewrite Hc.
  apply (returns_bind _ _ _ (fun _ => True));
    [apply returns_ret; [exact Hwf|exact I]|].
  intros _ l0 Hl0 _. next_state.
  eapply returns_bind; [apply (returns_get_color _ Hwf0 p Hp)|].
  intros v l1 Hl1 Hv. next_state.
  change (cell_at (with_liberty_of s l0) p) with (cell_at s p) in Hv.
  destruct (Z.eqb_spec v EMPTY) as [->|Hne]; cbn [negb];
    [|apply returns_ret; [exact Hwf1|discriminate]].
  apply (returns_bind _ _ _ (fun x => ko_recapture x = ko_recapture s)).
  { eapply returns_pure; [exact Hwf1|reflexivity|reflexivity]. }
  intros s' l Hl Hko. next_state.
  destruct (point_eqb (Some p) (ko_recapture s'));
    [apply returns_ret; [exact Hwf2|discriminate]|].
  change (with_liberty_of (with_liberty_of (with_liberty_of s l0) l1) l)
    with (with_liberty_of s l) in *.
  assert (Hl' : liberties_ok s l = true) by exact Hl.
  clear Hko s' Hl Hwf0 Hwf1 Hl1 Hl0 l0 l1.
  assert (Hon : on_board_b s p = true).
  { apply (cell_on_board s (proj1 (wf_parts _ Hwf)) p EMPTY); auto.
    discriminate. }
  destruct (wf_write (with_liberty_of s l) p color Hwf2 Hp Hon) as [Eset Hwf3].
  { destruct (is_black_white_cases _ Hc) as [->| ->]; reflexivity. }
  simpl board in Eset, Hwf3.
  set (b1 := replace_nth (board s) (Z.to_nat p) color) in *.
  set (s1 := with_board (with_liberty_of s l) b1) in *.
  assert (Hp1 : in_range_b s1 p = true) by exact Hp.
  assert (Hcell1 : cell_at s1 p = Some color).
  { unfold cell_at, s1. simpl. apply in_range_b_spec in Hp.
    replace (p <? 0) with false by (symmetry; apply Z.ltb_ge; lia).
    apply nth_error_replace_nth_eq.
    pose proof (wf_length s (proj1 (wf_parts _ Hwf))). lia. }
  (* the statements between the two writes run on [s1] *)
  assert (Eback : py_set b1 p EMPTY = Some (board s)).
  { rewrite (py_set_set _ _ _ _ _ Eset). apply py_set_same.
    rewrite py_get_cell; [exact Hv|].
    apply in_range_b_spec in Hp. lia. }
  assert (Hlen1 : forall l', liberties_ok s1 l' = liberties_ok s l').
  { intros l'. unfold s1, b1, liberties_ok. simpl.
    now rewrite replace_nth_length. }
  match goal with
  | |- returns (bind (set_color p color) ?k) _ ?Q =>
      cut (returns_to (k tt) s1 s Q)
  end.
  { intros (a & l' & E & Hl'' & HQ). exists a, l'.
    split; [|split; assumption].
    unfold bind at 1. unfold set_color at 1. simpl board. rewrite Eset.
    fold s1. rewrite E. reflexivity. }
  eapply returns_to_bind;
    [apply (returns__detect_captures s1 p (opponent color) Hwf3 Hp1
              (is_black_white_opponent _ Hc))|].
  intros has_capture l2 Hl2 _.
  assert (Hwf4 : wf (with_liberty_of s1 l2) = true)
    by now apply wf_with_liberty_of.
  apply (returns_to_bind _ _ _ _ (fun _ => True)).
  { destruct has_capture; simpl.
    - apply returns_ret; auto.
    - eapply returns_bind;
        [apply (returns__stone_has_liberty _ p Hwf4 Hp1)|].
      intros h l' Hl'' _. next_state. apply returns_ret; auto. }
  intros no_lib l3 Hl3 _.
  assert (Hwf5 : wf (with_liberty_of (with_liberty_of s1 l2) l3) = true)
    by now apply wf_with_liberty_of.
  apply (returns_to_bind _ _ _ _ (fun _ => True)).
  { destruct no_lib.
    - eapply returns_bind;
        [apply (returns__block_of _ p color Hwf5 Hp1 Hcell1 Hc)|].
      intros block l' Hl'' Hblock.
      assert (Hwf6 : wf (with_liberty_of
                           (with_liberty_of (with_liberty_of s1 l2) l3) l')
                     = true) by now apply wf_with_liberty_of.
      eapply returns_bind; [apply (returns__has_liberty _ block Hwf6 Hblock)|].
      intros h l5 Hl5 _.
      apply returns_ret; auto. now apply wf_with_liberty_of.
    - apply returns_ret; auto. }
  intros legal l4 Hl4 _.
  exists legal, l4. split; [|split; [|intros _; exact Hv]].
  - unfold bind, set_color. simpl board. fold b1. rewrite Eback.
    unfold ret. f_equal.
  - rewrite <- Hlen1. exact Hl4.
Qed.

(* ================================================================= *)
(** ** The move ordering leaves the grid alone *)

Lemma stone_step_in_range s c q d :
  wf s = true ->
  is_black_white c = true -> cell_at s q = Some c -> In d (dirs s) ->
  in_range_b s (q + d) = true /\ in_range_b s (q + - d) = true.
Proof.
  intros Hwf Hc Hq Hd. destruct (wf_parts _ Hwf) as (Hg & _ & _).
  destruct (step_defined s Hg c q d Hc Hq Hd) as [[v1 H1] [v2 H2]].
  split; apply in_range_b_spec; eapply cell_at_range; eauto.
Qed.

Definition all_empty (s : SimpleGoBoard) (l : list Z) : Prop :=
  forall x, In x l -> cell_at s x = Some EMPTY.

Lemma all_empty_app s l1 l2 :
  all_empty s l1 -> all_empty s l2 -> all_empty s (l1 ++ l2).
Proof.
  intros H1 H2 x Hx. apply in_app_iff in Hx. destruct Hx; auto.
Qed.

Lemma all_empty_one s x :
  cell_at s x = Some EMPTY -> all_empty s [x].
Proof. intros H y [<-|[]]. exact H. Qed.

Lemma all_empty_filter s f l : all_empty s l -> all_empty s (filter f l).
Proof.
  intros H x Hx. apply filter_In in Hx. apply H. tauto.
Qed.

Section Loops.

Variables color point shift max : Z.
Hypothesis Hc : is_black_white color = true.

Lemma returns_direction_loop1 (j : nat) :
  forall fuel s p count pointWin v,
    wf s = true ->
    In shift (dirs s) ->
    cell_at s point = Some color ->
    cell_at s p = Some color ->
    run_to s color p shift j v ->
    (j < fuel)%nat ->
    all_empty s pointWin ->
    returns (direction_loop1 fuel color point shift max shift p count pointWin)
      s (fun r => all_empty s (snd r)).
Proof.
  induction j as [|j IH];
    intros fuel s p count pointWin v Hwf Hd Hpoint Hp (Hall & Hend & Hv) Hf Hpw;
    (destruct fuel as [|fuel]; [lia|]); simpl;
    destruct (stone_step_in_range s color p shift Hwf Hc Hp Hd) as [Hr _].
  - replace (p + (Z.of_nat 0 + 1) * shift) with (p + shift) in Hend by lia.
    eapply returns_bind; [apply (returns_get_color s Hwf _ Hr)|].
    intros c l Hl Hcell. next_state.
    rewrite Hend in Hcell. inversion Hcell; subst c.
    destruct (Z.eqb_spec v color); [contradiction|].
    apply returns_ret; auto.
  - assert (H1 : cell_at s (p + shift) = Some color).
    { specialize (Hall 1). rewrite Z.mul_1_l in Hall. apply Hall. lia. }
    eapply returns_bind; [apply (returns_get_color s Hwf _ Hr)|].
    intros c l Hl Hcell. next_state.
    rewrite H1 in Hcell. inversion Hcell; subst c.
    rewrite Z.eqb_refl.
    destruct (count + 1 =? max).
    + destruct (stone_step_in_range s color (p + shift) shift Hwf Hc H1 Hd)
        as [Hr2 _].
      eapply returns_bind;
        [apply (returns_is_legal _ (p + shift + shift) color Hwf0 Hr2 Hc)|].
      intros l1 l' Hl' Hl1. next_state.
      destruct l1.
      * apply returns_ret; auto. simpl.
        apply all_empty_app; auto. apply all_empty_one. now apply Hl1.
      * destruct (stone_step_in_range s color point shift Hwf Hc Hpoint Hd)
          as [_ Hr3].
        eapply returns_bind;
          [apply (returns_is_legal _ (point + - shift) color Hwf1 Hr3 Hc)|].
        intros l2 l'' Hl'' Hl2. next_state.
        destruct l2; apply returns_ret; auto. simpl.
        apply all_empty_app; auto. apply all_empty_one. now apply Hl2.
    + eapply returns_weaken; [|intros a Ha; exact Ha].
      apply (IH fuel _ (p + shift) (count + 1) pointWin v Hwf0); auto; try lia.
      repeat split; auto.
      * intros i Hi.
        replace (p + shift + i * shift) with (p + (i + 1) * shift) by lia.
        apply Hall. lia.
      * now replace (p + shift + (Z.of_nat j + 1) * shift)
          with (p + (Z.of_nat (S j) + 1) * shift) by lia.
Qed.

Lemma returns_direction_loop2 (j : nat) :
  forall fuel s p count pointWin v,
    wf s = true ->
    In shift (dirs s) ->
    cell_at s p = Some color ->
    run_to s color p (- shift) j v ->
    (j < fuel)%nat ->
    all_empty s pointWin ->
    returns (direction_loop2 fuel color max (- shift) p count pointWin)
      s (fun r => all_empty s (snd r)).
Proof.
  induction j as [|j IH];
    intros fuel s p count pointWin v Hwf Hd Hp (Hall & Hend & Hv) Hf Hpw;
    (destruct fuel as [|fuel]; [lia|]); simpl;
    destruct (stone_step_in_range s color p shift Hwf Hc Hp Hd) as [_ Hr].
  - replace (p + (Z.of_nat 0 + 1) * - shift) with (p + - shift) in Hend by lia.
    eapply returns_bind; [apply (returns_get_color s Hwf _ Hr)|].
    intros c l Hl Hcell. next_state.
    rewrite Hend in Hcell. inversion Hcell; subst c.
    destruct (Z.eqb_spec v color); [contradiction|].
    apply returns_ret; auto.
  - assert (H1 : cell_at s (p + - shift) = Some color).
    { specialize (Hall 1). rewrite Z.mul_1_l in Hall. apply Hall. lia. }
    eapply returns_bind; [apply (returns_get_color s Hwf _ Hr)|].
    intros c l Hl Hcell. next_state.
    rewrite H1 in Hcell. inversion Hcell; subst c.
    rewrite Z.eqb_refl.
    destruct (count + 1 =? max).
    + destruct (stone_step_in_range s color (p + - shift) shift Hwf Hc H1 Hd)
        as [_ Hr2].
      eapply returns_bind;
        [apply (returns_is_legal _ (p + - shift + - shift) color Hwf0 Hr2 Hc)|].
      intros l1 l' Hl' Hl1. next_state.
      destruct l1; apply returns_ret; auto. simpl.
      apply all_empty_app; auto. apply all_empty_one. now apply Hl1.
    + eapply returns_weaken; [|intros a Ha; exact Ha].
      apply (IH fuel _ (p + - shift) (count + 1) pointWin v Hwf0); auto;
        try lia.
      repeat split; auto.
      * intros i Hi.
        replace (p + - shift + i * - shift) with (p + (i + 1) * - shift) by lia.
        apply Hall. lia.
      * now replace (p + - shift + (Z.of_nat j + 1) * - shift)
          with (p + (Z.of_nat (S j) + 1) * - shift) by lia.
Qed.

End Loops.

Lemma returns_direction_check s point shift max c :
  wf s = true ->
  is_black_white c = true ->
  cell_at s point = Some c ->
  In shift (dirs s) ->
  returns (direction_check_connect_gomoko point shift max) s
    (fun r => all_empty s (snd r)).
Proof.
  intros Hwf Hc Hpoint Hd.
  destruct (wf_parts _ Hwf) as (Hg & _ & _).
  assert (Hon : on_board_b s point = true)
    by (eapply stone_on_board; eauto).
  assert (Hr : in_range_b s point = true)
    by (apply in_range_b_spec; eapply cell_at_range; eauto).
  destruct (run_exists s Hg c shift shift Hc Hd (or_introl eq_refl) point Hon)
    as (jf & vf & Hf).
  destruct (run_exists s Hg c shift (- shift) Hc Hd (or_intror eq_refl) point Hon)
    as (jb & vb & Hb).
  assert (Hjf : (jf < scan_fuel s)%nat).
  { apply (scan_fuel_bound s Hg).
    eapply (run_to_bound s Hg c shift shift); eauto. }
  assert (Hjb : (jb < scan_fuel s)%nat).
  { apply (scan_fuel_bound s Hg).
    eapply (run_to_bound s Hg c shift (- shift)); eauto. }
  unfold direction_check_connect_gomoko.
  eapply returns_bind; [apply (returns_get_color s Hwf _ Hr)|].
  intros color l Hl Hcell. next_state.
  rewrite Hpoint in Hcell. inversion Hcell; subst color.
  apply (returns_bind _ _ _ (fun x => scan_fuel x = scan_fuel s)).
  { eapply returns_pure; [exact Hwf0|reflexivity|reflexivity]. }
  intros s' l' Hl' Hfuel. next_state. rewrite Hfuel.
  eapply returns_bind.
  { apply (returns_direction_loop1 c point shift max Hc jf (scan_fuel s) _
             point 1 [] vf Hwf1); auto.
    intros x []. }
  intros [count pointWin] l2 Hl2 Hpw. next_state.
  eapply returns_bind.
  { apply (returns_direction_loop2 c shift max Hc jb (scan_fuel s) _
             point count pointWin vb Hwf2); auto. }
  intros [count' pointWin'] l3 Hl3 Hpw'. next_state.
  apply returns_ret; auto.
Qed.

Section Ordering.

Variable list_of_set : list Z -> list Z.
(** The list of a set holds the elements of the set, each once. *)
Hypothesis list_of_set_spec :
  forall l, NoDup (list_of_set l) /\
            forall x, In x (list_of_set l) <-> In x l.

Lemma returns_check_n s point max c :
  wf s = true ->
  is_black_white c = true ->
  cell_at s point = Some c ->
  returns (check_n list_of_set point max) s
    (fun r => forall l, r = Some l -> all_empty s l).
Proof.
  intros Hwf Hc Hpoint. unfold check_n.
  apply (returns_bind _ _ _ (fun x => NS x = NS s)).
  { eapply returns_pure; [exact Hwf|reflexivity|reflexivity]. }
  intros s' l0 Hl0 HNS. next_state. rewrite HNS. clear HNS s'.
  assert (Hdir : forall d st acc,
            wf st = true -> In d (dirs s) -> board st = board s ->
            NS st = NS s ->
            all_empty s acc ->
            returns (direction_check_connect_gomoko point d max) st
              (fun r => all_empty s (if fst r then acc ++ snd r else acc))).
  { intros d st acc Hst Hd Hb HN Hacc.
    eapply returns_weaken.
    - apply (returns_direction_check st point d max c Hst Hc).
      + unfold cell_at. rewrite Hb. exact Hpoint.
      + unfold dirs. rewrite HN. exact Hd.
    - intros [b pw] Hpw. simpl in *.
      assert (Hpw' : all_empty s pw).
      { intros x Hx. specialize (Hpw x Hx). unfold cell_at in *.
        now rewrite Hb in Hpw. }
      destruct b; auto. now apply all_empty_app. }
  eapply returns_bind.
  { apply (Hdir 1 _ [] Hwf0); auto.
    - unfold dirs; simpl; auto.
    - intros x []. }
  intros r1 l1 Hl1 H1. next_state.
  set (p1 := if fst r1 then [] ++ snd r1 else []) in *.
  eapply returns_bind.
  { apply (Hdir (NS s) _ p1 Hwf1); auto. unfold dirs; simpl; auto. }
  intros r2 l2 Hl2 H2. next_state.
  set (p2 := if fst r2 then p1 ++ snd r2 else p1) in *.
  eapply returns_bind.
  { apply (Hdir (NS s + 1) _ p2 Hwf2); auto. unfold dirs; simpl; auto. }
  intros r3 l3 Hl3 H3. next_state.
  set (p3 := if fst r3 then p2 ++ snd r3 else p2) in *.
  eapply returns_bind.
  { apply (Hdir (NS s - 1) _ p3 Hwf3); auto. unfold dirs; simpl; auto. }
  intros r4 l4 Hl4 H4. next_state.
  set (p4 := if fst r4 then p3 ++ snd r4 else p3) in *.
  destruct p4 as [|x0 rest] eqn:Elp.
  - apply returns_ret; auto. discriminate.
  - apply returns_ret; auto.
    intros l Hsome. inversion Hsome; subst l.
    change (all_empty s p4) in H4. rewrite Elp in H4.
    intros x Hx. apply H4.
    now apply (proj1 (proj2 (list_of_set_spec (x0 :: rest)) x)).
Qed.


Lemma returns_leaves {A} (m : BM A) s (Q : A -> Prop) :
  returns m s Q -> leaves m s Q.
Proof.
  intros (a & l & E & Hl & HQ). exists l. split; eauto.
Qed.

Lemma leaves_bind {A B} (m : BM A) (k : A -> BM B) s
      (Q : A -> Prop) (R : B -> Prop) :
  returns m s Q ->
  (forall a l, liberties_ok s l = true -> Q a ->
               leaves (k a) (with_liberty_of s l) R) ->
  leaves (bind m k) s R.
Proof.
  intros (a & l & E & Hl & HQ) Hk.
  destruct (Hk a l Hl HQ) as (l' & Hl' & [(b & E' & HR)|E']);
    exists l'; (split; [exact Hl'|]); unfold bind; rewrite E, E'; eauto.
Qed.

Lemma leaves_bind2 {A B} (m : BM A) (k : A -> BM B) s
      (Q : A -> Prop) (R : B -> Prop) :
  leaves m s Q ->
  (forall a l, liberties_ok s l = true -> Q a ->
               leaves (k a) (with_liberty_of s l) R) ->
  leaves (bind m k) s R.
Proof.
  intros (l & Hl & [(a & E & HQ)|E]) Hk.
  - destruct (Hk a l Hl HQ) as (l' & Hl' & [(b & E' & HR)|E']);
      exists l'; (split; [exact Hl'|]); unfold bind; rewrite E, E'; eauto.
  - exists l. split; [exact Hl|]. right. unfold bind. now rewrite E.
Qed.

Lemma leaves_weaken {A} (m : BM A) s (Q R : A -> Prop) :
  leaves m s Q -> (forall a, Q a -> R a) -> leaves m s R.
Proof.
  intros (l & Hl & [(a & E & HQ)|E]) H; exists l; split; eauto.
Qed.

(** [order_the_point] calls [check_n] twice on a point; were the second
    call to find nothing where the first found something, the list
    comprehension would raise [TypeError]. *)
Lemma leaves_bucket_loop c n points :
  is_black_white c = true ->
  forall s final_n,
    wf s = true ->
    (forall q, In q points -> cell_at s q = Some c) ->
    all_empty s final_n ->
    leaves (bucket_loop list_of_set points n final_n) s (all_empty s).
Proof.
  intros Hc. induction points as [|point rest IH];
    intros s final_n Hwf Hpts Hfin; simpl.
  - apply returns_leaves. apply returns_ret; auto.
  - assert (Hpoint : cell_at s point = Some c) by (apply Hpts; now left).
    assert (Hrest : forall q, In q rest -> cell_at s q = Some c)
      by (intros q Hq; apply Hpts; now right).
    eapply leaves_bind; [apply (returns_check_n s point n c Hwf Hc Hpoint)|].
    intros r l Hl Hr. next_state.
    destruct r as [l1|].
    + eapply leaves_bind;
        [apply (returns_check_n _ point n c Hwf0 Hc Hpoint)|].
      intros r2 l' Hl' Hr2. next_state.
      destruct r2 as [list_temp|].
      * eapply leaves_weaken; [|intros a Ha; exact Ha].
        apply (IH _ _ Hwf1); auto.
        apply all_empty_app; auto. apply all_empty_filter.
        now apply Hr2.
      * exists (liberty_of (with_liberty_of (with_liberty_of s l) l')).
        split; [exact Hl'|]. right. reflexivity.
    + eapply leaves_weaken; [|intros a Ha; exact Ha].
      apply (IH _ _ Hwf0); auto.
Qed.

Lemma leaves_order_the_point s color :
  wf s = true ->
  leaves (order_the_point list_of_set color) s (all_empty s).
Proof.
  intros Hwf. destruct (wf_parts _ Hwf) as (Hg & _ & _).
  unfold order_the_point.
  apply (leaves_bind _ _ _ (fun x => board x = board s)).
  { eapply returns_pure; [exact Hwf|reflexivity|reflexivity]. }
  intros s' l0 Hl0 Hb. next_state. rewrite Hb. clear Hb s'.
  set (points := if color =? 2
                 then where1d (fun c => c =? WHITE) (board s)
                 else where1d (fun c => c =? BLACK) (board s)).
  assert (Hpts : exists c, is_black_white c = true /\
                   forall q, In q points -> cell_at s q = Some c).
  { unfold points. destruct (color =? 2).
    - exists WHITE. split; auto. intros q. apply (stones_listed s Hg).
    - exists BLACK. split; auto. intros q. apply (stones_listed s Hg). }
  destruct Hpts as (c & Hc & Hpts).
  assert (Hbucket : forall n st,
            wf st = true -> board st = board s ->
            leaves (bucket_loop list_of_set points n []) st (all_empty s)).
  { intros n st Hst Hb. eapply leaves_weaken.
    - apply (leaves_bucket_loop c n points Hc st [] Hst).
      + intros q Hq. unfold cell_at. rewrite Hb. now apply Hpts.
      + intros x [].
    - intros a Ha x Hx. specialize (Ha x Hx). unfold cell_at in *.
      now rewrite Hb in Ha. }
  eapply leaves_bind2; [apply (Hbucket 4 _ Hwf0 eq_refl)|].
  intros final_4 l1 Hl1 H4. next_state.
  eapply leaves_bind2; [apply (Hbucket 3 _ Hwf1 eq_refl)|].
  intros final_3 l2 Hl2 H3. next_state.
  eapply leaves_bind2; [apply (Hbucket 2 _ Hwf2 eq_refl)|].
  intros final_2 l3 Hl3 H2. next_state.
  eapply leaves_bind2; [apply (Hbucket 1 _ Hwf3 eq_refl)|].
  intros final_1 l4 Hl4 H1. next_state.
  apply (leaves_bind _ _ _ (all_empty s)).
  { eapply returns_pure; [exact Hwf4|reflexivity|].
    intros x Hx. now apply (stones_listed s Hg EMPTY). }
  intros list_temp l5 Hl5 Hlt. next_state.
  apply returns_leaves. apply returns_ret; auto.
  unfold not_in.
  repeat (apply all_empty_app; auto using all_empty_filter).
Qed.

End Ordering.

(* ================================================================= *)
(** ** C10: the scans leave the grid and [current_player] alone *)

Lemma straight_any_returns s color p points e1 e2 :
  wf_grid s = true ->
  is_black_white color = true ->
  on_board_b s p = true ->
  exists b, straight_any p color points e1 e2 s = Ok b s.
Proof.
  intros Hwf Hc Hp.
  assert (Hone : forall d, In d (dirs s) ->
            exists r, straight_check p d color points e1 e2 s = Ok r s).
  { intros d Hd.
    destruct (run_exists s Hwf color d d Hc Hd (or_introl eq_refl) p Hp)
      as (jf & vf & Hf).
    destruct (run_exists s Hwf color d (- d) Hc Hd (or_intror eq_refl) p Hp)
      as (jb & vb & Hb).
    eexists. apply (straight_check_runs s Hwf); eauto. }
  destruct (Hone 1) as (r1 & E1); [unfold dirs; simpl; auto|].
  destruct (Hone (NS s)) as (r2 & E2); [unfold dirs; simpl; auto|].
  destruct (Hone (NS s + 1)) as (r3 & E3); [unfold dirs; simpl; auto|].
  destruct (Hone (NS s - 1)) as (r4 & E4); [unfold dirs; simpl; auto|].
  unfold straight_any, bind, get_state. rewrite E1.
  destruct (truthy r1); [eexists; reflexivity|].
  rewrite E2. destruct (truthy r2); [eexists; reflexivity|].
  rewrite E3. destruct (truthy r3); [eexists; reflexivity|].
  rewrite E4. destruct (truthy r4); eexists; reflexivity.
Qed.

Lemma block_open_four_loop_returns s versus_color :
  wf_grid s = true ->
  is_black_white versus_color = true ->
  forall pts found,
    (forall q, In q pts -> cell_at s q = Some EMPTY) ->
    exists l, block_open_four_loop pts versus_color found s = Ok l s.
Proof.
  intros Hwf Hc pts. induction pts as [|p rest IH]; intros found Hempty.
  - exists found. reflexivity.
  - assert (Hp : on_board_b s p = true).
    { apply (cell_on_board s Hwf p EMPTY); [apply Hempty; now left|discriminate]. }
    destruct (straight_any_returns s versus_color p 4 true false Hwf Hc Hp)
      as (b1 & E1).
    destruct (straight_any_returns s versus_color p 3 true false Hwf Hc Hp)
      as (b2 & E2).
    destruct (straight_any_returns s versus_color p 4 false true Hwf Hc Hp)
      as (b3 & E3).
    simpl. unfold bind. rewrite E1, E2, E3.
    apply IH. intros q Hq. apply Hempty. now right.
Qed.

Lemma block_open_four_returns s color :
  wf_grid s = true ->
  is_black_white color = true ->
  exists l, block_open_four color s = Ok l s.
Proof.
  intros Hwf Hc. unfold block_open_four, bind, get_state.
  apply block_open_four_loop_returns; auto.
  - now apply is_black_white_opponent.
  - intros q Hq. now apply (stones_listed s Hwf EMPTY).
Qed.

(** What a scan may change: nothing of the grid, and not
    [current_player]. *)
Definition grid_unchanged (s s' : SimpleGoBoard) : Prop :=
  board s' = board s /\ current_player s' = current_player s.

(** C10. On every board state and for every player's colour, the four
    scans come to an end with every cell of the grid and [current_player]
    as they were.  [check_game_end_gomoku], [open_four] and
    [block_open_four] return and leave the whole object as it was;
    [order_the_point], whose candidate test writes the candidate cell and
    restores it, returns (or raises [TypeError] where it evaluates [check_n]
    a second time) with only [liberty_of] changed. *)
Theorem scans_leave_grid_unchanged :
  forall (list_of_set : list Z -> list Z) (s : SimpleGoBoard) (color : Z),
    (forall l, NoDup (list_of_set l) /\
               forall x, In x (list_of_set l) <-> In x l) ->
    wf s = true ->
    is_black_white color = true ->
    (exists r, check_game_end_gomoku s = Ok r s) /\
    (exists l, open_four color s = Ok l s) /\
    (exists l, block_open_four color s = Ok l s) /\
    (exists s',
       ((exists moves, order_the_point list_of_set color s = Ok moves s') \/
        order_the_point list_of_set color s = Raise TypeError s') /\
       grid_unchanged s s').
Proof.
  intros list_of_set s color Hset Hwf Hc.
  destruct (wf_parts _ Hwf) as (Hg & _ & _).
  repeat split.
  - destruct (check_game_end_gomoku_spec s Hg) as (e & w & E & _).
    now exists (e, w).
  - destruct (open_four_spec s color Hg Hc) as (l & E & _). now exists l.
  - now apply block_open_four_returns.
  - destruct (leaves_order_the_point list_of_set Hset s color Hwf)
      as (l & Hl & [(moves & E & _)|E]);
      exists (with_liberty_of s l); (split; [|split; reflexivity]); eauto.
Qed.

Definition first_occurrences (l : list Z) : list Z := nodup Z.eq_dec l.

Lemma first_occurrences_spec :
  forall l, NoDup (first_occurrences l) /\
            forall x, In x (first_occurrences l) <-> In x l.
Proof.
  intros l. split.
  - apply NoDup_nodup.
  - intros x. apply nodup_In.
Qed.

Lemma scans_leave_grid_unchanged_witness :
  (exists r, check_game_end_gomoku black_three7 = Ok r black_three7) /\
  (exists l, open_four BLACK black_three7 = Ok l black_three7) /\
  (exists l, block_open_four BLACK black_three7 = Ok l black_three7) /\
  (exists s',
     ((exists moves,
         order_the_point first_occurrences BLACK black_three7 = Ok moves s') \/
      order_the_point first_occurrences BLACK black_three7
      = Raise TypeError s') /\
     grid_unchanged black_three7 s').
Proof.
  apply (scans_leave_grid_unchanged first_occurrences black_three7 BLACK).
  - exact first_occurrences_spec.
  - vm_compute; reflexivity.
  - reflexivity.
Defined.

Example order_the_point_black_three7 :
  exists s',
    order_the_point first_occurrences BLACK black_three7
    = Ok [13; 9; 14; 15; 17; 18; 19; 20; 21; 22; 23; 25; 26; 27; 28; 29; 30;
          31; 33; 34; 35; 36; 37; 38; 39; 41; 42; 43; 44; 45; 46; 47; 49; 50;
          51; 52; 53; 54; 55; 59; 61; 62; 63] s' /\
    grid_unchanged black_three7 s'.
Proof.
  eexists. split; [vm_compute; reflexivity|split; reflexivity].
Qed.

(* ================================================================= *)
(** ** What no operation changes: the size of the grid, the time limit *)

(** [pres R m]: however [m] ends, the state it leaves is related by [R] to
    the state it started from. *)
Definition pres {S A} (R : S -> S -> Prop) (m : M S A) : Prop :=
  forall s, match m s with
            | Ok _ s' => R s s'
            | Raise _ s' => R s s'
            end.

Section Preservation.

Context {S : Type} (R : S -> S -> Prop).
Hypothesis R_refl : forall s, R s s.
Hypothesis R_trans : forall s1 s2 s3, R s1 s2 -> R s2 s3 -> R s1 s3.

Lemma pres_ret {A} (a : A) : pres R (ret a).
Proof. intros s. apply R_refl. Qed.

Lemma pres_raise {A} e : pres R (@raise S A e).
Proof. intros s. apply R_refl. Qed.

Lemma pres_get_state : pres R (@get_state S).
Proof. intros s. apply R_refl. Qed.

Lemma pres_py_assert b : pres R (@py_assert S b).
Proof. destruct b; [apply pres_ret|apply pres_raise]. Qed.

Lemma pres_bind {A B} (m : M S A) (k : A -> M S B) :
  pres R m -> (forall a, pres R (k a)) -> pres R (bind m k).
Proof.
  intros Hm Hk s. unfold bind. specialize (Hm s).
  destruct (m s) as [a s'|e s']; auto.
  specialize (Hk a s'). destruct (k a s'); eauto.
Qed.

End Preservation.

(** The length of the grid. *)
Definition same_length (s s' : SimpleGoBoard) : Prop :=
  length (board s') = length (board s).

Lemma same_length_refl s : same_length s s.
Proof. reflexivity. Qed.

Lemma same_length_trans s1 s2 s3 :
  same_length s1 s2 -> same_length s2 s3 -> same_length s1 s3.
Proof. unfold same_length. congruence. Qed.

Ltac pres_step :=
  match goal with
  | |- pres _ (bind _ _) =>
      apply (pres_bind _ same_length_trans); [|intros]
  | |- pres _ (ret _) => apply (pres_ret _ same_length_refl)
  | |- pres _ (raise _) => apply (pres_raise _ same_length_refl)
  | |- pres _ get_state => apply (pres_get_state _ same_length_refl)
  | |- pres _ (py_assert _) => apply (pres_py_assert _ same_length_refl)
  | |- pres _ (if ?b then _ else _) => destruct b
  | |- pres _ (match ?x with _ => _ end) => destruct x
  | |- pres _ (let '(_, _) := ?x in _) => destruct x
  end.

Create HintDb keeps.

Ltac pres_tac := repeat (first [pres_step | solve [auto with keeps]]).

Lemma keeps_get_color p : pres same_length (get_color p).
Proof. intros s. unfold get_color. destruct (py_get (board s) p); reflexivity. Qed.

Lemma py_set_length {A} (l l' : list A) i v :
  py_set l i v = Some l' -> length l' = length l.
Proof.
  unfold py_set. destruct (normalize_index (length l) i); intros H;
    inversion H. apply replace_nth_length.
Qed.

Lemma keeps_set_color p v : pres same_length (set_color p v).
Proof.
  intros s. unfold set_color.
  destruct (py_set (board s) p v) eqn:E; [|reflexivity].
  unfold same_length. simpl. eapply py_set_length; eauto.
Qed.

Lemma keeps_set_current_player c : pres same_length (set_current_player c).
Proof. intros s. reflexivity. Qed.

Lemma keeps_neighbors_at p : pres same_length (neighbors_at p).
Proof.
  intros s. unfold neighbors_at. destruct (py_get (neighbors s) p); reflexivity.
Qed.

Lemma keeps_get_liberty_of p : pres same_length (get_liberty_of p).
Proof.
  intros s. unfold get_liberty_of.
  destruct (py_get (liberty_of s) p); reflexivity.
Qed.

Lemma keeps_set_liberty_of p v : pres same_length (set_liberty_of p v).
Proof.
  intros s. unfold set_liberty_of.
  destruct (py_set (liberty_of s) p v); reflexivity.
Qed.

#[export] Hint Resolve keeps_get_color keeps_set_color
  keeps_set_current_player keeps_neighbors_at keeps_get_liberty_of
  keeps_set_liberty_of : keeps.

Lemma keeps_play_move_gomoku point color :
  pres same_length (play_move_gomoku point color).
Proof. unfold play_move_gomoku. pres_tac. Qed.

Lemma keeps_undo point : pres same_length (undo point).
Proof. unfold undo. pres_tac. Qed.

Lemma keeps_connect5_loop fuel color d :
  forall p count, pres same_length (connect5_loop fuel color d p count).
Proof. induction fuel; intros; simpl; pres_tac. Qed.

#[export] Hint Resolve keeps_play_move_gomoku keeps_undo
  keeps_connect5_loop : keeps.

Lemma keeps_point_direction_check point shift :
  pres same_length (_point_direction_check_connect_gomoko point shift).
Proof. unfold _point_direction_check_connect_gomoko. pres_tac. Qed.

#[export] Hint Resolve keeps_point_direction_check : keeps.

Lemma keeps_point_check point :
  pres same_length (point_check_game_end_gomoku point).
Proof. unfold point_check_game_end_gomoku. pres_tac. Qed.

#[export] Hint Resolve keeps_point_check : keeps.

Lemma keeps_any_point_ends points : pres same_length (any_point_ends points).
Proof. induction points; simpl; pres_tac. Qed.

#[export] Hint Resolve keeps_any_point_ends : keeps.

Lemma keeps_check_game_end_gomoku : pres same_length check_game_end_gomoku.
Proof. unfold check_game_end_gomoku. pres_tac. Qed.

Lemma keeps_get_empty_points : pres same_length get_empty_points.
Proof. unfold get_empty_points. pres_tac. Qed.

#[export] Hint Resolve keeps_check_game_end_gomoku keeps_get_empty_points
  : keeps.

Lemma keeps_neighbors_of_color_loop nbs color :
  forall nbc, pres same_length (neighbors_of_color_loop nbs color nbc).
Proof. induction nbs; intros; simpl; pres_tac. Qed.

Lemma keeps_find_neighbor_loop nbs color :
  pres same_length (find_neighbor_loop nbs color).
Proof. induction nbs; simpl; pres_tac. Qed.

#[export] Hint Resolve keeps_neighbors_of_color_loop
  keeps_find_neighbor_loop : keeps.

Lemma keeps_neighbors_of_color point color :
  pres same_length (neighbors_of_color point color).
Proof. unfold neighbors_of_color. pres_tac. Qed.

Lemma keeps_find_neighbor_of_color point color :
  pres same_length (find_neighbor_of_color point color).
Proof. unfold find_neighbor_of_color. pres_tac. Qed.

#[export] Hint Resolve keeps_neighbors_of_color
  keeps_find_neighbor_of_color : keeps.

Lemma keeps__stone_has_liberty stone :
  pres same_length (_stone_has_liberty stone).
Proof. unfold _stone_has_liberty. pres_tac. Qed.

Lemma keeps__get_liberty_loop stones :
  pres same_length (_get_liberty_loop stones).
Proof. induction stones; simpl; pres_tac. Qed.

Lemma keeps_set_liberty_loop stones lib :
  pres same_length (set_liberty_loop stones lib).
Proof. induction stones; simpl; pres_tac. Qed.

#[export] Hint Resolve keeps__stone_has_liberty keeps__get_liberty_loop
  keeps_set_liberty_loop : keeps.

Lemma keeps__has_liberty block : pres same_length (_has_liberty block).
Proof. unfold _has_liberty, _get_liberty. pres_tac. Qed.

Lemma keeps_mark_neighbors nbs :
  forall marker pointstack,
    pres same_length (mark_neighbors nbs marker pointstack).
Proof.
  induction nbs; intros; simpl; pres_tac.
Qed.

#[export] Hint Resolve keeps__has_liberty keeps_mark_neighbors : keeps.

Lemma keeps__block_of_loop fuel color :
  forall marker pointstack,
    pres same_length (_block_of_loop fuel color marker pointstack).
Proof. induction fuel; intros; simpl; pres_tac. Qed.

#[export] Hint Resolve keeps__block_of_loop : keeps.

Lemma keeps__block_of stone : pres same_length (_block_of stone).
Proof. unfold _block_of. pres_tac. Qed.

#[export] Hint Resolve keeps__block_of : keeps.

Lemma keeps__fast_liberty_check p : pres same_length (_fast_liberty_check p).
Proof. unfold _fast_liberty_check. pres_tac. Qed.

#[export] Hint Resolve keeps__fast_liberty_check : keeps.

Lemma keeps__detect_capture p : pres same_length (_detect_capture p).
Proof. unfold _detect_capture. pres_tac. Qed.

#[export] Hint Resolve keeps__detect_capture : keeps.

Lemma keeps__detect_captures_loop nbs :
  pres same_length (_detect_captures_loop nbs).
Proof. induction nbs; simpl; pres_tac. Qed.

#[export] Hint Resolve keeps__detect_captures_loop : keeps.

Lemma keeps__detect_captures p c : pres same_length (_detect_captures p c).
Proof. unfold _detect_captures. pres_tac. Qed.

#[export] Hint Resolve keeps__detect_captures : keeps.

Lemma keeps_is_legal point color : pres same_length (is_legal point color).
Proof. unfold is_legal. pres_tac. Qed.

#[export] Hint Resolve keeps_is_legal : keeps.

Lemma keeps_direction_loop1 fuel color point shift max d :
  forall p count pw,
    pres same_length (direction_loop1 fuel color point shift max d p count pw).
Proof. induction fuel; intros; simpl; pres_tac. Qed.

Lemma keeps_direction_loop2 fuel color max d :
  forall p count pw,
    pres same_length (direction_loop2 fuel color max d p count pw).
Proof. induction fuel; intros; simpl; pres_tac. Qed.

#[export] Hint Resolve keeps_direction_loop1 keeps_direction_loop2 : keeps.

Lemma keeps_direction_check point shift max :
  pres same_length (direction_check_connect_gomoko point shift max).
Proof. unfold direction_check_connect_gomoko. pres_tac. Qed.

#[export] Hint Resolve keeps_direction_check : keeps.

Lemma keeps_check_n f point max : pres same_length (check_n f point max).
Proof. unfold check_n. pres_tac. Qed.

#[export] Hint Resolve keeps_check_n : keeps.

Lemma keeps_bucket_loop f points n :
  forall final_n, pres same_length (bucket_loop f points n final_n).
Proof. induction points; intros; simpl; pres_tac. Qed.

#[export] Hint Resolve keeps_bucket_loop : keeps.

Lemma keeps_order_the_point f color :
  pres same_length (order_the_point f color).
Proof. unfold order_the_point, generate_legal_moves. pres_tac. Qed.

#[export] Hint Resolve keeps_order_the_point : keeps.

(* ================================================================= *)
(** ** The solver: how [unknown] travels *)

Lemma same_frame_refl g : same_frame g g.
Proof. split; reflexivity. Qed.

Lemma same_frame_trans g1 g2 g3 :
  same_frame g1 g2 -> same_frame g2 g3 -> same_frame g1 g3.
Proof. unfold same_frame. intros [] []. split; congruence. Qed.

Lemma pres_on_board {A} (m : BM A) :
  pres same_length m -> pres same_frame (on_board m).
Proof.
  intros H g. unfold on_board. specialize (H (gboard g)).
  destruct (m (gboard g)); split; auto.
Qed.

Ltac frame_step :=
  match goal with
  | |- pres _ (bind _ _) =>
      apply (pres_bind _ same_frame_trans); [|intros]
  | |- pres _ (ret _) => apply (pres_ret _ same_frame_refl)
  | |- pres _ (raise _) => apply (pres_raise _ same_frame_refl)
  | |- pres _ get_state => apply (pres_get_state _ same_frame_refl)
  | |- pres _ (on_board _) => apply pres_on_board; solve [auto with keeps]
  | |- pres _ (if ?b then _ else _) => destruct b
  | |- pres _ (match ?x with _ => _ end) => destruct x
  | |- pres _ (let '(_, _) := ?x in _) => destruct x
  end.

Ltac frame_tac := repeat (first [frame_step | solve [auto with keeps]]).

Section Timeout.

Variable list_of_set : list Z -> list Z.
Variable process_time : nat -> Z.

Lemma frame_read_process_time : pres same_frame (read_process_time process_time).
Proof. intros g. split; reflexivity. Qed.

Lemma frame_set_time_Used t : pres same_frame (set_time_Used t).
Proof. intros g. split; reflexivity. Qed.

Lemma frame_time_exceeded : pres same_frame time_exceeded.
Proof. intros g. unfold time_exceeded. destruct (time g); split; reflexivity. Qed.

Hint Resolve frame_read_process_time frame_set_time_Used
  frame_time_exceeded : keeps.

Lemma frame_before_child color turn move :
  pres same_frame (before_child color turn move).
Proof.
  unfold before_child, generate_legal_moves_gomoku. frame_tac.
Qed.

Lemma frame_after_child turn move mm_return draw_list :
  pres same_frame (after_child process_time turn move mm_return draw_list).
Proof. unfold after_child. frame_tac. Qed.

Hint Resolve frame_before_child frame_after_child : keeps.

Lemma frame_minimax_loop rec color toPlay turn moves :
  (forall c t, pres same_frame (rec c t)) ->
  forall draw_list,
    pres same_frame
      (minimax_loop process_time rec color toPlay turn moves draw_list).
Proof.
  intros Hrec. induction moves; intros; simpl; frame_tac.
Qed.

Lemma frame_minimax fuel :
  forall color turn,
    pres same_frame (minimax list_of_set process_time fuel color turn).
Proof.
  induction fuel as [|fuel IH]; intros color turn; simpl.
  - frame_tac.
  - unfold minimax_body. frame_tac; apply frame_minimax_loop; auto.
Qed.

Lemma pres_ok {S A} (R : S -> S -> Prop) (m : M S A) s a s' :
  pres R m -> m s = Ok a s' -> R s s'.
Proof. intros H E. specialize (H s). now rewrite E in H. Qed.

(** A move that has been played can be taken back on any grid of the same
    size. *)
Lemma before_child_played color turn move g early g1 :
  before_child color turn move g = Ok early g1 ->
  exists k, normalize_index (length (board (gboard g))) move = Some k.
Proof.
  unfold before_child, bind, on_board at 1.
  unfold play_move_gomoku, bind, py_assert.
  destruct (is_black_white color); simpl; [|discriminate].
  unfold get_color, py_get.
  destruct (normalize_index (length (board (gboard g))) move) as [k|];
    [eauto|discriminate].
Qed.

Lemma undo_defined move g k :
  normalize_index (length (board (gboard g))) move = Some k ->
  on_board (undo move) g
  = Ok tt (with_gboard g (with_board (gboard g)
                                      (replace_nth (board (gboard g)) k 0))).
Proof.
  intros H. unfold on_board, undo, set_color, py_set. now rewrite H.
Qed.

(** The state [after_child] leaves when it answers: the move taken back,
    one reading of the clock made and recorded. *)
Definition checked (move : Z) (k : nat) (g : GtpConnection) : GtpConnection :=
  mkGtp (with_board (gboard g) (replace_nth (board (gboard g)) k 0))
        (time g) (s_time g) (process_time (ticks g) - s_time g) (toPlay g)
        (S (ticks g)).

Lemma after_child_unknown turn move mv draw_list g k limit :
  normalize_index (length (board (gboard g))) move = Some k ->
  time g = Some limit ->
  after_child process_time turn move (SUnknown, mv) draw_list g
  = Ok (inl (SUnknown, MFalse)) (checked move k g).
Proof.
  intros Hk Ht. unfold after_child, bind. rewrite (undo_defined _ _ _ Hk).
  unfold read_process_time, get_state, set_time_Used, time_exceeded, checked.
  simpl. rewrite Ht.
  destruct (process_time (ticks g) - s_time g >? limit); [reflexivity|].
  destruct turn; reflexivity.
Qed.

Lemma after_child_late turn move mm_return draw_list g k limit :
  normalize_index (length (board (gboard g))) move = Some k ->
  time g = Some limit ->
  limit < process_time (ticks g) - s_time g ->
  after_child process_time turn move mm_return draw_list g
  = Ok (inl (SUnknown, MFalse)) (checked move k g).
Proof.
  intros Hk Ht Hlate. unfold after_child, bind. rewrite (undo_defined _ _ _ Hk).
  unfold read_process_time, get_state, set_time_Used, time_exceeded, checked.
  simpl. rewrite Ht.
  replace (process_time (ticks g) - s_time g >? limit) with true
    by (symmetry; apply Z.gtb_lt; lia).
  reflexivity.
Qed.

Section Node.

Variable rec : Z -> Turn -> GM (Status * MoveVal).
Hypothesis Hrec : forall c t, pres same_frame (rec c t).

Lemma child_frame color turn move g g1 r g2 :
  before_child color turn move g = Ok None g1 ->
  rec (other color) (flip turn) g1 = Ok r g2 ->
  same_frame g g2 /\
  exists k, normalize_index (length (board (gboard g2))) move = Some k.
Proof.
  intros Hb Hr.
  pose proof (pres_ok _ _ _ _ _ (frame_before_child color turn move) Hb) as F1.
  pose proof (pres_ok _ _ _ _ _ (Hrec _ _) Hr) as F2.
  pose proof (same_frame_trans _ _ _ F1 F2) as F.
  split; [exact F|].
  destruct (before_child_played _ _ _ _ _ _ Hb) as [k Hk].
  exists k. destruct F as [_ Flen]. now rewrite Flen.
Qed.

(** The node whose child returns [unknown] returns [unknown] at once:
    whatever moves remain, it takes the move back, reads the clock once and
    answers. *)
Lemma loop_child_unknown color turn move rest draw_list g g1 mv g2 limit :
  time g = Some limit ->
  before_child color turn move g = Ok None g1 ->
  rec (other color) (flip turn) g1 = Ok (SUnknown, mv) g2 ->
  exists k,
    minimax_loop process_time rec color (other color) turn
      (move :: rest) draw_list g
    = Ok (SUnknown, MFalse) (checked move k g2).
Proof.
  intros Ht Hb Hr.
  destruct (child_frame _ _ _ _ _ _ _ Hb Hr) as [[Ft _] [k Hk]].
  exists k. simpl. unfold bind. rewrite Hb, Hr.
  rewrite (after_child_unknown _ _ _ _ _ k limit); auto. congruence.
Qed.

(** The node whose child returns when the limit is exceeded returns
    [unknown], whatever the child returned. *)
Lemma loop_child_late color turn move rest draw_list g g1 r g2 limit :
  time g = Some limit ->
  before_child color turn move g = Ok None g1 ->
  rec (other color) (flip turn) g1 = Ok r g2 ->
  limit < process_time (ticks g2) - s_time g2 ->
  exists k,
    minimax_loop process_time rec color (other color) turn
      (move :: rest) draw_list g
    = Ok (SUnknown, MFalse) (checked move k g2).
Proof.
  intros Ht Hb Hr Hlate.
  destruct (child_frame _ _ _ _ _ _ _ Hb Hr) as [[Ft _] [k Hk]].
  exists k. simpl. unfold bind. rewrite Hb, Hr.
  rewrite (after_child_late _ _ _ _ _ k limit); auto. congruence.
Qed.

(** The same for a child called for a later move. *)
Lemma loop_reaches_unknown color turn moves draw_list g gc mv g2 limit :
  loop_reaches process_time rec color turn moves draw_list g gc ->
  time g = Some limit ->
  rec (other color) (flip turn) gc = Ok (SUnknown, mv) g2 ->
  exists g3,
    minimax_loop process_time rec color (other color) turn moves draw_list g
    = Ok (SUnknown, MFalse) g3.
Proof.
  intros Hreach. induction Hreach as
      [move rest draw_list g g1 Hb
      |move rest draw_list g g1 r gm dl' g3 gc Hb Hr Ha Hreach IH];
    intros Ht Hu.
  - destruct (loop_child_unknown _ _ _ rest draw_list _ _ _ _ _ Ht Hb Hu)
      as [k E].
    eauto.
  - assert (Ht3 : time g3 = Some limit).
    { pose proof (pres_ok _ _ _ _ _ (frame_before_child color turn move) Hb)
        as [F1 _].
      pose proof (pres_ok _ _ _ _ _ (Hrec _ _) Hr) as [F2 _].
      pose proof (pres_ok _ _ _ _ _
                    (frame_after_child turn move r draw_list) Ha) as [F3 _].
      congruence. }
    destruct (IH Ht3 Hu) as [g4 E].
    exists g4. simpl. unfold bind. rewrite Hb, Hr, Ha. exact E.
Qed.

End Node.

(** An [unknown] returned by a call at any depth is what the outermost
    call returns. *)
Lemma reaches_unknown fuel color turn g fuel' color' turn' g' :
  reaches list_of_set process_time fuel color turn g fuel' color' turn' g' ->
  forall limit mv g2,
    time g = Some limit ->
    minimax list_of_set process_time fuel' color' turn' g'
    = Ok (SUnknown, mv) g2 ->
    exists mv0 g3,
      minimax list_of_set process_time fuel color turn g
      = Ok (SUnknown, mv0) g3.
Proof.
  intros Hreach. induction Hreach as
      [fuel color turn g
      |fuel color turn g winner g0 moves g1 gc fuel' color' turn' g'
         Hend Hord Hloop Hreach IH];
    intros limit mv g2 Ht Hu.
  - eauto.
  - assert (Ht1 : time g1 = Some limit).
    { pose proof (pres_ok _ _ _ _ _
                    (pres_on_board _ keeps_check_game_end_gomoku) Hend)
        as [F1 _].
      pose proof (pres_ok _ _ _ _ _
                    (pres_on_board _ (keeps_order_the_point _ _)) Hord)
        as [F2 _].
      congruence. }
    assert (Htc : time gc = Some limit).
    { clear - Hloop Ht1.
      assert (Hrec := frame_minimax fuel).
      induction Hloop as [move rest dl g g1 Hb
                         |move rest dl g g1 r gm dl' g3 gc Hb Hr Ha Hl IH].
      - pose proof (pres_ok _ _ _ _ _ (frame_before_child color turn move) Hb)
          as [F1 _]. congruence.
      - apply IH.
        pose proof (pres_ok _ _ _ _ _ (frame_before_child color turn move) Hb)
          as [F1 _].
        pose proof (pres_ok _ _ _ _ _ (Hrec _ _) Hr) as [F2 _].
        pose proof (pres_ok _ _ _ _ _
                      (frame_after_child turn move r dl) Ha) as [F3 _].
        congruence. }
    destruct (IH limit mv g2 Htc Hu) as (mv0 & g3 & E).
    destruct (loop_reaches_unknown _ (frame_minimax fuel) _ _ _ _ _ _ _ _ _
                Hloop Ht1 E) as [g4 E4].
    exists MFalse, g4. simpl. unfold minimax_body, bind.
    rewrite Hend, Hord.
    destruct moves as [|m ms]; [inversion Hloop|].
    exact E4.
Qed.

End Timeout.

(** ** C6: timeouts *)

(** C6 does not hold as stated: a call made when the limit has long been
    exceeded does not return [unknown] at once.  With four in a row and the
    fifth point free it returns the win without reading the clock. *)
Lemma timeout_on_entry_counterexample :
  ~ (forall (list_of_set : list Z -> list Z) (process_time : nat -> Z)
            (fuel : nat) (color : Z) (turn : Turn) (g g' : GtpConnection)
            (limit : Z) (r : Status * MoveVal),
        time g = Some limit ->
        (forall n, limit < process_time n - s_time g) ->
        minimax list_of_set process_time (S fuel) color turn g = Ok r g' ->
        fst r = SUnknown).
Proof.
  intros H.
  assert (E : exists g',
              minimax first_occurrences late_clock 1 BLACK TurnOr
                (connection black_four5)
              = Ok (STrue, MInt 11) g')
    by (eexists; vm_compute; reflexivity).
  destruct E as [g' E].
  assert (Hlate : forall n : nat,
            1 < late_clock n - s_time (connection black_four5))
    by (intros n; vm_compute; reflexivity).
  assert (Ht : time (connection black_four5) = Some 1) by reflexivity.
  pose proof (H first_occurrences late_clock 0%nat BLACK TurnOr
                (connection black_four5) g' 1
                (STrue, MInt 11) Ht Hlate E) as H'.
  discriminate H'.
Qed.

(** C6, amended. With a configured limit:
    - a node whose recursive call returns [unknown] returns [unknown]
      itself: it takes its move back, reads the clock once and answers,
      whatever moves remain to be tried;
    - the elapsed time is compared with the limit after a recursive call
      has returned (not when a call is entered), and the node returns
      [unknown] when the limit is then exceeded, whatever the call returned;
    - hence an [unknown] returned by a call at any depth is returned by
      every caller up to the outermost one: it does not become a win, a loss
      or a draw;
    - and [solve_cmd] answers [unknown] when its call of [minimax] returns
      [unknown]. *)
Theorem unknown_reaches_the_caller :
  forall (list_of_set : list Z -> list Z) (process_time : nat -> Z)
         (limit : Z),
    (forall fuel color turn move rest draw_list g g1 mv g2,
        time g = Some limit ->
        before_child color turn move g = Ok None g1 ->
        minimax list_of_set process_time fuel (other color) (flip turn) g1
        = Ok (SUnknown, mv) g2 ->
        exists k,
          minimax_loop process_time (minimax list_of_set process_time fuel)
            color (other color) turn (move :: rest) draw_list g
          = Ok (SUnknown, MFalse) (checked process_time move k g2)) /\
    (forall fuel color turn move rest draw_list g g1 r g2,
        time g = Some limit ->
        before_child color turn move g = Ok None g1 ->
        minimax list_of_set process_time fuel (other color) (flip turn) g1
        = Ok r g2 ->
        limit < process_time (ticks g2) - s_time g2 ->
        exists k,
          minimax_loop process_time (minimax list_of_set process_time fuel)
            color (other color) turn (move :: rest) draw_list g
          = Ok (SUnknown, MFalse) (checked process_time move k g2)) /\
    (forall fuel color turn g fuel' color' turn' g' mv g2,
        reaches list_of_set process_time fuel color turn g
                fuel' color' turn' g' ->
        time g = Some limit ->
        minimax list_of_set process_time fuel' color' turn' g'
        = Ok (SUnknown, mv) g2 ->
        exists mv0 g3,
          minimax list_of_set process_time fuel color turn g
          = Ok (SUnknown, mv0) g3) /\
    (forall g mv g2,
        minimax list_of_set process_time (solve_fuel g) (solve_color g)
          TurnOr (solve_start process_time g)
        = Ok (SUnknown, mv) g2 ->
        solve_cmd list_of_set process_time g = Ok RUnknown g2).
Proof.
  intros list_of_set process_time limit.
  split; [|split; [|split]].
  - intros. eapply loop_child_unknown; eauto.
    apply frame_minimax.
  - intros. eapply loop_child_late; eauto.
    apply frame_minimax.
  - intros. eapply reaches_unknown; eauto.
  - intros g mv g2 H.
    unfold solve_cmd, bind, read_process_time, set_s_time, set_time_Used,
      get_state. cbn.
    unfold solve_color, solve_start, solve_fuel in H. cbn in H.
    destruct (String.eqb (toPlay g) "b"); unfold solve_fuel; cbn;
      rewrite H; reflexivity.
Qed.

Lemma unknown_reaches_the_caller_witness :
  exists mv0 g3,
    minimax first_occurrences late_clock 30 BLACK TurnOr
      (connection black_corner5)
    = Ok (SUnknown, mv0) g3.
Proof.
  eapply (proj1 (proj2 (proj2 (unknown_reaches_the_caller
                                 first_occurrences late_clock 1)))
            30%nat BLACK TurnOr _ 29%nat WHITE TurnAnd).
  - eapply reaches_below.
    + vm_compute. reflexivity.
    + vm_compute. reflexivity.
    + apply reaches_first. vm_compute. reflexivity.
    + apply reaches_here.
  - reflexivity.
  - vm_compute. reflexivity.
Defined.

(** ** C2: four in a line *)

(** BLACK has four stones on a diagonal of this board, the point that
    completes the line is empty and the game has not ended. *)
Example black_corner5_position :
  wf black_corner5 = true /\
  current_player black_corner5 = BLACK /\
  map (cell_at black_corner5) [7; 14; 21; 28; 35]
  = [Some BLACK; Some BLACK; Some BLACK; Some BLACK; Some EMPTY] /\
  check_game_end_gomoku black_corner5 = Ok (false, None) black_corner5.
Proof. split; [|split; [|split]]; vm_compute; reflexivity. Qed.

(** The legality test of the game of Go rejects that point for BLACK (a
    stone there would have no liberty), so [order_the_point] does not put it
    in front: it comes last. *)
Example black_corner5_ordering :
  (exists s', is_legal (Some 35) BLACK black_corner5 = Ok false s') /\
  (exists s', order_the_point first_occurrences BLACK black_corner5
              = Ok [8; 9; 13; 15; 16; 17; 19; 20; 22; 23; 25; 26; 27; 31; 32;
                    33; 35] s').
Proof. split; eexists; vm_compute; reflexivity. Qed.

(** C2 at this position: when the limit is exceeded at the first time
    check, [minimax] returns [unknown] and not the win at point 35, and
    [solve_cmd] answers [unknown]. *)
Theorem minimax_black_corner5_unknown :
  (exists g',
      minimax first_occurrences late_clock
        (solve_fuel (connection black_corner5)) BLACK TurnOr
        (connection black_corner5)
      = Ok (SUnknown, MFalse) g' /\
      board (gboard g') = board black_corner5) /\
  (exists g',
      solve_cmd first_occurrences stepping_clock (connection black_corner5)
      = Ok RUnknown g').
Proof.
  split.
  - eexists. split; vm_compute; reflexivity.
  - eexists. vm_compute. reflexivity.
Qed.

(** With four in a row and a completing point that passes the legality
    test, the win is found at once. *)
Example minimax_black_four5_win :
  exists g',
    minimax first_occurrences late_clock 1 BLACK TurnOr
      (connection black_four5)
    = Ok (STrue, MInt 11) g' /\
    board (gboard g') = board black_four5 /\
    ticks g' = ticks (connection black_four5).
Proof. eexists. split; [|split]; vm_compute; reflexivity. Qed.

Example solve_cmd_black_four5_win :
  exists g',
    solve_cmd first_occurrences stepping_clock (connection black_four5)
    = Ok (RWinner "b" (Some (MInt 11))) g'.
Proof. eexists. vm_compute. reflexivity. Qed.

(* ================================================================= *)
(** ** Construction, copies and moves keep board states *)

Lemma new_board_sizes :
  forallb new_board_b (py_range 2 (MAXSIZE + 1)) = true.
Proof. vm_compute. reflexivity. Qed.

Lemma new_board_fresh sz :
  2 <= sz <= MAXSIZE ->
  exists b, new_board sz = Ok tt b /\ fresh_board_b sz b = true.
Proof.
  intros Hsz. pose proof new_board_sizes as H.
  rewrite forallb_forall in H.
  assert (Hin : In sz (py_range 2 (MAXSIZE + 1))).
  { unfold py_range. apply in_map_iff. exists (Z.to_nat (sz - 2)). split.
    - lia.
    - apply in_seq. unfold MAXSIZE in *. lia. }
  specialize (H sz Hin). unfold new_board_b in H.
  destruct (new_board sz) as [[] b|e b] eqn:E; [|discriminate].
  exists b. split; auto.
Qed.

Lemma fresh_board_parts sz b :
  fresh_board_b sz b = true ->
  wf b = true /\ size b = sz /\ WE b = 1 /\ current_player b = BLACK /\
  ko_recapture b = None /\
  forallb (fun v => (v =? EMPTY) || (v =? BORDER)) (board b) = true /\
  forallb (fun v => v =? NULLPOINT) (liberty_of b) = true /\
  Z.of_nat (count_empty b) = sz * sz.
Proof.
  unfold fresh_board_b. intros H.
  rewrite !andb_true_iff in H.
  destruct H as (((((((Hw & Hs) & HW) & Hc) & Hk) & Hcells) & Hlib) & Hn).
  apply Z.eqb_eq in Hs, HW, Hc, Hn.
  destruct (ko_recapture b); [discriminate|].
  repeat split; auto.
Qed.

Lemma copy_eq s b :
  new_board (size s) = Ok tt b ->
  NS b = NS s -> WE b = WE s -> maxpoint b = maxpoint s ->
  copy s = Ok tt (mkBoard (size b) (NS b) (WE b) (ko_recapture s)
                    (current_player s) (maxpoint b) (board s)
                    (liberty_of b) (neighbors b)).
Proof.
  intros E H1 H2 H3. unfold copy. rewrite E.
  unfold bind, py_assert, get_state, put_state.
  replace (NS b =? NS s) with true by (symmetry; apply Z.eqb_eq; exact H1).
  replace (WE b =? WE s) with true by (symmetry; apply Z.eqb_eq; exact H2).
  cbn [ret maxpoint].
  replace (maxpoint b =? maxpoint s) with true
    by (symmetry; apply Z.eqb_eq; exact H3).
  reflexivity.
Qed.

(** [copy] *)
Lemma copy_state :
  forall s : SimpleGoBoard,
    wf_grid s = true -> size s <= MAXSIZE -> WE s = 1 ->
    exists c,
      copy s = Ok tt c /\ wf c = true /\
      board c = board s /\ size c = size s /\ NS c = NS s /\ WE c = 1 /\
      maxpoint c = maxpoint s /\
      current_player c = current_player s /\
      ko_recapture c = ko_recapture s.
Proof.
  intros s Hg Hsz HWE.
  pose proof (wf_size s Hg) as H2.
  destruct (new_board_fresh (size s) (conj H2 Hsz)) as (b & E & Hb).
  destruct (fresh_board_parts _ _ Hb) as (Hwf & Hs & HW & _).
  destruct (wf_parts _ Hwf) as (Hgb & Hnb & Hlb).
  assert (HNS : NS b = NS s) by (rewrite (wf_NS b Hgb), (wf_NS s Hg); lia).
  assert (Hmp : maxpoint b = maxpoint s)
    by (rewrite (wf_maxpoint b Hgb), (wf_maxpoint s Hg), Hs; reflexivity).
  assert (Hlen : length (board b) = length (board s)).
  { pose proof (wf_length b Hgb). pose proof (wf_length s Hg). lia. }
  eexists. split; [apply (copy_eq s b E HNS); congruence|].
  cbn [board size NS WE maxpoint current_player ko_recapture].
  repeat split; auto.
  unfold wf. apply andb_true_intro; split; [apply andb_true_intro; split|].
  - unfold wf_grid. cbn [board size NS WE maxpoint]. rewrite Hs, HNS, Hmp.
    exact Hg.
  - unfold wf_neighbors, in_range_b in *.
    cbn [board size NS WE maxpoint neighbors]. rewrite <- Hlen. exact Hnb.
  - unfold liberties_ok, in_range_b in *.
    cbn [board size NS WE maxpoint liberty_of]. rewrite <- Hlen. exact Hlb.
Qed.

Lemma where1d_from_replace_length {A} (f : A -> bool) l :
  forall k i x v,
    nth_error l k = Some x -> f x = true -> f v = false ->
    S (length (where1d_from f (replace_nth l k v) i))
    = length (where1d_from f l i).
Proof.
  induction l as [|h t IH]; intros [|k] i x v Hn Hx Hv; simpl in *;
    try discriminate.
  - inversion Hn; subst h. now rewrite Hx, Hv.
  - destruct (f h); simpl; now rewrite (IH k (i + 1) x v Hn Hx Hv).
Qed.

Lemma cell_at_replace_eq s p v :
  0 <= p < Z.of_nat (length (board s)) ->
  cell_at (with_board s (replace_nth (board s) (Z.to_nat p) v)) p = Some v.
Proof.
  intros Hp. unfold cell_at. simpl.
  replace (p <? 0) with false by (symmetry; apply Z.ltb_ge; lia).
  apply nth_error_replace_nth_eq. lia.
Qed.

Lemma cell_at_replace_neq s p q v :
  0 <= p -> q <> p ->
  cell_at (with_board s (replace_nth (board s) (Z.to_nat p) v)) q
  = cell_at s q.
Proof.
  intros Hp Hq. unfold cell_at. simpl.
  destruct (q <? 0) eqn:E; [reflexivity|]. apply Z.ltb_ge in E.
  apply nth_error_replace_nth_neq. lia.
Qed.

(** A move on an empty point of a board state. *)
Lemma play_move_gomoku_state :
  forall (s : SimpleGoBoard) (p color : Z),
    wf s = true ->
    is_black_white color = true ->
    cell_at s p = Some EMPTY ->
    exists s',
      play_move_gomoku (Some p) color s = Ok true s' /\
      wf s' = true /\
      cell_at s' p = Some color /\
      (forall q, q <> p -> cell_at s' q = cell_at s q) /\
      current_player s' = opponent color /\
      S (count_empty s') = count_empty s.
Proof.
  intros s p color Hwf Hc Hp.
  destruct (wf_parts _ Hwf) as (Hg & _ & _).
  pose proof (cell_at_range s Hg p _ Hp) as Hr.
  pose proof (wf_length s Hg) as Hlen.
  assert (Hon : on_board_b s p = true).
  { pose proof (wf_cell_ok s Hg p _ Hp) as Hok. unfold cell_ok in Hok.
    unfold on_board_b.
    destruct (playable (size s) (NS s) p); [reflexivity|exact Hok]. }
  assert (Hv : (color =? EMPTY) || (color =? BLACK) || (color =? WHITE) = true).
  { destruct (is_black_white_cases _ Hc) as [->| ->]; reflexivity. }
  destruct (wf_write s p color Hwf (proj2 (in_range_b_spec s p) Hr) Hon Hv)
    as (Hset & Hwf').
  assert (Hget : py_get (board s) p = Some EMPTY)
    by (rewrite (py_get_cell s p); [exact Hp|lia]).
  destruct (play_move_gomoku_empty s p color Hc Hget) as (b & Hb & E).
  rewrite Hset in Hb. inversion Hb; subst b. clear Hb.
  eexists. split; [exact E|].
  split; [|split; [|split; [|split]]].
  - exact Hwf'.
  - apply (cell_at_replace_eq s p color). lia.
  - intros q Hq. apply (cell_at_replace_neq s p q color); [lia|exact Hq].
  - reflexivity.
  - unfold count_empty, where1d. cbn [board with_board with_current_player].
    unfold cell_at in Hp.
    destruct (p <? 0); [discriminate|].
    apply (where1d_from_replace_length _ _ _ _ EMPTY); auto.
    destruct (is_black_white_cases _ Hc) as [->| ->]; reflexivity.
Qed.

(** [get_empty_points] *)
Lemma empty_points_listed :
  forall s : SimpleGoBoard,
    exists l,
      get_empty_points s = Ok l s /\
      generate_legal_moves BLACK s = Ok l s /\
      StronglySorted Z.lt l /\
      forall p, In p l <-> cell_at s p = Some EMPTY.
Proof.
  intros s. exists (where1d (fun c => c =? EMPTY) (board s)).
  split; [reflexivity|]. split; [reflexivity|].
  split; [apply where1d_from_sorted|].
  intros p. unfold where1d. rewrite where1d_from_In. split.
  - intros (k & x & Hn & Hx & ->). apply Z.eqb_eq in Hx. subst x.
    unfold cell_at. 
    replace (0 + Z.of_nat k <? 0) with false by (symmetry; apply Z.ltb_ge; lia).
    now rewrite Z.add_0_l, Nat2Z.id.
  - unfold cell_at. destruct (p <? 0) eqn:E; [discriminate|].
    apply Z.ltb_ge in E. intros H.
    exists (Z.to_nat p), EMPTY. repeat split; auto. lia.
Qed.

(* ================================================================= *)
(** ** The search of MCTS.py *)

Lemma sig_eqb_eq a b : sig_eqb a b = true <-> a = b.
Proof.
  unfold sig_eqb. destruct (list_eq_dec Z.eq_dec a b); split; congruence.
Qed.

Lemma sig_eqb_refl a : sig_eqb a a = true.
Proof. now apply sig_eqb_eq. Qed.

Lemma tree_get_set tree k v k' :
  tree_get (tree_set tree k v) k'
  = if sig_eqb k k' then Some v else tree_get tree k'.
Proof.
  induction tree as [|[k0 v0] rest IH]; simpl.
  - reflexivity.
  - destruct (sig_eqb k0 k) eqn:E0; simpl.
    + apply sig_eqb_eq in E0. subst k0.
      destruct (sig_eqb k k'); reflexivity.
    + destruct (sig_eqb k0 k') eqn:E1.
      * destruct (sig_eqb k k') eqn:E2; [|reflexivity].
        apply sig_eqb_eq in E1, E2. subst.
        rewrite sig_eqb_refl in E0. discriminate.
      * apply IH.
Qed.

Lemma BackProp_eq :
  forall fuel tree first_ stop if_win w,
    BackProp (S fuel) tree first_ stop if_win w
    = if sig_eqb first_ stop then Ok tree w
      else match tree_get tree first_ with
           | Some _ => Raise AttributeError w
           | None => Raise KeyError w
           end.
Proof.
  intros. simpl. destruct (sig_eqb first_ stop); simpl; [reflexivity|].
  unfold bind, tree_item. destruct (tree_get tree first_); reflexivity.
Qed.

Lemma BackProp_returns_unchanged fuel tree first_ stop if_win w t w' :
  BackProp fuel tree first_ stop if_win w = Ok t w' ->
  first_ = stop /\ t = tree /\ w' = w.
Proof.
  destruct fuel as [|fuel]; [discriminate|].
  unfold BackProp; fold BackProp. 
  destruct (sig_eqb first_ stop) eqn:E; simpl.
  - intros H. inversion H. apply sig_eqb_eq in E. auto.
  - unfold bind, tree_item. destruct (tree_get tree first_); discriminate.
Qed.

Example BackProp_tree2 :
  BackProp (backprop_fuel tree2) tree2 child2 root2 true (world_of empty2)
  = Raise AttributeError (world_of empty2) /\
  BackProp (backprop_fuel tree2) tree2 root2 root2 true (world_of empty2)
  = Ok tree2 (world_of empty2).
Proof. split; reflexivity. Qed.

Lemma color_not_opponent p : (p =? opponent p) = false.
Proof. unfold opponent, WHITE, BLACK. apply Z.eqb_neq. lia. Qed.

Lemma evaluate_moves_inserts random_draw simple_board player2 first_ mv rest
      tree w nsb w1 played w2 arg w3 ending w4 key :
  call_copy simple_board w = Ok nsb w1 ->
  call nsb (play_move_gomoku (Some mv) player2) w1 = Ok played w2 ->
  call_copy nsb w2 = Ok arg w3 ->
  sim_do random_draw arg 50 player2 w3 = Ok ending w4 ->
  board_num nsb w4 = Ok key w4 ->
  evaluate_moves random_draw simple_board player2 first_ first_
    (mv :: rest) tree w
  = evaluate_moves random_draw simple_board player2 first_ first_ rest
      (tree_set tree key
         (mkState 1 (if pynum_ltb (pynum_of_int 0) ending then ending
                     else pynum_of_int 0) first_ mv)) w4.
Proof.
  intros H1 H2 H3 H4 H5.
  unfold evaluate_moves; fold evaluate_moves.
  unfold bind at 1. rewrite H1.
  unfold bind at 1. rewrite H2.
  unfold bind at 1. rewrite H3.
  unfold bind at 1. rewrite H4.
  rewrite color_not_opponent. rewrite andb_true_r.
  destruct (pynum_ltb (pynum_of_int 0) ending); cbn [Z.eqb Pos.eqb];
    unfold bind at 1; unfold bind at 1;
    unfold backprop_fuel; rewrite BackProp_eq, sig_eqb_refl; cbn [ret];
    unfold bind at 1; rewrite H5; reflexivity.
Qed.

Lemma call_get_empty_points r w b :
  nth_error (heap w) r = Some b ->
  call r generate_legal_moves_gomoku w
  = Ok (where1d (fun c => c =? EMPTY) (board b)) w.
Proof.
  intros H. unfold call. rewrite H.
  unfold generate_legal_moves_gomoku, get_empty_points, bind, get_state, ret.
  rewrite (replace_nth_same _ _ _ H). destruct w; reflexivity.
Qed.

Lemma Monte_Carlo_Tree_no_legal_move wall_clock random_draw fuel player2 w b :
  nth_error (heap w) Caller = Some b ->
  where1d (fun c => c =? EMPTY) (board b) = [] ->
  Monte_Carlo_Tree wall_clock random_draw fuel Caller player2 w
  = Ok PASS (mkWorld (heap w) (draws w) (S (clock_reads w))).
Proof.
  intros Hb He. unfold Monte_Carlo_Tree, bind, read_wall_clock.
  rewrite (call_get_empty_points Caller _ b) by exact Hb.
  rewrite He. reflexivity.
Qed.

Lemma Monte_Carlo_Tree_budget_spent wall_clock random_draw fuel player2 w b c :
  nth_error (heap w) Caller = Some b ->
  where1d (fun c => c =? EMPTY) (board b) <> [] ->
  copy b = Ok tt c ->
  56000 <= wall_clock (S (clock_reads w)) - wall_clock (clock_reads w) ->
  Monte_Carlo_Tree wall_clock random_draw (S fuel) Caller player2 w
  = Ok PASS (mkWorld (heap w ++ [c]) (draws w) (S (S (clock_reads w)))).
Proof.
  intros Hb He Hc Ht. unfold Monte_Carlo_Tree, bind, read_wall_clock.
  rewrite (call_get_empty_points Caller _ b) by exact Hb.
  destruct (where1d (fun c0 => c0 =? EMPTY) (board b)) as [|m ms];
    [congruence|].
  unfold call_copy. cbn [heap draws clock_reads]. rewrite Hb, Hc.
  unfold board_num. cbn [heap draws clock_reads].
  assert (Hn : nth_error (heap w ++ [c]) (length (heap w)) = Some c).
  { rewrite nth_error_app2 by lia. now rewrite Nat.sub_diag. }
  rewrite Hn.
  unfold search_loop, bind, read_wall_clock. cbn [heap draws clock_reads].
  assert (E : (wall_clock (S (clock_reads w)) - wall_clock (clock_reads w)
               <? 56000) = false) by (apply Z.ltb_ge; lia).
  rewrite E. reflexivity.
Qed.


(** *** Objects and worlds *)

Lemma keeps_refl m w : keeps m w w.
Proof. unfold keeps. auto. Qed.

Lemma keeps_trans m w1 w2 w3 :
  keeps m w1 w2 -> keeps m w2 w3 -> keeps m w1 w3.
Proof.
  intros (H1 & H2 & H3) (H4 & H5 & H6). unfold keeps.
  repeat split; try lia; try congruence.
  intros k Hk. rewrite H5, H2; auto.
Qed.

Lemma keeps_weaken m m' w w' : (m' <= m)%nat -> keeps m w w' -> keeps m' w w'.
Proof.
  intros Hm (H1 & H2 & H3). unfold keeps. repeat split; auto.
  intros k Hk. apply H2. lia.
Qed.

Lemma keeps_obj m w w' r s :
  keeps m w w' -> (r < m)%nat -> obj w r s -> obj w' r s.
Proof. intros (_ & H & _) Hr Ho. unfold obj in *. now rewrite H. Qed.

Lemma obj_lt w r s : obj w r s -> (r < length (heap w))%nat.
Proof. unfold obj. intros H. apply nth_error_Some. congruence. Qed.

Lemma keeps_replace m w r s' d :
  (m <= r)%nat ->
  keeps m w (mkWorld (replace_nth (heap w) r s') d (clock_reads w)).
Proof.
  intros Hr. unfold keeps. cbn [heap clock_reads].
  rewrite replace_nth_length. repeat split; auto.
  intros k Hk. apply nth_error_replace_nth_neq. lia.
Qed.

Lemma keeps_app m w l d :
  (m <= length (heap w))%nat ->
  keeps m w (mkWorld (heap w ++ l) d (clock_reads w)).
Proof.
  intros Hm. unfold keeps. cbn [heap clock_reads].
  rewrite length_app. repeat split; try lia.
  intros k Hk. apply nth_error_app1. lia.
Qed.

Lemma keeps_draws m w d :
  keeps m w (mkWorld (heap w) d (clock_reads w)).
Proof. unfold keeps. cbn. auto. Qed.

Lemma safe_bind {A B} m (Q : A -> World -> Prop) (Q' : B -> World -> Prop)
      (c : WM A) (k : A -> WM B) w :
  safe m Q c w ->
  (forall a w', keeps m w w' -> Q a w' -> safe m Q' (k a) w') ->
  safe m Q' (bind c k) w.
Proof.
  unfold safe, bind. destruct (c w) as [a w'|e w'].
  - intros (Hk & HQ) H. specialize (H a w' Hk HQ).
    destruct (k a w') as [b w''|e w''].
    + destruct H as (Hk' & HQ'). split; auto. eapply keeps_trans; eauto.
    + destruct H as (He & Hk'). split; auto. eapply keeps_trans; eauto.
  - intros (He & Hk) _. auto.
Qed.

Lemma safe_weaken {A} m m' (Q Q' : A -> World -> Prop) (c : WM A) w :
  safe m Q c w -> (m' <= m)%nat -> (forall a w', Q a w' -> Q' a w') ->
  safe m' Q' c w.
Proof.
  unfold safe. destruct (c w) as [a w'|e w'].
  - intros (Hk & HQ) Hm H. split; auto. eapply keeps_weaken; eauto.
  - intros (He & Hk) Hm _. split; auto. eapply keeps_weaken; eauto.
Qed.

Lemma safe_ret {A} m (Q : A -> World -> Prop) (a : A) w :
  Q a w -> safe m Q (ret a) w.
Proof. intros H. unfold safe, ret. split; auto. apply keeps_refl. Qed.

Lemma safe_raise {A} m (Q : A -> World -> Prop) e w :
  caught e -> safe m Q (raise e) w.
Proof. intros H. unfold safe, raise. split; auto. apply keeps_refl. Qed.

Lemma safe_eq_ok {A} m (Q : A -> World -> Prop) (c : WM A) w a w' :
  c w = Ok a w' -> keeps m w w' -> Q a w' -> safe m Q c w.
Proof. intros E Hk HQ. unfold safe. rewrite E. auto. Qed.

Lemma safe_eq_raise {A} m (Q : A -> World -> Prop) (c : WM A) w e w' :
  c w = Raise e w' -> caught e -> keeps m w w' -> safe m Q c w.
Proof. intros E He Hk. unfold safe. rewrite E. auto. Qed.

Lemma safe_step {A B} m (Q : B -> World -> Prop) (c : WM A) (k : A -> WM B)
      w a w' :
  c w = Ok a w' -> keeps m w w' -> safe m Q (k a) w' ->
  safe m Q (bind c k) w.
Proof.
  intros E Hk H. unfold safe, bind in *. rewrite E.
  destruct (k a w') as [b w''|e w'']; destruct H; split; auto;
    eapply keeps_trans; eauto.
Qed.

Lemma safe_stop {A B} m (Q : B -> World -> Prop) (c : WM A) (k : A -> WM B)
      w e w' :
  c w = Raise e w' -> caught e -> keeps m w w' ->
  safe m Q (bind c k) w.
Proof. intros E He Hk. unfold safe, bind. rewrite E. auto. Qed.

Lemma world_eta w : mkWorld (heap w) (draws w) (clock_reads w) = w.
Proof. now destruct w. Qed.

Lemma call_ok {A} r (m : BM A) w s a s' :
  obj w r s -> m s = Ok a s' ->
  call r m w
  = Ok a (mkWorld (replace_nth (heap w) r s') (draws w) (clock_reads w)).
Proof. unfold obj, call. intros -> ->. reflexivity. Qed.

Lemma call_raise {A} r (m : BM A) w s e s' :
  obj w r s -> m s = Raise e s' ->
  call r m w
  = Raise e (mkWorld (replace_nth (heap w) r s') (draws w) (clock_reads w)).
Proof. unfold obj, call. intros -> ->. reflexivity. Qed.

Lemma call_read {A} r (m : BM A) w s a :
  obj w r s -> m s = Ok a s -> call r m w = Ok a w.
Proof.
  intros Ho E. rewrite (call_ok r m w s a s Ho E).
  rewrite (replace_nth_same _ _ _ Ho). now rewrite world_eta.
Qed.

Lemma obj_replace w r s s' d :
  obj w r s ->
  obj (mkWorld (replace_nth (heap w) r s') d (clock_reads w)) r s'.
Proof.
  intros Ho. unfold obj. cbn [heap].
  apply nth_error_replace_nth_eq. now apply (obj_lt w r s).
Qed.

Lemma obj_app_last w c d :
  obj (mkWorld (heap w ++ [c]) d (clock_reads w)) (length (heap w)) c.
Proof.
  unfold obj. cbn [heap]. rewrite nth_error_app2 by lia.
  now rewrite Nat.sub_diag.
Qed.

Lemma copyable_wf s : copyable s -> wf s = true.
Proof. now intros (H & _). Qed.

(** [obj.copy()] *)
Lemma call_copy_state w r s :
  obj w r s -> copyable s ->
  exists c,
    call_copy r w
    = Ok (length (heap w))
         (mkWorld (heap w ++ [c]) (draws w) (clock_reads w)) /\
    copyable c /\ board c = board s.
Proof.
  intros Ho (Hwf & Hsz & HWE).
  destruct (wf_parts _ Hwf) as (Hg & _ & _).
  destruct (copy_state s Hg Hsz HWE)
    as (c & E & Hc & Hb & Hs & _ & HW & _).
  exists c. split; [|split; [|exact Hb]].
  - unfold call_copy. unfold obj in Ho. rewrite Ho, E. reflexivity.
  - split; [exact Hc|]. split; [lia|exact HW].
Qed.

Lemma cell_at_board s c p : board c = board s -> cell_at c p = cell_at s p.
Proof. unfold cell_at. now intros ->. Qed.

Lemma check_game_end_gomoku_returns s :
  wf_grid s = true -> exists r, check_game_end_gomoku s = Ok r s.
Proof.
  intros Hg.
  destruct (any_stone_ends s Hg WHITE eq_refl) as (w & Hw & _).
  destruct (any_stone_ends s Hg BLACK eq_refl) as (b & Hb & _).
  unfold check_game_end_gomoku, bind, get_state. rewrite Hw.
  destruct w; eauto. rewrite Hb. destruct b; eauto.
Qed.

(** [random.choice] on a list that is not empty *)
Lemma random_choice_ok random_draw l w :
  l <> [] ->
  exists x,
    random_choice random_draw l w
    = Ok x (mkWorld (heap w) (S (draws w)) (clock_reads w)) /\ In x l.
Proof.
  intros Hl. unfold random_choice.
  assert (Hlen : (0 < length l)%nat) by (destruct l; [congruence|simpl; lia]).
  pose proof (Nat.mod_upper_bound (random_draw (draws w)) (length l)) as Hm.
  destruct (nth_error l (random_draw (draws w) mod length l)) as [x|] eqn:E.
  - exists x. split; auto. eapply nth_error_In; eauto.
  - apply nth_error_None in E. lia.
Qed.

Lemma empty_points_cells s x :
  In x (where1d (fun c => c =? EMPTY) (board s)) <-> cell_at s x = Some EMPTY.
Proof.
  unfold where1d. rewrite where1d_from_In. split.
  - intros (k & v & Hn & Hv & ->). apply Z.eqb_eq in Hv. subst v.
    unfold cell_at.
    replace (0 + Z.of_nat k <? 0) with false by (symmetry; apply Z.ltb_ge; lia).
    now rewrite Z.add_0_l, Nat2Z.id.
  - unfold cell_at. destruct (x <? 0) eqn:E; [discriminate|].
    apply Z.ltb_ge in E. intros H.
    exists (Z.to_nat x), EMPTY. repeat split; auto. lia.
Qed.

Lemma call_empty_points r w s :
  obj w r s ->
  call r get_empty_points w
  = Ok (where1d (fun c => c =? EMPTY) (board s)) w.
Proof. intros Ho. now apply (call_read r _ w s). Qed.

(** [generate_random_move_gomoku]: PASS or an empty point; the board is
    only read. *)
Lemma generate_random_move_ok random_draw r w s :
  obj w r s ->
  exists p d,
    generate_random_move_gomoku random_draw r w
    = Ok p (mkWorld (heap w) d (clock_reads w)) /\
    legal_or_pass s p /\
    (p = PASS -> count_empty s = 0%nat).
Proof.
  intros Ho. unfold generate_random_move_gomoku, bind.
  rewrite (call_empty_points r w s Ho).
  destruct (where1d (fun c => c =? EMPTY) (board s)) as [|m ms] eqn:El.
  - exists PASS, (draws w). rewrite world_eta. repeat split; auto.
    intros _. unfold count_empty. now rewrite El.
  - destruct (random_choice_ok random_draw (m :: ms) w) as (x & E & Hx);
      [discriminate|].
    rewrite E. exists (Some x), (S (draws w)). repeat split.
    + simpl. apply empty_points_cells. now rewrite El.
    + discriminate.
Qed.

Lemma count_empty_bound s : (count_empty s <= length (board s))%nat.
Proof.
  unfold count_empty, where1d. generalize 0.
  induction (board s) as [|h t IH]; intros i; simpl; auto.
  destruct (h =? EMPTY); simpl; specialize (IH (i + 1)); lia.
Qed.

(** A move played on an object of the world. *)
Lemma call_play r w s p color :
  obj w r s -> wf s = true -> cell_at s p = Some EMPTY ->
  (is_black_white color = true /\
   exists s',
     call r (play_move_gomoku (Some p) color) w
     = Ok true (mkWorld (replace_nth (heap w) r s') (draws w) (clock_reads w)) /\
     wf s' = true /\ S (count_empty s') = count_empty s /\
     size s' = size s /\ WE s' = WE s /\
     (forall q, cell_at s' q = Some EMPTY -> cell_at s q = Some EMPTY)) \/
  (is_black_white color = false /\
   call r (play_move_gomoku (Some p) color) w = Raise AssertionError w).
Proof.
  intros Ho Hwf Hp. destruct (is_black_white color) eqn:Hc; [left|right].
  - split; [reflexivity|].
    destruct (play_move_gomoku_state s p color Hwf Hc Hp)
      as (s' & E & Hwf' & Hp' & Hq & _ & Hn).
    exists s'. split; [exact (call_ok r _ w s true s' Ho E)|].
    repeat split; auto.
    + destruct (play_move_gomoku_true_inv _ _ _ _ E)
        as (p0 & b & _ & _ & _ & _ & ->). reflexivity.
    + destruct (play_move_gomoku_true_inv _ _ _ _ E)
        as (p0 & b & _ & _ & _ & _ & ->). reflexivity.
    + intros q Hq'. destruct (Z.eq_dec q p) as [->|Hne].
      * rewrite Hp' in Hq'. inversion Hq'. subst color. discriminate.
      * now rewrite <- (Hq q Hne).
  - split; [reflexivity|].
    assert (E : play_move_gomoku (Some p) color s = Raise AssertionError s).
    { unfold play_move_gomoku, bind, py_assert. now rewrite Hc. }
    rewrite (call_raise r _ w s _ s Ho E).
    rewrite (replace_nth_same _ _ _ Ho). now rewrite world_eta.
Qed.

Lemma caught_AssertionError : caught AssertionError.
Proof. split; discriminate. Qed.

Section Playouts.

Variable random_draw : nat -> nat.

(** [sim] returns or raises an exception of the program within the fuel
    the number of empty cells asks for, and touches its own board only. *)
Lemma sim_safe fuel :
  forall r player1 player2 w s,
    obj w r s -> wf s = true -> (count_empty s < fuel)%nat ->
    safe r (fun v _ => v = 0 \/ v = 1)
      (sim random_draw fuel r player1 player2) w.
Proof.
  induction fuel as [|fuel IH]; intros r player1 player2 w s Ho Hwf Hn;
    [lia|].
  destruct (wf_parts _ Hwf) as (Hg & _ & _).
  unfold sim; fold sim.
  destruct (check_game_end_gomoku_returns s Hg) as ([game_end winner] & E).
  eapply safe_step;
    [exact (call_read r _ w s _ Ho E)|apply keeps_refl|].
  destruct game_end.
  - destruct (option_eqb winner player1); apply safe_ret; auto.
  - destruct (generate_random_move_ok random_draw r w s Ho)
      as (p & d & Ep & Hp & Hpass).
    eapply safe_step; [exact Ep|apply keeps_draws|].
    destruct p as [m|]; [|apply safe_ret; auto].
    simpl in Hp.
    set (w1 := mkWorld (heap w) d (clock_reads w)).
    assert (Ho1 : obj w1 r s) by exact Ho.
    destruct (call_play r w1 s m player2 Ho1 Hwf Hp)
      as [(Hc & s' & Ec & Hwf' & Hcount & _)|(Hc & Ec)].
    + eapply safe_step; [exact Ec|apply keeps_replace; lia|].
      apply (IH r player1 (opponent player2) _ s'); auto.
      * apply (obj_replace w1 r s s'). exact Ho1.
      * lia.
    + eapply safe_stop;
        [exact Ec|apply caught_AssertionError|apply keeps_refl].
Qed.

Lemma sim_fuel_eq r w s :
  obj w r s -> sim_fuel r w = Ok (S (length (board s))) w.
Proof. unfold obj, sim_fuel. now intros ->. Qed.

Lemma sim_do_loop_safe n :
  forall b color wins loss w s,
    obj w b s -> copyable s ->
    safe (length (heap w)) (fun _ _ => True)
      (sim_do_loop random_draw n b color wins loss) w.
Proof.
  induction n as [|n IH]; intros b color wins loss w s Ho Hs;
    unfold sim_do_loop; fold sim_do_loop.
  - apply safe_ret. exact I.
  - destruct (call_copy_state w b s Ho Hs) as (c & Ec & Hc & Hb).
    eapply safe_step; [exact Ec|apply keeps_app; lia|].
    set (w1 := mkWorld (heap w ++ [c]) (draws w) (clock_reads w)).
    assert (Ho1 : obj w1 (length (heap w)) c) by apply obj_app_last.
    eapply safe_step;
      [exact (sim_fuel_eq _ w1 c Ho1)|apply keeps_refl|].
    eapply safe_bind.
    + apply (sim_safe (S (length (board c))) (length (heap w)) color color
               w1 c Ho1 (copyable_wf _ Hc)).
      pose proof (count_empty_bound c). lia.
    + intros e w2 Hk _.
      assert (Ho2 : obj w2 b s).
      { apply (keeps_obj _ w1 w2 b s Hk); [now apply (obj_lt w b s)|].
        unfold obj, w1. cbn [heap]. rewrite nth_error_app1; auto.
        now apply (obj_lt w b s). }
      eapply safe_weaken; [apply (IH b color _ _ w2 s Ho2 Hs)| |auto].
      destruct Hk as (Hlen & _). unfold w1 in Hlen. cbn [heap] in Hlen.
      rewrite length_app in Hlen. lia.
Qed.

Lemma caught_ZeroDivisionError : caught ZeroDivisionError.
Proof. split; discriminate. Qed.

Lemma sim_do_safe b simulation color w s :
  obj w b s -> copyable s ->
  safe (length (heap w)) (fun _ _ => True)
    (sim_do random_draw b simulation color) w.
Proof.
  intros Ho Hs. unfold sim_do.
  eapply safe_bind; [apply (sim_do_loop_safe _ b color 0 0 w s Ho Hs)|].
  intros [wins loss] w' _ _.
  destruct ((loss =? 0) && (0 <? wins)); [apply safe_ret; exact I|].
  destruct (loss =? 0);
    [apply safe_raise; apply caught_ZeroDivisionError|].
  destruct (loss <? wins); apply safe_ret; exact I.
Qed.

End Playouts.

Lemma tree_ok_set s tree key st :
  tree_ok s tree -> cell_at s (move st) = Some EMPTY ->
  tree_ok s (tree_set tree key st).
Proof.
  intros Ht Hst. induction tree as [|[k0 v0] rest IH]; simpl.
  - intros k v [H|[]]. inversion H; subst. exact Hst.
  - assert (Hrest : tree_ok s rest).
    { intros k v Hin. apply (Ht k v). now right. }
    destruct (sig_eqb k0 key).
    + intros k v [H|Hin].
      * inversion H; subst. exact Hst.
      * apply (Hrest k v Hin).
    + intros k v [H|Hin].
      * inversion H; subst. apply (Ht k v). now left.
      * apply (IH Hrest k v Hin).
Qed.

(** [best_move] returns its current best or the move of a node. *)
Lemma best_move_loop_ok s tree top :
  tree_ok s tree ->
  forall best_ratio best w,
    legal_or_pass s best ->
    (exists p, best_move_loop tree top best_ratio best w = Ok p w /\
               legal_or_pass s p) \/
    best_move_loop tree top best_ratio best w = Raise ZeroDivisionError w.
Proof.
  induction tree as [|[key st] rest IH]; intros Ht best_ratio best w Hb;
    simpl.
  - left. exists best. auto.
  - assert (Hrest : tree_ok s rest).
    { intros k v Hin. apply (Ht k v). now right. }
    assert (Hst : cell_at s (move st) = Some EMPTY).
    { apply (Ht key st). now left. }
    destruct (sig_eqb (first st) top); [|now apply IH].
    destruct (pynum_div_int (win st) (sim_ st)); [|now right].
    destruct (pynum_ltb best_ratio p); now apply IH.
Qed.

Lemma board_num_defined r w s :
  obj w r s -> board_num r w = Ok (concat (get_twoD_board s)) w.
Proof. unfold obj, board_num. now intros ->. Qed.

Lemma search2_nil tree old : search2 tree old = [].
Proof.
  induction tree as [|[k v] rest IH]; simpl; auto.
Qed.

Lemma caught_cases e :
  e = AttributeError \/ e = KeyError \/ e = ZeroDivisionError ->
  caught e.
Proof. intros [->|[->| ->]]; split; discriminate. Qed.

Section Iterations.

Variable random_draw : nat -> nat.

Lemma sample_moves_ok n :
  forall all_moves new_move w (P : Z -> Prop),
    all_moves <> [] ->
    Forall P all_moves -> Forall P new_move ->
    exists l d,
      sample_moves random_draw n all_moves new_move w
      = Ok l (mkWorld (heap w) d (clock_reads w)) /\ Forall P l.
Proof.
  induction n as [|n IH]; intros all_moves new_move w P Hne Hall Hnew; simpl.
  - exists new_move, (draws w). rewrite world_eta. auto.
  - destruct (random_choice_ok random_draw all_moves w Hne) as (x & E & Hx).
    unfold bind. rewrite E.
    destruct (IH all_moves (new_move ++ [x])
                (mkWorld (heap w) (S (draws w)) (clock_reads w)) P Hne Hall)
      as (l & d & El & Hl).
    + apply Forall_app. split; auto. constructor; auto.
      rewrite Forall_forall in Hall. auto.
    + exists l, d. auto.
Qed.

(** The loop over the candidate moves creates objects and touches none
    that exists. *)
Lemma evaluate_moves_safe s simple_board player2 first_ first_copy new_move :
  forall monte_tree w,
    obj w simple_board s -> copyable s ->
    Forall (fun m => cell_at s m = Some EMPTY) new_move ->
    tree_ok s monte_tree ->
    safe (length (heap w)) (fun t _ => tree_ok s t)
      (evaluate_moves random_draw simple_board player2 first_ first_copy
         new_move monte_tree) w.
Proof.
  induction new_move as [|mv rest IH]; intros monte_tree w Ho Hs Hmoves Ht;
    unfold evaluate_moves; fold evaluate_moves.
  - apply safe_ret. exact Ht.
  - inversion Hmoves as [|? ? Hmv Hrest]; subst.
    destruct (call_copy_state w simple_board s Ho Hs) as (c & Ec & Hc & Hb).
    eapply safe_step; [exact Ec|apply keeps_app; lia|].
    set (w1 := mkWorld (heap w ++ [c]) (draws w) (clock_reads w)).
    set (nsb := length (heap w)).
    assert (Ho1 : obj w1 nsb c) by apply obj_app_last.
    assert (Hlt : (simple_board < nsb)%nat) by now apply (obj_lt w _ s).
    assert (Hmv1 : cell_at c mv = Some EMPTY)
      by now rewrite (cell_at_board s c mv Hb).
    destruct (call_play nsb w1 c mv player2 Ho1 (copyable_wf _ Hc) Hmv1)
      as [(Hcol & c' & Ep & Hwf' & _ & Hsz' & HWE' & _)|(Hcol & Ep)];
      [|eapply safe_stop;
        [exact Ep|apply caught_AssertionError|apply keeps_refl]].
    eapply safe_step; [exact Ep|apply keeps_replace; unfold w1; cbn; lia|].
    set (w2 := mkWorld (replace_nth (heap w1) nsb c') (draws w1)
                 (clock_reads w1)).
    assert (Ho2 : obj w2 nsb c') by (apply (obj_replace w1 nsb c c'); exact Ho1).
    assert (Hc' : copyable c').
    { destruct Hc as (_ & Hc2 & Hc3). split; [exact Hwf'|]. split; lia. }
    assert (Hlen2 : length (heap w2) = S nsb).
    { unfold w2, w1. cbn [heap]. rewrite replace_nth_length, length_app.
      simpl. unfold nsb. lia. }
    destruct (call_copy_state w2 nsb c' Ho2 Hc') as (a & Ea & Ha & _).
    eapply safe_step; [exact Ea|apply keeps_app; lia|].
    set (w3 := mkWorld (heap w2 ++ [a]) (draws w2) (clock_reads w2)).
    assert (Ho3 : obj w3 (length (heap w2)) a) by apply obj_app_last.
    eapply safe_bind.
    { eapply safe_weaken;
        [apply (sim_do_safe random_draw _ 50 player2 w3 a Ho3 Ha)| |
         intros x w' Hx; exact Hx].
      unfold w3. cbn [heap]. rewrite length_app. unfold nsb in Hlen2. lia. }
    intros ending w4 Hk4 _.
    assert (Hlen4 : (S nsb < length (heap w4))%nat).
    { destruct Hk4 as (Hl & _). unfold w3 in Hl. cbn [heap] in Hl.
      rewrite length_app, Hlen2 in Hl. cbn [length] in Hl. lia. }
    assert (Hback : forall if_win (st : state),
               cell_at s (move st) = Some EMPTY ->
               safe (length (heap w))
                 (fun (r : state * Tree) _ =>
                    cell_at s (move (fst r)) = Some EMPTY /\
                    tree_ok s (snd r))
                 (t <- BackProp (backprop_fuel monte_tree) monte_tree
                        first_ first_copy if_win ;;
                  ret (st, t)) w4).
    { intros if_win st Hst. unfold backprop_fuel, bind.
      unfold safe. rewrite BackProp_eq.
      destruct (sig_eqb first_ first_copy).
      - unfold ret. split; [apply keeps_refl|]. auto.
      - destruct (tree_get monte_tree first_);
          (split; [apply caught_cases; auto|apply keeps_refl]). }
    eapply safe_bind.
    { destruct ((if pynum_ltb (pynum_of_int 0) ending &&
                      negb (player2 =? opponent player2)
                 then 1 else 0) =? 0); apply Hback; exact Hmv. }
    intros [new_state tree'] w5 Hk5 (Hns & Ht'). cbn [fst snd] in *.
    assert (Hex : exists x, nth_error (heap w5) nsb = Some x).
    { destruct Hk5 as (Hl & _).
      destruct (nth_error (heap w5) nsb) eqn:En; eauto.
      apply nth_error_None in En. lia. }
    destruct Hex as (x & Hx).
    eapply safe_step;
      [exact (board_num_defined nsb w5 x Hx)|apply keeps_refl|].
    assert (Ho5 : obj w5 simple_board s).
    { apply (keeps_obj (length (heap w)) w4 w5 _ _ Hk5 Hlt).
      apply (keeps_obj (length (heap w)) w3 w4 _ _ Hk4 Hlt).
      unfold obj, w3, w2, w1. cbn [heap].
      rewrite nth_error_app1
        by (rewrite replace_nth_length, length_app; simpl; lia).
      rewrite nth_error_replace_nth_neq by (unfold nsb; lia).
      rewrite nth_error_app1 by exact Hlt. exact Ho. }
    eapply safe_weaken;
      [apply (IH _ w5 Ho5 Hs Hrest); apply tree_ok_set; auto| |
       intros t w' Hx'; exact Hx'].
    destruct Hk5 as (Hl & _). unfold nsb in *. lia.
Qed.

Lemma descend_safe s test m player2 first_ monte_tree w c :
  obj w test c -> wf c = true -> cell_at c m = Some EMPTY ->
  (forall q, cell_at c q = Some EMPTY -> cell_at s q = Some EMPTY) ->
  safe test
    (fun r _ => match r with
                | None => True
                | Some (_, nm) => Forall (fun q => cell_at s q = Some EMPTY) nm
                end)
    (descend random_draw test (Some m) player2 first_ monte_tree) w.
Proof.
  intros Ho Hwf Hm Hsub. unfold descend.
  destruct (call_play test w c m player2 Ho Hwf Hm)
    as [(Hcol & c' & Ep & Hwf' & _ & _ & _ & Hsub')|(Hcol & Ep)];
    [|eapply safe_stop;
      [exact Ep|apply caught_AssertionError|apply keeps_refl]].
  eapply safe_step; [exact Ep|apply keeps_replace; lia|].
  set (w1 := mkWorld (replace_nth (heap w) test c') (draws w) (clock_reads w)).
  assert (Ho1 : obj w1 test c') by now apply (obj_replace w test c c').
  eapply safe_step;
    [exact (board_num_defined test w1 c' Ho1)|apply keeps_refl|].
  eapply (safe_bind _ (fun _ w' => w' = w1)).
  { rewrite search2_nil. destruct (tree_mem monte_tree _);
      apply safe_ret; reflexivity. }
  intros _ w' _ ->.
  unfold generate_legal_moves_gomoku.
  eapply safe_step; [exact (call_empty_points test w1 c' Ho1)|apply keeps_refl|].
  destruct (where1d (fun c0 => c0 =? EMPTY) (board c')) as [|x xs] eqn:El;
    [apply safe_ret; exact I|].
  assert (Hall : Forall (fun q => cell_at s q = Some EMPTY) (x :: xs)).
  { apply Forall_forall. intros q Hq. apply Hsub, Hsub'.
    apply empty_points_cells. now rewrite El. }
  destruct (sample_moves_ok 5 (x :: xs) [] w1
              (fun q => cell_at s q = Some EMPTY))
    as (l & d & E & Hl); [discriminate|exact Hall|constructor|].
  eapply safe_step; [exact E|apply keeps_draws|].
  apply safe_ret. exact Hl.
Qed.

Lemma iteration_safe s simple_board start_move player2 first_ first_copy
      new_move monte_tree w :
  obj w simple_board s -> copyable s ->
  legal_or_pass s start_move ->
  Forall (fun q => cell_at s q = Some EMPTY) new_move ->
  tree_ok s monte_tree ->
  safe (length (heap w))
    (fun r _ => match r with
                | None => True
                | Some (sm, _, nm, t) =>
                    legal_or_pass s sm /\
                    Forall (fun q => cell_at s q = Some EMPTY) nm /\
                    tree_ok s t
                end)
    (iteration random_draw simple_board start_move player2 first_ first_copy
       new_move monte_tree) w.
Proof.
  intros Ho Hs Hstart Hmoves Ht. unfold iteration.
  destruct (call_copy_state w simple_board s Ho Hs) as (c & Ec & Hc & Hb).
  eapply safe_step; [exact Ec|apply keeps_app; lia|].
  set (w1 := mkWorld (heap w ++ [c]) (draws w) (clock_reads w)).
  assert (Ho1 : obj w1 (length (heap w)) c) by apply obj_app_last.
  assert (Hlt : (simple_board < length (heap w))%nat)
    by now apply (obj_lt w _ s).
  eapply (safe_bind _
            (fun r _ => match r with
                        | None => True
                        | Some (_, nm) =>
                            Forall (fun q => cell_at s q = Some EMPTY) nm
                        end)).
  { destruct start_move as [m|].
    - apply (descend_safe s _ m player2 first_ monte_tree w1 c Ho1
               (copyable_wf _ Hc)).
      + now rewrite (cell_at_board s c m Hb).
      + intros q. now rewrite (cell_at_board s c q Hb).
    - apply safe_ret. exact Hmoves. }
  intros r w2 Hk2 Hr.
  destruct r as [[p2 nm]|]; [|apply safe_ret; exact I].
  assert (Ho2 : obj w2 simple_board s).
  { apply (keeps_obj _ w1 w2 _ _ Hk2 Hlt).
    unfold obj, w1. cbn [heap]. now rewrite nth_error_app1. }
  assert (Hlen2 : (length (heap w) <= length (heap w2))%nat).
  { destruct Hk2 as (Hl & _). unfold w1 in Hl. cbn [heap] in Hl.
    rewrite length_app in Hl. lia. }
  eapply safe_bind.
  { eapply safe_weaken;
      [apply (evaluate_moves_safe s simple_board p2 first_ first_copy nm
                monte_tree w2 Ho2 Hs Hr Ht)|exact Hlen2|
       intros t w' Hx; exact Hx]. }
  intros t w3 Hk3 Ht3. unfold best_move.
  destruct (best_move_loop_ok s t first_copy Ht3 (pynum_of_int 0) None w3 I)
    as [(p & E & Hp)|E].
  - eapply safe_step; [exact E|apply keeps_refl|].
    apply safe_ret. auto.
  - eapply safe_stop;
      [exact E|apply caught_ZeroDivisionError|apply keeps_refl].
Qed.

(** The handler of [except Exception] returns the best move so far, or a
    random empty point, or PASS. *)
Lemma handler_ok s simple_board start_move w :
  obj w simple_board s -> legal_or_pass s start_move ->
  exists p d,
    handler random_draw simple_board start_move w
    = Ok p (mkWorld (heap w) d (clock_reads w)) /\
    legal_or_pass s p /\
    (p = PASS -> count_empty s = 0%nat).
Proof.
  intros Ho Hstart. unfold handler. destruct start_move as [m|].
  - exists (Some m), (draws w). rewrite world_eta. repeat split; auto.
    discriminate.
  - apply (generate_random_move_ok random_draw simple_board w s Ho).
Qed.

End Iterations.

Lemma untouched_prefix {A} (h h' : list A) :
  (length h <= length h')%nat ->
  (forall k, (k < length h)%nat -> nth_error h' k = nth_error h k) ->
  exists l, h' = h ++ l.
Proof.
  revert h'. induction h as [|x t IH]; intros h' Hlen H.
  - exists h'. reflexivity.
  - destruct h' as [|y t']; [simpl in Hlen; lia|].
    assert (Hxy : y = x).
    { specialize (H 0%nat). simpl in H. assert (Some y = Some x) by (apply H; lia).
      congruence. }
    subst y. destruct (IH t') as (l & ->).
    + simpl in Hlen. lia.
    + intros k Hk. apply (H (S k)). simpl. lia.
    + exists l. reflexivity.
Qed.

Section Budget.

Variable wall_clock : nat -> Z.
Variable random_draw : nat -> nat.

Lemma search_loop_total s simple_board first_ first_copy start fuel :
  forall start_move player2 new_move monte_tree w,
    obj w simple_board s -> copyable s ->
    legal_or_pass s start_move ->
    Forall (fun q => cell_at s q = Some EMPTY) new_move ->
    tree_ok s monte_tree ->
    (exists k, (k < fuel)%nat /\
               56000 <= wall_clock (clock_reads w + k)%nat - start) ->
    exists p w',
      search_loop wall_clock random_draw fuel start simple_board start_move
        player2 first_ first_copy new_move monte_tree w = Ok p w' /\
      legal_or_pass s p /\
      untouched (length (heap w)) w w'.
Proof.
  induction fuel as [|fuel IH];
    intros start_move player2 new_move monte_tree w Ho Hs Hstart Hmoves Ht
           (k & Hk & Hclock); [lia|].
  unfold search_loop; fold search_loop.
  unfold bind at 1. unfold read_wall_clock at 1.
  set (w1 := mkWorld (heap w) (draws w) (S (clock_reads w))).
  assert (Ho1 : obj w1 simple_board s) by exact Ho.
  assert (Hlt : (simple_board < length (heap w))%nat)
    by now apply (obj_lt w _ s).
  destruct (wall_clock (clock_reads w) - start <? 56000) eqn:Enow.
  - assert (Hk0 : k <> 0%nat).
    { intros ->. rewrite Nat.add_0_r in Hclock. apply Z.ltb_lt in Enow. lia. }
    pose proof (iteration_safe random_draw s simple_board start_move player2
                  first_ first_copy new_move monte_tree w1 Ho1 Hs Hstart
                  Hmoves Ht) as Hit.
    unfold safe in Hit. unfold bind at 1. unfold try_except at 1.
    unfold bind at 1.
    destruct (iteration random_draw simple_board start_move player2 first_
                first_copy new_move monte_tree w1) as [r w2|e w2].
    + destruct Hit as (Hk2 & Hr). cbn [ret].
      assert (Hun : untouched (length (heap w)) w w2).
      { destruct Hk2 as (H1 & H2 & _). split; auto. }
      destruct r as [[[[sm p2] nm] t]|].
      * destruct Hr as (Hsm & Hnm & Htree).
        assert (Ho2 : obj w2 simple_board s)
          by (apply (keeps_obj _ w1 w2 _ _ Hk2 Hlt); exact Ho1).
        destruct (IH sm p2 nm t w2 Ho2 Hs Hsm Hnm Htree)
          as (p & w' & E & Hp & Hun').
        { exists (k - 1)%nat. split; [lia|].
          destruct Hk2 as (_ & _ & Hc). rewrite Hc. unfold w1.
          cbn [clock_reads].
          now replace (S (clock_reads w) + (k - 1))%nat
            with (clock_reads w + k)%nat by lia. }
        exists p, w'. split; [exact E|]. split; [exact Hp|].
        destruct Hun as (H1 & H2). destruct Hun' as (H3 & H4).
        split; [lia|]. intros j Hj. rewrite H4 by lia. now apply H2.
      * exists start_move, w2. auto.
    + destruct Hit as (He & Hk2).
      assert (Ho2 : obj w2 simple_board s)
        by (apply (keeps_obj _ w1 w2 _ _ Hk2 Hlt); exact Ho1).
      destruct (handler_ok random_draw s simple_board start_move w2 Ho2 Hstart)
        as (p & d & Eh & Hp & _).
      assert (Hun : untouched (length (heap w)) w
                      (mkWorld (heap w2) d (clock_reads w2))).
      { destruct Hk2 as (H1 & H2 & _). split; auto. }
      exists p, (mkWorld (heap w2) d (clock_reads w2)).
      split; [|auto].
      destruct He as (He1 & He2).
      destruct e; try congruence; unfold bind; rewrite Eh; reflexivity.
  - exists start_move, w1. repeat split; auto.
Qed.

(** [Monte_Carlo_Tree] *)
Lemma Monte_Carlo_Tree_total n player2 w s :
  obj w Caller s -> copyable s ->
  (exists k, (k <= n)%nat /\
             56000 <= wall_clock (S (clock_reads w) + k)%nat
                      - wall_clock (clock_reads w)) ->
  exists p w' l,
    Monte_Carlo_Tree wall_clock random_draw (S n) Caller player2 w = Ok p w' /\
    heap w' = heap w ++ l /\
    legal_or_pass s p /\
    (count_empty s = 0%nat -> p = PASS).
Proof.
  intros Ho Hs (k & Hk & Hclock). unfold Monte_Carlo_Tree.
  unfold bind at 1. unfold read_wall_clock at 1.
  set (w1 := mkWorld (heap w) (draws w) (S (clock_reads w))).
  assert (Ho1 : obj w1 Caller s) by exact Ho.
  unfold bind at 1. unfold generate_legal_moves_gomoku at 1.
  rewrite (call_empty_points Caller w1 s Ho1).
  destruct (where1d (fun c => c =? EMPTY) (board s)) as [|x xs] eqn:El.
  - exists PASS, w1, []. rewrite app_nil_r. repeat split; auto.
  - destruct (call_copy_state w1 Caller s Ho1 Hs) as (c & Ec & Hc & Hb).
    unfold bind at 1. rewrite Ec.
    set (w2 := mkWorld (heap w1 ++ [c]) (draws w1) (clock_reads w1)).
    assert (Ho2 : obj w2 (length (heap w1)) c) by apply obj_app_last.
    unfold bind at 1. rewrite (board_num_defined _ w2 c Ho2).
    assert (Ho2' : obj w2 Caller s).
    { unfold obj, w2. cbn [heap]. rewrite nth_error_app1; [exact Ho|].
      now apply (obj_lt w _ s). }
    destruct (search_loop_total s Caller (concat (get_twoD_board c))
                (concat (get_twoD_board c)) (wall_clock (clock_reads w))
                (S n) PASS player2 (x :: xs) [] w2 Ho2' Hs I)
      as (p & w' & E & Hp & Hlen & Hun).
    + apply Forall_forall. intros q Hq. apply empty_points_cells.
      now rewrite El.
    + intros key st [].
    + exists k. split; [lia|exact Hclock].
    + destruct (untouched_prefix (heap w) (heap w')) as (l & Hl).
      * unfold w2, w1 in Hlen. cbn [heap] in Hlen.
        rewrite length_app in Hlen. lia.
      * intros j Hj. rewrite Hun.
        -- unfold w2, w1. cbn [heap]. now apply nth_error_app1.
        -- unfold w2, w1. cbn [heap]. rewrite length_app. lia.
      * exists p, w', l. repeat split; auto.
        intros H0. unfold count_empty in H0. rewrite El in H0. discriminate.
Qed.

End Budget.






Lemma check_game_end_gomoku_winner s :
  wf_grid s = true ->
  exists ended winner,
    check_game_end_gomoku s = Ok (ended, winner) s /\
    (ended = true ->
     exists c, winner = Some c /\ is_black_white c = true /\ has_five s c) /\
    (ended = false ->
     winner = None /\
     forall c, is_black_white c = true -> ~ has_five s c).
Proof.
  intros Hg.
  destruct (any_stone_ends s Hg WHITE eq_refl) as (w & Hw & Hw5).
  destruct (any_stone_ends s Hg BLACK eq_refl) as (b & Hb & Hb5).
  unfold check_game_end_gomoku, bind, get_state. rewrite Hw.
  destruct w.
  - exists true, (Some WHITE). split; [reflexivity|]. split; [|discriminate].
    intros _. exists WHITE. repeat split; auto. now apply Hw5.
  - rewrite Hb. destruct b.
    + exists true, (Some BLACK). split; [reflexivity|].
      split; [|discriminate].
      intros _. exists BLACK. repeat split; auto. now apply Hb5.
    + exists false, None. split; [reflexivity|]. split; [discriminate|].
      intros _. split; [reflexivity|]. intros c Hc H5.
      destruct (is_black_white_cases _ Hc) as [->| ->];
        [apply Hb5 in H5|apply Hw5 in H5]; discriminate.
Qed.

Lemma option_eqb_eq o c : option_eqb o c = true <-> o = Some c.
Proof.
  unfold option_eqb. destruct o as [x|]; [|split; discriminate].
  rewrite Z.eqb_eq. split; congruence.
Qed.

Lemma sim_S random_draw fuel b player1 player2 :
  sim random_draw (S fuel) b player1 player2
  = (r <- call b check_game_end_gomoku ;;
     let '(game_end, winner) := r in
     if game_end then
       if option_eqb winner player1 then ret 1 else ret 0
     else
       mv <- generate_random_move_gomoku random_draw b ;;
       match mv with
       | None => ret 0
       | Some _ =>
           call b (play_move_gomoku mv player2) ;;;
           sim random_draw fuel b player1 (opponent player2)
       end).
Proof. reflexivity. Qed.


(* ================================================================= *)
(** ** [play_move] *)

Lemma captured_refl c t : captured c t t.
Proof. unfold captured. repeat split; auto. Qed.

Lemma captured_trans c t1 t2 t3 :
  captured c t1 t2 -> captured c t2 t3 -> captured c t1 t3.
Proof.
  intros (A1 & A2 & A3 & A4 & A5 & A6 & A7 & A8)
         (B1 & B2 & B3 & B4 & B5 & B6 & B7 & B8).
  unfold captured.
  split; [congruence|]. split; [congruence|]. split; [congruence|].
  split; [congruence|]. split; [congruence|]. split; [congruence|].
  split; [congruence|].
  intros q. destruct (A8 q) as [Ha|[Ha Ha']]; destruct (B8 q) as [Hb|[Hb Hb']].
  - left. congruence.
  - right. split; congruence.
  - right. split; congruence.
  - right. split; congruence.
Qed.

Lemma captured_liberty_l c t l t' :
  captured c (with_liberty_of t l) t' -> captured c t t'.
Proof. intros H. exact H. Qed.

Lemma captured_liberty_r c t t' l :
  captured c t t' -> captured c t (with_liberty_of t' l).
Proof. intros H. exact H. Qed.

(** Reading a cell, or the neighbours of a point, changes nothing. *)
Lemma get_color_pure p t v t' : get_color p t = Ok v t' -> t' = t.
Proof.
  unfold get_color. destruct (py_get (board t) p); intros H; congruence.
Qed.

Lemma neighbors_at_ok t p :
  wf t = true -> in_range_b t p = true ->
  exists nbs, neighbors_at p t = Ok nbs t /\
              forallb (in_range_b t) nbs = true.
Proof.
  intros Hwf Hp.
  destruct (returns_neighbors_at t Hwf p Hp) as (nbs & l & E & _ & H).
  exists nbs. split; [|exact H].
  unfold neighbors_at in *. destruct (py_get (neighbors t) p); congruence.
Qed.

Lemma get_color_ok t p :
  wf t = true -> in_range_b t p = true ->
  exists v, get_color p t = Ok v t /\ cell_at t p = Some v.
Proof.
  intros Hwf Hp. destruct (wf_parts _ Hwf) as (Hg & _ & _).
  apply in_range_b_spec in Hp.
  destruct (cell_at_defined t Hg p Hp) as [v Hv].
  exists v. split; [now apply get_color_cell|exact Hv].
Qed.

Lemma _is_surrounded_loop_ok color nbs :
  forall t, wf t = true -> forallb (in_range_b t) nbs = true ->
  exists e, _is_surrounded_loop nbs color t = Ok e t.
Proof.
  induction nbs as [|nb rest IH]; intros t Hwf Hnbs; simpl.
  - eexists. reflexivity.
  - simpl in Hnbs. apply andb_prop in Hnbs. destruct Hnbs as [Hnb Hrest].
    destruct (get_color_ok t nb Hwf Hnb) as (v & E & _).
    unfold bind. rewrite E.
    destruct (negb (v =? color)); [eexists; reflexivity|].
    now apply IH.
Qed.

Lemma _is_surrounded_ok t p color :
  wf t = true -> in_range_b t p = true ->
  exists e, _is_surrounded p color t = Ok e t.
Proof.
  intros Hwf Hp. destruct (neighbors_at_ok t p Hwf Hp) as (nbs & E & Hnbs).
  unfold _is_surrounded, bind. rewrite E.
  now apply _is_surrounded_loop_ok.
Qed.

(** [find_neighbor_of_color] finds a neighbour of the colour when there is
    one. *)
Lemma find_neighbor_loop_ok color nbs :
  forall t, wf t = true -> forallb (in_range_b t) nbs = true ->
  exists r, find_neighbor_loop nbs color t = Ok r t /\
            ((exists nb, In nb nbs /\ cell_at t nb = Some color) ->
             r <> None).
Proof.
  induction nbs as [|nb rest IH]; intros t Hwf Hnbs; simpl.
  - exists None. split; [reflexivity|]. intros (nb & [] & _).
  - simpl in Hnbs. apply andb_prop in Hnbs. destruct Hnbs as [Hnb Hrest].
    destruct (get_color_ok t nb Hwf Hnb) as (v & E & Hv).
    unfold bind. rewrite E.
    destruct (Z.eqb_spec v color) as [->|Hne].
    + exists (Some nb). split; [reflexivity|]. discriminate.
    + destruct (IH t Hwf Hrest) as (r & Er & Hr).
      exists r. split; [exact Er|].
      intros (x & [<-|Hx] & Hc); [congruence|].
      apply Hr. eauto.
Qed.

Lemma _stone_has_liberty_ok t p :
  wf t = true -> in_range_b t p = true ->
  exists h nbs,
    _stone_has_liberty p t = Ok h t /\
    neighbors_at p t = Ok nbs t /\
    ((exists nb, In nb nbs /\ cell_at t nb = Some EMPTY) -> h = true).
Proof.
  intros Hwf Hp. destruct (neighbors_at_ok t p Hwf Hp) as (nbs & E & Hnbs).
  destruct (find_neighbor_loop_ok EMPTY nbs t Hwf Hnbs) as (r & Er & Hr).
  unfold _stone_has_liberty, find_neighbor_of_color, bind. rewrite E, Er.
  exists (match r with Some _ => true | None => false end), nbs.
  split; [reflexivity|]. split; [reflexivity|].
  intros H. destruct r; [reflexivity|]. now destruct (Hr H).
Qed.

(** *** The block of a stone *)

Lemma neighbors_of_color_loop_ok color nbs :
  forall t nbc, wf t = true -> forallb (in_range_b t) nbs = true ->
  exists l, neighbors_of_color_loop nbs color nbc t = Ok l t /\
            forall x, In x l -> In x nbc \/ stone_in t color x.
Proof.
  induction nbs as [|nb rest IH]; intros t nbc Hwf Hnbs; simpl.
  - exists nbc. split; [reflexivity|]. auto.
  - simpl in Hnbs. apply andb_prop in Hnbs. destruct Hnbs as [Hnb Hrest].
    destruct (get_color_ok t nb Hwf Hnb) as (v & E & Hv).
    unfold bind. rewrite E.
    destruct (Z.eqb_spec v color) as [->|Hne].
    + destruct (IH t (nbc ++ [nb]) Hwf Hrest) as (l & El & Hl).
      exists l. split; [exact El|].
      intros x Hx. destruct (Hl x Hx) as [Hin|Hst]; auto.
      apply in_app_iff in Hin.
      destruct Hin as [Hin|[<-|[]]]; [left; exact Hin|right; split; assumption].
    + now apply IH.
Qed.

Lemma neighbors_of_color_ok t p color :
  wf t = true -> in_range_b t p = true ->
  exists l, neighbors_of_color p color t = Ok l t /\
            forall x, In x l -> stone_in t color x.
Proof.
  intros Hwf Hp. destruct (neighbors_at_ok t p Hwf Hp) as (nbs & E & Hnbs).
  destruct (neighbors_of_color_loop_ok color nbs t [] Hwf Hnbs) as (l & El & Hl).
  exists l. unfold neighbors_of_color, bind. rewrite E. split; [exact El|].
  intros x Hx. destruct (Hl x Hx) as [[]|H]. exact H.
Qed.

(** [mark_neighbors] keeps the marks it finds and marks points of its
    list only. *)
Lemma mark_neighbors_marks nbs :
  forall marker stack (s : SimpleGoBoard) m' st',
    forallb (marker_index_ok marker) nbs = true ->
    mark_neighbors nbs marker stack s = Ok (m', st') s ->
    (forall k, nth_error marker k = Some true -> nth_error m' k = Some true) /\
    (forall k, nth_error m' k = Some true ->
               nth_error marker k = Some true \/ In (Z.of_nat k) nbs).
Proof.
  induction nbs as [|nb rest IH]; intros marker stack s m' st' Hnbs E;
    simpl in E.
  - inversion E; subst. auto.
  - simpl in Hnbs. apply andb_prop in Hnbs. destruct Hnbs as [Hnb Hrest].
    unfold marker_index_ok in Hnb. apply andb_prop in Hnb.
    destruct Hnb as [Hnb1 Hnb2]. apply Z.leb_le in Hnb1. apply Z.ltb_lt in Hnb2.
    destruct (py_get_nth marker nb (conj Hnb1 Hnb2)) as (m & Eg & En).
    rewrite Eg in E. destruct m.
    + destruct (IH marker stack s m' st' Hrest E) as [H1 H2].
      split; [exact H1|].
      intros k Hk. destruct (H2 k Hk); auto. right. now right.
    + rewrite (py_set_nth marker nb true (conj Hnb1 Hnb2)) in E.
      destruct (IH (replace_nth marker (Z.to_nat nb) true) (stack ++ [nb])
                   s m' st') as [H1 H2]; [|exact E|].
      { apply forallb_forall. intros x Hx.
        rewrite forallb_forall in Hrest. specialize (Hrest x Hx).
        unfold marker_index_ok in *. now rewrite replace_nth_length. }
      split.
      * intros k Hk. apply H1.
        destruct (Nat.eq_dec (Z.to_nat nb) k) as [<-|Hne].
        -- apply nth_error_replace_nth_eq. lia.
        -- now rewrite nth_error_replace_nth_neq.
      * intros k Hk. destruct (H2 k Hk) as [Hm|Hin]; [|right; now right].
        destruct (Nat.eq_dec (Z.to_nat nb) k) as [<-|Hne].
        -- right. left. lia.
        -- left. now rewrite nth_error_replace_nth_neq in Hm.
Qed.

Lemma _block_of_loop_marks color fuel :
  forall marker stack s,
    wf s = true ->
    Z.of_nat (length marker) = maxpoint s ->
    forallb (in_range_b s) stack = true ->
    (2 * unmarked marker + length stack < fuel)%nat ->
    (forall k, nth_error marker k = Some true ->
               cell_at s (Z.of_nat k) = Some color) ->
    exists m,
      _block_of_loop fuel color marker stack s = Ok m s /\
      Z.of_nat (length m) = maxpoint s /\
      (forall k, nth_error marker k = Some true -> nth_error m k = Some true) /\
      (forall k, nth_error m k = Some true ->
                 cell_at s (Z.of_nat k) = Some color).
Proof.
  induction fuel as [|fuel IH]; intros marker stack s Hwf Hlen Hst Hf Hm;
    [lia|].
  simpl. destruct (rev stack) as [|p rest_rev] eqn:Erev.
  - exists marker. split; [reflexivity|]. auto.
  - apply rev_cons_inv in Erev. subst stack.
    rewrite forallb_app in Hst. apply andb_prop in Hst.
    destruct Hst as [Hrest Hp]. simpl in Hp. apply andb_prop in Hp.
    destruct Hp as [Hp _].
    rewrite length_app in Hf. simpl in Hf.
    destruct (neighbors_of_color_ok s p color Hwf Hp) as (nbs & E & Hnbs).
    unfold bind. rewrite E.
    assert (Hin : forallb (marker_index_ok marker) nbs = true).
    { apply forallb_forall. intros x Hx. destruct (Hnbs x Hx) as [Hr _].
      apply in_range_b_spec in Hr. unfold marker_index_ok.
      apply andb_true_iff. rewrite Z.leb_le, Z.ltb_lt. lia. }
    destruct (mark_neighbors_spec nbs marker (rev rest_rev) s Hin)
      as (m' & st' & E' & H1 & H2 & H3 & H4).
    destruct (mark_neighbors_marks nbs marker (rev rest_rev) s m' st' Hin E')
      as [Hkeep Hnew].
    rewrite E'.
    destruct (IH m' st' s Hwf) as (m & Em & Hml & Hmk & Hmc).
    + rewrite H1. exact Hlen.
    + apply forallb_forall. intros x Hx.
      destruct (H4 x Hx) as [Hx'|Hx'].
      * rewrite forallb_forall in Hrest. now apply Hrest.
      * now destruct (Hnbs x Hx').
    + lia.
    + intros k Hk. destruct (Hnew k Hk) as [Hk'|Hk']; [now apply Hm|].
      now destruct (Hnbs _ Hk').
    + exists m. split; [exact Em|]. split; [exact Hml|].
      split; [|exact Hmc]. intros k Hk. apply Hmk. now apply Hkeep.
Qed.

(** [_block_of] reads the board only; the block holds the stone and
    stones of its colour only. *)
Lemma _block_of_ok t stone c :
  wf t = true ->
  in_range_b t stone = true ->
  cell_at t stone = Some c ->
  is_black_white c = true ->
  exists m,
    _block_of stone t = Ok m t /\
    Z.of_nat (length m) = maxpoint t /\
    In stone (where1d (fun b => b) m) /\
    (forall x, In x (where1d (fun b => b) m) -> cell_at t x = Some c).
Proof.
  intros Hwf Hp Hcell Hc. destruct (wf_parts _ Hwf) as (Hg & _ & _).
  pose proof (proj1 (in_range_b_spec _ _) Hp) as Hr.
  unfold _block_of, bind, get_state.
  rewrite (get_color_cell t Hg stone c Hcell). rewrite Hc. simpl py_assert.
  cbn [py_assert ret].
  rewrite py_set_nth by (rewrite repeat_length; lia).
  assert (Hn : nth_error (repeat false (Z.to_nat (maxpoint t)))
                 (Z.to_nat stone) = Some false).
  { apply nth_error_repeat. lia. }
  destruct (_block_of_loop_marks c (block_fuel t)
              (replace_nth (repeat false (Z.to_nat (maxpoint t)))
                 (Z.to_nat stone) true) [stone] t Hwf)
    as (m & Em & Hml & Hmk & Hmc).
  - now rewrite replace_nth_length, repeat_length, Z2Nat.id by lia.
  - simpl. now rewrite Hp.
  - pose proof (unmarked_replace_nth _ _ Hn) as Hu.
    rewrite unmarked_repeat_false in Hu.
    unfold block_fuel. simpl. lia.
  - intros k Hk.
    destruct (Nat.eq_dec (Z.to_nat stone) k) as [<-|Hne].
    + now rewrite Z2Nat.id by lia.
    + rewrite nth_error_replace_nth_neq in Hk by exact Hne.
      apply nth_error_In in Hk. apply repeat_spec in Hk. discriminate.
  - exists m. split; [exact Em|]. split; [exact Hml|]. split.
    + unfold where1d. apply where1d_from_In.
      exists (Z.to_nat stone), true. split; [|split; [reflexivity|lia]].
      apply Hmk. apply nth_error_replace_nth_eq.
      rewrite repeat_length. lia.
    + intros x Hx. unfold where1d in Hx. apply where1d_from_In in Hx.
      destruct Hx as (k & b & Hk & Hb & ->). subst b.
      rewrite Z.add_0_l. now apply Hmc.
Qed.

(** *** Taking a block off the board *)

Lemma fancy_set_ok {A} (indices : list Z) (v : A) :
  forall l,
    (forall i, In i indices -> 0 <= i < Z.of_nat (length l)) ->
    exists l',
      fancy_set l indices v = Some l' /\
      length l' = length l /\
      (forall i, In i indices -> nth_error l' (Z.to_nat i) = Some v) /\
      (forall k, ~ In (Z.of_nat k) indices -> nth_error l' k = nth_error l k).
Proof.
  induction indices as [|i rest IH]; intros l Hidx; simpl.
  - exists l. split; [reflexivity|]. split; [reflexivity|].
    split; [intros i []|auto].
  - assert (Hi : 0 <= i < Z.of_nat (length l)) by (apply Hidx; now left).
    rewrite (py_set_nth l i v Hi).
    destruct (IH (replace_nth l (Z.to_nat i) v)) as (l' & E & Hlen & Hin & Hout).
    { intros j Hj. rewrite replace_nth_length. apply Hidx. now right. }
    exists l'. split; [exact E|].
    rewrite replace_nth_length in Hlen. split; [exact Hlen|]. split.
    + intros j Hj. destruct (in_dec Z.eq_dec j rest) as [Hr|Hr]; [now apply Hin|].
      destruct Hj as [<-|Hj]; [|contradiction].
      rewrite Hout by (rewrite Z2Nat.id; [exact Hr|lia]).
      apply nth_error_replace_nth_eq. lia.
    + intros k Hk. rewrite Hout by (intros H; apply Hk; now right).
      apply nth_error_replace_nth_neq. intros <-. apply Hk. left. lia.
Qed.

Lemma cells_ok_from_intro sz ns l :
  forall i,
    (forall k v, nth_error l k = Some v ->
                 cell_ok sz ns (i + Z.of_nat k) v = true) ->
    cells_ok_from sz ns l i = true.
Proof.
  induction l as [|h t IH]; intros i H; simpl; [reflexivity|].
  apply andb_true_intro. split.
  - specialize (H 0%nat h eq_refl). now rewrite Z.add_0_r in H.
  - apply IH. intros k v Hk. specialize (H (S k) v Hk).
    now replace (i + 1 + Z.of_nat k) with (i + Z.of_nat (S k)) by lia.
Qed.

Lemma forallb_nth {A} (f : A -> bool) l :
  (forall k v, nth_error l k = Some v -> f v = true) -> forallb f l = true.
Proof.
  intros H. apply forallb_forall. intros x Hx.
  destruct (In_nth_error _ _ Hx) as [k Hk]. eauto.
Qed.

Lemma cell_at_nat s k : cell_at s (Z.of_nat k) = nth_error (board s) k.
Proof.
  unfold cell_at.
  replace (Z.of_nat k <? 0) with false by (symmetry; apply Z.ltb_ge; lia).
  now rewrite Nat2Z.id.
Qed.

Lemma cell_at_nth s q : 0 <= q -> cell_at s q = nth_error (board s) (Z.to_nat q).
Proof.
  intros H. unfold cell_at.
  now replace (q <? 0) with false by (symmetry; apply Z.ltb_ge; lia).
Qed.

(** Setting the cells of a block of stones to EMPTY, and their entries of
    [liberty_of] to NULLPOINT, gives a board state. *)
Lemma capture_writes t (m : list bool) c :
  wf t = true ->
  Z.of_nat (length m) = maxpoint t ->
  is_black_white c = true ->
  (forall x, In x (where1d (fun b => b) m) -> cell_at t x = Some c) ->
  exists b l,
    fancy_set (board t) (where1d (fun b => b) m) EMPTY = Some b /\
    fancy_set (liberty_of t) (where1d (fun b => b) m) NULLPOINT = Some l /\
    wf (with_liberty_of (with_board t b) l) = true /\
    captured c t (with_liberty_of (with_board t b) l) /\
    (forall x, In x (where1d (fun b => b) m) ->
               cell_at (with_board t b) x = Some EMPTY).
Proof.
  intros Hwf Hlen Hc Hcells.
  destruct (wf_parts _ Hwf) as (Hg & Hn & Hl).
  pose proof (wf_length t Hg) as Hblen.
  pose proof (liberty_length t Hwf) as Hllen.
  set (idx := where1d (fun b => b) m) in *.
  assert (Hidx : forall i, In i idx -> 0 <= i < maxpoint t).
  { intros i Hi. unfold idx, where1d in Hi. apply where1d_from_bound in Hi. lia. }
  destruct (fancy_set_ok idx EMPTY (board t)) as (b & Eb & Hb1 & Hb2 & Hb3).
  { intros i Hi. rewrite Hblen. now apply Hidx. }
  destruct (fancy_set_ok idx NULLPOINT (liberty_of t)) as (l & El & Hl1 & Hl2 & Hl3).
  { intros i Hi. rewrite Hllen, Hblen. now apply Hidx. }
  exists b, l. split; [exact Eb|]. split; [exact El|].
  assert (Hcell' : forall x, In x idx -> cell_at (with_board t b) x = Some EMPTY).
  { intros x Hx. rewrite cell_at_nth by (apply Hidx in Hx; lia).
    simpl. now apply Hb2. }
  split; [|split; [|exact Hcell']].
  - unfold wf, wf_grid, wf_neighbors, liberties_ok in *. simpl.
    rewrite Hb1, Hl1.
    repeat (apply andb_prop in Hg; destruct Hg as [Hg ?]).
    apply andb_prop in Hn. destruct Hn as [Hn1 Hn2].
    apply andb_prop in Hl. destruct Hl as [Hl4 Hl5].
    repeat (apply andb_true_intro; split); auto.
    + apply cells_ok_from_intro. intros k v Hk. rewrite Z.add_0_l.
      destruct (in_dec Z.eq_dec (Z.of_nat k) idx) as [Hi|Hi].
      * pose proof (Hb2 _ Hi) as Hv. rewrite Nat2Z.id, Hk in Hv.
        inversion Hv; subst v.
        pose proof (stone_on_board t (proj1 (wf_parts _ Hwf)) c _ Hc
                      (Hcells _ Hi)) as Hon.
        unfold cell_ok. unfold on_board_b in Hon. now rewrite Hon.
      * rewrite (Hb3 k Hi) in Hk.
        pose proof (cells_ok_from_nth _ _ _ 0 k v H Hk) as Hok.
        now rewrite Z.add_0_l in Hok.
    + apply forallb_nth. intros k v Hk.
      destruct (in_dec Z.eq_dec (Z.of_nat k) idx) as [Hi|Hi].
      * pose proof (Hl2 _ Hi) as Hv. rewrite Nat2Z.id, Hk in Hv.
        inversion Hv; subst v.
        apply Hidx in Hi. unfold in_range_b, NULLPOINT. simpl.
        apply Z.ltb_lt. lia.
      * rewrite (Hl3 k Hi) in Hk.
        rewrite forallb_forall in Hl5. apply Hl5.
        eapply nth_error_In; eauto.
  - unfold captured. simpl.
    repeat (split; [reflexivity|]).
    intros q. destruct (Z.ltb_spec q 0) as [Hq|Hq].
    + left. unfold cell_at.
      now replace (q <? 0) with true by (symmetry; apply Z.ltb_lt; lia).
    + destruct (in_dec Z.eq_dec q idx) as [Hi|Hi].
      * right. split; [now apply Hcells|].
        change (cell_at (with_board t b) q = Some EMPTY). now apply Hcell'.
      * left. rewrite !cell_at_nth by exact Hq. simpl.
        apply Hb3. now rewrite Z2Nat.id.
Qed.

(** *** [_detect_capture] and [_detect_and_process_capture] side by side *)

Lemma process_capture_cases t nb c :
  wf t = true -> stone_in t c nb -> is_black_white c = true ->
  exists b l,
    liberties_ok t l = true /\
    _detect_capture nb t = Ok b (with_liberty_of t l) /\
    (b = false ->
     _detect_and_process_capture nb t = Ok None (with_liberty_of t l)) /\
    (b = true ->
     exists r t',
       _detect_and_process_capture nb t = Ok r t' /\ wf t' = true /\
       captured c t t' /\ cell_at t' nb = Some EMPTY).
Proof.
  intros Hwf [Hp Hcell] Hc.
  destruct (returns__fast_liberty_check t nb Hwf Hp) as (f & l0 & E0 & Hl0 & _).
  unfold _detect_capture, _detect_and_process_capture, bind. rewrite E0.
  destruct f.
  { exists false, l0. split; [exact Hl0|]. split; [reflexivity|].
    split; [reflexivity|discriminate]. }
  pose proof (wf_with_liberty_of t l0 Hwf Hl0) as Hwf0.
  destruct (_block_of_ok (with_liberty_of t l0) nb c Hwf0 Hp Hcell Hc)
    as (m & E1 & Hlen & Hnb & Hmarks).
  rewrite E1.
  destruct (returns__has_liberty _ m Hwf0 Hlen) as (h & l1 & E2 & Hl1 & _).
  rewrite E2.
  change (with_liberty_of (with_liberty_of t l0) l1) with (with_liberty_of t l1)
    in *.
  change (liberties_ok (with_liberty_of t l0) l1) with (liberties_ok t l1) in Hl1.
  destruct h.
  { exists false, l1. split; [exact Hl1|]. split; [reflexivity|].
    split; [reflexivity|discriminate]. }
  exists true, l1. split; [exact Hl1|]. split; [reflexivity|].
  split; [discriminate|]. intros _.
  pose proof (wf_with_liberty_of t l1 Hwf Hl1) as Hwf1.
  destruct (capture_writes (with_liberty_of t l1) m c Hwf1 Hlen Hc Hmarks)
    as (b & l & Eb & El & Hwf2 & Hcap & Hcells).
  unfold get_state, put_state. cbv beta iota.
  rewrite Eb. cbv beta iota.
  change (liberty_of (with_board (with_liberty_of t l1) b))
    with (liberty_of (with_liberty_of t l1)).
  rewrite El. cbv beta iota.
  eexists _, _. split; [reflexivity|]. split; [exact Hwf2|].
  split; [exact Hcap|]. exact (Hcells nb Hnb).
Qed.

Lemma neighbors_of_color_loop_eq color nbs :
  forall t nbc, wf t = true -> forallb (in_range_b t) nbs = true ->
  neighbors_of_color_loop nbs color nbc t
  = Ok (nbc ++ stones_of t color nbs) t.
Proof.
  induction nbs as [|nb rest IH]; intros t nbc Hwf Hnbs; simpl.
  - now rewrite app_nil_r.
  - simpl in Hnbs. apply andb_prop in Hnbs. destruct Hnbs as [Hnb Hrest].
    destruct (get_color_ok t nb Hwf Hnb) as (v & E & Hv).
    unfold bind. rewrite E, Hv.
    destruct (v =? color).
    + rewrite IH by assumption. now rewrite <- app_assoc.
    + now apply IH.
Qed.

Lemma stones_of_In t color nbs x :
  forallb (in_range_b t) nbs = true ->
  In x (stones_of t color nbs) -> stone_in t color x.
Proof.
  intros Hnbs Hx. unfold stones_of in Hx. apply filter_In in Hx.
  destruct Hx as [Hin Hc]. rewrite forallb_forall in Hnbs.
  split; [now apply Hnbs|].
  destruct (cell_at t x) as [v|]; [|discriminate].
  apply Z.eqb_eq in Hc. now subst.
Qed.

(** The loop of [play_move] over the neighbours of the new stone, beside
    the test [_detect_captures] that [is_legal] makes on the same state. *)
Lemma play_move_loop_cases opp nbs :
  is_black_white opp = true ->
  forall t acc,
    wf t = true -> forallb (in_range_b t) nbs = true ->
    exists acc' t',
      play_move_loop nbs opp acc t = Ok acc' t' /\ wf t' = true /\
      captured opp t t' /\
      ((exists l, liberties_ok t l = true /\ t' = with_liberty_of t l /\
                  acc' = acc /\
                  _detect_captures_loop (stones_of t opp nbs) t = Ok false t')
       \/
       ((exists t1, _detect_captures_loop (stones_of t opp nbs) t = Ok true t1) /\
        exists nb, In nb nbs /\ cell_at t' nb = Some EMPTY)).
Proof.
  intros Hc. induction nbs as [|nb rest IH]; intros t acc Hwf Hnbs.
  - exists acc, t. split; [reflexivity|]. split; [exact Hwf|].
    split; [apply captured_refl|]. left. exists (liberty_of t).
    destruct (wf_parts _ Hwf) as (_ & _ & Hl).
    rewrite with_liberty_of_same. auto.
  - simpl in Hnbs. apply andb_prop in Hnbs. destruct Hnbs as [Hnb Hrest].
    destruct (get_color_ok t nb Hwf Hnb) as (v & E & Hv).
    cbn [play_move_loop stones_of filter]. unfold bind at 1. rewrite E, Hv.
    destruct (Z.eqb_spec v opp) as [->|Hne].
    + destruct (process_capture_cases t nb opp Hwf (conj Hnb Hv) Hc)
        as (b & l & Hl & Ed & Hno & Hyes).
      cbn [_detect_captures_loop]. unfold bind. rewrite Ed.
      pose proof (wf_with_liberty_of t l Hwf Hl) as Hwf1.
      destruct b.
      * destruct (Hyes eq_refl) as (r & t2 & Ep & Hwf2 & Hcap & Hcell).
        rewrite Ep.
        assert (Hrest2 : forallb (in_range_b t2) rest = true).
        { destruct Hcap as (_ & _ & _ & Hmp & _).
          apply forallb_forall. intros x Hx.
          rewrite forallb_forall in Hrest. specialize (Hrest x Hx).
          unfold in_range_b in *. now rewrite Hmp. }
        assert (Hend : forall acc2, exists acc' t',
                  play_move_loop rest opp acc2 t2 = Ok acc' t' /\
                  wf t' = true /\ captured opp t t' /\
                  cell_at t' nb = Some EMPTY).
        { intros acc2.
          destruct (IH t2 acc2 Hwf2 Hrest2) as (acc' & t' & El & Hwf' & Hcap' & _).
          exists acc', t'. split; [exact El|]. split; [exact Hwf'|].
          split; [eapply captured_trans; eauto|].
          destruct Hcap' as (_ & _ & _ & _ & _ & _ & _ & Hq).
          destruct (Hq nb) as [Hs|[_ Hs]]; congruence. }
        destruct r as [x|];
          [destruct (Hend (acc ++ [x])) as (acc' & t' & El & Hwf' & Hcap' & Hnb')
          |destruct (Hend acc) as (acc' & t' & El & Hwf' & Hcap' & Hnb')];
          exists acc', t'; (split; [exact El|]); (split; [exact Hwf'|]);
          (split; [exact Hcap'|]); right; (split; [eexists; reflexivity|]);
          exists nb; (split; [now left|exact Hnb']).
      * rewrite (Hno eq_refl).
        destruct (IH (with_liberty_of t l) acc Hwf1 Hrest)
          as (acc' & t' & El & Hwf' & Hcap' & Hcases).
        exists acc', t'. split; [exact El|]. split; [exact Hwf'|].
        split; [exact Hcap'|].
        destruct Hcases as [(l' & Hl' & -> & -> & Ed')|((t1 & Ed') & nb' & Hin & Hcell)].
        -- left. exists l'. split; [exact Hl'|]. split; [reflexivity|].
           split; [reflexivity|]. exact Ed'.
        -- right. split; [exists t1; exact Ed'|].
           exists nb'. split; [now right|exact Hcell].
    + destruct (IH t acc Hwf Hrest) as (acc' & t' & El & Hwf' & Hcap' & Hcases).
      exists acc', t'. split; [exact El|]. split; [exact Hwf'|].
      split; [exact Hcap'|].
      destruct Hcases as [H|[H (nb' & Hin & Hcell)]]; [left; exact H|].
      right. split; [exact H|]. exists nb'. split; [now right|exact Hcell].
Qed.

(** *** [play_move] beside [is_legal] *)

Lemma bind_ok {S A B} (m : M S A) (k : A -> M S B) s a s' :
  m s = Ok a s' -> bind m k s = k a s'.
Proof. intros E. unfold bind. now rewrite E. Qed.

(** One statement of a sequence, with the equation of what it does. *)
Ltac run E := rewrite (bind_ok _ _ _ _ _ E); cbv beta.

Lemma neighbors_at_same t t' p :
  neighbors t' = neighbors t ->
  forall nbs, neighbors_at p t = Ok nbs t -> neighbors_at p t' = Ok nbs t'.
Proof.
  intros Hn nbs. unfold neighbors_at. rewrite Hn.
  destruct (py_get (neighbors t) p); intros H; inversion H; subst; reflexivity.
Qed.

Lemma play_move_cases s p color :
  wf s = true ->
  in_range_b s p = true ->
  is_black_white color = true ->
  exists b s1 s2,
    is_legal (Some p) color s = Ok b s1 /\
    play_move (Some p) color s = Ok b s2 /\
    wf s2 = true /\
    (b = false -> exists l, s2 = with_liberty_of s l) /\
    (b = true ->
     cell_at s p = Some EMPTY /\ ko_recapture s <> Some p /\
     cell_at s2 p = Some color /\ current_player s2 = opponent color /\
     forall q, q <> p ->
       cell_at s2 q = cell_at s q \/
       (cell_at s q = Some (opponent color) /\ cell_at s2 q = Some EMPTY)).
Proof.
  intros Hwf Hp Hc.
  destruct (wf_parts _ Hwf) as (Hg & _ & Hlib).
  destruct (get_color_ok s p Hwf Hp) as (v & Ev & Hv).
  assert (Eret : forall t : SimpleGoBoard, @ret SimpleGoBoard unit tt t = Ok tt t)
    by reflexivity.
  assert (Eget : forall t : SimpleGoBoard, get_state t = Ok t t) by reflexivity.
  unfold is_legal, play_move. rewrite Hc. cbn [py_assert].
  destruct (Z.eqb_spec v EMPTY) as [->|Hne].
  2:{ exists false, s, s. split; [|split; [|split; [exact Hwf|split]]].
      - run (Eret s). run Ev.
        replace (v =? EMPTY) with false by (symmetry; now apply Z.eqb_neq).
        reflexivity.
      - run (Eret s). run Ev.
        replace (v =? EMPTY) with false by (symmetry; now apply Z.eqb_neq).
        reflexivity.
      - intros _. exists (liberty_of s). now rewrite with_liberty_of_same.
      - discriminate. }
  destruct (point_eqb (Some p) (ko_recapture s)) eqn:Eko.
  { exists false, s, s. split; [|split; [|split; [exact Hwf|split]]].
    - run (Eret s). run Ev. cbn [Z.eqb EMPTY negb]. run (Eget s).
      rewrite Eko. reflexivity.
    - run (Eret s). run Ev. cbn [Z.eqb EMPTY negb]. run (Eget s).
      rewrite Eko. reflexivity.
    - intros _. exists (liberty_of s). now rewrite with_liberty_of_same.
    - discriminate. }
  assert (Hko : ko_recapture s <> Some p).
  { intros E. rewrite E in Eko. simpl in Eko. now rewrite Z.eqb_refl in Eko. }
  pose proof (is_black_white_opponent _ Hc) as Hopp.
  assert (Hon : on_board_b s p = true).
  { apply (cell_on_board s Hg p EMPTY); auto. discriminate. }
  destruct (wf_write s p color Hwf Hp Hon) as [Eset Hwf1].
  { destruct (is_black_white_cases _ Hc) as [->| ->]; reflexivity. }
  set (b1 := replace_nth (board s) (Z.to_nat p) color) in *.
  set (s1 := with_board s b1) in *.
  pose proof (proj1 (in_range_b_spec _ _) Hp) as Hr.
  pose proof (wf_length s Hg) as Hlen.
  assert (Hcell1 : cell_at s1 p = Some color).
  { rewrite cell_at_nth by lia. unfold s1, b1. simpl.
    apply nth_error_replace_nth_eq. lia. }
  assert (Hother : forall q, q <> p -> cell_at s1 q = cell_at s q).
  { intros q Hq. unfold cell_at, s1, b1. simpl.
    destruct (q <? 0) eqn:Eq; [reflexivity|].
    apply nth_error_replace_nth_neq. apply Z.ltb_ge in Eq. lia. }
  assert (Esc : set_color p color s = Ok tt s1).
  { unfold set_color. now rewrite Eset. }
  assert (Eback : py_set b1 p EMPTY = Some (board s)).
  { rewrite (py_set_set _ _ _ _ _ Eset). apply py_set_same.
    rewrite py_get_cell; [exact Hv|lia]. }
  assert (Eundo : forall l, set_color p EMPTY (with_liberty_of s1 l)
                            = Ok tt (with_liberty_of s l)).
  { intros l. unfold set_color. simpl board. fold b1. rewrite Eback.
    f_equal. }
  assert (Hp1 : in_range_b s1 p = true) by exact Hp.
  destruct (_is_surrounded_ok s p (opponent color) Hwf Hp) as (e & Es).
  destruct (neighbors_at_ok s1 p Hwf1 Hp1) as (nbs & En & Hnbs).
  assert (Enc : neighbors_of_color p (opponent color) s1
                = Ok (stones_of s1 (opponent color) nbs) s1).
  { unfold neighbors_of_color. run En.
    now rewrite neighbors_of_color_loop_eq. }
  destruct (play_move_loop_cases (opponent color) nbs Hopp s1 [] Hwf1 Hnbs)
    as (acc & t' & Eloop & Hwft & Hcap & Hcases).
  assert (Hne : color <> opponent color).
  { destruct (is_black_white_cases _ Hc) as [->| ->]; discriminate. }
  (* what a successful move leaves *)
  assert (Hdone : forall t2,
            wf t2 = true -> captured (opponent color) s1 t2 ->
            cell_at t2 p = Some color /\
            forall q, q <> p ->
              cell_at t2 q = cell_at s q \/
              (cell_at s q = Some (opponent color) /\
               cell_at t2 q = Some EMPTY)).
  { intros t2 _ (_ & _ & _ & _ & _ & _ & _ & Hq). split.
    - destruct (Hq p) as [H|[H _]]; congruence.
    - intros q Hqp. rewrite <- (Hother q Hqp). apply Hq. }
  (* the end of [play_move] when the move stands *)
  assert (Eend : forall (t2 : SimpleGoBoard) sc, exists t3,
            (set_ko_recapture None ;;;
             (if e && (Z.of_nat (length sc) =? 1)
              then match sc with
                   | [] => raise IndexError
                   | x :: _ => set_ko_recapture (Some x)
                   end
              else ret tt) ;;;
             set_current_player (opponent color) ;;; ret true) t2
            = Ok true t3 /\
            wf t3 = wf t2 /\ current_player t3 = opponent color /\
            forall q, cell_at t3 q = cell_at t2 q).
  { intros t2 sc. unfold bind at 1. unfold set_ko_recapture at 1.
    destruct (e && (Z.of_nat (length sc) =? 1)) eqn:E1.
    - destruct sc as [|x rest].
      + simpl in E1. now rewrite andb_false_r in E1.
      + eexists. split; [reflexivity|]. repeat split; reflexivity.
    - eexists. split; [reflexivity|]. repeat split; reflexivity. }
  destruct Hcases as [(l & Hl & -> & -> & Ed)|((t1 & Ed) & nb & Hin & Hnb)].
  - (* no capture: both go on to look for a liberty of the new stone *)
    assert (Edc : _detect_captures p (opponent color) s1
                  = Ok false (with_liberty_of s1 l)).
    { unfold _detect_captures. run Enc. exact Ed. }
    destruct (_stone_has_liberty_ok (with_liberty_of s1 l) p Hwft Hp1)
      as (h & nbs' & Eh & _ & _).
    assert (Enl : (h <- _stone_has_liberty p ;; ret (negb h))
                    (with_liberty_of s1 l)
                  = Ok (negb h) (with_liberty_of s1 l)).
    { run Eh. reflexivity. }
    destruct h.
    + destruct (Eend (with_liberty_of s1 l) []) as (t3 & E3 & Hwf3 & Hcp & Hcells).
      exists true, (with_liberty_of s l), t3.
      split; [|split; [|split; [congruence|split; [discriminate|]]]].
      * run (Eret s). run Ev. cbn [Z.eqb EMPTY negb]. run (Eget s).
        rewrite Eko. run Esc. run Edc. cbn [negb]. run Enl. cbn [negb].
        run (eq_refl : @ret SimpleGoBoard bool true (with_liberty_of s1 l) = _).
        run (Eundo l). reflexivity.
      * run (Eret s). run Ev. cbn [Z.eqb EMPTY negb]. run (Eget s).
        rewrite Eko. run Es. run Esc. run En. run Eloop. run Eh.
        cbn [negb].
        run (eq_refl : @ret SimpleGoBoard bool false (with_liberty_of s1 l) = _).
        exact E3.
      * intros _. split; [exact Hv|]. split; [exact Hko|].
        destruct (Hdone _ Hwft Hcap) as [H1 H2].
        split; [now rewrite Hcells|]. split; [exact Hcp|].
        intros q Hq. rewrite Hcells. now apply H2.
    + destruct (_block_of_ok (with_liberty_of s1 l) p color Hwft Hp1 Hcell1 Hc)
        as (m & Em & Hml & _).
      destruct (returns__has_liberty _ m Hwft Hml) as (hl & l2 & Ehl & Hl2 & _).
      change (with_liberty_of (with_liberty_of s1 l) l2)
        with (with_liberty_of s1 l2) in Ehl.
      change (liberties_ok (with_liberty_of s1 l) l2)
        with (liberties_ok s1 l2) in Hl2.
      pose proof (wf_with_liberty_of s1 l2 Hwf1 Hl2) as Hwf2.
      assert (Hl2' : liberties_ok s l2 = true).
      { rewrite <- Hl2. unfold liberties_ok, s1, b1. simpl.
        now rewrite replace_nth_length. }
      assert (Elegal : (block <- _block_of p ;; h <- _has_liberty block ;; ret h)
                         (with_liberty_of s1 l)
                       = Ok hl (with_liberty_of s1 l2)).
      { run Em. run Ehl. reflexivity. }
      assert (Esui : (block <- _block_of p ;; h <- _has_liberty block ;;
                      ret (negb h)) (with_liberty_of s1 l)
                     = Ok (negb hl) (with_liberty_of s1 l2)).
      { run Em. run Ehl. reflexivity. }
      cbn [negb] in Enl.
      destruct hl.
      * destruct (Eend (with_liberty_of s1 l2) [])
          as (t3 & E3 & Hwf3 & Hcp & Hcells).
        exists true, (with_liberty_of s l2), t3.
        split; [|split; [|split; [congruence|split; [discriminate|]]]].
        -- run (Eret s). run Ev. cbn [Z.eqb EMPTY negb]. run (Eget s).
           rewrite Eko. run Esc. run Edc. cbn [negb]. run Enl.
           run Elegal. run (Eundo l2). reflexivity.
        -- run (Eret s). run Ev. cbn [Z.eqb EMPTY negb]. run (Eget s).
           rewrite Eko. run Es. run Esc. run En. run Eloop. run Eh.
           cbn [negb]. run Esui. cbn [negb]. exact E3.
        -- intros _. split; [exact Hv|]. split; [exact Hko|].
           destruct (Hdone (with_liberty_of s1 l2) Hwf2 (captured_refl _ _))
             as [H1 H2].
           split; [now rewrite Hcells|]. split; [exact Hcp|].
           intros q Hq. rewrite Hcells. now apply H2.
      * exists false, (with_liberty_of s l2), (with_liberty_of s l2).
        split; [|split; [|split; [|split; [|discriminate]]]].
        -- run (Eret s). run Ev. cbn [Z.eqb EMPTY negb]. run (Eget s).
           rewrite Eko. run Esc. run Edc. cbn [negb]. run Enl.
           run Elegal. run (Eundo l2). reflexivity.
        -- run (Eret s). run Ev. cbn [Z.eqb EMPTY negb]. run (Eget s).
           rewrite Eko. run Es. run Esc. run En. run Eloop. run Eh.
           cbn [negb]. run Esui. cbn [negb]. run (Eundo l2). reflexivity.
        -- now apply wf_with_liberty_of.
        -- intros _. now exists l2.
  - (* a capture: the stone that was taken leaves a liberty *)
    destruct (returns__detect_captures_loop (opponent color)
                (stones_of s1 (opponent color) nbs) Hopp s1 Hwf1)
      as (a & l1 & Ed' & Hl1 & _).
    { intros x Hx. now apply (stones_of_In s1 _ nbs). }
    rewrite Ed in Ed'. inversion Ed'; subst t1. clear Ed'.
    assert (Edc : _detect_captures p (opponent color) s1
                  = Ok true (with_liberty_of s1 l1)).
    { unfold _detect_captures. run Enc. exact Ed. }
    destruct (_stone_has_liberty_ok t' p Hwft) as (h & nbs' & Eh & En' & Hh).
    { destruct Hcap as (_ & _ & _ & Hmp & _).
      unfold in_range_b in *. now rewrite Hmp. }
    assert (nbs' = nbs).
    { destruct Hcap as (_ & _ & _ & _ & Hnn & _).
      pose proof (neighbors_at_same s1 t' p Hnn nbs En) as En2.
      rewrite En' in En2. now inversion En2. }
    subst nbs'.
    assert (h = true) by (apply Hh; eauto). subst h.
    destruct (Eend t' acc) as (t3 & E3 & Hwf3 & Hcp & Hcells).
    exists true, (with_liberty_of s l1), t3.
    split; [|split; [|split; [congruence|split; [discriminate|]]]].
    + run (Eret s). run Ev. cbn [Z.eqb EMPTY negb]. run (Eget s).
      rewrite Eko. run Esc. run Edc. cbn [negb].
      run (eq_refl : @ret SimpleGoBoard bool false (with_liberty_of s1 l1) = _).
      run (eq_refl : @ret SimpleGoBoard bool true (with_liberty_of s1 l1) = _).
      run (Eundo l1). reflexivity.
    + run (Eret s). run Ev. cbn [Z.eqb EMPTY negb]. run (Eget s).
      rewrite Eko. run Es. run Esc. run En. run Eloop. run Eh.
      cbn [negb].
      run (eq_refl : @ret SimpleGoBoard bool false t' = _).
      exact E3.
    + intros _. split; [exact Hv|]. split; [exact Hko|].
      destruct (Hdone _ Hwft Hcap) as [H1 H2].
      split; [now rewrite Hcells|]. split; [exact Hcp|].
      intros q Hq. rewrite Hcells. now apply H2.
Qed.

(* ================================================================= *)
(** ** What the move ordering returns *)

Lemma mem_In x l : mem x l = true <-> In x l.
Proof.
  unfold mem. induction l as [|h t IH]; simpl.
  - split; [discriminate|tauto].
  - rewrite orb_true_iff, IH, Z.eqb_eq. split; intros [H|H]; auto.
Qed.

Lemma not_in_In x l seen : In x (not_in l seen) <-> In x l /\ ~ In x seen.
Proof.
  unfold not_in. rewrite filter_In, negb_true_iff.
  rewrite <- (mem_In x seen). destruct (mem x seen); intuition congruence.
Qed.

Lemma NoDup_not_in l seen : NoDup l -> NoDup (not_in l seen).
Proof. intros H. unfold not_in. now apply NoDup_filter. Qed.

Lemma NoDup_app_not_in a b : NoDup a -> NoDup b -> NoDup (a ++ not_in b a).
Proof.
  intros Ha Hb. induction a as [|x t IH] in Ha |- *; simpl.
  - now apply NoDup_not_in.
  - inversion Ha as [|? ? Hx Ht]; subst. constructor.
    + rewrite in_app_iff, not_in_In. simpl. tauto.
    + clear IH Hx Ha. revert Ht.
      assert (H : forall seen, NoDup t -> (forall y, In y t -> In y seen) ->
                               NoDup (t ++ not_in b seen)).
      { intros seen Ht Hsub. induction t as [|y t' IH'].
        - simpl. now apply NoDup_not_in.
        - inversion Ht; subst. simpl. constructor.
          + rewrite in_app_iff, not_in_In. intros [H|[_ H]]; auto.
            apply H. apply Hsub. now left.
          + apply IH'; auto. intros z Hz. apply Hsub. now right. }
      intros Ht. apply H; auto. intros y Hy. now right.
Qed.

Lemma StronglySorted_lt_NoDup l : StronglySorted Z.lt l -> NoDup l.
Proof.
  induction 1 as [|x l Hs IH Hall]; constructor; auto.
  intros Hin. rewrite Forall_forall in Hall. specialize (Hall x Hin). lia.
Qed.

Section OrderingShape.

Variable list_of_set : list Z -> list Z.
Hypothesis list_of_set_spec :
  forall l, NoDup (list_of_set l) /\
            forall x, In x (list_of_set l) <-> In x l.

Lemma check_n_NoDup point max s l s' :
  check_n list_of_set point max s = Ok (Some l) s' -> NoDup l.
Proof.
  unfold check_n, bind, get_state.
  destruct (direction_check_connect_gomoko point 1 max s) as [r1 s1|];
    [|discriminate].
  destruct (direction_check_connect_gomoko point (NS s) max s1) as [r2 s2|];
    [|discriminate].
  destruct (direction_check_connect_gomoko point (NS s + 1) max s2)
    as [r3 s3|]; [|discriminate].
  destruct (direction_check_connect_gomoko point (NS s - 1) max s3)
    as [r4 s4|]; [|discriminate].
  match goal with
  | |- match ?lp with _ => _ end s4 = _ -> _ => destruct lp as [|x0 rest]
  end; [discriminate|].
  intros H. inversion H; subst. apply list_of_set_spec.
Qed.

Lemma bucket_loop_NoDup points n :
  forall final_n s r s',
    NoDup final_n ->
    bucket_loop list_of_set points n final_n s = Ok r s' -> NoDup r.
Proof.
  induction points as [|point rest IH]; intros final_n s r s' Hnd; simpl.
  - intros H. inversion H; subst. exact Hnd.
  - unfold bind.
    destruct (check_n list_of_set point n s) as [[l1|] s1|]; [| |discriminate].
    + destruct (check_n list_of_set point n s1) as [[l2|] s2|] eqn:E2;
        try discriminate.
      apply IH. apply NoDup_app_not_in; auto.
      eapply check_n_NoDup; eauto.
    + now apply IH.
Qed.

Lemma order_the_point_shape color s l s' :
  order_the_point list_of_set color s = Ok l s' ->
  exists L,
    NoDup L /\
    l = L ++ not_in (where1d (fun c => c =? EMPTY) (board s')) L.
Proof.
  unfold order_the_point, bind, get_state.
  set (points := if color =? 2 then _ else _).
  destruct (bucket_loop list_of_set points 4 [] s) as [f4 s1|] eqn:E4;
    [|discriminate].
  destruct (bucket_loop list_of_set points 3 [] s1) as [f3 s2|] eqn:E3;
    [|discriminate].
  destruct (bucket_loop list_of_set points 2 [] s2) as [f2 s3|] eqn:E2;
    [|discriminate].
  destruct (bucket_loop list_of_set points 1 [] s3) as [f1 s4|] eqn:E1;
    [|discriminate].
  unfold generate_legal_moves, get_empty_points, bind, get_state, ret.
  intros H. inversion H; subst. eexists. split; [|reflexivity].
  pose proof (bucket_loop_NoDup _ _ _ _ _ _ (NoDup_nil Z) E4) as H4.
  pose proof (bucket_loop_NoDup _ _ _ _ _ _ (NoDup_nil Z) E3) as H3.
  pose proof (bucket_loop_NoDup _ _ _ _ _ _ (NoDup_nil Z) E2) as H2.
  pose proof (bucket_loop_NoDup _ _ _ _ _ _ (NoDup_nil Z) E1) as H1.
  repeat apply NoDup_app_not_in; auto.
Qed.

(** [order_the_point] lists every empty point once. *)
Lemma order_the_point_complete s color :
  wf s = true ->
  (exists l s',
      order_the_point list_of_set color s = Ok l s' /\
      board s' = board s /\ current_player s' = current_player s /\
      NoDup l /\
      forall x, In x l <-> cell_at s x = Some EMPTY) \/
  (exists s',
      order_the_point list_of_set color s = Raise TypeError s' /\
      board s' = board s /\ current_player s' = current_player s).
Proof.
  intros Hwf.
  destruct (leaves_order_the_point list_of_set list_of_set_spec s color Hwf)
    as (l0 & Hl0 & [(l & E & Hall)|E]).
  - left. exists l, (with_liberty_of s l0). split; [exact E|].
    split; [reflexivity|]. split; [reflexivity|].
    destruct (order_the_point_shape color s l _ E) as (L & HL & ->).
    cbn [board with_liberty_of] in *. split.
    + apply NoDup_app_not_in; auto.
      apply StronglySorted_lt_NoDup. apply where1d_from_sorted.
    + intros x. split; [apply Hall|].
      intros Hx. rewrite in_app_iff, not_in_In.
      destruct (in_dec Z.eq_dec x L) as [Hin|Hnot]; [now left|right].
      split; auto. now apply empty_points_cells.
  - right. exists (with_liberty_of s l0). auto.
Qed.

End OrderingShape.

(* ================================================================= *)
(** ** [block_open_four] *)

Lemma final_check_half points emp count :
  truthy (final_check true false points emp count) = true <->
  points <= count /\ emp = 1.
Proof.
  unfold final_check, truthy. rewrite Z.geb_leb.
  destruct (Z.leb_spec points count); destruct (Z.eqb_spec emp 1);
    split; intros H1; try discriminate; try lia; auto.
Qed.

(** One axis of the test with [empty1] set. *)
Lemma straight_check_half s color p d points :
  wf_grid s = true ->
  is_black_white color = true -> In d (dirs s) ->
  on_board_b s p = true ->
  exists r, straight_check p d color points true false s = Ok r s /\
            (truthy r = true <-> half_open_run s color points p d).
Proof.
  intros Hwf Hc Hd Hp.
  destruct (run_exists s Hwf color d d Hc Hd (or_introl eq_refl) p Hp)
    as (jf & vf & Hf).
  destruct (run_exists s Hwf color d (- d) Hc Hd (or_intror eq_refl) p Hp)
    as (jb & vb & Hb).
  eexists. split.
  - apply (straight_check_runs s Hwf); eauto.
  - rewrite final_check_half. split.
    + intros [Hcount Hemp]. exists jf, jb, vf, vb.
      split; [exact Hf|]. split; [exact Hb|]. split; [lia|].
      destruct (Z.eqb_spec vf EMPTY); destruct (Z.eqb_spec vb EMPTY);
        try lia; auto.
    + intros (jf' & jb' & vf' & vb' & Hf' & Hb' & Hn & Hends).
      destruct (run_to_unique s color d _ _ _ _ _ Hf Hf') as [-> ->].
      destruct (run_to_unique s color (- d) _ _ _ _ _ Hb Hb') as [-> ->].
      split; [lia|].
      destruct (Z.eqb_spec vf' EMPTY); destruct (Z.eqb_spec vb' EMPTY);
        try reflexivity; exfalso; tauto.
Qed.

(** The [if / elif] chain over the four axes, for any test of one axis. *)
Lemma straight_any_axes s color p points e1 e2 (P : Z -> Prop) :
  (forall d, In d (dirs s) ->
     exists r, straight_check p d color points e1 e2 s = Ok r s /\
               (truthy r = true <-> P d)) ->
  exists b, straight_any p color points e1 e2 s = Ok b s /\
            (b = true <-> exists d, In d (dirs s) /\ P d).
Proof.
  intros Hone.
  destruct (Hone 1) as (r1 & E1 & H1); [unfold dirs; simpl; auto|].
  destruct (Hone (NS s)) as (r2 & E2 & H2); [unfold dirs; simpl; auto|].
  destruct (Hone (NS s + 1)) as (r3 & E3 & H3); [unfold dirs; simpl; auto|].
  destruct (Hone (NS s - 1)) as (r4 & E4 & H4); [unfold dirs; simpl; auto|].
  unfold straight_any, bind, get_state. rewrite E1.
  assert (Hsplit : (exists d, In d (dirs s) /\ P d) <->
                   P 1 \/ P (NS s) \/ P (NS s + 1) \/ P (NS s - 1)).
  { unfold dirs. simpl. split.
    - intros (d & [<-|[<-|[<-|[<-|[]]]]] & H); auto.
    - intros [H|[H|[H|H]]]; eauto 7. }
  destruct (truthy r1) eqn:T1.
  { exists true. split; [reflexivity|]. rewrite Hsplit. split; auto.
    intros _. left. now apply H1. }
  rewrite E2. destruct (truthy r2) eqn:T2.
  { exists true. split; [reflexivity|]. rewrite Hsplit. split; auto.
    intros _. right; left. now apply H2. }
  rewrite E3. destruct (truthy r3) eqn:T3.
  { exists true. split; [reflexivity|]. rewrite Hsplit. split; auto.
    intros _. right; right; left. now apply H3. }
  rewrite E4. destruct (truthy r4) eqn:T4.
  { exists true. split; [reflexivity|]. rewrite Hsplit. split; auto.
    intros _. right; right; right. now apply H4. }
  exists false. split; [reflexivity|]. rewrite Hsplit.
  split; [discriminate|].
  intros [H|[H|[H|H]]]; [apply H1 in H|apply H2 in H|apply H3 in H|apply H4 in H];
    congruence.
Qed.

Lemma half_open_run_less s color n m p d :
  m <= n -> half_open_run s color n p d -> half_open_run s color m p d.
Proof.
  intros Hm (jf & jb & vf & vb & Hf & Hb & Hn & He).
  exists jf, jb, vf, vb. repeat split; auto; try apply Hf; try apply Hb. lia.
Qed.

Lemma mem_true_In x l : mem x l = true <-> In x l.
Proof.
  unfold mem. rewrite existsb_exists. split.
  - intros (y & Hy & E). apply Z.eqb_eq in E. now subst.
  - intros H. exists x. split; [exact H|apply Z.eqb_refl].
Qed.

Lemma append_new_In x l q : In q (append_new x l) <-> In q l \/ q = x.
Proof.
  unfold append_new. destruct (mem x l) eqn:E; simpl.
  - apply mem_true_In in E. split; [auto|]. intros [H| ->]; auto.
  - rewrite in_app_iff. simpl. split.
    + intros [H|[<-|[]]]; auto.
    + intros [H| ->]; auto.
Qed.

Lemma append_new_NoDup x l : NoDup l -> NoDup (append_new x l).
Proof.
  intros Hl. unfold append_new. destruct (mem x l) eqn:E; simpl; auto.
  apply NoDup_app; auto.
  - constructor; [intros []|constructor].
  - intros y Hy [<-|[]]. apply mem_true_In in Hy. congruence.
Qed.

Lemma block_open_four_loop_spec s versus_color :
  wf_grid s = true ->
  is_black_white versus_color = true ->
  forall pts found,
    (forall q, In q pts -> cell_at s q = Some EMPTY) ->
    NoDup found ->
    exists l, block_open_four_loop pts versus_color found s = Ok l s /\
      NoDup l /\
      forall q, In q l <->
        In q found \/ (In q pts /\ threat_at s versus_color q).
Proof.
  intros Hwf Hc pts. induction pts as [|p rest IH]; intros found Hempty Hnd.
  - exists found. split; [reflexivity|]. split; [exact Hnd|].
    intros q. simpl. tauto.
  - assert (Hp : on_board_b s p = true).
    { apply (cell_on_board s Hwf p EMPTY); [apply Hempty; now left|discriminate]. }
    destruct (straight_any_axes s versus_color p 4 true false
                (half_open_run s versus_color 4 p)) as (b1 & E1 & H1).
    { intros d Hd. now apply straight_check_half. }
    destruct (straight_any_axes s versus_color p 3 true false
                (half_open_run s versus_color 3 p)) as (b2 & E2 & H2).
    { intros d Hd. now apply straight_check_half. }
    destruct (straight_any_open s Hwf versus_color p 4 Hc Hp) as (b3 & E3 & H3).
    simpl. unfold bind. rewrite E1, E2, E3.
    set (f1 := if b1 then append_new p found else found).
    set (f2 := if b2 then append_new p f1 else f1).
    set (f3 := if b3 then append_new p f2 else f2).
    assert (N1 : NoDup f1) by (unfold f1; destruct b1; auto using append_new_NoDup).
    assert (N2 : NoDup f2) by (unfold f2; destruct b2; auto using append_new_NoDup).
    assert (N3 : NoDup f3) by (unfold f3; destruct b3; auto using append_new_NoDup).
    destruct (IH f3) as (l & El & Hnl & Hl).
    { intros q Hq. apply Hempty. now right. }
    { exact N3. }
    exists l. split; [exact El|]. split; [exact Hnl|].
    assert (Hf3 : forall q, In q f3 <->
              In q found \/ (q = p /\ (b1 = true \/ b2 = true \/ b3 = true))).
    { intros q. unfold f3, f2, f1.
      destruct b1, b2, b3; rewrite ?append_new_In; intuition congruence. }
    assert (Hthreat : threat_at s versus_color p <->
              b1 = true \/ b2 = true \/ b3 = true).
    { unfold threat_at. rewrite H1, H2, H3. split.
      - intros (d & Hd & [H|H]); eauto.
      - intros [(d & Hd & H)|[(d & Hd & H)|(d & Hd & H)]]; exists d;
          (split; [exact Hd|]); auto.
        left. apply (half_open_run_less s versus_color 4 3); [lia|exact H]. }
    intros q. rewrite Hl, Hf3, <- Hthreat. simpl. split.
    + intros [[H|[-> H]]|[H1' H2']]; auto.
    + intros [H|[[<-|H1'] H2']]; auto.
Qed.

Lemma block_open_four_threats s color :
  wf_grid s = true ->
  is_black_white color = true ->
  exists l,
    block_open_four color s = Ok l s /\ NoDup l /\
    forall q, In q l <->
      cell_at s q = Some EMPTY /\ threat_at s (opponent color) q.
Proof.
  intros Hwf Hc. unfold block_open_four, bind, get_state.
  destruct (block_open_four_loop_spec s (opponent color) Hwf
              (is_black_white_opponent _ Hc)
              (where1d (fun c => c =? 0) (board s)) [])
    as (l & El & Hnd & Hl).
  { intros q Hq. now apply (stones_listed s Hwf EMPTY). }
  { constructor. }
  exists l. split; [exact El|]. split; [exact Hnd|].
  intros q. rewrite Hl. rewrite (stones_listed s Hwf EMPTY q). simpl. tauto.
Qed.

(* ================================================================= *)
(** ** Moves that complete a row *)

Section Finding.

Variables color point shift max : Z.
Hypothesis Hc : is_black_white color = true.

Let wins (s : SimpleGoBoard) (q : Z) : Prop :=
  completes s color max q shift \/ completes s color max q (- shift).

Lemma direction_loop1_completes (j : nat) :
  forall fuel s (a : nat) count pointWin v,
    wf s = true ->
    In shift (dirs s) ->
    (forall i, 0 <= i <= Z.of_nat a ->
               cell_at s (point + i * shift) = Some color) ->
    count = 1 + Z.of_nat a ->
    run_to s color (point + Z.of_nat a * shift) shift j v ->
    (j < fuel)%nat ->
    (forall q, In q pointWin -> wins s q) ->
    returns (direction_loop1 fuel color point shift max shift
               (point + Z.of_nat a * shift) count pointWin) s
      (fun r =>
         (exists a' : nat,
             fst r = 1 + Z.of_nat a' /\
             forall i, 0 <= i <= Z.of_nat a' ->
                       cell_at s (point + i * shift) = Some color) /\
         forall q, In q (snd r) -> wins s q).
Proof.
  induction j as [|j IH];
    intros fuel s a count pointWin v Hwf Hd Hinv Hcount (Hall & Hend & Hv)
           Hf Hpw;
    (destruct fuel as [|fuel]; [lia|]); simpl;
    assert (Hp : cell_at s (point + Z.of_nat a * shift) = Some color)
      by (apply Hinv; lia);
    assert (Hpoint : cell_at s point = Some color)
      by (specialize (Hinv 0); rewrite Z.mul_0_l, Z.add_0_r in Hinv;
          apply Hinv; lia);
    destruct (stone_step_in_range s color _ shift Hwf Hc Hp Hd) as [Hr _].
  - replace (point + Z.of_nat a * shift + (Z.of_nat 0 + 1) * shift)
      with (point + Z.of_nat a * shift + shift) in Hend by lia.
    eapply returns_bind; [apply (returns_get_color s Hwf _ Hr)|].
    intros c l Hl Hcell. next_state.
    rewrite Hend in Hcell. inversion Hcell; subst c.
    destruct (Z.eqb_spec v color); [contradiction|].
    apply returns_ret; auto. split; [|exact Hpw].
    exists a. split; [exact Hcount|exact Hinv].
  - assert (H1 : cell_at s (point + Z.of_nat a * shift + shift) = Some color).
    { specialize (Hall 1). rewrite Z.mul_1_l in Hall. apply Hall. lia. }
    assert (Hinv' : forall i, 0 <= i <= Z.of_nat (S a) ->
                      cell_at s (point + i * shift) = Some color).
    { intros i Hi. destruct (Z.eq_dec i (Z.of_nat (S a))) as [->|Hne].
      - replace (point + Z.of_nat (S a) * shift)
          with (point + Z.of_nat a * shift + shift) by lia. exact H1.
      - apply Hinv. lia. }
    eapply returns_bind; [apply (returns_get_color s Hwf _ Hr)|].
    intros c l Hl Hcell. next_state.
    rewrite H1 in Hcell. inversion Hcell; subst c.
    rewrite Z.eqb_refl.
    destruct (Z.eqb_spec (count + 1) max) as [Hmax|Hmax].
    + destruct (stone_step_in_range s color _ shift Hwf Hc H1 Hd) as [Hr2 _].
      assert (Hres : exists a' : nat,
                count + 1 = 1 + Z.of_nat a' /\
                forall i, 0 <= i <= Z.of_nat a' ->
                          cell_at s (point + i * shift) = Some color).
      { exists (S a). split; [lia|exact Hinv']. }
      eapply returns_bind;
        [apply (returns_is_legal _ _ color Hwf0 Hr2 Hc)|].
      intros l1 l' Hl' Hl1. next_state.
      destruct l1.
      * apply returns_ret; auto. simpl. split; [exact Hres|].
        intros q Hq. apply in_app_iff in Hq.
        destruct Hq as [Hq|[<-|[]]]; [now apply Hpw|].
        right. split; [now apply Hl1|].
        intros i Hi.
        replace (point + Z.of_nat a * shift + shift + shift + i * - shift)
          with (point + (Z.of_nat a + 2 - i) * shift) by lia.
        apply Hinv'. lia.
      * destruct (stone_step_in_range s color point shift Hwf Hc Hpoint Hd)
          as [_ Hr3].
        eapply returns_bind;
          [apply (returns_is_legal _ (point + - shift) color Hwf1 Hr3 Hc)|].
        intros l2 l'' Hl'' Hl2. next_state.
        destruct l2;
          (apply returns_ret; [assumption|]); simpl; (split; [exact Hres|]);
          [|exact Hpw].
        intros q Hq. apply in_app_iff in Hq.
        destruct Hq as [Hq|[<-|[]]]; [now apply Hpw|].
        left. split; [now apply Hl2|].
        intros i Hi.
        replace (point + - shift + i * shift)
          with (point + (i - 1) * shift) by lia.
        apply Hinv'. lia.
    + replace (point + Z.of_nat a * shift + shift)
        with (point + Z.of_nat (S a) * shift) by lia.
      apply (IH fuel _ (S a) (count + 1) pointWin v Hwf0); auto; try lia.
      repeat split; auto.
      * intros i Hi.
        replace (point + Z.of_nat (S a) * shift + i * shift)
          with (point + Z.of_nat a * shift + (i + 1) * shift) by lia.
        apply Hall. lia.
      * now replace (point + Z.of_nat (S a) * shift + (Z.of_nat j + 1) * shift)
          with (point + Z.of_nat a * shift + (Z.of_nat (S j) + 1) * shift)
          by lia.
Qed.

Lemma direction_loop2_completes (j : nat) :
  forall fuel s (a b : nat) count pointWin v,
    wf s = true ->
    In shift (dirs s) ->
    (forall i, - Z.of_nat b <= i <= Z.of_nat a ->
               cell_at s (point + i * shift) = Some color) ->
    count = 1 + Z.of_nat a + Z.of_nat b ->
    run_to s color (point - Z.of_nat b * shift) (- shift) j v ->
    (j < fuel)%nat ->
    (forall q, In q pointWin -> wins s q) ->
    returns (direction_loop2 fuel color max (- shift)
               (point - Z.of_nat b * shift) count pointWin) s
      (fun r => forall q, In q (snd r) -> wins s q).
Proof.
  induction j as [|j IH];
    intros fuel s a b count pointWin v Hwf Hd Hinv Hcount (Hall & Hend & Hv)
           Hf Hpw;
    (destruct fuel as [|fuel]; [lia|]); simpl;
    assert (Hp : cell_at s (point - Z.of_nat b * shift) = Some color)
      by (replace (point - Z.of_nat b * shift)
            with (point + (- Z.of_nat b) * shift) by lia; apply Hinv; lia);
    destruct (stone_step_in_range s color _ shift Hwf Hc Hp Hd) as [_ Hr].
  - replace (point - Z.of_nat b * shift + (Z.of_nat 0 + 1) * - shift)
      with (point - Z.of_nat b * shift + - shift) in Hend by lia.
    eapply returns_bind; [apply (returns_get_color s Hwf _ Hr)|].
    intros c l Hl Hcell. next_state.
    rewrite Hend in Hcell. inversion Hcell; subst c.
    destruct (Z.eqb_spec v color); [contradiction|].
    apply returns_ret; auto.
  - assert (H1 : cell_at s (point - Z.of_nat b * shift + - shift) = Some color).
    { specialize (Hall 1). rewrite Z.mul_1_l in Hall. apply Hall. lia. }
    assert (Hinv' : forall i, - Z.of_nat (S b) <= i <= Z.of_nat a ->
                      cell_at s (point + i * shift) = Some color).
    { intros i Hi. destruct (Z.eq_dec i (- Z.of_nat (S b))) as [->|Hne].
      - replace (point + - Z.of_nat (S b) * shift)
          with (point - Z.of_nat b * shift + - shift) by lia. exact H1.
      - apply Hinv. lia. }
    eapply returns_bind; [apply (returns_get_color s Hwf _ Hr)|].
    intros c l Hl Hcell. next_state.
    rewrite H1 in Hcell. inversion Hcell; subst c.
    rewrite Z.eqb_refl.
    destruct (Z.eqb_spec (count + 1) max) as [Hmax|Hmax].
    + destruct (stone_step_in_range s color _ shift Hwf Hc H1 Hd) as [_ Hr2].
      eapply returns_bind;
        [apply (returns_is_legal _ _ color Hwf0 Hr2 Hc)|].
      intros l1 l' Hl' Hl1. next_state.
      destruct l1; apply returns_ret; auto. simpl.
      intros q Hq. apply in_app_iff in Hq.
      destruct Hq as [Hq|[<-|[]]]; [now apply Hpw|].
      left. split; [now apply Hl1|].
      intros i Hi.
      replace (point - Z.of_nat b * shift + - shift + - shift + i * shift)
        with (point + (i - Z.of_nat b - 2) * shift) by lia.
      apply Hinv'. lia.
    + replace (point - Z.of_nat b * shift + - shift)
        with (point - Z.of_nat (S b) * shift) by lia.
      apply (IH fuel _ a (S b) (count + 1) pointWin v Hwf0); auto; try lia.
      repeat split; auto.
      * intros i Hi.
        replace (point - Z.of_nat (S b) * shift + i * - shift)
          with (point - Z.of_nat b * shift + (i + 1) * - shift) by lia.
        apply Hall. lia.
      * now replace (point - Z.of_nat (S b) * shift
                     + (Z.of_nat j + 1) * - shift)
          with (point - Z.of_nat b * shift + (Z.of_nat (S j) + 1) * - shift)
          by lia.
Qed.

Lemma direction_check_completes s :
  wf s = true ->
  cell_at s point = Some color ->
  In shift (dirs s) ->
  returns (_direction_check_connect_gomoko point shift max) s
    (fun r => forall q, In q (snd r) -> wins s q).
Proof.
  intros Hwf Hpoint Hd.
  destruct (wf_parts _ Hwf) as (Hg & _ & _).
  assert (Hon : on_board_b s point = true)
    by (eapply stone_on_board; eauto).
  assert (Hr : in_range_b s point = true)
    by (apply in_range_b_spec; eapply cell_at_range; eauto).
  destruct (run_exists s Hg color shift shift Hc Hd (or_introl eq_refl) point Hon)
    as (jf & vf & Hf).
  destruct (run_exists s Hg color shift (- shift) Hc Hd (or_intror eq_refl)
              point Hon) as (jb & vb & Hb).
  assert (Hjf : (jf < scan_fuel s)%nat).
  { apply (scan_fuel_bound s Hg).
    eapply (run_to_bound s Hg color shift shift); eauto. }
  assert (Hjb : (jb < scan_fuel s)%nat).
  { apply (scan_fuel_bound s Hg).
    eapply (run_to_bound s Hg color shift (- shift)); eauto. }
  unfold _direction_check_connect_gomoko, direction_check_connect_gomoko.
  eapply returns_bind; [apply (returns_get_color s Hwf _ Hr)|].
  intros c l Hl Hcell. next_state.
  rewrite Hpoint in Hcell. inversion Hcell; subst c.
  apply (returns_bind _ _ _ (fun x => scan_fuel x = scan_fuel s)).
  { eapply returns_pure; [exact Hwf0|reflexivity|reflexivity]. }
  intros s' l' Hl' Hfuel. next_state. rewrite Hfuel.
  eapply returns_bind.
  { replace point with (point + Z.of_nat 0 * shift) at 2 by (simpl; lia).
    apply (direction_loop1_completes jf (scan_fuel s) _ 0%nat 1 [] vf Hwf1);
      [exact Hd| |reflexivity
      |now replace (point + Z.of_nat 0 * shift) with point by (simpl; lia)
      |exact Hjf|intros q []].
    intros i Hi. replace i with 0 by (simpl in Hi; lia).
    now rewrite Z.mul_0_l, Z.add_0_r. }
  intros [count pointWin] l2 Hl2 [(a' & Hcount & Hcells) Hpw]. next_state.
  cbn [fst snd] in Hcount, Hpw.
  eapply returns_bind.
  { replace point with (point - Z.of_nat 0 * shift) at 1 by (simpl; lia).
    apply (direction_loop2_completes jb (scan_fuel s) _ a' 0%nat count
             pointWin vb Hwf2);
      [exact Hd| | |
       now replace (point - Z.of_nat 0 * shift) with point by (simpl; lia)
      |exact Hjb|exact Hpw].
    - intros i Hi. apply Hcells. simpl in Hi. lia.
    - rewrite Hcount. simpl. lia. }
  intros [count' pointWin'] l3 Hl3 Hpw'. next_state.
  apply returns_ret; auto.
Qed.

End Finding.

Lemma point_check_move_completes s color point max :
  wf s = true ->
  is_black_white color = true ->
  cell_at s point = Some color ->
  returns (point_check_game_end_move_gomoku point max) s
    (fun r => forall q, In q (list_of r) -> winning_point s color max q).
Proof.
  intros Hwf Hc Hpoint.
  assert (Hstep : forall d t,
            wf t = true -> cell_at t point = Some color ->
            In d (dirs t) ->
            returns (_direction_check_connect_gomoko point d max) t
              (fun r => forall q, In q (snd r) ->
                                  winning_point t color max q)).
  { intros d t Hwft Hpt Hd.
    eapply returns_weaken;
      [apply (direction_check_completes color point d max Hc t Hwft Hpt Hd)|].
    intros r Hr q Hq. exists d. split; [exact Hd|]. now apply Hr. }
  unfold point_check_game_end_move_gomoku.
  apply (returns_bind _ _ _ (fun x => NS x = NS s)).
  { eapply returns_pure; [exact Hwf|reflexivity|reflexivity]. }
  intros s' l0 Hl0 Hns. next_state. rewrite Hns.
  eapply returns_bind.
  { apply (Hstep 1 _ Hwf0 Hpoint). unfold dirs. simpl. auto. }
  intros [check pw] l1 Hl1 H1. next_state.
  destruct check; [apply returns_ret; auto|].
  eapply returns_bind.
  { apply (Hstep (NS s) _ Hwf1 Hpoint). unfold dirs. simpl. auto. }
  intros [check2 pw2] l2 Hl2 H2. next_state.
  destruct check2; [apply returns_ret; auto|].
  eapply returns_bind.
  { apply (Hstep (NS s + 1) _ Hwf2 Hpoint). unfold dirs. simpl. auto. }
  intros [check3 pw3] l3 Hl3 H3. next_state.
  destruct check3; [apply returns_ret; auto|].
  eapply returns_bind.
  { apply (Hstep (NS s - 1) _ Hwf3 Hpoint). unfold dirs. simpl. auto. }
  intros [check4 pw4] l4 Hl4 H4. next_state.
  destruct check4; apply returns_ret; auto.
  intros q [].
Qed.

Lemma truthy_list_cons r : truthy_list r = true -> list_of r <> [].
Proof. destruct r as [[|x l]|]; simpl; congruence. Qed.

Lemma check_move_loop_completes color max points :
  is_black_white color = true ->
  forall s win,
    wf s = true ->
    (forall p, In p points -> cell_at s p = Some color) ->
    winning_lists s color max win ->
    returns (check_move_loop points max win) s (winning_lists s color max).
Proof.
  intros Hc. induction points as [|p rest IH]; intros s win Hwf Hpts Hwin; simpl.
  - apply returns_ret; auto.
  - eapply returns_bind.
    { apply (point_check_move_completes s color p max Hwf Hc).
      apply Hpts. now left. }
    intros r l Hl Hr. next_state.
    assert (Hrest : forall q, In q rest -> cell_at s q = Some color)
      by (intros q Hq; apply Hpts; now right).
    destruct (truthy_list r) eqn:Et.
    + apply (IH _ _ Hwf0 Hrest).
      intros pw Hpw. apply in_app_iff in Hpw.
      destruct Hpw as [Hpw|[<-|[]]]; [now apply Hwin|].
      split; [now apply truthy_list_cons|exact Hr].
    + apply (IH _ _ Hwf0 Hrest Hwin).
Qed.

Lemma counterwin_loop_completes color max points :
  is_black_white color = true ->
  forall s win,
    wf s = true ->
    (forall p, In p points -> cell_at s p = Some color) ->
    winning_lists s color max win ->
    returns (counterwin_loop points max win) s (winning_lists s color max).
Proof.
  intros Hc. induction points as [|p rest IH]; intros s win Hwf Hpts Hwin; simpl.
  - apply returns_ret; auto.
  - eapply returns_bind.
    { apply (point_check_move_completes s color p max Hwf Hc).
      apply Hpts. now left. }
    intros r l Hl Hr. next_state.
    assert (Hrest : forall q, In q rest -> cell_at s q = Some color)
      by (intros q Hq; apply Hpts; now right).
    destruct (truthy_list r) eqn:Et; cbn [andb];
      [destruct (negb (mem_list (list_of r) win))|].
    + apply (IH _ _ Hwf0 Hrest).
      intros pw Hpw. apply in_app_iff in Hpw.
      destruct Hpw as [Hpw|[<-|[]]]; [now apply Hwin|].
      split; [now apply truthy_list_cons|exact Hr].
    + apply (IH _ _ Hwf0 Hrest Hwin).
    + apply (IH _ _ Hwf0 Hrest Hwin).
Qed.

(** The colour whose stones [check_game_end_move_gomoku] looks at. *)
Lemma check_game_end_move_gomoku_completes s color max :
  wf s = true ->
  returns (check_game_end_move_gomoku color max) s
    (fun r =>
       match r with
       | (true, Some win) =>
           win <> [] /\
           winning_lists s (if color =? 2 then WHITE else BLACK) max win
       | (false, None) => True
       | _ => False
       end).
Proof.
  intros Hwf. destruct (wf_parts _ Hwf) as (Hg & _ & _).
  unfold check_game_end_move_gomoku.
  apply (returns_bind _ _ _ (fun x => board x = board s)).
  { eapply returns_pure; [exact Hwf|reflexivity|reflexivity]. }
  intros s' l0 Hl0 Hb. next_state. rewrite Hb.
  assert (Hfin : forall c (win : list (list Z)) t,
            wf t = true -> winning_lists s c max win ->
            returns (if Z.of_nat (length win) >? 0
                     then ret (true, Some win) else ret (false, None)) t
              (fun r => match r with
                        | (true, Some win) =>
                            win <> [] /\ winning_lists s c max win
                        | (false, None) => True
                        | _ => False
                        end)).
  { intros c win t Hwft Hw. destruct win as [|pw win].
    - simpl. apply returns_ret; auto.
    - replace (Z.of_nat (length (pw :: win)) >? 0) with true
        by (symmetry; apply Z.gtb_lt; simpl; lia).
      apply returns_ret; auto. split; [discriminate|exact Hw]. }
  destruct (color =? 2).
  - eapply returns_bind.
    { apply (check_move_loop_completes WHITE max _ eq_refl _ [] Hwf0).
      - intros p Hp. now apply (stones_listed s Hg WHITE).
      - intros pw []. }
    intros win l1 Hl1 Hw. next_state. now apply Hfin.
  - eapply returns_bind.
    { apply (check_move_loop_completes BLACK max _ eq_refl _ [] Hwf0).
      - intros p Hp. now apply (stones_listed s Hg BLACK).
      - intros pw []. }
    intros win l1 Hl1 Hw. next_state. now apply Hfin.
Qed.

Lemma check_game_end_move_gomoku_win_counterwin_completes s max :
  wf s = true ->
  returns (check_game_end_move_gomoku_win_counterwin max) s
    (fun r => winning_lists s WHITE max (fst r) /\
              winning_lists s BLACK max (snd r)).
Proof.
  intros Hwf. destruct (wf_parts _ Hwf) as (Hg & _ & _).
  unfold check_game_end_move_gomoku_win_counterwin.
  apply (returns_bind _ _ _ (fun x => board x = board s)).
  { eapply returns_pure; [exact Hwf|reflexivity|reflexivity]. }
  intros s' l0 Hl0 Hb. next_state. rewrite Hb.
  eapply returns_bind.
  { apply (counterwin_loop_completes WHITE max _ eq_refl _ [] Hwf0).
    - intros p Hp. now apply (stones_listed s Hg WHITE).
    - intros pw []. }
  intros win l1 Hl1 Hw. next_state.
  eapply returns_bind.
  { apply (counterwin_loop_completes BLACK max _ eq_refl _ [] Hwf1).
    - intros p Hp. now apply (stones_listed s Hg BLACK).
    - intros pw []. }
  intros blackwin l2 Hl2 Hbw. next_state.
  apply returns_ret; auto.
Qed.

(* ================================================================= *)
(** ** The solver takes its moves back *)

Lemma same_position_refl b : wf b = true -> same_position b b.
Proof.
  intros Hwf. exists (liberty_of b), (current_player b).
  destruct (wf_parts _ Hwf) as (_ & _ & Hl). split; auto. now destruct b.
Qed.

Lemma same_position_trans b1 b2 b3 :
  same_position b1 b2 -> same_position b2 b3 -> same_position b1 b3.
Proof.
  intros (l & cp & -> & Hl) (l' & cp' & -> & Hl').
  exists l', cp'. split; auto.
Qed.

Lemma same_position_wf b b' :
  wf b = true -> same_position b b' -> wf b' = true.
Proof.
  intros Hwf (l & cp & -> & Hl).
  pose proof (wf_with_liberty_of b l Hwf Hl) as H.
  exact H.
Qed.

Lemma same_position_board b b' : same_position b b' -> board b' = board b.
Proof. now intros (l & cp & -> & _). Qed.

Lemma same_position_count b b' :
  same_position b b' -> count_empty b' = count_empty b.
Proof. intros H. unfold count_empty. now rewrite (same_position_board _ _ H). Qed.

Lemma with_gboard_same g : with_gboard g (gboard g) = g.
Proof. now destruct g. Qed.

Lemma on_board_ok {A} (m : BM A) g a b' :
  m (gboard g) = Ok a b' -> on_board m g = Ok a (with_gboard g b').
Proof. intros E. unfold on_board. now rewrite E. Qed.

Lemma on_board_raise {A} (m : BM A) g e b' :
  m (gboard g) = Raise e b' -> on_board m g = Raise e (with_gboard g b').
Proof. intros E. unfold on_board. now rewrite E. Qed.

Lemma is_black_white_other c :
  is_black_white c = true -> is_black_white (other c) = true.
Proof.
  intros H. destruct (is_black_white_cases _ H) as [->| ->]; reflexivity.
Qed.

Lemma play_move_gomoku_played b p color :
  wf b = true -> is_black_white color = true ->
  cell_at b p = Some EMPTY ->
  play_move_gomoku (Some p) color b = Ok true (played b p color) /\
  wf (played b p color) = true /\
  S (count_empty (played b p color)) = count_empty b.
Proof.
  intros Hwf Hc Hp.
  destruct (play_move_gomoku_state b p color Hwf Hc Hp)
    as (s' & E & Hwf' & _ & _ & _ & Hn).
  destruct (play_move_gomoku_true_inv _ _ _ _ E)
    as (p0 & bb & Hp0 & _ & _ & Hset & Hs').
  inversion Hp0; subst p0.
  destruct (wf_parts _ Hwf) as (Hg & _ & _).
  pose proof (cell_at_range b Hg p _ Hp) as Hr.
  pose proof (wf_length b Hg) as Hlen.
  rewrite (py_set_nth (board b) p color) in Hset by lia.
  inversion Hset; subst bb. subst s'. auto.
Qed.

(** Taking the stone back from a board that is the played board up to
    [liberty_of] and [current_player]. *)
Lemma undo_played b p color b2 :
  wf b = true -> cell_at b p = Some EMPTY ->
  same_position (played b p color) b2 ->
  exists b3, undo p b2 = Ok tt b3 /\ same_position b b3.
Proof.
  intros Hwf Hp (l & cp & -> & Hl).
  destruct (wf_parts _ Hwf) as (Hg & _ & _).
  pose proof (cell_at_range b Hg p _ Hp) as Hr.
  pose proof (wf_length b Hg) as Hlen.
  unfold undo, set_color. cbn [board played with_current_player with_liberty_of with_board].
  rewrite py_set_nth by (rewrite replace_nth_length; lia).
  rewrite replace_nth_twice.
  assert (Hn : nth_error (board b) (Z.to_nat p) = Some 0).
  { unfold cell_at in Hp. destruct (p <? 0); [discriminate|exact Hp]. }
  rewrite (replace_nth_same _ _ _ Hn).
  eexists. split; [reflexivity|].
  exists l, cp. split.
  - destruct b. reflexivity.
  - unfold played in Hl. rewrite <- Hl. symmetry.
    unfold liberties_ok, in_range_b. cbn [board maxpoint with_current_player with_board].
    now rewrite replace_nth_length.
Qed.

Lemma on_board_check_end g :
  wf (gboard g) = true ->
  exists r, on_board check_game_end_gomoku g = Ok r g.
Proof.
  intros Hwf. destruct (wf_parts _ Hwf) as (Hg & _ & _).
  destruct (check_game_end_gomoku_returns _ Hg) as (r & E).
  exists r. rewrite (on_board_ok _ g r _ E). now rewrite with_gboard_same.
Qed.

Lemma on_board_undo_played g b p color :
  wf b = true -> cell_at b p = Some EMPTY ->
  same_position (played b p color) (gboard g) ->
  exists b3, on_board (undo p) g = Ok tt (with_gboard g b3) /\
             same_position b b3.
Proof.
  intros Hwf Hp Hs.
  destruct (undo_played b p color (gboard g) Hwf Hp Hs) as (b3 & E & H3).
  exists b3. split; auto. now apply on_board_ok.
Qed.

Lemma gboard_with_gboard g b : gboard (with_gboard g b) = b.
Proof. reflexivity. Qed.

(** [before_child] answers with the move taken back, or leaves the move
    played and asks for the recursive call. *)
Lemma before_child_cases color turn move g :
  wf (gboard g) = true -> is_black_white color = true ->
  cell_at (gboard g) move = Some EMPTY ->
  (exists answer g',
      before_child color turn move g = Ok (Some answer) g' /\
      same_position (gboard g) (gboard g')) \/
  before_child color turn move g
  = Ok None (with_gboard g (played (gboard g) move color)).
Proof.
  intros Hwf Hc Hp. set (b := gboard g) in *.
  destruct (play_move_gomoku_played b move color Hwf Hc Hp)
    as (Eplay & Hwf1 & _).
  remember (before_child color turn move g) as res eqn:Eres.
  unfold before_child in Eres.
  unfold bind at 1 in Eres. rewrite (on_board_ok _ g true _ Eplay) in Eres.
  set (g1 := with_gboard g (played b move color)) in *.
  destruct (on_board_check_end g1 Hwf1) as ([if_finish winner] & Eend).
  unfold bind at 1 in Eres. rewrite Eend in Eres.
  assert (Hs1 : same_position (played b move color) (gboard g1))
    by (apply same_position_refl; exact Hwf1).
  destruct (on_board_undo_played g1 b move color Hwf Hp Hs1)
    as (b3 & Eundo & H3).
  assert (Hback : forall answer : Status * MoveVal,
             res = (on_board (undo move) ;;; ret (Some answer)) g1 ->
             exists answer0 g',
               res = Ok (Some answer0) g' /\
               same_position b (gboard g')).
  { intros answer ->. exists answer, (with_gboard g1 b3).
    unfold bind. rewrite Eundo. split; auto. }
  destruct (if_finish && whosturn turn); [left; eapply Hback; eauto|].
  destruct (if_finish && option_eqb winner color);
    [left; eapply Hback; eauto|].
  unfold bind at 1 in Eres. unfold generate_legal_moves_gomoku in Eres.
  rewrite (on_board_ok _ g1 _ _
             (eq_refl : get_empty_points (gboard g1) = Ok _ _)) in Eres.
  rewrite with_gboard_same in Eres.
  destruct (where1d _ _); [left; eapply Hback; eauto|].
  right. exact Eres.
Qed.

Section Restoring.

Variable list_of_set : list Z -> list Z.
Hypothesis list_of_set_spec :
  forall l, NoDup (list_of_set l) /\
            forall x, In x (list_of_set l) <-> In x l.
Variable process_time : nat -> Z.

(** [after_child] takes the move back and answers, or raises [TypeError]
    when no time limit has been set. *)
Lemma after_child_cases turn move mm_return draw_list g b color :
  wf b = true -> cell_at b move = Some EMPTY ->
  same_position (played b move color) (gboard g) ->
  (exists x g',
      after_child process_time turn move mm_return draw_list g = Ok x g' /\
      same_position b (gboard g')) \/
  (exists g',
      after_child process_time turn move mm_return draw_list g
      = Raise TypeError g').
Proof.
  intros Hwf Hp Hs.
  destruct (on_board_undo_played g b move color Hwf Hp Hs)
    as (b3 & Eundo & H3).
  remember (after_child process_time turn move mm_return draw_list g)
    as res eqn:Eres.
  unfold after_child in Eres. unfold bind at 1 in Eres. rewrite Eundo in Eres.
  unfold bind, read_process_time, get_state, set_time_Used, time_exceeded
    in Eres.
  cbn [gboard time s_time time_Used toPlay ticks with_gboard] in Eres.
  destruct (time g) as [limit|]; [left|right; eauto].
  cbn [gboard time s_time time_Used toPlay ticks with_gboard] in Eres.
  destruct (process_time (ticks g) - s_time g >? limit);
    [subst res; eexists; eexists; split; [reflexivity|exact H3]|].
  destruct (whosturn turn && status_eqb (fst mm_return) STrue);
    [subst res; eexists; eexists; split; [reflexivity|exact H3]|].
  destruct (negb (whosturn turn) && status_eqb (fst mm_return) SFalse);
    [subst res; eexists; eexists; split; [reflexivity|exact H3]|].
  destruct (status_eqb (fst mm_return) SUnknown);
    subst res; eexists; eexists; (split; [reflexivity|exact H3]).
Qed.

Lemma all_empty_same b b' l :
  board b' = board b -> all_empty b l -> all_empty b' l.
Proof.
  intros Hb H x Hx. unfold cell_at. rewrite Hb. now apply H.
Qed.

Section Node.

Variable fuel : nat.
Variable rec : Z -> Turn -> GM (Status * MoveVal).
Hypothesis Hrec :
  forall color turn g,
    wf (gboard g) = true -> is_black_white color = true ->
    (count_empty (gboard g) < fuel)%nat ->
    settles (gboard g) (rec color turn g).

Lemma minimax_loop_settles color turn moves :
  is_black_white color = true ->
  forall draw_list g,
    wf (gboard g) = true ->
    all_empty (gboard g) moves ->
    (count_empty (gboard g) <= fuel)%nat ->
    settles (gboard g)
      (minimax_loop process_time rec color (other color) turn moves
         draw_list g).
Proof.
  intros Hc. induction moves as [|move rest IH];
    intros draw_list g Hwf Hall Hn; simpl.
  - destruct draw_list; [destruct (whosturn turn)|]; simpl;
      now apply same_position_refl.
  - assert (Hp : cell_at (gboard g) move = Some EMPTY)
      by (apply Hall; now left).
    assert (Hrest : all_empty (gboard g) rest)
      by (intros x Hx; apply Hall; now right).
    destruct (play_move_gomoku_played (gboard g) move color Hwf Hc Hp)
      as (_ & Hwf1 & Hcount).
    destruct (before_child_cases color turn move g Hwf Hc Hp)
      as [(answer & g' & E & Hs)|E]; unfold bind at 1; rewrite E.
    + exact Hs.
    + set (g1 := with_gboard g (played (gboard g) move color)) in *.
      pose proof (Hrec (other color) (flip turn) g1 Hwf1
                    (is_black_white_other _ Hc)) as Hchild.
      unfold bind at 1.
      destruct (rec (other color) (flip turn) g1) as [mm_return g2|e g2].
      * assert (Hs2 : same_position (played (gboard g) move color) (gboard g2)).
        { apply Hchild. cbn [gboard g1 with_gboard]. lia. }
        destruct (after_child_cases turn move mm_return draw_list g2
                    (gboard g) color Hwf Hp Hs2)
          as [(x & g3 & Ea & Hs3)|(g3 & Ea)];
          unfold bind at 1; rewrite Ea; [|reflexivity].
        destruct x as [answer|draw_list']; [exact Hs3|].
        pose proof (same_position_board _ _ Hs3) as Hb3.
        specialize (IH draw_list' g3 (same_position_wf _ _ Hwf Hs3)
                      (all_empty_same _ _ _ Hb3 Hrest)).
        rewrite (same_position_count _ _ Hs3) in IH. specialize (IH Hn).
        unfold settles in *.
        destruct (minimax_loop process_time rec color (other color) turn rest
                    draw_list' g3) as [r g4|e g4]; [|exact IH].
        eapply same_position_trans; eauto.
      * apply Hchild. cbn [gboard g1 with_gboard]. lia.
Qed.

End Node.

Lemma on_board_order_the_point color g :
  wf (gboard g) = true ->
  (exists moves g',
      on_board (order_the_point list_of_set color) g = Ok moves g' /\
      same_position (gboard g) (gboard g') /\
      all_empty (gboard g) moves) \/
  (exists g',
      on_board (order_the_point list_of_set color) g = Raise TypeError g').
Proof.
  intros Hwf.
  destruct (leaves_order_the_point list_of_set list_of_set_spec (gboard g)
              color Hwf) as (l0 & Hl0 & [(l & E & Hall)|E]).
  - left. exists l, (with_gboard g (with_liberty_of (gboard g) l0)).
    split; [exact (on_board_ok _ g _ _ E)|]. split; [|exact Hall].
    exists l0, (current_player (gboard g)). split; auto.
  - right. eexists. exact (on_board_raise _ g _ _ E).
Qed.

Lemma minimax_S fuel color turn :
  minimax list_of_set process_time (S fuel) color turn
  = minimax_body list_of_set process_time
      (minimax list_of_set process_time fuel) color turn.
Proof. reflexivity. Qed.

(** With fuel for one level per empty cell, [minimax] returns with the
    position as it was, or raises [TypeError]. *)
Lemma minimax_settles fuel :
  forall color turn g,
    wf (gboard g) = true -> is_black_white color = true ->
    (count_empty (gboard g) < fuel)%nat ->
    settles (gboard g) (minimax list_of_set process_time fuel color turn g).
Proof.
  induction fuel as [|fuel IH]; intros color turn g Hwf Hc Hn; [lia|].
  rewrite minimax_S. unfold minimax_body.
  destruct (on_board_check_end g Hwf) as ([if_finish winner] & Eend).
  unfold bind at 1. rewrite Eend.
  destruct if_finish.
  - destruct (whosturn turn); [destruct (negb (option_eqb winner color))|];
      simpl; now apply same_position_refl.
  - destruct (on_board_order_the_point color g Hwf)
      as [(moves & g1 & E & Hs & Hall)|(g1 & E)];
      unfold bind at 1; rewrite E; [|reflexivity].
    pose proof (same_position_board _ _ Hs) as Hb.
    pose proof (minimax_loop_settles fuel
                  (minimax list_of_set process_time fuel) IH color turn moves
                  Hc [] g1 (same_position_wf _ _ Hwf Hs)
                  (all_empty_same _ _ _ Hb Hall)) as Hloop.
    rewrite (same_position_count _ _ Hs) in Hloop.
    assert (Hle : (count_empty (gboard g) <= fuel)%nat) by lia.
    specialize (Hloop Hle).
    destruct moves as [|m ms]; [exact Hs|].
    replace (if color =? 1 then 2 else 1) with (other color) by reflexivity.
    unfold settles in *.
    destruct (minimax_loop process_time (minimax list_of_set process_time fuel)
                color (other color) turn (m :: ms) [] g1) as [r g2|e g2];
      [|exact Hloop].
    eapply same_position_trans; eauto.
Qed.

End Restoring.

Section NoLimit.

Variable list_of_set : list Z -> list Z.
Variable process_time : nat -> Z.

(** Without a time limit the comparison of the elapsed time with
    [self.time] fails. *)
Lemma after_child_no_limit turn move mm_return draw_list g k :
  normalize_index (length (board (gboard g))) move = Some k ->
  time g = None ->
  after_child process_time turn move mm_return draw_list g
  = Raise TypeError (checked process_time move k g).
Proof.
  intros Hk Ht. unfold after_child, bind. rewrite (undo_defined _ _ _ Hk).
  unfold read_process_time, get_state, set_time_Used, time_exceeded, checked.
  simpl. rewrite Ht. reflexivity.
Qed.

Section Node.

Variable rec : Z -> Turn -> GM (Status * MoveVal).
Hypothesis Hrec : forall c t, pres same_frame (rec c t).

Lemma loop_child_no_limit color turn move rest draw_list g g1 r g2 :
  time g = None ->
  before_child color turn move g = Ok None g1 ->
  rec (other color) (flip turn) g1 = Ok r g2 ->
  exists k,
    minimax_loop process_time rec color (other color) turn
      (move :: rest) draw_list g
    = Raise TypeError (checked process_time move k g2).
Proof.
  intros Ht Hb Hr.
  destruct (child_frame rec Hrec _ _ _ _ _ _ _ Hb Hr) as [[Ft _] [k Hk]].
  exists k. simpl. unfold bind. rewrite Hb, Hr.
  rewrite (after_child_no_limit _ _ _ _ _ k); auto. congruence.
Qed.

Lemma loop_reaches_time color turn moves draw_list g gc :
  loop_reaches process_time rec color turn moves draw_list g gc ->
  time gc = time g.
Proof.
  induction 1 as [move rest dl g g1 Hb
                 |move rest dl g g1 r gm dl' g3 gc Hb Hr Ha Hl IH].
  - pose proof (pres_ok _ _ _ _ _ (frame_before_child color turn move) Hb)
      as [F1 _]. congruence.
  - rewrite IH.
    pose proof (pres_ok _ _ _ _ _ (frame_before_child color turn move) Hb)
      as [F1 _].
    pose proof (pres_ok _ _ _ _ _ (Hrec _ _) Hr) as [F2 _].
    pose proof (pres_ok _ _ _ _ _
                  (frame_after_child process_time turn move r dl) Ha)
      as [F3 _].
    congruence.
Qed.

Lemma loop_reaches_raise color turn moves draw_list g gc e gx :
  loop_reaches process_time rec color turn moves draw_list g gc ->
  rec (other color) (flip turn) gc = Raise e gx ->
  minimax_loop process_time rec color (other color) turn moves draw_list g
  = Raise e gx.
Proof.
  induction 1 as [move rest dl g g1 Hb
                 |move rest dl g g1 r gm dl' g3 gc Hb Hr Ha Hl IH];
    intros He; simpl; unfold bind.
  - now rewrite Hb, He.
  - rewrite Hb, Hr, Ha. now apply IH.
Qed.

Lemma loop_reaches_no_limit color turn moves draw_list g gc r g2 :
  loop_reaches process_time rec color turn moves draw_list g gc ->
  time g = None ->
  rec (other color) (flip turn) gc = Ok r g2 ->
  exists g3,
    minimax_loop process_time rec color (other color) turn moves draw_list g
    = Raise TypeError g3.
Proof.
  induction 1 as [move rest dl g g1 Hb
                 |move rest dl g g1 r0 gm dl' g3 gc Hb Hr Ha Hl IH];
    intros Ht Hc.
  - destruct (loop_child_no_limit _ _ _ rest dl _ _ _ _ Ht Hb Hc) as [k E].
    eauto.
  - destruct (child_frame rec Hrec _ _ _ _ _ _ _ Hb Hr) as [[Ft _] [k Hk]].
    rewrite (after_child_no_limit _ _ _ _ _ k) in Ha; [discriminate|auto|].
    congruence.
Qed.

End Node.

Lemma reaches_fuel fuel color turn g fuel' color' turn' g' :
  reaches list_of_set process_time fuel color turn g fuel' color' turn' g' ->
  (fuel' <= fuel)%nat.
Proof. induction 1; lia. Qed.

Lemma reaches_time fuel color turn g fuel' color' turn' g' :
  reaches list_of_set process_time fuel color turn g fuel' color' turn' g' ->
  time g' = time g.
Proof.
  induction 1 as
      [fuel color turn g
      |fuel color turn g winner g0 moves g1 gc fuel' color' turn' g'
         Hend Hord Hloop Hreach IH]; [reflexivity|].
  rewrite IH.
  rewrite (loop_reaches_time _ (frame_minimax list_of_set process_time fuel)
             _ _ _ _ _ _ Hloop).
  pose proof (pres_ok _ _ _ _ _
                (pres_on_board _ keeps_check_game_end_gomoku) Hend)
    as [F1 _].
  pose proof (pres_ok _ _ _ _ _
                (pres_on_board _ (keeps_order_the_point _ _)) Hord)
    as [F2 _].
  congruence.
Qed.

Lemma minimax_below fuel color turn g winner g0 moves g1 :
  on_board check_game_end_gomoku g = Ok (false, winner) g0 ->
  on_board (order_the_point list_of_set color) g0 = Ok moves g1 ->
  moves <> [] ->
  minimax list_of_set process_time (S fuel) color turn g
  = minimax_loop process_time (minimax list_of_set process_time fuel)
      color (other color) turn moves [] g1.
Proof.
  intros Hend Hord Hm. simpl. unfold minimax_body, bind.
  rewrite Hend, Hord. destruct moves; [congruence|reflexivity].
Qed.

(** An exception raised by a call at any depth leaves the outermost
    call. *)
Lemma reaches_raise fuel color turn g fuel' color' turn' g' e gx :
  reaches list_of_set process_time fuel color turn g fuel' color' turn' g' ->
  minimax list_of_set process_time fuel' color' turn' g' = Raise e gx ->
  minimax list_of_set process_time fuel color turn g = Raise e gx.
Proof.
  induction 1 as
      [fuel color turn g
      |fuel color turn g winner g0 moves g1 gc fuel' color' turn' g'
         Hend Hord Hloop Hreach IH]; intros He; [exact He|].
  rewrite (minimax_below _ _ _ _ _ _ _ _ Hend Hord)
    by (intros ->; inversion Hloop).
  apply (loop_reaches_raise _ _ _ _ _ _ _ _ _ Hloop). now apply IH.
Qed.

(** Without a time limit, a recursive call that returns makes the
    outermost call raise [TypeError]. *)
Lemma reaches_no_limit fuel color turn g fuel' color' turn' g' r g2 :
  reaches list_of_set process_time fuel color turn g fuel' color' turn' g' ->
  (fuel' < fuel)%nat ->
  time g = None ->
  minimax list_of_set process_time fuel' color' turn' g' = Ok r g2 ->
  exists g3,
    minimax list_of_set process_time fuel color turn g = Raise TypeError g3.
Proof.
  induction 1 as
      [fuel color turn g
      |fuel color turn g winner g0 moves g1 gc fuel' color' turn' g'
         Hend Hord Hloop Hreach IH]; intros Hlt Ht Hok; [lia|].
  assert (Ht1 : time g1 = None).
  { pose proof (pres_ok _ _ _ _ _
                  (pres_on_board _ keeps_check_game_end_gomoku) Hend)
      as [F1 _].
    pose proof (pres_ok _ _ _ _ _
                  (pres_on_board _ (keeps_order_the_point _ _)) Hord)
      as [F2 _].
    congruence. }
  rewrite (minimax_below _ _ _ _ _ _ _ _ Hend Hord)
    by (intros ->; inversion Hloop).
  pose proof (reaches_fuel _ _ _ _ _ _ _ _ Hreach) as Hle.
  destruct (Nat.eq_dec fuel' fuel) as [->|Hne].
  - assert (Hsame : color' = other color /\ turn' = flip turn /\ g' = gc).
    { clear - Hreach. inversion Hreach; subst; auto.
      match goal with
      | H : reaches _ _ _ _ _ _ (S _) _ _ _ |- _ =>
          apply reaches_fuel in H; lia
      end. }
    destruct Hsame as (-> & -> & ->).
    apply (loop_reaches_no_limit _ (frame_minimax list_of_set process_time fuel)
             _ _ _ _ _ _ _ _ Hloop Ht1 Hok).
  - assert (Htc : time gc = None).
    { rewrite (loop_reaches_time _
                 (frame_minimax list_of_set process_time fuel)
                 _ _ _ _ _ _ Hloop). exact Ht1. }
    destruct (IH ltac:(lia) Htc Hok) as (g3 & E3).
    exists g3. apply (loop_reaches_raise _ _ _ _ _ _ _ _ _ Hloop). exact E3.
Qed.

End NoLimit.



(* ================================================================= *)
(** ** Points as text *)

Lemma py_range_In lo hi x : In x (py_range lo hi) <-> lo <= x < hi.
Proof.
  unfold py_range. rewrite in_map_iff. split.
  - intros (k & <- & Hk). apply in_seq in Hk. lia.
  - intros H. exists (Z.to_nat (x - lo)). split; [lia|].
    apply in_seq. lia.
Qed.

Lemma there_and_back_all :
  forallb (fun n =>
    forallb (fun row =>
      forallb (fun col => there_and_back n row col)
              (py_range 1 (Z.min (n + 1) MAXSIZE)))
            (py_range 1 (Z.min (n + 1) MAXSIZE)))
          (py_range 2 (MAXSIZE + 1)) = true.
Proof. vm_compute. reflexivity. Qed.

Lemma coord_round_trip n row col :
  2 <= n <= MAXSIZE ->
  1 <= row <= n -> row < MAXSIZE ->
  1 <= col <= n -> col < MAXSIZE ->
  exists s,
    format_point (Some (row, col)) = Returns s /\
    move_to_coord s n = Returns (Some (row, col)).
Proof.
  intros Hn Hr Hr' Hc Hc'.
  pose proof there_and_back_all as H. unfold MAXSIZE in *.
  rewrite forallb_forall in H.
  assert (In1 : In n (py_range 2 (25 + 1))) by (apply py_range_In; lia).
  specialize (H n In1). rewrite forallb_forall in H.
  assert (In2 : In row (py_range 1 (Z.min (n + 1) 25)))
    by (apply py_range_In; lia).
  specialize (H row In2). rewrite forallb_forall in H.
  assert (In3 : In col (py_range 1 (Z.min (n + 1) 25)))
    by (apply py_range_In; lia).
  specialize (H col In3).
  unfold there_and_back in H.
  destruct (format_point (Some (row, col))) as [s| |]; try discriminate.
  exists s. split; [reflexivity|].
  destruct (move_to_coord s n) as [[[r c]|]| |]; try discriminate.
  apply andb_prop in H. destruct H as [H1 H2].
  apply Z.eqb_eq in H1, H2. now subst.
Qed.

Lemma playable_coord n p :
  2 <= n -> playable n (n + 1) p = true ->
  point_to_coord (Some p) n = Returns (Some (p / (n + 1), p mod (n + 1))) /\
  1 <= p / (n + 1) <= n /\ 1 <= p mod (n + 1) <= n /\
  p / (n + 1) * (n + 1) + p mod (n + 1) = p.
Proof.
  intros Hn Hp. unfold playable in Hp.
  rewrite !andb_true_iff, !Z.leb_le in Hp.
  split.
  - unfold point_to_coord.
    destruct (Z.eqb_spec (n + 1) 0); [lia|reflexivity].
  - split; [lia|]. split; [lia|].
    rewrite Z.mul_comm. symmetry. apply Z.div_mod. lia.
Qed.

Lemma format_point_out_of_range row col :
  row = MAXSIZE \/ col = MAXSIZE ->
  format_point (Some (row, col)) = Raises ValueError.
Proof.
  intros H. unfold format_point.
  destruct H as [-> | ->].
  - rewrite Z.ltb_irrefl. now rewrite andb_false_r.
  - rewrite Z.ltb_irrefl. rewrite (andb_false_r (0 <=? MAXSIZE)).
    now rewrite orb_true_r.
Qed.

(* ================================================================= *)

(* ================================================================= *)
(** ** The text of the board *)

Lemma string_append_assoc (a b c : string) :
  ((a ++ b) ++ c = a ++ (b ++ c))%string.
Proof. induction a as [|x a IH]; simpl; [reflexivity|now rewrite IH]. Qed.

Lemma string_append_nil (a : string) : (a ++ "" = a)%string.
Proof. induction a as [|x a IH]; simpl; [reflexivity|now rewrite IH]. Qed.

Lemma string_of_list_ascii_append (a b : list ascii) :
  string_of_list_ascii (a ++ b)
  = (string_of_list_ascii a ++ string_of_list_ascii b)%string.
Proof. induction a as [|x a IH]; simpl; [reflexivity|now rewrite IH]. Qed.

Lemma gogui_rules_board_row_text s start :
  wf_grid s = true ->
  forall cols str,
    (forall i, In i cols -> on_board_b s (start + i) = true) ->
    gogui_rules_board_row cols start str s
    = Ok (str ++ string_of_list_ascii
                   (map (fun i => mark_of s (start + i)) cols))%string s.
Proof.
  intros Hg cols. induction cols as [|i rest IH]; intros str Hcols.
  - simpl. now rewrite string_append_nil.
  - assert (Hon : on_board_b s (start + i) = true) by (apply Hcols; now left).
    pose proof (on_board_range s Hg _ Hon) as Hr.
    pose proof (wf_size s Hg) as Hsz. pose proof (wf_NS s Hg) as Hns.
    pose proof (wf_maxpoint s Hg) as Hmp.
    destruct (cell_at_defined s Hg (start + i)) as [v Hv]; [nia|].
    pose proof (wf_cell_ok s Hg _ _ Hv) as Hok. unfold cell_ok in Hok.
    unfold on_board_b in Hon. rewrite Hon in Hok.
    cbn [gogui_rules_board_row map]. unfold bind.
    rewrite (get_color_cell s Hg _ _ Hv).
    unfold mark_of at 1. rewrite Hv.
    assert (Hrest : forall j, In j rest -> on_board_b s (start + j) = true)
      by (intros j Hj; apply Hcols; now right).
    destruct (v =? BLACK).
    { rewrite IH by exact Hrest. now rewrite string_append_assoc. }
    destruct (v =? WHITE).
    { rewrite IH by exact Hrest. now rewrite string_append_assoc. }
    destruct (v =? EMPTY); [|discriminate].
    rewrite IH by exact Hrest. now rewrite string_append_assoc.
Qed.

Lemma gogui_rules_board_rows_text s :
  wf_grid s = true ->
  forall rows str,
    (forall row, In row rows -> 0 <= row < size s) ->
    gogui_rules_board_rows rows (size s) str s
    = Ok (str ++ string_of_list_ascii (flat_map (line_of s) rows))%string s.
Proof.
  intros Hg rows. induction rows as [|row rest IH]; intros str Hrows.
  - simpl. now rewrite string_append_nil.
  - assert (Hrow : 0 <= row < size s) by (apply Hrows; now left).
    pose proof (wf_NS s Hg) as Hns. pose proof (wf_size s Hg) as Hsz.
    cbn [gogui_rules_board_rows flat_map]. unfold bind at 1.
    unfold row_start, bind, get_state, py_assert.
    replace (row + 1 >=? 1) with true by (symmetry; apply Z.geb_le; lia).
    replace (row + 1 <=? size s) with true by (symmetry; apply Z.leb_le; lia).
    cbn [ret].
    rewrite gogui_rules_board_row_text; [|exact Hg|].
    + rewrite IH by (intros r Hr; apply Hrows; now right).
      unfold line_of at 2.
      rewrite !string_of_list_ascii_append, !string_append_assoc.
      reflexivity.
    + intros i Hi. apply py_range_In in Hi.
      unfold on_board_b, playable. rewrite Hns.
      replace ((row + 1) * (size s + 1) + 1 + i)
        with ((i + 1) + (row + 1) * (size s + 1)) by lia.
      rewrite Z.div_add, Z.mod_add by lia.
      rewrite Z.div_small, Z.mod_small by lia.
      apply andb_true_iff. split; [apply andb_true_iff; split|];
        [apply andb_true_iff; split| |]; apply Z.leb_le; lia.
Qed.

Lemma flat_map_block {A B} (f : A -> list B) (n : nat) :
  forall l k j x,
    (forall y, In y l -> length (f y) = n) ->
    nth_error l k = Some x -> (j < n)%nat ->
    nth_error (flat_map f l) (k * n + j) = nth_error (f x) j.
Proof.
  induction l as [|y l IH]; intros k j x Hlen Hk Hj.
  - destruct k; discriminate.
  - destruct k as [|k]; simpl in Hk.
    + inversion Hk; subst y. simpl.
      apply nth_error_app1. rewrite Hlen by now left. exact Hj.
    + cbn [flat_map Nat.mul].
      rewrite nth_error_app2 by (rewrite Hlen by (now left); lia).
      rewrite Hlen by now left.
      replace (n + k * n + j - n)%nat with (k * n + j)%nat by lia.
      apply IH; auto. intros z Hz. apply Hlen. now right.
Qed.

Lemma flat_map_length_block {A B} (f : A -> list B) (n : nat) l :
  (forall y, In y l -> length (f y) = n) ->
  length (flat_map f l) = (length l * n)%nat.
Proof.
  induction l as [|y l IH]; intros Hlen; [reflexivity|].
  cbn [flat_map]. rewrite length_app, Hlen by now left.
  rewrite IH by (intros z Hz; apply Hlen; now right). simpl. lia.
Qed.

Lemma py_range_length lo hi : length (py_range lo hi) = Z.to_nat (hi - lo).
Proof. unfold py_range. now rewrite length_map, length_seq. Qed.

Lemma py_range_nth lo hi k :
  (k < Z.to_nat (hi - lo))%nat ->
  nth_error (py_range lo hi) k = Some (lo + Z.of_nat k).
Proof.
  intros H. unfold py_range. rewrite nth_error_map.
  rewrite nth_error_seq. apply Nat.ltb_lt in H. rewrite H. reflexivity.
Qed.


(* ================================================================= *)
(** * Further properties of the code *)

(** ** simple_board.py *)

(** X1. [SimpleGoBoard(sz)] succeeds exactly for [2 <= sz <= MAXSIZE].  It
    then builds a board state of that size: every playable point EMPTY
    ([sz * sz] of them), every other cell BORDER, BLACK to move and no ko
    point.  For any other size it raises [AssertionError] before anything
    is built. *)
Theorem new_board_spec :
  forall sz : Z,
    (2 <= sz <= MAXSIZE ->
     exists b,
       new_board sz = Ok tt b /\ wf b = true /\
       size b = sz /\ current_player b = BLACK /\ ko_recapture b = None /\
       (forall p v, cell_at b p = Some v ->
                    v = if playable sz (sz + 1) p then EMPTY else BORDER) /\
       Z.of_nat (count_empty b) = sz * sz) /\
    (~ 2 <= sz <= MAXSIZE -> new_board sz = Raise AssertionError blank).
Proof.
  intros sz. split.
  - intros Hsz. destruct (new_board_fresh sz Hsz) as (b & E & Hb).
    destruct (fresh_board_parts _ _ Hb) as (Hwf & Hs & _ & Hc & Hk & Hcells & _ & Hn).
    exists b. repeat split; auto.
    intros p v Hp. destruct (wf_parts _ Hwf) as (Hg & _ & _).
    pose proof (wf_cell_ok b Hg p v Hp) as Hok.
    rewrite (wf_NS b Hg), Hs in Hok. unfold cell_ok in Hok.
    assert (Hv : (v =? EMPTY) || (v =? BORDER) = true).
    { rewrite forallb_forall in Hcells. apply Hcells.
      unfold cell_at in Hp. destruct (p <? 0); [discriminate|].
      eapply nth_error_In; eauto. }
    destruct (playable sz (sz + 1) p).
    + apply orb_prop in Hv. destruct Hv as [Hv|Hv]; apply Z.eqb_eq in Hv; auto.
      subst v. discriminate.
    + now apply Z.eqb_eq.
  - intros Hsz. unfold new_board, bind, py_assert.
    destruct ((2 <=? sz) && (sz <=? MAXSIZE)) eqn:E; [|reflexivity].
    apply andb_prop in E. destruct E as [E1 E2].
    apply Z.leb_le in E1, E2. lia.
Qed.

Lemma new_board_spec_witness :
  exists b,
    new_board 7 = Ok tt b /\ wf b = true /\
    size b = 7 /\ current_player b = BLACK /\ ko_recapture b = None /\
    (forall p v, cell_at b p = Some v ->
                 v = if playable 7 (7 + 1) p then EMPTY else BORDER) /\
    Z.of_nat (count_empty b) = 7 * 7.
Proof.
  apply (proj1 (new_board_spec 7)). unfold MAXSIZE. lia.
Defined.

(** X2. [copy] of a board state whose size the constructor accepts returns a
    new board state with the same grid, dimensions, side to move and ko
    point. *)
Theorem copy_spec :
  forall s : SimpleGoBoard,
    wf_grid s = true -> size s <= MAXSIZE -> WE s = 1 ->
    exists c,
      copy s = Ok tt c /\ wf c = true /\
      board c = board s /\ size c = size s /\ NS c = NS s /\ WE c = 1 /\
      maxpoint c = maxpoint s /\
      current_player c = current_player s /\
      ko_recapture c = ko_recapture s.
Proof. exact copy_state. Qed.

Lemma copy_spec_witness :
  exists c,
    copy black_four5 = Ok tt c /\ wf c = true /\
    board c = board black_four5 /\ size c = size black_four5 /\
    NS c = NS black_four5 /\ WE c = 1 /\
    maxpoint c = maxpoint black_four5 /\
    current_player c = current_player black_four5 /\
    ko_recapture c = ko_recapture black_four5.
Proof.
  apply (copy_spec black_four5).
  - vm_compute. reflexivity.
  - vm_compute. discriminate.
  - vm_compute. reflexivity.
Defined.

(** X3. A move of a player on an empty point of a board state succeeds and
    gives a board state again: the point holds the colour, every other
    cell is as it was, the opponent is to move and there is one empty
    point less. *)
Theorem play_move_gomoku_board_state :
  forall (s : SimpleGoBoard) (p color : Z),
    wf s = true ->
    is_black_white color = true ->
    cell_at s p = Some EMPTY ->
    exists s',
      play_move_gomoku (Some p) color s = Ok true s' /\
      wf s' = true /\
      cell_at s' p = Some color /\
      (forall q, q <> p -> cell_at s' q = cell_at s q) /\
      current_player s' = opponent color /\
      S (count_empty s') = count_empty s.
Proof. exact play_move_gomoku_state. Qed.

Lemma play_move_gomoku_board_state_witness :
  exists s',
    play_move_gomoku (Some 11) BLACK black_four5 = Ok true s' /\
    wf s' = true /\
    cell_at s' 11 = Some BLACK /\
    (forall q, q <> 11 -> cell_at s' q = cell_at black_four5 q) /\
    current_player s' = opponent BLACK /\
    S (count_empty s') = count_empty black_four5.
Proof.
  apply (play_move_gomoku_board_state black_four5 11 BLACK);
    vm_compute; reflexivity.
Defined.

(** X4. [get_empty_points] and [generate_legal_moves] only read the board and
    return the indices of the EMPTY cells, each once, in increasing
    order. *)
Theorem get_empty_points_spec :
  forall s : SimpleGoBoard,
    exists l,
      get_empty_points s = Ok l s /\
      generate_legal_moves BLACK s = Ok l s /\
      generate_legal_moves WHITE s = Ok l s /\
      StronglySorted Z.lt l /\
      forall p, In p l <-> cell_at s p = Some EMPTY.
Proof.
  intros s. destruct (empty_points_listed s) as (l & E1 & E2 & Hs & Hl).
  exists l. repeat split; auto; apply Hl.
Qed.

(** X5. [is_legal] on a point of the grid of a board state, for a player:
    it returns, and the board object is then as before except for the
    cached liberties; it accepts neither an occupied point nor the ko
    point.  PASS is always legal, and a colour that is not a player's fails
    the assertion. *)
Theorem is_legal_spec :
  forall (s : SimpleGoBoard) (p color : Z),
    wf s = true -> 0 <= p < maxpoint s ->
    (is_black_white color = true ->
     (exists b l,
         is_legal (Some p) color s = Ok b (with_liberty_of s l) /\
         liberties_ok s l = true /\
         (b = true ->
          cell_at s p = Some EMPTY /\ ko_recapture s <> Some p)) /\
     is_legal PASS color s = Ok true s) /\
    (is_black_white color = false ->
     is_legal (Some p) color s = Raise AssertionError s).
Proof.
  intros s p color Hwf Hp. split.
  - intros Hc. split.
    + destruct (returns_is_legal s p color Hwf
                  (proj2 (in_range_b_spec s p) Hp) Hc) as (b & l & E & Hl & Hb).
      exists b, l. split; [exact E|]. split; [exact Hl|].
      intros ->. specialize (Hb eq_refl). split; [exact Hb|].
      intros Hko. destruct (wf_parts _ Hwf) as (Hg & _ & _).
      assert (E' : is_legal (Some p) color s = Ok false s).
      { unfold is_legal, bind, py_assert. rewrite Hc. cbn [ret].
        rewrite (get_color_cell s Hg p _ Hb). cbn [negb Z.eqb EMPTY].
        unfold get_state. rewrite Hko. cbn [point_eqb].
        now rewrite Z.eqb_refl. }
      rewrite E' in E. discriminate.
    + unfold is_legal, bind, py_assert. now rewrite Hc.
  - intros Hc. unfold is_legal, bind, py_assert. now rewrite Hc.
Qed.

Lemma is_legal_spec_witness :
  (is_black_white BLACK = true ->
   (exists b l,
       is_legal (Some 35) BLACK black_corner5
       = Ok b (with_liberty_of black_corner5 l) /\
       liberties_ok black_corner5 l = true /\
       (b = true ->
        cell_at black_corner5 35 = Some EMPTY /\
        ko_recapture black_corner5 <> Some 35)) /\
   is_legal PASS BLACK black_corner5 = Ok true black_corner5) /\
  (is_black_white BLACK = false ->
   is_legal (Some 35) BLACK black_corner5
   = Raise AssertionError black_corner5).
Proof.
  apply (is_legal_spec black_corner5 35 BLACK).
  - vm_compute. reflexivity.
  - vm_compute. split; [discriminate|reflexivity].
Defined.

(** X6. [order_the_point] on a board state, whatever order [list(set(...))]
    produces: when it returns, its list holds every empty point of the
    board exactly once (the points it ranks first, then the remaining
    empty points) and the grid and the side to move are as before; the
    only other outcome is the [TypeError] of its second call of
    [check_n], with the grid as before too. *)
Theorem order_the_point_lists_empty_points :
  forall (list_of_set : list Z -> list Z) (s : SimpleGoBoard) (color : Z),
    (forall l, NoDup (list_of_set l) /\
               forall x, In x (list_of_set l) <-> In x l) ->
    wf s = true ->
    (exists l s',
        order_the_point list_of_set color s = Ok l s' /\
        board s' = board s /\ current_player s' = current_player s /\
        NoDup l /\
        forall x, In x l <-> cell_at s x = Some EMPTY) \/
    (exists s',
        order_the_point list_of_set color s = Raise TypeError s' /\
        board s' = board s /\ current_player s' = current_player s).
Proof.
  intros list_of_set s color Hset Hwf.
  exact (order_the_point_complete list_of_set Hset s color Hwf).
Qed.

Lemma order_the_point_lists_empty_points_witness :
  (exists l s',
      order_the_point first_occurrences BLACK black_corner5 = Ok l s' /\
      board s' = board black_corner5 /\
      current_player s' = current_player black_corner5 /\
      NoDup l /\
      forall x, In x l <-> cell_at black_corner5 x = Some EMPTY) \/
  (exists s',
      order_the_point first_occurrences BLACK black_corner5
      = Raise TypeError s' /\
      board s' = board black_corner5 /\
      current_player s' = current_player black_corner5).
Proof.
  apply (order_the_point_lists_empty_points first_occurrences black_corner5
           BLACK first_occurrences_spec).
  vm_compute. reflexivity.
Defined.

(** ** gtp_connection.py: the solver *)

(** X7. [minimax] on a board state, called for a player with fuel for one
    level of recursion per empty point: it either returns, and then the
    board object differs from the one it was given in [liberty_of] and
    [current_player] at most (every trial move has been taken back) and the
    time limit is unchanged, or it raises [TypeError].  It never runs out
    of fuel and raises no other exception. *)
Theorem minimax_restores_position :
  forall (list_of_set : list Z -> list Z) (process_time : nat -> Z)
         (fuel : nat) (color : Z) (turn : Turn) (g : GtpConnection),
    (forall l, NoDup (list_of_set l) /\
               forall x, In x (list_of_set l) <-> In x l) ->
    wf (gboard g) = true ->
    is_black_white color = true ->
    (count_empty (gboard g) < fuel)%nat ->
    match minimax list_of_set process_time fuel color turn g with
    | Ok _ g' => same_position (gboard g) (gboard g') /\ time g' = time g
    | Raise e _ => e = TypeError
    end.
Proof.
  intros list_of_set process_time fuel color turn g Hset Hwf Hc Hn.
  pose proof (minimax_settles list_of_set Hset process_time fuel color turn g
                Hwf Hc Hn) as H.
  pose proof (frame_minimax list_of_set process_time fuel color turn g) as F.
  unfold settles in H.
  destruct (minimax list_of_set process_time fuel color turn g); auto.
  split; [exact H|]. apply F.
Qed.

Lemma minimax_restores_position_witness :
  match minimax first_occurrences late_clock 18 BLACK TurnOr
          (connection black_four5) with
  | Ok _ g' =>
      same_position (gboard (connection black_four5)) (gboard g') /\
      time g' = time (connection black_four5)
  | Raise e _ => e = TypeError
  end.
Proof.
  apply (minimax_restores_position first_occurrences late_clock 18 BLACK
           TurnOr (connection black_four5) first_occurrences_spec).
  - vm_compute. reflexivity.
  - reflexivity.
  - assert (E : count_empty (gboard (connection black_four5)) = 17%nat)
      by (vm_compute; reflexivity).
    rewrite E. lia.
Defined.



(** X9. While no time limit has been set ([self.time] is still the [time]
    module), a call of [minimax] in which any recursive call, at any
    depth, returns ends with [TypeError]: the comparison of the elapsed
    time with the limit fails in the caller of that recursive call, and
    the exception leaves every enclosing call. *)
Theorem minimax_needs_time_limit :
  forall (list_of_set : list Z -> list Z) (process_time : nat -> Z)
         (fuel : nat) (color : Z) (turn : Turn) (g : GtpConnection)
         (fuel' : nat) (color' : Z) (turn' : Turn) (g' : GtpConnection)
         (r : Status * MoveVal) (g2 : GtpConnection),
    reaches list_of_set process_time fuel color turn g
            fuel' color' turn' g' ->
    (fuel' < fuel)%nat ->
    time g = None ->
    minimax list_of_set process_time fuel' color' turn' g' = Ok r g2 ->
    exists g3,
      minimax list_of_set process_time fuel color turn g = Raise TypeError g3.
Proof.
  intros. eapply reaches_no_limit; eauto.
Qed.

Lemma minimax_needs_time_limit_witness :
  exists g3,
    minimax first_occurrences late_clock 3 BLACK TurnOr
      (fresh_connection half2) = Raise TypeError g3.
Proof.
  eapply (minimax_needs_time_limit first_occurrences late_clock
            3%nat BLACK TurnOr (fresh_connection half2)
            2%nat WHITE TurnAnd).
  - eapply reaches_below.
    + vm_compute. reflexivity.
    + vm_compute. reflexivity.
    + apply reaches_first. vm_compute. reflexivity.
    + apply reaches_here.
  - lia.
  - reflexivity.
  - vm_compute. reflexivity.
Defined.

(** ** MCTS.py *)

(** X10. [BackProp] changes nothing: called with [first == stop] it returns at
    once and the dict is as it was; otherwise its first statement fails,
    with [KeyError] when [first] is not a key of the dict and with
    [AttributeError] when it is (a [state] has no attribute
    [simulation]).  No counter of any node is ever incremented. *)
Theorem BackProp_spec :
  forall (fuel : nat) (tree : Tree) (first_ stop : Signature)
         (if_win : bool) (w : World),
    BackProp (S fuel) tree first_ stop if_win w
    = if sig_eqb first_ stop then Ok tree w
      else match tree_get tree first_ with
           | Some _ => Raise AttributeError w
           | None => Raise KeyError w
           end.
Proof. exact BackProp_eq. Qed.



(** X12. A playout [sim] between the two players on a board state, with fuel
    for one level per empty point: it returns 0 or 1 and changes no object
    but its board, which is then a board state that still holds every
    stone it held; the answer is 1 only if [player1] has five in a row on
    that final board, and 0 only if another player has five in a row
    there or no point is empty. *)
Theorem sim_playout :
  forall (random_draw : nat -> nat) (fuel : nat) (r : Ref)
         (player1 player2 : Z) (w : World) (s : SimpleGoBoard),
    obj w r s -> wf s = true -> is_black_white player2 = true ->
    (count_empty s < fuel)%nat ->
    exists v s' d,
      sim random_draw fuel r player1 player2 w
      = Ok v (mkWorld (replace_nth (heap w) r s') d (clock_reads w)) /\
      wf s' = true /\
      (forall q c, cell_at s q = Some c -> c <> EMPTY ->
                   cell_at s' q = Some c) /\
      (v = 1 /\ has_five s' player1 \/
       v = 0 /\ ((exists c, is_black_white c = true /\ c <> player1 /\
                            has_five s' c) \/
                 count_empty s' = 0%nat)).
Proof.
  intros random_draw fuel.
  induction fuel as [|fuel IH]; intros r player1 player2 w s Ho Hwf Hc Hn;
    [lia|].
  destruct (wf_parts _ Hwf) as (Hg & _ & _).
  rewrite sim_S.
  destruct (check_game_end_gomoku_winner s Hg)
    as (game_end & winner & E & Htrue & Hfalse).
  unfold bind at 1. rewrite (call_read r _ w s _ Ho E).
  assert (Hsame : mkWorld (replace_nth (heap w) r s) (draws w) (clock_reads w)
                  = w).
  { rewrite (replace_nth_same _ _ _ Ho). apply world_eta. }
  destruct game_end.
  - destruct (Htrue eq_refl) as (c & -> & Hcc & H5).
    exists (if option_eqb (Some c) player1 then 1 else 0), s, (draws w).
    rewrite Hsame.
    split; [destruct (option_eqb (Some c) player1); reflexivity|].
    split; [exact Hwf|]. split; [auto|].
    destruct (option_eqb (Some c) player1) eqn:Ec.
    + left. apply option_eqb_eq in Ec. inversion Ec; subst. auto.
    + right. split; auto. left. exists c. repeat split; auto.
      intros ->. simpl in Ec. rewrite Z.eqb_refl in Ec. discriminate.
  - destruct (generate_random_move_ok random_draw r w s Ho)
      as (p & d & Ep & Hp & Hpass).
    unfold bind at 1. rewrite Ep.
    destruct p as [m|].
    + simpl in Hp.
      set (w1 := mkWorld (heap w) d (clock_reads w)).
      assert (Ho1 : obj w1 r s) by exact Ho.
      destruct (play_move_gomoku_state s m player2 Hwf Hc Hp)
        as (s1 & Eplay & Hwf1 & Hm1 & Hq1 & _ & Hn1).
      unfold bind at 1. rewrite (call_ok r _ w1 s true s1 Ho1 Eplay).
      set (w2 := mkWorld (replace_nth (heap w1) r s1) (draws w1)
                   (clock_reads w1)).
      assert (Ho2 : obj w2 r s1) by (apply (obj_replace w1 r s s1); exact Ho1).
      destruct (IH r player1 (opponent player2) w2 s1 Ho2 Hwf1
                  (is_black_white_opponent _ Hc))
        as (v & s' & d' & Es & Hwf' & Hstay & Hv); [lia|].
      exists v, s', d'. subst w2 w1. rewrite Es.
      cbn [heap draws clock_reads]. rewrite replace_nth_twice.
      split; [reflexivity|]. split; [exact Hwf'|]. split; [|exact Hv].
      intros q c Hq Hne. apply Hstay; auto.
      destruct (Z.eq_dec q m) as [->|Hqm]; [congruence|].
      now rewrite (Hq1 q Hqm).
    + exists 0, s, d. rewrite (replace_nth_same _ _ _ Ho).
      split; [reflexivity|]. split; [exact Hwf|]. split; [auto|].
      right. split; auto.
Qed.

Lemma sim_playout_witness :
  exists v s' d,
    sim counting 18 Caller BLACK BLACK (world_of black_four5)
    = Ok v (mkWorld (replace_nth (heap (world_of black_four5)) Caller s') d
              (clock_reads (world_of black_four5))) /\
    wf s' = true /\
    (forall q c, cell_at black_four5 q = Some c -> c <> EMPTY ->
                 cell_at s' q = Some c) /\
    (v = 1 /\ has_five s' BLACK \/
     v = 0 /\ ((exists c, is_black_white c = true /\ c <> BLACK /\
                          has_five s' c) \/
               count_empty s' = 0%nat)).
Proof.
  apply (sim_playout counting 18 Caller BLACK BLACK (world_of black_four5)
           black_four5).
  - reflexivity.
  - vm_compute. reflexivity.
  - reflexivity.
  - assert (E : count_empty black_four5 = 17%nat) by (vm_compute; reflexivity).
    rewrite E. lia.
Defined.

(** X13. [Monte_Carlo_Tree] called on a board state the constructor accepts:
    if the wall clock shows the 56 seconds as spent at one of its next
    [n + 1] readings, the call returns within [n + 1] iterations, whatever
    the random draws and the colour argument are: no exception leaves it.
    Every object that existed before the call, the caller's board
    included, is as it was (the search works on copies).  The
    result is PASS or an empty point of the caller's board, and PASS when
    the board has no empty point. *)
Theorem Monte_Carlo_Tree_returns :
  forall (wall_clock : nat -> Z) (random_draw : nat -> nat) (n : nat)
         (player2 : Z) (w : World) (s : SimpleGoBoard),
    obj w Caller s -> copyable s ->
    (exists k, (k <= n)%nat /\
               56000 <= wall_clock (S (clock_reads w) + k)%nat
                        - wall_clock (clock_reads w)) ->
    exists p w' l,
      Monte_Carlo_Tree wall_clock random_draw (S n) Caller player2 w
      = Ok p w' /\
      heap w' = heap w ++ l /\
      legal_or_pass s p /\
      (count_empty s = 0%nat -> p = PASS).
Proof.
  intros wall_clock random_draw.
  exact (Monte_Carlo_Tree_total wall_clock random_draw).
Qed.

Lemma Monte_Carlo_Tree_returns_witness :
  exists p w' l,
    Monte_Carlo_Tree half_minute_clock counting 2 Caller BLACK
      (world_of empty2) = Ok p w' /\
    heap w' = heap (world_of empty2) ++ l /\
    legal_or_pass empty2 p /\
    (count_empty empty2 = 0%nat -> p = PASS).
Proof.
  apply (Monte_Carlo_Tree_returns half_minute_clock counting 1 BLACK
           (world_of empty2) empty2).
  - reflexivity.
  - split; [vm_compute; reflexivity|].
    split; [vm_compute; discriminate|reflexivity].
  - exists 1%nat. split; [lia|]. vm_compute. discriminate.
Defined.

(** X14. [Monte_Carlo_Tree] on a board without an empty point returns PASS
    after one reading of the clock, whatever the fuel, the clock and the
    colour are, and creates no object. *)
Theorem Monte_Carlo_Tree_full_board :
  forall (wall_clock : nat -> Z) (random_draw : nat -> nat) (fuel : nat)
         (player2 : Z) (w : World) (b : SimpleGoBoard),
    obj w Caller b ->
    count_empty b = 0%nat ->
    Monte_Carlo_Tree wall_clock random_draw fuel Caller player2 w
    = Ok PASS (mkWorld (heap w) (draws w) (S (clock_reads w))).
Proof.
  intros wall_clock random_draw fuel player2 w b Ho Hn.
  apply (Monte_Carlo_Tree_no_legal_move wall_clock random_draw fuel player2
           w b Ho).
  unfold count_empty in Hn. now apply length_zero_iff_nil.
Qed.

Lemma Monte_Carlo_Tree_full_board_witness :
  Monte_Carlo_Tree half_minute_clock counting 0 Caller BLACK (world_of full2)
  = Ok PASS (mkWorld (heap (world_of full2)) (draws (world_of full2))
               (S (clock_reads (world_of full2)))).
Proof.
  apply (Monte_Carlo_Tree_full_board half_minute_clock counting 0 BLACK
           (world_of full2) full2).
  - reflexivity.
  - vm_compute. reflexivity.
Defined.

(** X15. [Monte_Carlo_Tree] when the clock shows the 56 seconds as spent at the
    first test of the loop: it returns PASS although the board has empty
    points; the only object it has created is one copy of the board.  (The
    random move of the [except] clause is not tried on this path.) *)
Theorem Monte_Carlo_Tree_budget_spent_at_once :
  forall (wall_clock : nat -> Z) (random_draw : nat -> nat) (fuel : nat)
         (player2 : Z) (w : World) (b c : SimpleGoBoard),
    obj w Caller b ->
    count_empty b <> 0%nat ->
    copy b = Ok tt c ->
    56000 <= wall_clock (S (clock_reads w)) - wall_clock (clock_reads w) ->
    Monte_Carlo_Tree wall_clock random_draw (S fuel) Caller player2 w
    = Ok PASS (mkWorld (heap w ++ [c]) (draws w) (S (S (clock_reads w)))).
Proof.
  intros wall_clock random_draw fuel player2 w b c Ho Hn Hc Ht.
  apply (Monte_Carlo_Tree_budget_spent wall_clock random_draw fuel player2
           w b c Ho); auto.
  intros E. apply Hn. unfold count_empty. now rewrite E.
Qed.

Lemma Monte_Carlo_Tree_budget_spent_at_once_witness :
  exists c,
    copy black_four5 = Ok tt c /\
    Monte_Carlo_Tree minute_clock counting 1 Caller BLACK
      (world_of black_four5)
    = Ok PASS (mkWorld (heap (world_of black_four5) ++ [c])
                 (draws (world_of black_four5))
                 (S (S (clock_reads (world_of black_four5))))).
Proof.
  assert (E : exists c, copy black_four5 = Ok tt c)
    by (eexists; vm_compute; reflexivity).
  destruct E as (c & E). exists c. split; [exact E|].
  apply (Monte_Carlo_Tree_budget_spent_at_once minute_clock counting 0 BLACK
           (world_of black_four5) black_four5 c).
  - reflexivity.
  - assert (E' : count_empty black_four5 = 17%nat) by (vm_compute; reflexivity).
    rewrite E'. discriminate.
  - exact E.
  - vm_compute. discriminate.
Defined.

(** ** simple_board.py: blocking moves *)

(** X16. [block_open_four] for a player, on the grid of a board state: it
    returns, without changing the board, each once, exactly the EMPTY
    points at which a stone of the opponent would lie, along one of the
    four axes, in a run of at least 3 stones with an EMPTY cell after
    exactly one of its ends, or in a run of at least 4 with an EMPTY cell
    after both (the test for a run of 4 with one open end adds nothing).
    In particular, where three stones of the opponent have two EMPTY
    cells on each side, both cells next to the stones are returned. *)
Theorem block_open_four_spec :
  forall (s : SimpleGoBoard) (color : Z),
    wf_grid s = true ->
    is_black_white color = true ->
    exists l,
      block_open_four color s = Ok l s /\ NoDup l /\
      (forall q, In q l <->
         cell_at s q = Some EMPTY /\ threat_at s (opponent color) q) /\
      (forall base,
         cell_at s (base + 1) = Some EMPTY ->
         cell_at s (base + 2) = Some EMPTY ->
         cell_at s (base + 3) = Some (opponent color) ->
         cell_at s (base + 4) = Some (opponent color) ->
         cell_at s (base + 5) = Some (opponent color) ->
         cell_at s (base + 6) = Some EMPTY ->
         cell_at s (base + 7) = Some EMPTY ->
         In (base + 2) l /\ In (base + 6) l).
Proof.
  intros s color Hwf Hc.
  destruct (block_open_four_threats s color Hwf Hc) as (l & El & Hnd & Hl).
  exists l. split; [exact El|]. split; [exact Hnd|]. split; [exact Hl|].
  intros base H1 H2 H3 H4 H5 H6 H7.
  assert (Hne : EMPTY <> opponent color).
  { pose proof (is_black_white_opponent _ Hc) as Ho.
    unfold is_black_white, BLACK, WHITE, EMPTY in *. intros E.
    rewrite <- E in Ho. discriminate. }
  assert (Hcell : forall x y v, cell_at s y = Some v -> x = y ->
                    cell_at s x = Some v) by (intros; subst; auto).
  assert (Hd : In 1 (dirs s)) by (unfold dirs; simpl; auto).
  split; apply Hl.
  - split; [exact H2|]. exists 1. split; [exact Hd|]. right.
    exists 3%nat, 0%nat. split; [|split].
    + split; [|split; [|exact Hne]].
      * intros i Hi.
        assert (Hi' : i = 1 \/ i = 2 \/ i = 3) by lia.
        destruct Hi' as [->|[->| ->]];
          [apply (Hcell _ _ _ H3)|apply (Hcell _ _ _ H4)
          |apply (Hcell _ _ _ H5)]; lia.
      * apply (Hcell _ _ _ H6). lia.
    + split; [|split; [|exact Hne]].
      * intros i Hi. simpl in Hi. lia.
      * apply (Hcell _ _ _ H1). lia.
    + simpl. lia.
  - split; [exact H6|]. exists 1. split; [exact Hd|]. right.
    exists 0%nat, 3%nat. split; [|split].
    + split; [|split; [|exact Hne]].
      * intros i Hi. simpl in Hi. lia.
      * apply (Hcell _ _ _ H7). lia.
    + split; [|split; [|exact Hne]].
      * intros i Hi.
        assert (Hi' : i = 1 \/ i = 2 \/ i = 3) by lia.
        destruct Hi' as [->|[->| ->]];
          [apply (Hcell _ _ _ H5)|apply (Hcell _ _ _ H4)
          |apply (Hcell _ _ _ H3)]; lia.
      * apply (Hcell _ _ _ H2). lia.
    + simpl. lia.
Qed.

Lemma block_open_four_spec_witness :
  exists l,
    block_open_four WHITE black_three7 = Ok l black_three7 /\ NoDup l /\
    (forall q, In q l <->
       cell_at black_three7 q = Some EMPTY /\
       threat_at black_three7 (opponent WHITE) q) /\
    (forall base,
       cell_at black_three7 (base + 1) = Some EMPTY ->
       cell_at black_three7 (base + 2) = Some EMPTY ->
       cell_at black_three7 (base + 3) = Some (opponent WHITE) ->
       cell_at black_three7 (base + 4) = Some (opponent WHITE) ->
       cell_at black_three7 (base + 5) = Some (opponent WHITE) ->
       cell_at black_three7 (base + 6) = Some EMPTY ->
       cell_at black_three7 (base + 7) = Some EMPTY ->
       In (base + 2) l /\ In (base + 6) l).
Proof.
  apply (block_open_four_spec black_three7 WHITE).
  - vm_compute; reflexivity.
  - reflexivity.
Defined.

(** ** gtp_connection.py: points as text and reports on the board *)

(** X17. A playable point of a board of size [n] whose row and column are
    below [MAXSIZE] goes to text and back: [point_to_coord] gives its row
    and column, [format_point] turns them into text, and [move_to_coord]
    reads that text as the same row and column, from which the point is
    [row * (n + 1) + col].  PASS goes to the text pass and back. *)
Theorem point_text_round_trip :
  forall n p : Z,
    2 <= n <= MAXSIZE ->
    playable n (n + 1) p = true ->
    p / (n + 1) < MAXSIZE -> p mod (n + 1) < MAXSIZE ->
    (exists row col t,
        point_to_coord (Some p) n = Returns (Some (row, col)) /\
        format_point (Some (row, col)) = Returns t /\
        move_to_coord t n = Returns (Some (row, col)) /\
        row * (n + 1) + col = p) /\
    (exists t,
        point_to_coord PASS n = Returns None /\
        format_point None = Returns t /\
        move_to_coord t n = Returns None).
Proof.
  intros n p Hn Hp Hr Hc. split.
  - destruct (playable_coord n p (proj1 Hn) Hp) as (E & Hrow & Hcol & Hpt).
    destruct (coord_round_trip n _ _ Hn Hrow Hr Hcol Hc) as (t & Ef & Em).
    exists (p / (n + 1)), (p mod (n + 1)), t. auto.
  - exists "pass"%string. split; [reflexivity|]. split; [reflexivity|].
    unfold move_to_coord.
    replace ((2 <=? n) && (n <=? MAXSIZE)) with true; [reflexivity|].
    symmetry. apply andb_true_iff. split; apply Z.leb_le; lia.
Qed.

Lemma point_text_round_trip_witness :
  (exists row col t,
      point_to_coord (Some 9) 7 = Returns (Some (row, col)) /\
      format_point (Some (row, col)) = Returns t /\
      move_to_coord t 7 = Returns (Some (row, col)) /\
      row * (7 + 1) + col = 9) /\
  (exists t,
      point_to_coord PASS 7 = Returns None /\
      format_point None = Returns t /\
      move_to_coord t 7 = Returns None).
Proof.
  apply (point_text_round_trip 7 9).
  - unfold MAXSIZE. lia.
  - reflexivity.
  - vm_compute. reflexivity.
  - vm_compute. reflexivity.
Defined.

(** X18. On a board of the largest size the points of the last row and of the
    last column have no text: [point_to_coord] gives their row and
    column, and [format_point], which accepts rows and columns below
    [MAXSIZE] only, raises [ValueError]. *)
Theorem format_point_fails_on_last_line :
  forall p : Z,
    playable MAXSIZE (MAXSIZE + 1) p = true ->
    p / (MAXSIZE + 1) = MAXSIZE \/ p mod (MAXSIZE + 1) = MAXSIZE ->
    exists row col,
      point_to_coord (Some p) MAXSIZE = Returns (Some (row, col)) /\
      format_point (Some (row, col)) = Raises ValueError.
Proof.
  intros p Hp Hlast.
  assert (Hm : 2 <= MAXSIZE) by (unfold MAXSIZE; lia).
  destruct (playable_coord MAXSIZE p Hm Hp) as (E & _).
  exists (p / (MAXSIZE + 1)), (p mod (MAXSIZE + 1)).
  split; [exact E|]. now apply format_point_out_of_range.
Qed.

Lemma format_point_fails_on_last_line_witness :
  exists row col,
    point_to_coord (Some 51) MAXSIZE = Returns (Some (row, col)) /\
    format_point (Some (row, col)) = Raises ValueError.
Proof.
  apply (format_point_fails_on_last_line 51).
  - vm_compute. reflexivity.
  - right. vm_compute. reflexivity.
Defined.

(** X19. [gogui_rules_final_result_cmd] on the grid of a board state answers,
    without changing the board: white exactly when WHITE has five in a
    row; black exactly when BLACK has and WHITE has not; draw exactly when
    neither has and no point is EMPTY; unknown exactly when neither has
    and a point is EMPTY. *)
Theorem gogui_rules_final_result_spec :
  forall s : SimpleGoBoard,
    wf_grid s = true ->
    exists t,
      gogui_rules_final_result_cmd s = Ok t s /\
      (t = "white"%string <-> has_five s WHITE) /\
      (t = "black"%string <-> has_five s BLACK /\ ~ has_five s WHITE) /\
      (t = "draw"%string <->
       ~ has_five s BLACK /\ ~ has_five s WHITE /\ count_empty s = 0%nat) /\
      (t = "unknown"%string <->
       ~ has_five s BLACK /\ ~ has_five s WHITE /\ count_empty s <> 0%nat).
Proof.
  intros s.
  intros Hg.
  destruct (any_stone_ends s Hg WHITE eq_refl) as (w & Hw & Hw5).
  destruct (any_stone_ends s Hg BLACK eq_refl) as (b & Hb & Hb5).
  unfold gogui_rules_final_result_cmd, check_game_end_gomoku, bind, get_state.
  rewrite Hw. destruct w.
  - assert (H5 : has_five s WHITE) by now apply Hw5.
    cbn [ret get_empty_points where1d]. unfold get_empty_points, get_state, bind, ret.
    cbn [negb andb]. rewrite andb_false_r. cbn [winner_is].
    exists "white"%string. split; [reflexivity|].
    repeat split; try discriminate; try tauto.
  - assert (H5 : ~ has_five s WHITE) by (rewrite <- Hw5; discriminate).
    rewrite Hb. destruct b.
    + assert (H5' : has_five s BLACK) by now apply Hb5.
      unfold get_empty_points, get_state, bind, ret.
      cbn [negb andb]. rewrite andb_false_r. cbn [winner_is].
      exists "black"%string. split; [reflexivity|].
      repeat split; try discriminate; try tauto.
    + assert (H5' : ~ has_five s BLACK) by (rewrite <- Hb5; discriminate).
      unfold get_empty_points, get_state, bind, ret.
      cbn [negb andb]. rewrite andb_true_r.
      fold (count_empty s).
      destruct (Z.eqb_spec (Z.of_nat (count_empty s)) 0) as [E|E].
      * exists "draw"%string. split; [reflexivity|].
        assert (count_empty s = 0%nat) by lia.
        repeat split; try discriminate; try tauto.
      * exists "unknown"%string. split; [reflexivity|].
        assert (count_empty s <> 0%nat) by lia.
        repeat split; try discriminate; try tauto.
Qed.

Lemma gogui_rules_final_result_spec_witness :
  exists t,
    gogui_rules_final_result_cmd black_row5 = Ok t black_row5 /\
    (t = "white"%string <-> has_five black_row5 WHITE) /\
    (t = "black"%string <->
     has_five black_row5 BLACK /\ ~ has_five black_row5 WHITE) /\
    (t = "draw"%string <->
     ~ has_five black_row5 BLACK /\ ~ has_five black_row5 WHITE /\
     count_empty black_row5 = 0%nat) /\
    (t = "unknown"%string <->
     ~ has_five black_row5 BLACK /\ ~ has_five black_row5 WHITE /\
     count_empty black_row5 <> 0%nat).
Proof.
  apply (gogui_rules_final_result_spec black_row5).
  vm_compute. reflexivity.
Defined.

(** ** simple_board.py: the move of Go *)

(** X20. [play_move] on a point of the grid of a board state, for a player:
    it returns and leaves a board state.  When it returns [False] (the
    point is occupied, is the ko point, or the stone would have no
    liberty) the object is as before except for the cached liberties.
    When it returns [True] the point was EMPTY and not the ko point, it
    now holds the colour, the opponent is to move, and every other cell is
    as it was or held a stone of the opponent that has been taken off.
    PASS is always accepted: it clears the ko point and passes the turn.
    A colour that is not a player's fails the assertion. *)
Theorem play_move_spec :
  forall (s : SimpleGoBoard) (p color : Z),
    wf s = true -> 0 <= p < maxpoint s ->
    (is_black_white color = true ->
     (exists b s',
         play_move (Some p) color s = Ok b s' /\ wf s' = true /\
         (b = false -> exists l, s' = with_liberty_of s l) /\
         (b = true ->
          cell_at s p = Some EMPTY /\ ko_recapture s <> Some p /\
          cell_at s' p = Some color /\ current_player s' = opponent color /\
          forall q, q <> p ->
            cell_at s' q = cell_at s q \/
            (cell_at s q = Some (opponent color) /\
             cell_at s' q = Some EMPTY))) /\
     play_move PASS color s
     = Ok true (with_current_player (with_ko_recapture s None)
                  (opponent color))) /\
    (is_black_white color = false ->
     play_move (Some p) color s = Raise AssertionError s).
Proof.
  intros s p color Hwf Hp. split.
  - intros Hc. split.
    + destruct (play_move_cases s p color Hwf
                  (proj2 (in_range_b_spec s p) Hp) Hc)
        as (b & s1 & s2 & _ & E & Hwf2 & Hf & Ht).
      exists b, s2. auto.
    + unfold play_move. now rewrite Hc.
  - intros Hc. unfold play_move. now rewrite Hc.
Qed.

Lemma play_move_spec_witness :
  (is_black_white BLACK = true ->
   (exists b s',
       play_move (Some 13) BLACK white_corner5 = Ok b s' /\ wf s' = true /\
       (b = false -> exists l, s' = with_liberty_of white_corner5 l) /\
       (b = true ->
        cell_at white_corner5 13 = Some EMPTY /\
        ko_recapture white_corner5 <> Some 13 /\
        cell_at s' 13 = Some BLACK /\ current_player s' = opponent BLACK /\
        forall q, q <> 13 ->
          cell_at s' q = cell_at white_corner5 q \/
          (cell_at white_corner5 q = Some (opponent BLACK) /\
           cell_at s' q = Some EMPTY))) /\
   play_move PASS BLACK white_corner5
   = Ok true (with_current_player (with_ko_recapture white_corner5 None)
                (opponent BLACK))) /\
  (is_black_white BLACK = false ->
   play_move (Some 13) BLACK white_corner5
   = Raise AssertionError white_corner5).
Proof.
  apply (play_move_spec white_corner5 13 BLACK).
  - vm_compute. reflexivity.
  - vm_compute. split; [discriminate|reflexivity].
Defined.

(** X21. [is_legal] foretells [play_move]: on a point of the grid of a board
    state and for a player, both return, and with the same answer. *)
Theorem play_move_agrees_with_is_legal :
  forall (s : SimpleGoBoard) (p color : Z),
    wf s = true -> 0 <= p < maxpoint s -> is_black_white color = true ->
    exists b s1 s2,
      is_legal (Some p) color s = Ok b s1 /\
      play_move (Some p) color s = Ok b s2.
Proof.
  intros s p color Hwf Hp Hc.
  destruct (play_move_cases s p color Hwf
              (proj2 (in_range_b_spec s p) Hp) Hc)
    as (b & s1 & s2 & E1 & E2 & _).
  exists b, s1, s2. auto.
Qed.

Lemma play_move_agrees_with_is_legal_witness :
  exists b s1 s2,
    is_legal (Some 13) BLACK white_corner5 = Ok b s1 /\
    play_move (Some 13) BLACK white_corner5 = Ok b s2.
Proof.
  apply (play_move_agrees_with_is_legal white_corner5 13 BLACK).
  - vm_compute. reflexivity.
  - vm_compute. split; [discriminate|reflexivity].
  - reflexivity.
Defined.

(** On [white_corner5], BLACK on the second neighbour of the corner takes
    the white stone off. *)
Example play_move_white_corner5 :
  exists s',
    play_move (Some 13) BLACK white_corner5 = Ok true s' /\
    cell_at s' 7 = Some EMPTY /\ cell_at s' 13 = Some BLACK /\
    ko_recapture s' = None.
Proof.
  eexists. split; [vm_compute; reflexivity|].
  split; [|split]; reflexivity.
Qed.

(** ** simple_board.py: moves that complete a row *)

(** X22. [check_game_end_move_gomoku] and
    [check_game_end_move_gomoku_win_counterwin] on a board state, for any
    colour argument and any length [max] (the engine passes 4): they return
    and change nothing but the cached liberties.  Every list they return
    has a point, and each point of such a list is EMPTY with the [max]
    cells after it, along one of the four axes in one of its two
    directions, holding stones of the colour looked at (WHITE for the colour
    argument 2, BLACK for any other): a stone there makes a row of
    [max + 1].  The first function answers [(True, win)] with a list [win]
    that is not empty, or [(False, None)]. *)
Theorem check_game_end_move_gomoku_sound :
  forall (s : SimpleGoBoard) (color max : Z),
    wf s = true ->
    (exists r l,
        check_game_end_move_gomoku color max s = Ok r (with_liberty_of s l) /\
        liberties_ok s l = true /\
        match r with
        | (true, Some win) =>
            win <> [] /\
            winning_lists s (if color =? 2 then WHITE else BLACK) max win
        | (false, None) => True
        | _ => False
        end) /\
    (exists w b l,
        check_game_end_move_gomoku_win_counterwin max s
        = Ok (w, b) (with_liberty_of s l) /\
        liberties_ok s l = true /\
        winning_lists s WHITE max w /\ winning_lists s BLACK max b).
Proof.
  intros s color max Hwf. split.
  - destruct (check_game_end_move_gomoku_completes s color max Hwf)
      as (r & l & E & Hl & Hr).
    exists r, l. auto.
  - destruct (check_game_end_move_gomoku_win_counterwin_completes s max Hwf)
      as ([w b] & l & E & Hl & Hw & Hb).
    exists w, b, l. auto.
Qed.

Lemma check_game_end_move_gomoku_sound_witness :
  (exists r l,
      check_game_end_move_gomoku BLACK 3 black_three7
      = Ok r (with_liberty_of black_three7 l) /\
      liberties_ok black_three7 l = true /\
      match r with
      | (true, Some win) =>
          win <> [] /\
          winning_lists black_three7 (if BLACK =? 2 then WHITE else BLACK)
            3 win
      | (false, None) => True
      | _ => False
      end) /\
  (exists w b l,
      check_game_end_move_gomoku_win_counterwin 3 black_three7
      = Ok (w, b) (with_liberty_of black_three7 l) /\
      liberties_ok black_three7 l = true /\
      winning_lists black_three7 WHITE 3 w /\
      winning_lists black_three7 BLACK 3 b).
Proof.
  apply (check_game_end_move_gomoku_sound black_three7 BLACK 3).
  vm_compute. reflexivity.
Defined.

(** On [black_three7], where BLACK has three stones in a row, the moves
    found for BLACK and a row of 3 are the two ends of that row, one list
    for each of the three stones. *)
Example check_game_end_move_gomoku_black_three7 :
  exists s',
    check_game_end_move_gomoku BLACK 3 black_three7
    = Ok (true, Some [[13]; [9]; [9]]) s'.
Proof. eexists. vm_compute. reflexivity. Qed.

(** ** gtp_connection.py: the text of the board *)

(** X23. [gogui_rules_board_cmd] on the grid of a board state answers, without
    changing the board and without failing its assertion, a text of [size]
    lines, each of [size] characters and a line feed.  The line of the
    top row (row [size]) comes first; the character of row [row] and
    column [col] is X for BLACK, O for WHITE and . for EMPTY. *)
Theorem gogui_rules_board_spec :
  forall s : SimpleGoBoard,
    wf_grid s = true ->
    exists t,
      gogui_rules_board_cmd s = Ok t s /\
      Z.of_nat (length (list_ascii_of_string t)) = size s * (size s + 1) /\
      (forall row col,
         1 <= row <= size s -> 1 <= col <= size s ->
         nth_error (list_ascii_of_string t)
           (Z.to_nat ((size s - row) * (size s + 1) + (col - 1)))
         = Some (mark_of s (row * NS s + col))) /\
      (forall row,
         1 <= row <= size s ->
         nth_error (list_ascii_of_string t)
           (Z.to_nat ((size s - row) * (size s + 1) + size s))
         = Some newline).
Proof.
  intros s.
  intros Hg. pose proof (wf_size s Hg) as Hsz.
  set (rows := rev (py_range 0 (size s))).
  exists (string_of_list_ascii (flat_map (line_of s) rows)).
  assert (Hlen : forall y, In y rows ->
            length (line_of s y) = Z.to_nat (size s + 1)).
  { intros y _. unfold line_of. rewrite length_app, length_map, py_range_length.
    simpl. lia. }
  assert (Hnth : forall row, 1 <= row <= size s ->
            nth_error rows (Z.to_nat (size s - row)) = Some (row - 1)).
  { intros row Hrow. unfold rows.
    rewrite nth_error_rev, py_range_length.
    replace (Z.to_nat (size s - row) <? Z.to_nat (size s - 0))%nat with true
      by (symmetry; apply Nat.ltb_lt; lia).
    rewrite py_range_nth by lia. f_equal. lia. }
  split; [|split; [|split]].
  - unfold gogui_rules_board_cmd, bind, get_state.
    rewrite gogui_rules_board_rows_text; [reflexivity|exact Hg|].
    intros row Hrow. unfold rows in Hrow. apply in_rev in Hrow.
    now apply py_range_In in Hrow.
  - rewrite list_ascii_of_string_of_list_ascii.
    rewrite (flat_map_length_block _ _ _ Hlen).
    unfold rows. rewrite length_rev, py_range_length. nia.
  - intros row col Hrow Hcol.
    rewrite list_ascii_of_string_of_list_ascii.
    replace (Z.to_nat ((size s - row) * (size s + 1) + (col - 1)))
      with (Z.to_nat (size s - row) * Z.to_nat (size s + 1)
            + Z.to_nat (col - 1))%nat by nia.
    rewrite (flat_map_block _ _ rows _ _ (row - 1) Hlen (Hnth row Hrow))
      by lia.
    unfold line_of. rewrite nth_error_app1
      by (rewrite length_map, py_range_length; lia).
    rewrite nth_error_map, py_range_nth by lia. simpl.
    f_equal. f_equal. lia.
  - intros row Hrow.
    rewrite list_ascii_of_string_of_list_ascii.
    replace (Z.to_nat ((size s - row) * (size s + 1) + size s))
      with (Z.to_nat (size s - row) * Z.to_nat (size s + 1)
            + Z.to_nat (size s))%nat by nia.
    rewrite (flat_map_block _ _ rows _ _ (row - 1) Hlen (Hnth row Hrow))
      by lia.
    unfold line_of. rewrite nth_error_app2
      by (rewrite length_map, py_range_length; lia).
    rewrite length_map, py_range_length.
    replace (Z.to_nat (size s) - Z.to_nat (size s - 0))%nat with 0%nat by lia.
    reflexivity.
Qed.

Lemma gogui_rules_board_spec_witness :
  exists t,
    gogui_rules_board_cmd white_corner5 = Ok t white_corner5 /\
    Z.of_nat (length (list_ascii_of_string t))
    = size white_corner5 * (size white_corner5 + 1) /\
    (forall row col,
       1 <= row <= size white_corner5 -> 1 <= col <= size white_corner5 ->
       nth_error (list_ascii_of_string t)
         (Z.to_nat ((size white_corner5 - row) * (size white_corner5 + 1)
                    + (col - 1)))
       = Some (mark_of white_corner5 (row * NS white_corner5 + col))) /\
    (forall row,
       1 <= row <= size white_corner5 ->
       nth_error (list_ascii_of_string t)
         (Z.to_nat ((size white_corner5 - row) * (size white_corner5 + 1)
                    + size white_corner5))
       = Some newline).
Proof.
  apply (gogui_rules_board_spec white_corner5).
  vm_compute. reflexivity.
Defined.
